(* ===== verification/_CoqProject ===== *)
-Q . S2P
Prelude.v
Delta.v
Aggregator.v
AggregatorContext.v
ChangeSetExt.v
MVMap.v
Resolver.v
Conc.v
Fair.v
Scheduler.v
LastInputOutput.v
Executor.v
Protocol.v
Ownership.v
Quiescence.v
Locks.v
Versions.v
Validity.v
Variant.v
Staleness.v
Progress.v
Simulation.v
Sequential.v
Correctness.v
Termination.v
StateView.v
AdapterCommon.v
ParallelVM.v
BlockEquivalence.v
BlockExecution.v
GasSchedule.v
GasSize.v
GasMeter.v
GasProps.v
Natives.v
NativeCrypto.v
ReleaseBundle.v
Ristretto.v
TxnArgs.v
VMErrors.v
Session.v
Publish.v
MoveVM.v
Sdk.v
FrameworkSdk.v
TokenSdk.v
VMImpl.v
AptosVM.v
Genesis.v
AdapterWp.v
GasChecks.v
AptosVMProps.v
VMConfig.v
AptosBlock.v
AptosBlockExample.v
Transactions.v
TransactionExample.v
