(* ===== verification/Prelude.v ===== *)
(** * Verification of the Aptos block executor

    This library models the transaction execution engine of the repository, the crates under
    [src/move-tut005/deps/aptos-move/], and proves it correct.  Paths below are relative to that
    directory.

    ** The program

    A block of transactions is executed by [AptosVM::execute_block] ([aptos-vm/src/aptos_vm.rs]).
    At concurrency level 1 the transactions run one after the other over a cache of the state
    ([adapter_common.rs]).  At a higher level they run speculatively on several threads
    ([parallel-executor]): a scheduler hands out execution and validation tasks, the writes go
    to a multi-version map ([mvhashmap]), the reads are recorded and validated, and transactions
    whose reads changed are executed again.  Aggregators ([aptos-aggregator],
    [framework/src/natives/aggregator_natives]) let transactions add to a number without reading
    it: they leave deltas, which are materialised at the end.  One transaction is validated,
    paid for by a gas meter ([aptos-gas]), run by the Move VM, published, and closed by an
    epilogue ([aptos_vm.rs], [aptos_vm_impl.rs] and their helpers).

    ** The files

    - Prelude: results, computations that may panic ([comp]), machine integers, statuses, BTreeMap
      iteration ([btree_iter]), and the lemmas that the components share.

    Aggregators and deltas:
    - [Delta]: [delta_change_set.rs], a [DeltaOp] as a partial function with a history;
    - [Aggregator]: [aggregator_extension.rs]; [AggregatorContext]: the native context and the
      natives, the change set of a transaction and its squash;
    - [ChangeSetExt]: [transaction.rs], change sets with deltas, their squash, and outputs.

    The parallel executor:
    - [MVMap]: [mvhashmap/src/lib.rs]; [Resolver]: [output_delta_resolver.rs];
    - [Conc]: threads as programs of atomic actions, their interleavings, and a program logic;
      [Fair]: what the logic tells of fair runs;
    - [Scheduler], [LastInputOutput], [Executor]: [scheduler.rs], [txn_last_input_output.rs]
      (with [task.rs], [errors.rs]) and [executor.rs], every method as such a program;
    - [Protocol]: an abstraction of what a thread knows and owes between two actions, with its
      invariants in [Ownership] (who may act on a transaction), [Quiescence] (the done marker),
      [Locks] (the readers of a key), [Versions] (what the map holds) and [Validity] (recorded
      reads); [Variant]: the well-founded order that every useful action descends;
      [Staleness]: that an abort needs a lower transaction that moved; [Progress]: not all
      threads wait; [Simulation]: the threads follow the protocol; [Sequential]: the
      reference execution; [Correctness] and [Termination]: the theorems.

    The execution of a block by the VM:
    - [StateView]: [data_cache.rs], [delta_state_view.rs], and [ViewProg], the trees of the reads
      that a program makes of a view; [AdapterCommon]: [adapter_common.rs], with the VM as the
      class [VMAdapter]; [ParallelVM]: [parallel_executor/]; [BlockEquivalence] and
      [BlockExecution]: the two executions of a block agree.

    Gas:
    - [GasSchedule]: the parameter tables and the on-chain schedule; [GasSize]: abstract value
      sizes; [GasMeter]: the meter and its charges; [GasProps]: their properties.

    Natives of the framework ([framework/src/natives]):
    - [Natives]: accounts, events, hashes, types, serialisation, and the table of all natives;
      [NativeCrypto]: BLS, Ed25519 and secp256k1; [Ristretto]: the Ristretto group, its scalars
      and the store of its points;
    - [ReleaseBundle]: [framework/src/release_bundle.rs] and the metadata of [code.rs], packages
      and the order in which their modules are published.

    Builders of transactions ([framework/cached-packages/src]):
    - [Sdk]: what the generated files share, and the laws of such a file ([SdkLaws]);
      [FrameworkSdk], [TokenSdk]: the two files, in their order.

    One transaction:
    - [TxnArgs]: [transaction_arg_validation.rs]; [VMErrors]: [errors.rs]; [Session]:
      [move_vm_ext/session.rs]; [Publish]: [framework/src/natives/code.rs] and the validation of
      publish requests; [MoveVM]: the Move VM as a class, transactions, and the monads in which
      the adapter is written; [VMImpl]: [aptos_vm_impl.rs]; [AptosVM]: [aptos_vm.rs], which gives
      the instance of [VMAdapter];
    - [AdapterWp]: postconditions of programs over the answers that they may get, of a view or,
      as under speculation, answers that change between two reads; [GasChecks]: [check_gas];
      [AptosVMProps]: the laws of the Move VM, and what the adapter makes of them; [VMConfig]: the
      VM that [AptosVMImpl::new] makes; [Transactions]: the theorems; [TransactionExample]: a small
      Move VM at which they are applied;
    - [AptosBlock]: the adapter as the VM of a block, where the parts meet; [AptosBlockExample]: a
      block of two transactions that conflict, on two threads;
    - [Genesis]: [vm-genesis], the two sessions of the genesis transaction.

    ** State, effects and interleaving

    A struct is a record, an enum an inductive type, a map a [gmap]; an iteration over a BTreeMap
    is in the order of its keys ([btree_iter], for the order of the key type), one over a hash map
    in an order that is a parameter.  A method that takes [&mut self] returns the new state.
    [Result] is [result]; code that may panic is in [comp] or [option], and a failed assertion,
    [unwrap], [expect] or index is [Panic] or [None].  Integers are [Z] with the checks and the
    saturation of the code.  The gas meter keeps its state on an error, as the code does.

    A thread of the parallel executor is a [prog]: a step is one operation on an atomic, or one
    critical section, or the taking or releasing of a lock that is held across other steps.  The
    memory is sequentially consistent (the code uses SeqCst, and Acquire and Release on the done
    marker).  A pool may take any interleaving of steps; a [Condvar] wakes up when it is notified.

    A transaction sees the state through reads only, so that the VM is a tree of reads
    ([ViewProg], [VMRun]); the same tree runs on the cache of a block, on the versioned view of
    a parallel execution, and on a view under the writes of a session.

    ** What is proved

    - For any interleaving: no panic ([Correctness.no_thread_panics]), no deadlock
      ([Correctness.no_deadlock]), statuses move along the documented diagram only, the done
      marker is final, transactions are executed and aborted finitely often
      ([Termination.speculation_ends]), every fair run of the threads returns
      ([Termination.fair_runs_return]), and the executor returns the outputs of the sequential
      execution ([Termination.parallel_is_sequential]); with
      [BlockExecution.execute_block_any_level], [AptosVM::execute_block] returns the same at
      every concurrency level, for any VM that panics on no answer, when the deltas of the block
      apply; [AptosBlock.aptos_block_any_level] shows it for the adapter of [aptos_vm.rs], down to
      the laws of the Move VM, for transactions whose payloads leave no deltas.
    - Deltas: merging composes, histories are exact, speculation on an unknown value is execution
      on the stored one, squashing composes effects, and the resolver writes what a forward run
      of the block computes.
    - Gas: charges compose, never panic and only spend; memory is given back exactly; the charge
      for a write set, abstract sizes and the gas schedule are exact.
    - Packages and genesis: modules are published after their dependencies, and a genesis change
      set is exactly what the two sessions make ([Genesis.genesis_exact]).
    - Builders: a call is decoded from its own payload, and which other payloads decode to it is
      exact ([FrameworkSdk.decode_recognises_exactly]).
    - Natives: the Ristretto natives implement operations on points behind handles
      ([Ristretto.handles_are_points], for canonical scalars); verdicts and costs of the signature natives are exact.
    - Transactions: the outcome of a user transaction on every path, and exactly when it panics
      ([Transactions.user_transaction_outcome]), the gas that a kept one pays, discarded ones have
      no effect, a simulation is the execution up to the session, the gas checks, argument
      validation (exact and terminating), publish requests, prologue errors, and the change set
      of a session.
    A run is fair if no thread is passed over forever while it can take a step: a thread that
    waits for a lock or a notification may be passed over.  An unfair one may let a thread look
    for a task forever while another one stands still.

    ** Fuel

    Loops are structural where the code iterates over a collection.  The walk over the
    arguments of a transaction ([TxnArgs.while_len], [TxnArgs.validate_arg]) has the length of the
    arguments as its fuel, and [TxnArgs.validation_terminates] shows that it is enough.  Sorting the
    modules of a package ([ReleaseBundle.sort_by_deps]) has one more than the number of modules,
    which is enough if they do not depend on each other in a circle
    ([ReleaseBundle.sorted_modules_exact]); the code does not end otherwise.

    ** What the theorems rely on

    Code outside of the repository is a parameter with laws that state its documentation:
    [Bcs128] and [BcsArgs] (BCS), [Uleb128], [GasAlgebra] (saturating gas quantities), [ValueView] (the
    traversal of a Move value), [WriteSetLaws], and [VMLaws] for the Move VM: its operations do
    not panic and only charge the meter, aggregators hold u128 values, and statuses are kept
    or discarded as [aptos-types] documents; [BlockLaws]: state keys of different kinds differ, and
    aggregators hold u128 values; [ConfigLaws]: configurations hold u64 values.  Each class has an
    instance at which the theorems are applied.  That the payloads of a block leave no deltas, as a
    comment of [success_transaction_cleanup] says, is a hypothesis of [AptosBlock] only: the code
    panics on a delta that does not apply to the value it reads, and under speculation that value
    may be stale ([TransactionExample.stale_delta_panics]).

    ** Not modelled

    Metrics, logs, fail points, and the cache of access paths have no effect on results.  The Move
    VM, the cryptography and the types of the chain are other crates.  The command line tools
    (release builder, package builder, validator interface, resource viewer, module verifier,
    generators of scripts and of gas schedules) are input and output around them; the test
    harnesses run the VM on given data.  The manifest lists each with its reason. *)
From stdpp Require Export base decidable option list sorting gmap sets fin_maps strings.
From Stdlib Require Export ZArith Lia.

#[global] Open Scope Z_scope.
#[export] Set Default Goal Selector "!".

(** ** Results, as Rust's [Result<A, E>] *)

Inductive result (E A : Type) : Type :=
  | Ok (a : A)
  | Err (e : E).
Arguments Ok {E A} a.
Arguments Err {E A} e.

#[export] Instance result_ret {E} : MRet (result E) := fun A a => Ok a.
#[export] Instance result_bind {E} : MBind (result E) := fun A B f m =>
  match m with Ok a => f a | Err e => Err e end.
#[export] Instance result_fmap {E} : FMap (result E) := fun A B f m =>
  match m with Ok a => Ok (f a) | Err e => Err e end.

#[export] Instance result_eq_dec {E A} `{EqDecision E, EqDecision A} : EqDecision (result E A).
Proof. solve_decision. Defined.

(** [.ok()] of Rust: forget which error it was. *)
Definition ok {E A} (r : result E A) : option A :=
  match r with Ok a => Some a | Err _ => None end.

(** [.map_err(f)] *)
Definition map_err {E F A} (f : E -> F) (r : result E A) : result F A :=
  match r with Ok a => Ok a | Err e => Err (f e) end.

(** [.unwrap_or(d)] *)
Definition unwrap_or {E A} (d : A) (r : result E A) : A :=
  match r with Ok a => a | Err _ => d end.

(** [.ok_or(e)] on an option. *)
Definition ok_or {E A} (o : option A) (e : E) : result E A :=
  match o with Some a => Ok a | None => Err e end.

Lemma ok_Some {E A} (r : result E A) a : ok r = Some a <-> r = Ok a.
Proof. destruct r; simpl; split; congruence. Qed.

Lemma ok_None {E A} (r : result E A) : ok r = None <-> exists e, r = Err e.
Proof. destruct r; simpl; split; try congruence; [intros [? ?]; congruence | eauto]. Qed.

Lemma result_bind_Ok {E A B} (m : result E A) (f : A -> result E B) b :
  (m ≫= f) = Ok b <-> exists a, m = Ok a /\ f a = Ok b.
Proof.
  destruct m as [a | e]; simpl; split.
  - intros H. exists a. auto.
  - intros (a' & [= <-] & H). exact H.
  - intros H. discriminate H.
  - intros (a' & H & _). discriminate H.
Qed.

(** ** Computations that return a [Result] or panic *)

Inductive comp (E A : Type) : Type :=
  | Return (a : A)
  | Throw (e : E)
  | Panic.
Arguments Return {E A} a.
Arguments Throw {E A} e.
Arguments Panic {E A}.

#[export] Instance comp_ret {E} : MRet (comp E) := fun A a => Return a.
#[export] Instance comp_bind {E} : MBind (comp E) := fun A B f m =>
  match m with Return a => f a | Throw e => Throw e | Panic => Panic end.

(** A [Result] value as a computation (the [?] operator), and [.expect(..)] of an option. *)
Definition lift {E A} (r : result E A) : comp E A :=
  match r with Ok a => Return a | Err e => Throw e end.
Definition expect {E A} (o : option A) : comp E A :=
  match o with Some a => Return a | None => Panic end.

Lemma comp_bind_Return {E A B} (m : comp E A) (f : A -> comp E B) b :
  (m ≫= f) = Return b <-> exists a, m = Return a /\ f a = Return b.
Proof.
  destruct m; simpl; split; try discriminate;
    try (intros (? & H & _); discriminate H).
  - intros H. eauto.
  - intros (a' & [= <-] & H). exact H.
Qed.

(** ** Machine integers

    Values of type [u64] and [u128] are [Z] in range; the operators wrap. *)

Definition U64 : Z := 2 ^ 64.
Definition U128 : Z := 2 ^ 128.
Definition is_u64 (z : Z) : Prop := 0 <= z < U64.
Definition is_u128 (z : Z) : Prop := 0 <= z < U128.

Definition u128_add (a b : Z) : Z := (a + b) mod U128.
Definition u128_sub (a b : Z) : Z := (a - b) mod U128.

#[export] Instance is_u64_dec z : Decision (is_u64 z).
Proof. unfold is_u64. apply _. Defined.
#[export] Instance is_u128_dec z : Decision (is_u128 z).
Proof. unfold is_u128. apply _. Defined.

Lemma u128_add_exact a b : is_u128 a -> is_u128 b -> a + b < U128 -> u128_add a b = a + b.
Proof. unfold is_u128, u128_add. intros. apply Z.mod_small. lia. Qed.

Lemma u128_sub_exact a b : is_u128 a -> is_u128 b -> b <= a -> u128_sub a b = a - b.
Proof. unfold is_u128, u128_sub. intros. apply Z.mod_small. lia. Qed.

(** ** Partial VM errors

    [PartialVMError] with the status codes the modelled code raises or inspects; the
    human readable message is not kept. *)

Inductive StatusCode :=
  | ABORTED
  | VM_EXTENSION_ERROR
  | STORAGE_ERROR
  | OUT_OF_GAS
  | MEMORY_LIMIT_EXCEEDED
  | UNKNOWN_STATUS
  | INVALID_SIGNATURE
  | SEQUENCE_NUMBER_TOO_NEW
  | INVALID_MAIN_FUNCTION_SIGNATURE
  | NUMBER_OF_ARGUMENTS_MISMATCH
  | NUMBER_OF_SIGNER_ARGUMENTS_MISMATCH
  | FAILED_TO_DESERIALIZE_ARGUMENT
  | UNKNOWN_INVARIANT_VIOLATION_ERROR
  | UNEXPECTED_ERROR_FROM_KNOWN_MOVE_FUNCTION
  | INVALID_AUTH_KEY
  | SEQUENCE_NUMBER_TOO_OLD
  | SENDING_ACCOUNT_DOES_NOT_EXIST
  | INSUFFICIENT_BALANCE_FOR_TRANSACTION_FEE
  | TRANSACTION_EXPIRED
  | BAD_CHAIN_ID
  | SEQUENCE_NUMBER_TOO_BIG
  | SECONDARY_KEYS_ADDRESSES_COUNT_MISMATCH
  | DATA_FORMAT_ERROR
  | INTERNAL_TYPE_ERROR
  | EVENT_KEY_MISMATCH
  | CONSTRAINT_NOT_SATISFIED
  | CODE_DESERIALIZATION_ERROR
  | DUPLICATE_MODULE_NAME
  | FEATURE_UNDER_GATING
  | UNREACHABLE
  | INVALID_WRITE_SET
  | VM_STARTUP_FAILURE
  | SIGNERS_CONTAIN_DUPLICATES
  | EXCEEDED_MAX_TRANSACTION_SIZE
  | MAX_GAS_UNITS_EXCEEDS_MAX_GAS_UNITS_BOUND
  | MAX_GAS_UNITS_BELOW_MIN_TRANSACTION_GAS_UNITS
  | GAS_UNIT_PRICE_BELOW_MIN_BOUND
  | GAS_UNIT_PRICE_ABOVE_MAX_BOUND
  | OTHER_STATUS (code : Z).

#[export] Instance StatusCode_eq_dec : EqDecision StatusCode.
Proof. solve_decision. Defined.

Record PartialVMError := { status : StatusCode; sub_status : option Z }.

#[export] Instance PartialVMError_eq_dec : EqDecision PartialVMError.
Proof. solve_decision. Defined.

Abbreviation PartialVMResult := (result PartialVMError).

(** ** Counting over a list

    [total f l] adds up [f] over [l]: how many threads hold something. *)
Section Total.
Context {A : Type}.
Implicit Types (f : A -> nat) (l : list A).

Definition total f l : nat := sum_list_with f l.

Lemma total_insert f l t x x' :
  l !! t = Some x -> (total f (<[t := x']> l) + f x = total f l + f x')%nat.
Proof.
  revert t. induction l as [|y l IH]; intros [|t] Hl; simplify_eq/=; [lia|].
  specialize (IH t Hl). unfold total in *. simpl. lia.
Qed.

Lemma total_one f l t x : l !! t = Some x -> (f x <= total f l)%nat.
Proof.
  revert t. induction l as [|y l IH]; intros [|t] Hl; simplify_eq/=; unfold total in *; simpl.
  - lia.
  - specialize (IH t Hl). lia.
Qed.

Lemma total_two f l t t' x x' :
  t <> t' -> l !! t = Some x -> l !! t' = Some x' -> (f x + f x' <= total f l)%nat.
Proof.
  revert t t'. induction l as [|y l IH]; intros [|t] [|t'] Hne Hl Hl'; simplify_eq/=.
  - pose proof (total_one f l t' x' Hl'). unfold total in *. simpl. lia.
  - pose proof (total_one f l t x Hl). unfold total in *. simpl. lia.
  - assert (t <> t') as Hne' by congruence. specialize (IH t t' Hne' Hl Hl').
    unfold total in *. simpl. lia.
Qed.

Lemma total_pos f l : (0 < total f l)%nat -> exists t x, l !! t = Some x /\ (0 < f x)%nat.
Proof.
  induction l as [|y l IH]; unfold total; simpl; [lia|]. intros Hp.
  destruct (decide (0 < f y)%nat) as [Hy|Hy].
  - exists 0%nat, y. done.
  - destruct IH as (t & x & ? & ?); [unfold total; lia|]. exists (S t), x. done.
Qed.

Lemma total_zero f l t x : total f l = 0%nat -> l !! t = Some x -> f x = 0%nat.
Proof. intros Ht Hl. pose proof (total_one f l t x Hl). lia. Qed.

Lemma total_replicate f n x : total f (replicate n x) = (n * f x)%nat.
Proof. induction n as [|n IH]; unfold total in *; simpl; lia. Qed.

Lemma total_nil f : total f [] = 0%nat.
Proof. done. Qed.

Lemma total_cons f x l : total f (x :: l) = (f x + total f l)%nat.
Proof. done. Qed.

Lemma total_app f l l' : total f (l ++ l') = (total f l + total f l')%nat.
Proof. apply sum_list_with_app. Qed.
End Total.

Lemma total_fmap {A B} (g : B -> A) (f : A -> nat) (l : list B) :
  total f (g <$> l) = total (f ∘ g) l.
Proof. induction l as [|y l IH]; unfold total in *; simpl; [done|]. f_equal. exact IH. Qed.

#[global] Arguments total {A} f l : simpl never.

(** A list of chosen elements. *)
Lemma list_choice {A} (P : nat -> A -> Prop) n :
  (forall i, (i < n)%nat -> exists x, P i x) ->
  exists l, length l = n /\ forall i x, l !! i = Some x -> P i x.
Proof.
  induction n as [|n IH]; intros Hc; [by exists []|].
  destruct IH as (l & Hl & Hp); [intros i Hi; apply Hc; lia|].
  destruct (Hc n ltac:(lia)) as [x Hx]. exists (l ++ [x]). split.
  - rewrite length_app. simpl. lia.
  - intros i y [Hi|[Hle [Hi <-]%list_lookup_singleton_Some]]%lookup_app_Some; [by apply Hp|].
    by replace i with n by lia.
Qed.

(** ** Ordered maps: the iteration order of a [BTreeMap] *)

Section BTree.
Context {K : Type} `{Countable K} {V : Type}.
Context (le : K -> K -> Prop) `{!RelDecision le}.

Definition key_le (x y : K * V) : Prop := le x.1 y.1.

#[export] Instance key_le_dec : RelDecision key_le.
Proof. intros x y. unfold key_le. apply _. Defined.

(** [m.iter()]: the bindings in increasing order of the keys. *)
Definition btree_iter (m : gmap K V) : list (K * V) := merge_sort key_le (map_to_list m).

Lemma btree_iter_perm m : btree_iter m ≡ₚ map_to_list m.
Proof. apply merge_sort_Permutation. Qed.

Lemma btree_iter_empty : btree_iter ∅ = [].
Proof. unfold btree_iter. by rewrite map_to_list_empty. Qed.

Lemma btree_iter_elem m k v : (k, v) ∈ btree_iter m <-> m !! k = Some v.
Proof. rewrite btree_iter_perm. apply elem_of_map_to_list. Qed.

Lemma btree_iter_NoDup m : NoDup (btree_iter m).*1.
Proof. rewrite btree_iter_perm. apply NoDup_fst_map_to_list. Qed.

Lemma list_to_map_btree m : list_to_map (btree_iter m) = m.
Proof.
  rewrite (list_to_map_proper (btree_iter m) (map_to_list m)).
  - apply list_to_map_to_list.
  - apply btree_iter_NoDup.
  - apply btree_iter_perm.
Qed.
End BTree.

Lemma StronglySorted_filter {A} (R : A -> A -> Prop) (P : A -> Prop) `{!forall x, Decision (P x)} l :
  StronglySorted R l -> StronglySorted R (filter P l).
Proof.
  induction 1 as [|x l Hl IH Hx]; [constructor|].
  rewrite filter_cons. case_decide; [|done]. constructor; [done|].
  rewrite Forall_forall in Hx |- *. intros y [_ Hy]%list_elem_of_filter. auto.
Qed.

(** Maps indexed by transaction: the entries below an index, in order. *)
Section NatTree.
Context {V : Type}.
Implicit Types (m : gmap nat V) (n : nat).

Definition below m n : list (nat * V) :=
  filter (fun x => (x.1 < n)%nat) (btree_iter Nat.le m).

Lemma btree_iter_sorted m : StronglySorted (key_le Nat.le) (btree_iter Nat.le m).
Proof.
  apply StronglySorted_merge_sort.
  - intros x y z. unfold key_le. lia.
  - intros x y. unfold key_le. lia.
Qed.

Lemma below_elem m n i v : (i, v) ∈ below m n <-> (i < n)%nat /\ m !! i = Some v.
Proof. unfold below. rewrite list_elem_of_filter, btree_iter_elem. done. Qed.

Lemma below_NoDup m n : NoDup (below m n).
Proof. apply NoDup_filter, (NoDup_fmap_1 fst), btree_iter_NoDup. Qed.

Lemma below_0 m : below m 0 = [].
Proof.
  destruct (below m 0) as [|[i v] l] eqn:Hb; [done|].
  assert (Hin : (i, v) ∈ below m 0) by (rewrite Hb; left).
  apply below_elem in Hin. lia.
Qed.

Lemma below_S m n :
  below m (S n) = below m n ++ match m !! n with Some v => [(n, v)] | None => [] end.
Proof.
  apply (StronglySorted_unique_strong (key_le Nat.le)).
  - intros [i v] [j w]. unfold key_le. simpl. intros Hi Hj H1 H2.
    assert (i = j) as -> by lia. apply below_elem in Hi as [_ Hi].
    apply elem_of_app in Hj as [[_ Hj]%below_elem|Hj].
    + congruence.
    + destruct (m !! n) as [u|] eqn:Hn; [|by apply elem_of_nil in Hj].
      apply list_elem_of_singleton in Hj as [= -> ->]. congruence.
  - apply StronglySorted_filter, btree_iter_sorted.
  - apply StronglySorted_app_2; [|apply StronglySorted_filter, btree_iter_sorted|].
    + intros [i v] [j w] [Hi _]%below_elem Hj. unfold key_le. simpl.
      destruct (m !! n); [|by apply elem_of_nil in Hj].
      apply list_elem_of_singleton in Hj as [= -> ->]. lia.
    + destruct (m !! n); repeat constructor.
  - apply NoDup_Permutation; [apply below_NoDup| |].
    + apply NoDup_app. split; [apply below_NoDup|]. split.
      * intros [i v] [Hi _]%below_elem Hj. destruct (m !! n); [|by apply elem_of_nil in Hj].
        apply list_elem_of_singleton in Hj as [= -> ->]. lia.
      * destruct (m !! n); [apply NoDup_singleton|constructor].
    + intros [i v]. rewrite elem_of_app, !below_elem.
      destruct (m !! n) as [w|] eqn:Hn;
        rewrite ?list_elem_of_singleton, ?elem_of_nil; split.
      * intros [Hi Hm]. destruct (decide (i = n)) as [->|Hne]; [right|left].
        -- congruence.
        -- split; [lia|done].
      * intros [[? ?]|[= -> ->]]; [split; [lia|done]|]. split; [lia|done].
      * intros [Hi Hm]. left. split; [|done].
        destruct (decide (i = n)) as [->|Hne]; [congruence|lia].
      * intros [[? ?]|[]]. split; [lia|done].
Qed.

(** All the entries, when every index is below [n]. *)
Lemma btree_iter_below m n :
  (forall i, is_Some (m !! i) -> (i < n)%nat) -> btree_iter Nat.le m = below m n.
Proof.
  intros Hb. unfold below.
  assert (Hf : forall l : list (nat * V), Forall (fun x => (x.1 < n)%nat) l ->
    filter (fun x => (x.1 < n)%nat) l = l).
  { induction 1 as [|x l Hx Hl IH]; [done|]. by rewrite filter_cons_True, IH. }
  symmetry. apply Hf. rewrite Forall_forall. intros [i v] Hin.
  apply btree_iter_elem in Hin. simpl. eauto.
Qed.
End NatTree.

(** ** Interfaces to code outside the repository *)

Abbreviation bytes := (list Z).

(** [bcs::to_bytes::<u128>] and [bcs::from_bytes::<u128>]; [None] is their error. *)
Class Bcs128 := {
  bcs_to_bytes : Z -> option bytes;
  bcs_from_bytes : bytes -> option Z;
}.

(** What the code relies on: every [u128] is encoded, and decoding gives it back. *)
Class Bcs128Laws `{Bcs128} : Prop := {
  bcs_roundtrip v : is_u128 v -> exists b, bcs_to_bytes v = Some b /\ bcs_from_bytes b = Some v;
  bcs_from_bytes_range b v : bcs_from_bytes b = Some v -> is_u128 v;
}.

(** [aptos_types::write_set::WriteOp] *)
Inductive WriteOp :=
  | Creation (data : bytes)
  | Modification (data : bytes)
  | Deletion.

#[export] Instance WriteOp_eq_dec : EqDecision WriteOp.
Proof. solve_decision. Defined.

(** [aptos_types::write_set::TransactionWrite]: the one method the code calls. *)
Class TransactionWrite (V : Type) := extract_raw_bytes : V -> option bytes.

(** [move_core_types::vm_status]: [AbortLocation], with the address and the name of a module,
    and the constructors of [VMStatus] that the code builds or matches. *)
Inductive AbortLocation :=
  | AbortModule (address : bytes) (name : string)
  | AbortScript.

#[export] Instance AbortLocation_eq_dec : EqDecision AbortLocation.
Proof. solve_decision. Defined.

Inductive VMStatus :=
  | VMStatus_Executed
  | VMStatus_Error (code : StatusCode)
  | VMStatus_MoveAbort (location : AbortLocation) (code : Z)
  | VMStatus_ExecutionFailure (code : StatusCode) (location : AbortLocation)
      (function code_offset : Z).

#[export] Instance VMStatus_eq_dec : EqDecision VMStatus.
Proof. solve_decision. Defined.

(** A little-endian encoding of a [u128] on 16 bytes: an instance of the interface above. *)
Module LittleEndian.
Fixpoint encode (n : nat) (v : Z) : bytes :=
  match n with O => [] | S n => v mod 256 :: encode n (v / 256) end.

Fixpoint decode (b : bytes) : Z :=
  match b with [] => 0 | x :: b => x + 256 * decode b end.

Definition to_bytes (v : Z) : option bytes :=
  if bool_decide (is_u128 v) then Some (encode 16 v) else None.

Definition from_bytes (b : bytes) : option Z :=
  if bool_decide (length b = 16%nat /\ is_u128 (decode b)) then Some (decode b) else None.

Lemma length_encode n v : length (encode n v) = n.
Proof. revert v. induction n; simpl; auto. Qed.

Lemma decode_encode n v : decode (encode n v) = v mod 256 ^ Z.of_nat n.
Proof.
  revert v. induction n as [|n IH]; intros v; simpl decode.
  - rewrite Z.mod_1_r. reflexivity.
  - rewrite IH, Nat2Z.inj_succ, Z.pow_succ_r by lia.
    rewrite Z.rem_mul_r by lia. reflexivity.
Qed.

#[export] Instance le_bcs : Bcs128 := {| bcs_to_bytes := to_bytes; bcs_from_bytes := from_bytes |}.

#[export] Instance le_bcs_laws : Bcs128Laws.
Proof.
  split; simpl; unfold to_bytes, from_bytes.
  - intros v Hv. exists (encode 16 v). rewrite bool_decide_true by done.
    assert (Hd : decode (encode 16 v) = v).
    { rewrite decode_encode. apply Z.mod_small. exact Hv. }
    rewrite Hd, bool_decide_true by (rewrite length_encode; done). done.
  - intros b v. case_bool_decide as Hb; [|discriminate]. intros [= <-]. apply Hb.
Qed.
End LittleEndian.
