(* ===== verification/Delta.v ===== *)
(** * Deltas of aggregators ([aptos-aggregator/src/delta_change_set.rs])

    A [DeltaOp] is a partial function on [u128] values with a postcondition (the result
    and every value seen on the way stay between 0 and the limit).  This file models its
    application, its merge with an earlier delta, its materialisation against storage, and
    [DeltaChangeSet]; the theorems show that merging deltas is composing the functions. *)
From S2P Require Import Prelude.

(** When [Addition] operation overflows the [limit]. *)
Definition EADD_OVERFLOW : Z := 0x020001.

(** When [Subtraction] operation goes below zero. *)
Definition ESUB_UNDERFLOW : Z := 0x020002.

(** Different delta functions. *)
Inductive DeltaUpdate :=
  | Plus (v : Z)
  | Minus (v : Z).

(** An update from an aggregator's operation. *)
Record DeltaOp := {
  max_positive : Z;
  min_negative : Z;
  limit : Z;
  update : DeltaUpdate;
}.

#[export] Instance DeltaUpdate_eq_dec : EqDecision DeltaUpdate.
Proof. solve_decision. Defined.
#[export] Instance DeltaOp_eq_dec : EqDecision DeltaOp.
Proof. solve_decision. Defined.

Definition new (u : DeltaUpdate) (lim maxp minn : Z) : DeltaOp :=
  {| max_positive := maxp; min_negative := minn; limit := lim; update := u |}.

Definition get_update (d : DeltaOp) : DeltaUpdate := update d.

Definition abort_error (code : Z) : PartialVMError :=
  {| status := ABORTED; sub_status := Some code |}.

(** Application of [Addition] to [base]. *)
Definition addition (base value lim : Z) : PartialVMResult Z :=
  if (lim <? base) || (u128_sub lim base <? value)
  then Err (abort_error EADD_OVERFLOW)
  else Ok (u128_add base value).

(** Application of [Subtraction] to [base]. *)
Definition subtraction (base value : Z) : PartialVMResult Z :=
  if base <? value
  then Err (abort_error ESUB_UNDERFLOW)
  else Ok (u128_sub base value).

(** The result of the delta's application to [base], or an error if the postcondition is
    not satisfied. *)
Definition apply_to (d : DeltaOp) (base : Z) : PartialVMResult Z :=
  _ ← addition base (max_positive d) (limit d);
  _ ← subtraction base (min_negative d);
  match update d with
  | Plus value => addition base value (limit d)
  | Minus value => subtraction base value
  end.

(** Shifts by a delta the maximum positive value seen by [self]. *)
Definition shifted_max_positive_by (self delta : DeltaOp) : PartialVMResult Z :=
  match update delta with
  | Plus value => addition value (max_positive self) (limit self)
  | Minus value => Ok (unwrap_or 0 (subtraction (max_positive self) value))
  end.

(** Shifts by a delta the minimum negative value seen by [self]. *)
Definition shifted_min_negative_by (self delta : DeltaOp) : PartialVMResult Z :=
  match update delta with
  | Plus value => Ok (unwrap_or 0 (subtraction (min_negative self) value))
  | Minus value => addition value (min_negative self) (limit self)
  end.

(** The macro [update_same_sign]. *)
Definition update_same_sign (sign : Z -> DeltaUpdate) (a b lim : Z) : PartialVMResult DeltaUpdate :=
  v ← addition a b lim; Ok (sign v).

(** The macro [update_different_sign]. *)
Definition update_different_sign (a b : Z) : PartialVMResult DeltaUpdate :=
  if b <=? a
  then v ← subtraction a b; Ok (Plus v)
  else v ← subtraction b a; Ok (Minus v).

(** Applies [self] on top of a previous delta.  The Rust method updates [self] in place and
    does so only after its last check, so the new [self] is the value of [Ok] and an error
    leaves [self] as it was. *)
Definition merge_onto (self previous_delta : DeltaOp) : PartialVMResult DeltaOp :=
  shifted_max_positive ← shifted_max_positive_by self previous_delta;
  shifted_min_negative ← shifted_min_negative_by self previous_delta;
  new_update ←
    match update previous_delta with
    | Plus prev_value =>
        match update self with
        | Plus self_value => update_same_sign Plus prev_value self_value (limit self)
        | Minus self_value => update_different_sign prev_value self_value
        end
    | Minus prev_value =>
        match update self with
        | Plus self_value => update_different_sign self_value prev_value
        | Minus self_value => update_same_sign Minus prev_value self_value (limit self)
        end
    end;
  Ok {| max_positive := Z.max (max_positive previous_delta) shifted_max_positive;
        min_negative := Z.max (min_negative previous_delta) shifted_min_negative;
        limit := limit self;
        update := new_update |}.

Definition delta_sub (v lim : Z) : DeltaOp := new (Minus v) lim 0 v.
Definition delta_add (v lim : Z) : DeltaOp := new (Plus v) lim v 0.

(** [serialize] and [deserialize]; [None] is the panic of [expect]. *)
Definition serialize `{Bcs128} (value : Z) : option bytes := bcs_to_bytes value.
Definition deserialize `{Bcs128} (value_bytes : bytes) : option Z := bcs_from_bytes value_bytes.

(** ** Materialisation against storage, and sets of deltas *)

Section ChangeSet.
Context `{Bcs128} {StateKey : Type} `{Countable StateKey}.
(** [Ord] of [StateKey]; [get_state_value] of the [StateView] ([None] is its error); and
    [PartialVMError::finish(..).into_vm_status()]. *)
Context (key_leb : StateKey -> StateKey -> Prop) `{!RelDecision key_leb}.
Context (get_state_value : StateKey -> option (option bytes)).
Context (into_vm_status : PartialVMError -> VMStatus).

(** Consumes a single delta and tries to materialize it with a given state key. *)
Definition try_into_write_op (self : DeltaOp) (state_key : StateKey) : comp VMStatus WriteOp :=
  match get_state_value state_key with
  | None => Throw (VMStatus_Error STORAGE_ERROR)
  | Some (Some value_bytes) =>
      base ← expect (deserialize value_bytes);
      result ← lift (map_err into_vm_status (apply_to self base));
      out ← expect (serialize result);
      Return (Modification out)
  | Some None => Throw (VMStatus_Error STORAGE_ERROR)
  end.

(** [DeltaChangeSet]: all access paths that one transaction wants to update with deltas. *)
Abbreviation DeltaChangeSet := (gmap StateKey DeltaOp).

Definition dcs_empty : DeltaChangeSet := ∅.
Definition dcs_new (l : list (StateKey * DeltaOp)) : DeltaChangeSet :=
  foldl (fun m kd => <[kd.1 := kd.2]> m) ∅ l.
Definition dcs_insert (self : DeltaChangeSet) (delta : StateKey * DeltaOp) : DeltaChangeSet :=
  <[delta.1 := delta.2]> self.
Definition dcs_remove (self : DeltaChangeSet) (key : StateKey) : DeltaChangeSet * option DeltaOp :=
  (delete key self, self !! key).
Definition dcs_is_empty (self : DeltaChangeSet) : bool := bool_decide (self = ∅).

(** The loop of [try_into_write_set_mut], over the deltas in the order of their keys. *)
Fixpoint materialize (l : list (StateKey * DeltaOp))
  : comp VMStatus (list (StateKey * WriteOp)) :=
  match l with
  | [] => Return []
  | (state_key, delta_op) :: l =>
      write_op ← try_into_write_op delta_op state_key;
      rest ← materialize l;
      Return ((state_key, write_op) :: rest)
  end.

Definition try_into_write_set_mut (self : DeltaChangeSet)
  : comp VMStatus (list (StateKey * WriteOp)) :=
  materialize (btree_iter key_leb self).
End ChangeSet.

(** ** Well-formed deltas *)

(** The fields are [u128] values and the update is within the history. *)
Definition wf (d : DeltaOp) : Prop :=
  is_u128 (max_positive d) /\ is_u128 (min_negative d) /\ is_u128 (limit d) /\
  match update d with
  | Plus v => 0 <= v <= max_positive d
  | Minus v => 0 <= v <= min_negative d
  end.

#[export] Instance wf_dec d : Decision (wf d).
Proof. unfold wf. destruct (update d); apply _. Defined.

(** ** Arithmetic of [addition] and [subtraction] *)

Lemma addition_Ok base value lim r :
  is_u128 base -> is_u128 value -> is_u128 lim ->
  addition base value lim = Ok r <-> base + value <= lim /\ r = base + value.
Proof.
  unfold addition, is_u128. intros Hb Hv Hl.
  destruct (Z.ltb_spec lim base) as [Hlt|Hge]; simpl.
  { split; [discriminate | lia]. }
  rewrite u128_sub_exact by (unfold is_u128; lia).
  destruct (Z.ltb_spec (lim - base) value); simpl.
  { split; [discriminate | lia]. }
  rewrite u128_add_exact by (unfold is_u128; lia).
  split; [intros [= <-]; lia | intros [? ->]; done].
Qed.

Lemma addition_Err base value lim :
  is_u128 base -> is_u128 value -> is_u128 lim ->
  lim < base + value -> addition base value lim = Err (abort_error EADD_OVERFLOW).
Proof.
  unfold addition, is_u128. intros Hb Hv Hl Hlt.
  destruct (Z.ltb_spec lim base) as [?|Hge]; simpl; [done|].
  rewrite u128_sub_exact by (unfold is_u128; lia).
  destruct (Z.ltb_spec (lim - base) value); simpl; [done | lia].
Qed.

Lemma addition_cases base value lim :
  is_u128 base -> is_u128 value -> is_u128 lim ->
  (base + value <= lim /\ addition base value lim = Ok (base + value)) \/
  (lim < base + value /\ addition base value lim = Err (abort_error EADD_OVERFLOW)).
Proof.
  intros. destruct (Z.le_gt_cases (base + value) lim).
  - left. split; [done|]. by apply addition_Ok.
  - right. split; [done|]. by apply addition_Err.
Qed.

Lemma subtraction_cases base value :
  is_u128 base -> is_u128 value ->
  (value <= base /\ subtraction base value = Ok (base - value)) \/
  (base < value /\ subtraction base value = Err (abort_error ESUB_UNDERFLOW)).
Proof.
  unfold subtraction. intros Hb Hv. destruct (Z.ltb_spec base value).
  - right. done.
  - left. rewrite u128_sub_exact by done. done.
Qed.

(** Case analysis on every [addition] and [subtraction] of the goal. *)
Ltac u128_range := unfold is_u128, U128 in *; simpl in *; lia.
Ltac arith_cases :=
  repeat match goal with
  | |- context [addition ?a ?b ?c] =>
      let H := fresh "Hadd" in let E := fresh "Eadd" in
      destruct (addition_cases a b c) as [[H E]|[H E]]; [u128_range .. | | ]; rewrite ?E; simpl
  | |- context [subtraction ?a ?b] =>
      let H := fresh "Hsub" in let E := fresh "Esub" in
      destruct (subtraction_cases a b) as [[H E]|[H E]]; [u128_range .. | | ]; rewrite ?E; simpl
  end.

(** ** Application and merging *)

(** The operation a delta performs on a value. *)
Definition shift (u : DeltaUpdate) (base : Z) : Z :=
  match u with Plus v => base + v | Minus v => base - v end.

(** The values at which a delta is defined: both extremes of its history stay in range. *)
Definition in_history (d : DeltaOp) (base : Z) : Prop :=
  base + max_positive d <= limit d /\ min_negative d <= base.

#[export] Instance in_history_dec d base : Decision (in_history d base).
Proof. unfold in_history. apply _. Defined.

Ltac destruct_delta d :=
  let mp := fresh "mp" in let mn := fresh "mn" in let li := fresh "li" in let v := fresh "v" in
  destruct d as [mp mn li [v|v]].

Lemma apply_to_spec d base :
  wf d -> is_u128 base ->
  ok (apply_to d base) = if decide (in_history d base) then Some (shift (update d) base) else None.
Proof.
  destruct_delta d; unfold wf, in_history, apply_to; simpl; intros (? & ? & ? & ?) ?;
    arith_cases; case_decide; try done; try lia.
Qed.

Lemma apply_to_Ok d base r :
  wf d -> is_u128 base ->
  apply_to d base = Ok r <-> in_history d base /\ r = shift (update d) base.
Proof.
  intros Hd Hb. rewrite <- ok_Some, (apply_to_spec d base Hd Hb).
  case_decide; split; [by intros [= <-]|by intros [_ ->]|done|by intros [? _]].
Qed.

Lemma apply_to_range d base r :
  wf d -> is_u128 base -> apply_to d base = Ok r -> 0 <= r <= limit d.
Proof.
  intros Hd Hb [Hh ->]%apply_to_Ok; [|done..].
  destruct_delta d; unfold wf, in_history, is_u128 in *; simpl in *; lia.
Qed.

Lemma apply_to_u128 d base r :
  wf d -> is_u128 base -> apply_to d base = Ok r -> is_u128 r.
Proof.
  intros Hd Hb Hr. pose proof (apply_to_range d base r Hd Hb Hr).
  destruct Hd as (_ & _ & ? & _). unfold is_u128 in *. lia.
Qed.

(** What a merge computes, and when it is refused. *)
Definition merged_history (d2 d1 : DeltaOp) : Prop :=
  match update d1 with
  | Plus v => v + max_positive d2 <= limit d2
  | Minus v => v + min_negative d2 <= limit d2
  end.

#[export] Instance merged_history_dec d2 d1 : Decision (merged_history d2 d1).
Proof. unfold merged_history. destruct (update d1); apply _. Defined.

Definition signed (u : DeltaUpdate) : Z := match u with Plus v => v | Minus v => - v end.

Lemma merge_onto_Ok d2 d1 d :
  wf d1 -> wf d2 -> limit d1 = limit d2 -> merge_onto d2 d1 = Ok d ->
  merged_history d2 d1 /\ wf d /\ limit d = limit d2 /\
  max_positive d = Z.max (max_positive d1) (Z.max 0 (signed (update d1) + max_positive d2)) /\
  min_negative d = Z.max (min_negative d1) (Z.max 0 (min_negative d2 - signed (update d1))) /\
  signed (update d) = signed (update d1) + signed (update d2).
Proof.
  destruct_delta d1; destruct_delta d2;
    unfold wf, merged_history, merge_onto, shifted_max_positive_by, shifted_min_negative_by,
      update_same_sign, update_different_sign, is_u128, U128; simpl;
    intros (? & ? & ? & ?) (? & ? & ? & ?) Hl; arith_cases; try discriminate;
    repeat match goal with |- context [?a <=? ?b] => destruct (Z.leb_spec a b); simpl end;
    arith_cases; try discriminate; try lia; intros [= <-]; simpl; lia.
Qed.

Lemma merge_onto_defined d2 d1 :
  wf d1 -> wf d2 -> limit d1 = limit d2 -> merged_history d2 d1 ->
  exists d, merge_onto d2 d1 = Ok d.
Proof.
  destruct_delta d1; destruct_delta d2;
    unfold wf, merged_history, merge_onto, shifted_max_positive_by, shifted_min_negative_by,
      update_same_sign, update_different_sign, is_u128, U128; simpl;
    intros (? & ? & ? & ?) (? & ? & ? & ?) Hl Hm; arith_cases; try lia;
    repeat match goal with |- context [?a <=? ?b] => destruct (Z.leb_spec a b); simpl end;
    arith_cases; try lia; eauto.
Qed.

Lemma shift_signed u base : shift u base = base + signed u.
Proof. destruct u; simpl; lia. Qed.

Lemma merge_compose d2 d1 base :
  wf d1 -> wf d2 -> limit d1 = limit d2 -> is_u128 base ->
  ok (d ← merge_onto d2 d1; apply_to d base) = ok (x ← apply_to d1 base; apply_to d2 x).
Proof.
  intros H1 H2 Hl Hb. apply option_eq. intros r. rewrite !ok_Some, !result_bind_Ok. split.
  - intros (d & Hm & Hr).
    destruct (merge_onto_Ok d2 d1 d H1 H2 Hl Hm) as (Hmh & Hwf & Hlim & Hmax & Hmin & Hup).
    apply apply_to_Ok in Hr as [Hh ->]; [|done..].
    exists (shift (update d1) base).
    assert (Hh1 : in_history d1 base).
    { unfold in_history in *. lia. }
    assert (Hr1 : apply_to d1 base = Ok (shift (update d1) base)) by (by apply apply_to_Ok).
    pose proof (apply_to_u128 d1 base _ H1 Hb Hr1) as Hu.
    split; [done|]. apply (apply_to_Ok d2); [done..|].
    rewrite !shift_signed in *. unfold in_history in *. lia.
  - intros (x & Hr1 & Hr2).
    pose proof (apply_to_u128 d1 base x H1 Hb Hr1) as Hx.
    pose proof (apply_to_range d1 base x H1 Hb Hr1) as Hxr.
    apply apply_to_Ok in Hr1 as [Hh1 ->]; [|done..].
    apply apply_to_Ok in Hr2 as [Hh2 ->]; [|done..].
    assert (Hmh : merged_history d2 d1).
    { unfold merged_history, in_history, wf, is_u128 in *. destruct (update d1); simpl in *; lia. }
    destruct (merge_onto_defined d2 d1 H1 H2 Hl Hmh) as [d Hm].
    destruct (merge_onto_Ok d2 d1 d H1 H2 Hl Hm) as (_ & Hwf & Hlim & Hmax & Hmin & Hup).
    exists d. split; [done|]. apply (apply_to_Ok d); [done..|].
    rewrite !shift_signed in *. unfold in_history, wf, is_u128 in *. lia.
Qed.

(** ** Materialising a set of deltas *)

Section MaterializeSpec.
Context `{Bcs128, !Bcs128Laws} {StateKey : Type} `{Countable StateKey}.
Context (key_leb : StateKey -> StateKey -> Prop) `{!RelDecision key_leb}.
Context (get_state_value : StateKey -> option (option bytes)).
Context (into_vm_status : PartialVMError -> VMStatus).

(** The write op of a delta: the value in storage, shifted. *)
Definition materialized (k : StateKey) (d : DeltaOp) (op : WriteOp) : Prop :=
  exists b base r out,
    get_state_value k = Some (Some b) /\ bcs_from_bytes b = Some base /\
    apply_to d base = Ok r /\ bcs_to_bytes r = Some out /\ op = Modification out.

Lemma materialized_unique k d op op' :
  materialized k d op -> materialized k d op' -> op = op'.
Proof. intros (? & ? & ? & ? & ? & ? & ? & ? & ->) (? & ? & ? & ? & ? & ? & ? & ? & ->). congruence. Qed.

Lemma try_into_write_op_Return d k op :
  try_into_write_op get_state_value into_vm_status d k = Return op <-> materialized k d op.
Proof.
  unfold try_into_write_op, materialized. split.
  - destruct (get_state_value k) as [[b|]|]; try discriminate.
    intros (base & Hb & (r & Hr & (out & Ho & [= <-])%comp_bind_Return)%comp_bind_Return)%comp_bind_Return.
    unfold deserialize, serialize in *.
    destruct (bcs_from_bytes b) eqn:Hfb; simpl in Hb; [|discriminate]. injection Hb as ->.
    destruct (apply_to d base) eqn:Ha; simpl in Hr; [|discriminate]. injection Hr as ->.
    destruct (bcs_to_bytes r) eqn:Hto; simpl in Ho; [|discriminate]. injection Ho as ->.
    eauto 10.
  - intros (b & base & r & out & -> & Hfb & Ha & Hto & ->).
    unfold deserialize, serialize. rewrite Hfb. simpl. rewrite Ha. simpl. by rewrite Hto.
Qed.

Lemma try_into_write_op_no_panic d k :
  wf d -> (forall b, get_state_value k = Some (Some b) -> is_Some (bcs_from_bytes b)) ->
  try_into_write_op get_state_value into_vm_status d k <> Panic.
Proof.
  intros Hw Hs. unfold try_into_write_op, deserialize, serialize.
  destruct (get_state_value k) as [[b|]|]; try discriminate.
  destruct (Hs b eq_refl) as [v Hv]. rewrite Hv. simpl.
  destruct (apply_to d v) as [r|e] eqn:Hr; simpl; [|discriminate].
  destruct (bcs_roundtrip r) as (out & Hout & _).
  { eapply apply_to_u128; [done| |done]. by eapply bcs_from_bytes_range. }
  by rewrite Hout.
Qed.

Lemma materialize_Return l ws :
  materialize get_state_value into_vm_status l = Return ws <->
  Forall2 (fun kd kw => kw.1 = kd.1 /\ materialized kd.1 kd.2 kw.2) l ws.
Proof.
  revert ws. induction l as [|[k d] l IH]; intros ws; simpl.
  { split; [intros [= <-]; constructor|]. by intros ->%Forall2_nil_inv_l. }
  rewrite comp_bind_Return. split.
  - intros (op & Hop & (rest & Hrest & [= <-])%comp_bind_Return).
    constructor; [|by apply IH]. split; [done|]. by apply try_into_write_op_Return.
  - intros ([k' op] & rest & [Hk Hop] & Hrest & ->)%Forall2_cons_inv_l. simpl in *. subst k'.
    exists op. split; [by apply try_into_write_op_Return|].
    apply comp_bind_Return. exists rest. split; [by apply IH|done].
Qed.
End MaterializeSpec.

(** ** Properties *)

(** C12. Merging a delta onto an earlier one is composing the two partial functions: for every
    base value, applying the merged delta (when the merge succeeds) and applying the earlier
    then the later delta both fail or give the same value; so histories are combined without
    losing or inventing an overflow or an underflow. *)
Theorem merge_onto_composes (d1 d2 : DeltaOp) (base : Z)
  (H1 : wf d1) (H2 : wf d2) (Hl : limit d1 = limit d2) (Hb : is_u128 base) :
  ok (d ← merge_onto d2 d1; apply_to d base) = ok (x ← apply_to d1 base; apply_to d2 x).
Proof. by apply merge_compose. Qed.

Lemma merge_onto_composes_witness :
  ok (d ← merge_onto (new (Minus 3) 100 5 3) (new (Plus 7) 100 10 2); apply_to d 90)
  = ok (x ← apply_to (new (Plus 7) 100 10 2) 90; apply_to (new (Minus 3) 100 5 3) x).
Proof. apply merge_onto_composes; vm_compute; intuition discriminate. Defined.

(** [apply_to] succeeds exactly when the base value keeps the whole history in [0 .. limit],
    its result is then the base plus or minus the update, and it is within [0 .. limit]. *)
Theorem apply_to_exact (d : DeltaOp) (base r : Z) (Hd : wf d) (Hb : is_u128 base) :
  apply_to d base = Ok r <->
  (base + max_positive d <= limit d /\ min_negative d <= base) /\
  r = match update d with Plus v => base + v | Minus v => base - v end /\ 0 <= r <= limit d.
Proof.
  rewrite (apply_to_Ok d base r Hd Hb). unfold in_history, shift. split; [|tauto].
  intros [Hh ->]. split; [done|]. split; [done|].
  apply (apply_to_range d base _ Hd Hb), apply_to_Ok; done.
Qed.

Lemma apply_to_exact_witness :
  apply_to (new (Plus 7) 100 10 2) 90 = Ok 97 <->
  (90 + 10 <= 100 /\ 2 <= 90) /\ 97 = 90 + 7 /\ 0 <= 97 <= 100.
Proof. apply (apply_to_exact (new (Plus 7) 100 10 2) 90 97); vm_compute; intuition discriminate. Defined.



(** Materialising a delta change set returns a write set exactly when every delta applies
    to the value storage holds for its key, and then it is one modification per key, in key
    order, with the encoded result. *)
Theorem try_into_write_set_mut_exact `{Bcs128} `{Countable StateKey}
  (key_leb : StateKey -> StateKey -> Prop) `{!RelDecision key_leb}
  (get_state_value : StateKey -> option (option bytes)) (into_vm_status : PartialVMError -> VMStatus)
  (deltas : gmap StateKey DeltaOp) (ws : list (StateKey * WriteOp)) :
  try_into_write_set_mut key_leb get_state_value into_vm_status deltas = Return ws <->
  Forall2 (fun kd kw => kw.1 = kd.1 /\ materialized get_state_value kd.1 kd.2 kw.2)
    (btree_iter key_leb deltas) ws.
Proof. apply materialize_Return. Qed.
