(* ===== verification/Aggregator.v ===== *)
(** * Aggregators inside the VM ([aptos-aggregator/src/aggregator_extension.rs])

    An [Aggregator] either knows its value ([Data]) or is a signed offset from the value in
    storage together with the history of the offsets it went through.  [AggregatorData] holds
    every aggregator of the current transaction.  The theorems show that running operations
    on an unknown value and validating the history afterwards is the same as running them
    on the value itself. *)
From S2P Require Import Prelude Delta.

(** Describes the state of each aggregator instance. *)
Inductive AggregatorState := Data | PositiveDelta | NegativeDelta.

#[export] Instance AggregatorState_eq_dec : EqDecision AggregatorState.
Proof. solve_decision. Defined.

(** Tracks values seen by aggregator. *)
Record History := { h_max_positive : Z; h_min_negative : Z }.

Definition History_new : History := {| h_max_positive := 0; h_min_negative := 0 |}.

Definition record_positive (h : History) (value : Z) : History :=
  {| h_max_positive := Z.max (h_max_positive h) value; h_min_negative := h_min_negative h |}.

Definition record_negative (h : History) (value : Z) : History :=
  {| h_max_positive := h_max_positive h; h_min_negative := Z.max (h_min_negative h) value |}.

(** Internal aggregator data structure. *)
Record Aggregator := {
  value : Z;
  state : AggregatorState;
  a_limit : Z;
  history : option History;
}.

Definition with_value (a : Aggregator) (v : Z) : Aggregator :=
  {| value := v; state := state a; a_limit := a_limit a; history := history a |}.
Definition with_state (a : Aggregator) (s : AggregatorState) : Aggregator :=
  {| value := value a; state := s; a_limit := a_limit a; history := history a |}.
Definition with_history (a : Aggregator) (h : option History) : Aggregator :=
  {| value := value a; state := state a; a_limit := a_limit a; history := h |}.

(** The VM's errors are [PartialVMError]; a panic of the Rust code is [Panic]. *)
Abbreviation vm := (comp PartialVMError).

(** Records observed delta in history. *)
Definition record (a : Aggregator) : vm Aggregator :=
  match history a with
  | Some h =>
      match state a with
      | PositiveDelta => Return (with_history a (Some (record_positive h (value a))))
      | NegativeDelta => Return (with_history a (Some (record_negative h (value a))))
      | Data => Panic (* unreachable!(..) *)
      end
  | None => Return a
  end.

(** Implements logic for adding to an aggregator. *)
Definition add (a : Aggregator) (v : Z) : vm Aggregator :=
  match state a with
  | Data =>
      new ← lift (addition (value a) v (a_limit a));
      Return (with_value a new)
  | PositiveDelta =>
      new ← lift (addition (value a) v (a_limit a));
      record (with_value a new)
  | NegativeDelta =>
      if value a <=? v
      then new ← lift (subtraction v (value a));
           record (with_state (with_value a new) PositiveDelta)
      else new ← lift (subtraction (value a) v);
           record (with_value a new)
  end.

(** Implements logic for subtracting from an aggregator. *)
Definition sub (a : Aggregator) (v : Z) : vm Aggregator :=
  match state a with
  | Data =>
      new ← lift (subtraction (value a) v);
      Return (with_value a new)
  | PositiveDelta =>
      if v <=? value a
      then new ← lift (subtraction (value a) v);
           record (with_value a new)
      else _ ← lift (subtraction (a_limit a) v);
           new ← lift (subtraction v (value a));
           record (with_state (with_value a new) NegativeDelta)
  | NegativeDelta =>
      new ← lift (addition (value a) v (a_limit a));
      record (with_value a new)
  end.

Definition extension_error : PartialVMError :=
  {| status := VM_EXTENSION_ERROR; sub_status := None |}.

(** The [map_or] closure of [read_and_materialize]: validate the history against the value
    from storage, then apply the delta. *)
Definition materialize_from (a : Aggregator) (value_from_storage : Z) : vm (Z * Aggregator) :=
  h ← expect (history a);
  _ ← lift (addition value_from_storage (h_max_positive h) (a_limit a));
  _ ← lift (subtraction value_from_storage (h_min_negative h));
  new ← match state a with
        | PositiveDelta => lift (addition value_from_storage (value a) (a_limit a))
        | NegativeDelta => lift (subtraction value_from_storage (value a))
        | Data => Panic (* unreachable!(..) *)
        end;
  Return (new, with_history (with_state (with_value a new) Data) None).

Section Storage.
Context `{Bcs128} {TableHandle AccountAddress : Type}.
Context `{Countable TableHandle} `{Countable AccountAddress}.
(** [TableResolver::resolve_table_entry] ([None] is its error) and [AccountAddress::to_vec]. *)
Context (resolve_table_entry : TableHandle -> bytes -> option (option bytes)).
Context (to_vec : AccountAddress -> bytes).

(** Uniquely identifies each aggregator instance in storage: a handle and a key. *)
Abbreviation AggregatorID := (TableHandle * AccountAddress)%type.

(** Implements logic for reading the value of an aggregator. *)
Definition read_and_materialize (a : Aggregator) (id : AggregatorID) : vm (Z * Aggregator) :=
  match state a with
  | Data => Return (value a, a)
  | _ =>
      match resolve_table_entry id.1 (to_vec id.2) with
      | None => Throw extension_error
      | Some None => Throw extension_error
      | Some (Some value_bytes) =>
          value_from_storage ← expect (deserialize value_bytes);
          materialize_from a value_from_storage
      end
  end.

(** Stores all information about aggregators per single transaction. *)
Record AggregatorData := {
  new_aggregators : gset AggregatorID;
  destroyed_aggregators : gset AggregatorID;
  aggregators : gmap AggregatorID Aggregator;
}.

Definition AggregatorData_default : AggregatorData :=
  {| new_aggregators := ∅; destroyed_aggregators := ∅; aggregators := ∅ |}.

(** A fresh instance in a delta state, zero-initialized. *)
Definition delta_aggregator (lim : Z) : Aggregator :=
  {| value := 0; state := PositiveDelta; a_limit := lim; history := Some History_new |}.

(** Returns the aggregator with an [id]; if the transaction did not initialize it, a new
    instance is created in a delta state.  The Rust method returns a mutable reference
    into the map: [put_aggregator] is the write through it. *)
Definition get_aggregator (d : AggregatorData) (id : AggregatorID) (lim : Z)
  : Aggregator * AggregatorData :=
  match aggregators d !! id with
  | Some a => (a, d)
  | None =>
      let a := delta_aggregator lim in
      (a, {| new_aggregators := new_aggregators d;
             destroyed_aggregators := destroyed_aggregators d;
             aggregators := <[id := a]> (aggregators d) |})
  end.

Definition put_aggregator (d : AggregatorData) (id : AggregatorID) (a : Aggregator)
  : AggregatorData :=
  {| new_aggregators := new_aggregators d;
     destroyed_aggregators := destroyed_aggregators d;
     aggregators := <[id := a]> (aggregators d) |}.

(** Returns the number of aggregators that are used in the current transaction. *)
Definition num_aggregators (d : AggregatorData) : Z := Z.of_nat (size (aggregators d)).

(** Creates a new Aggregator with a given [id] and limit, in a data state. *)
Definition create_new_aggregator (d : AggregatorData) (id : AggregatorID) (lim : Z)
  : AggregatorData :=
  let a := {| value := 0; state := Data; a_limit := lim; history := None |} in
  {| new_aggregators := {[id]} ∪ new_aggregators d;
     destroyed_aggregators := destroyed_aggregators d;
     aggregators := <[id := a]> (aggregators d) |}.

(** If aggregator has been created in this transaction, it is removed.  Otherwise, it is
    marked for deletion. *)
Definition remove_aggregator (d : AggregatorData) (id : AggregatorID) : AggregatorData :=
  let aggs := delete id (aggregators d) in
  if decide (id ∈ new_aggregators d)
  then {| new_aggregators := new_aggregators d ∖ {[id]};
          destroyed_aggregators := destroyed_aggregators d;
          aggregators := aggs |}
  else {| new_aggregators := new_aggregators d;
          destroyed_aggregators := {[id]} ∪ destroyed_aggregators d;
          aggregators := aggs |}.
End Storage.

Arguments AggregatorData TableHandle AccountAddress {_ _ _ _}.

(** ** Sequences of operations *)

Inductive agg_op := OpAdd (v : Z) | OpSub (v : Z).

Definition op_value (o : agg_op) : Z := match o with OpAdd v | OpSub v => v end.

Definition run_op (a : Aggregator) (o : agg_op) : vm Aggregator :=
  match o with OpAdd v => add a v | OpSub v => sub a v end.

Fixpoint run_ops (a : Aggregator) (ops : list agg_op) : vm Aggregator :=
  match ops with
  | [] => Return a
  | o :: ops => a' ← run_op a o; run_ops a' ops
  end.

(** An aggregator that knows its value, as [create_new_aggregator] makes it. *)
Definition known (lim v : Z) : Aggregator :=
  {| value := v; state := Data; a_limit := lim; history := None |}.

(** ** The invariant of an aggregator in a delta state *)

Definition signed_value (a : Aggregator) : Z :=
  match state a with NegativeDelta => - value a | _ => value a end.

Definition wf_delta (a : Aggregator) : Prop :=
  is_u128 (a_limit a) /\ is_u128 (value a) /\
  match history a with
  | None => False
  | Some h =>
      is_u128 (h_max_positive h) /\ is_u128 (h_min_negative h) /\
      match state a with
      | Data => False
      | PositiveDelta => value a <= h_max_positive h
      | NegativeDelta => value a <= h_min_negative h
      end
  end.

(** The base values for which the history never left [0 .. limit]. *)
Definition within (a : Aggregator) (base : Z) : Prop :=
  match history a with
  | None => False
  | Some h => base + h_max_positive h <= a_limit a /\ h_min_negative h <= base
  end.

#[export] Instance within_dec a base : Decision (within a base).
Proof. unfold within. destruct (history a); apply _. Defined.

Lemma delta_aggregator_wf lim : is_u128 lim -> wf_delta (delta_aggregator lim).
Proof. intros Hl. repeat split; simpl; try done; apply Hl. Qed.

Lemma known_add lim x v :
  is_u128 lim -> is_u128 x -> is_u128 v ->
  add (known lim x) v =
    if decide (x + v <= lim) then Return (known lim (x + v)) else Throw (abort_error EADD_OVERFLOW).
Proof.
  intros. unfold add. simpl. arith_cases; case_decide; try lia; reflexivity.
Qed.

Lemma known_sub lim x v :
  is_u128 x -> is_u128 v ->
  sub (known lim x) v =
    if decide (v <= x) then Return (known lim (x - v)) else Throw (abort_error ESUB_UNDERFLOW).
Proof.
  intros. unfold sub. simpl. arith_cases; case_decide; try lia; reflexivity.
Qed.

(** One operation on an unknown value, compared with the operation on [base + offset]. *)
Definition simulates (base : Z) (a : Aggregator) (o : agg_op) : Prop :=
  let direct := run_op (known (a_limit a) (base + signed_value a)) o in
  match run_op a o with
  | Return a' =>
      wf_delta a' /\ a_limit a' = a_limit a /\ (within a' base -> within a base) /\
      (within a' base -> direct = Return (known (a_limit a) (base + signed_value a'))) /\
      (within a base -> ~ within a' base -> exists e, direct = Throw e)
  | Throw _ => within a base -> exists e, direct = Throw e
  | Panic => False
  end.

Ltac destruct_agg a :=
  let v := fresh "v" in let lim := fresh "lim" in let mp := fresh "mp" in let mn := fresh "mn" in
  destruct a as [v [| |] lim [[mp mn]|]];
  unfold wf_delta, within, signed_value in *; simpl in *; try tauto.

Lemma within_range base a :
  wf_delta a -> 0 <= base -> within a base -> 0 <= base + signed_value a <= a_limit a.
Proof. intros Hw Hb Hh. destruct_agg a; unfold is_u128, U128 in *; lia. Qed.

Lemma op_simulates base a o :
  wf_delta a -> 0 <= base <= a_limit a -> is_u128 (op_value o) -> simulates base a o.
Proof.
  intros Hw Hb Ho. unfold simulates.
  assert (Hd : within a base \/ ~ within a base) by (destruct (decide (within a base)); tauto).
  pose proof (within_range base a Hw) as Hr.
  destruct o as [w|w]; destruct_agg a; unfold is_u128, U128 in *; unfold add, sub; simpl;
    repeat match goal with |- context [?x <=? ?y] => destruct (Z.leb_spec x y); simpl end;
    arith_cases; unfold record; simpl; unfold within; simpl;
    repeat match goal with |- _ /\ _ => split | |- _ -> _ => intro end;
    try lia; arith_cases; try lia; try (eexists; reflexivity);
    unfold known, with_value; simpl; f_equal; f_equal; lia.
Qed.

(** Operations keep the invariant and the limit. *)
Lemma op_facts a o a' :
  wf_delta a -> is_u128 (op_value o) -> run_op a o = Return a' ->
  wf_delta a' /\ a_limit a' = a_limit a.
Proof.
  intros Hw Ho Hr.
  assert (Hl : 0 <= 0 <= a_limit a) by (destruct Hw as [? _]; unfold is_u128 in *; lia).
  pose proof (op_simulates 0 a o Hw Hl Ho) as Hs. unfold simulates in Hs. rewrite Hr in Hs.
  tauto.
Qed.

Lemma ops_simulate ops : forall base a,
  wf_delta a -> 0 <= base <= a_limit a -> Forall (fun o => is_u128 (op_value o)) ops ->
  let direct := run_ops (known (a_limit a) (base + signed_value a)) ops in
  match run_ops a ops with
  | Return a' =>
      wf_delta a' /\ a_limit a' = a_limit a /\ (within a' base -> within a base) /\
      (within a' base -> direct = Return (known (a_limit a) (base + signed_value a'))) /\
      (within a base -> ~ within a' base -> exists e, direct = Throw e)
  | Throw _ => within a base -> exists e, direct = Throw e
  | Panic => False
  end.
Proof.
  induction ops as [|o ops IH]; intros base a Hw Hb Hf; simpl.
  { do 4 (split; [done|]). intros ? []. done. }
  apply Forall_cons_1 in Hf as [Ho Hf].
  pose proof (op_simulates base a o Hw Hb Ho) as Hs. unfold simulates in Hs.
  destruct (run_op a o) as [a1|e|]; simpl; [| |done].
  2: { intros Hin. destruct (Hs Hin) as [e' ->]. simpl. eauto. }
  destruct Hs as (Hw1 & Hl1 & Hback & Hok & Hfail).
  assert (Hb1 : 0 <= base <= a_limit a1) by (rewrite Hl1; exact Hb).
  specialize (IH base a1 Hw1 Hb1 Hf). simpl in IH. rewrite Hl1 in IH.
  destruct (run_ops a1 ops) as [a2|e|]; [| |done].
  - destruct IH as (Hw2 & Hl2 & Hback2 & Hok2 & Hfail2).
    split; [done|]. split; [congruence|]. split; [tauto|]. split.
    + intros Hin. rewrite (Hok (Hback2 Hin)). simpl. auto.
    + intros Hin Hout. destruct (decide (within a1 base)) as [Hin1|Hout1].
      * rewrite (Hok Hin1). simpl. auto.
      * destruct (Hfail Hin Hout1) as [e ->]. simpl. eauto.
  - intros Hin. destruct (decide (within a1 base)) as [Hin1|Hout1].
    + rewrite (Hok Hin1). simpl. auto.
    + destruct (Hfail Hin Hout1) as [e' ->]. simpl. eauto.
Qed.

(** ** Materialising a delta state *)

Lemma materialize_from_spec a base :
  wf_delta a -> is_u128 base ->
  match materialize_from a base with
  | Return (v, a') => within a base /\ v = base + signed_value a /\ a' = known (a_limit a) v
  | Throw _ => ~ within a base
  | Panic => False
  end.
Proof.
  intros Hw Hb. unfold materialize_from.
  destruct_agg a; unfold is_u128, U128 in *; arith_cases; try lia;
    repeat split; try lia; unfold known; simpl; f_equal; lia.
Qed.

(** Executing on the unknown value and then reading it gives what executing on the value
    itself gives, errors included. *)
Lemma speculation_ok lim base ops :
  is_u128 lim -> 0 <= base <= lim -> Forall (fun o => is_u128 (op_value o)) ops ->
  match run_ops (delta_aggregator lim) ops with
  | Return a =>
      match materialize_from a base with
      | Return (v, a') => run_ops (known lim base) ops = Return a' /\ a' = known lim v
      | Throw _ => exists e, run_ops (known lim base) ops = Throw e
      | Panic => False
      end
  | Throw _ => exists e, run_ops (known lim base) ops = Throw e
  | Panic => False
  end.
Proof.
  intros Hl Hb Hf.
  pose proof (ops_simulate ops base (delta_aggregator lim) (delta_aggregator_wf lim Hl) Hb Hf) as Hs.
  assert (Hin0 : within (delta_aggregator lim) base) by (unfold within; simpl; lia).
  simpl in Hs. unfold signed_value in Hs. simpl in Hs. rewrite Z.add_0_r in Hs.
  destruct (run_ops (delta_aggregator lim) ops) as [a|e|]; [|auto|done].
  destruct Hs as (Hw & Hla & _ & Hok & Hfail).
  assert (Hbu : is_u128 base) by (unfold is_u128 in *; lia).
  pose proof (materialize_from_spec a base Hw Hbu) as Hm.
  destruct (materialize_from a base) as [[v a']|e|]; [| |done].
  - destruct Hm as (Hin & -> & ->). rewrite Hla. split; [|done]. apply Hok, Hin.
  - apply Hfail; assumption.
Qed.

(** ** Properties *)

(** C11. Speculation is sound and complete: running any operations on an aggregator whose value
    is unknown, and then materialising it from the value in storage, returns exactly what
    running them on the stored value returns, and fails exactly when that fails: no overflow
    or underflow along the way is missed or invented.  Neither ever panics. *)
Theorem speculation_matches_direct (lim base : Z) (ops : list agg_op)
  (Hl : is_u128 lim) (Hb : 0 <= base <= lim) (Hf : Forall (fun o => is_u128 (op_value o)) ops) :
  match run_ops (delta_aggregator lim) ops with
  | Return a =>
      match materialize_from a base with
      | Return (v, a') => run_ops (known lim base) ops = Return a' /\ a' = known lim v
      | Throw _ => exists e, run_ops (known lim base) ops = Throw e
      | Panic => False
      end
  | Throw _ => exists e, run_ops (known lim base) ops = Throw e
  | Panic => False
  end.
Proof. by apply speculation_ok. Qed.

Lemma speculation_matches_direct_witness :
  match run_ops (delta_aggregator 100) [OpAdd 7; OpSub 20; OpAdd 50] with
  | Return a =>
      match materialize_from a 30 with
      | Return (v, a') =>
          run_ops (known 100 30) [OpAdd 7; OpSub 20; OpAdd 50] = Return a' /\ a' = known 100 v
      | Throw _ => exists e, run_ops (known 100 30) [OpAdd 7; OpSub 20; OpAdd 50] = Throw e
      | Panic => False
      end
  | Throw _ => exists e, run_ops (known 100 30) [OpAdd 7; OpSub 20; OpAdd 50] = Throw e
  | Panic => False
  end.
Proof.
  apply speculation_matches_direct; [vm_compute; intuition discriminate..|].
  repeat constructor; vm_compute; discriminate.
Defined.

(** C37. Every operation keeps the invariant of an aggregator in a delta state (its offset and
    history are 128-bit values and the history bounds the offset) and its limit, so the
    arithmetic of the code never wraps and its [unreachable!] branches are never taken. *)
Theorem aggregator_invariant (a : Aggregator) (o : agg_op)
  (Hw : wf_delta a) (Ho : is_u128 (op_value o)) :
  match run_op a o with
  | Return a' => wf_delta a' /\ a_limit a' = a_limit a
  | Throw _ => True
  | Panic => False
  end.
Proof.
  assert (Hl : 0 <= 0 <= a_limit a) by (destruct Hw as [? _]; unfold is_u128 in *; lia).
  pose proof (op_simulates 0 a o Hw Hl Ho) as Hs. unfold simulates in Hs.
  destruct (run_op a o); tauto.
Qed.

Lemma aggregator_invariant_witness :
  match run_op (delta_aggregator 100) (OpSub 20) with
  | Return a' => wf_delta a' /\ a_limit a' = 100
  | _ => False
  end.
Proof.
  refine (aggregator_invariant (delta_aggregator 100) (OpSub 20) _ _);
    vm_compute; intuition discriminate.
Defined.
