(* ===== verification/AggregatorContext.v ===== *)
(** * The native aggregator context
    ([framework/src/natives/aggregator_natives/{context,aggregator,aggregator_factory}.rs])

    The natives [add], [sub], [read], [destroy] and [new_aggregator] act on the
    [AggregatorData] of the transaction; [into_change_set] turns it into the changes of the
    transaction and [squash] composes the changes of two sessions.  Unpacking of the Move
    structs is not modelled: a native takes the handle, key and limit it reads from them. *)
From S2P Require Import Prelude Delta Aggregator.

(** Represents a single aggregator change. *)
Inductive AggregatorChange :=
  | Write (v : Z)
  | Merge (d : DeltaOp)
  | Delete.

#[export] Instance AggregatorChange_eq_dec : EqDecision AggregatorChange.
Proof. solve_decision. Defined.

(** The [match state] of [into_change_set]. *)
Definition change_of (a : Aggregator) : vm AggregatorChange :=
  match state a with
  | Data => Return (Write (value a))
  | PositiveDelta =>
      h ← expect (history a);
      Return (Merge (new (Plus (value a)) (a_limit a) (h_max_positive h) (h_min_negative h)))
  | NegativeDelta =>
      h ← expect (history a);
      Return (Merge (new (Minus (value a)) (a_limit a) (h_max_positive h) (h_min_negative h)))
  end.

Section Context.
Context `{Bcs128} {TableHandle AccountAddress : Type}.
Context `{Countable TableHandle} `{Countable AccountAddress}.
Context (resolve_table_entry : TableHandle -> bytes -> option (option bytes)).
Context (to_vec : AccountAddress -> bytes).
(** [Ord] of [AggregatorID]; [finish(..).into_vm_status()]; and the hasher of
    [native_new_aggregator] followed by [AccountAddress::from_bytes]. *)
Context (id_leb : TableHandle * AccountAddress -> TableHandle * AccountAddress -> Prop).
Context `{!RelDecision id_leb}.
Context (into_vm_status : PartialVMError -> VMStatus).
Context (hash_to_address : bytes -> option AccountAddress).

Abbreviation AggregatorID := (TableHandle * AccountAddress)%type.
Abbreviation AggregatorData := (AggregatorData TableHandle AccountAddress).
Abbreviation changes := (gmap AggregatorID AggregatorChange).

(** The loop of [into_change_set] over all writes and deltas. *)
Fixpoint insert_changes (l : list (AggregatorID * Aggregator)) (acc : changes) : vm changes :=
  match l with
  | [] => Return acc
  | (id, a) :: l => c ← change_of a; insert_changes l (<[id := c]> acc)
  end.

(** The loop over the destroyed aggregators. *)
Definition insert_deletes (l : list AggregatorID) (acc : changes) : changes :=
  foldl (fun m id => <[id := Delete]> m) acc l.

(** All changes made within this context (i.e. by a single transaction). *)
Definition into_change_set (d : AggregatorData) : vm changes :=
  m ← insert_changes (btree_iter id_leb (aggregators d)) ∅;
  Return (insert_deletes (elements (destroyed_aggregators d)) m).

(** The inner [match] of [AggregatorChangeSet::squash]. *)
Definition squash_change (c other : AggregatorChange) : comp VMStatus AggregatorChange :=
  match c, other with
  | (Write _ | Merge _), Write data => Return (Write data)
  | (Write _ | Merge _), Delete => Return Delete
  | Write data, Merge delta =>
      new_data ← lift (map_err into_vm_status (apply_to delta data));
      Return (Write new_data)
  | Merge delta1, Merge delta2 =>
      d ← lift (map_err into_vm_status (merge_onto delta2 delta1));
      Return (Merge d)
  | Delete, _ => Panic (* unreachable!(..) *)
  end.

(** [AggregatorChangeSet::squash]: the result is the new [self.changes]. *)
Fixpoint squash_list (l : list (AggregatorID * AggregatorChange)) (self : changes)
  : comp VMStatus changes :=
  match l with
  | [] => Return self
  | (other_id, other_change) :: l =>
      match self !! other_id with
      | None => squash_list l (<[other_id := other_change]> self)
      | Some c =>
          c' ← squash_change c other_change;
          squash_list l (<[other_id := c']> self)
      end
  end.

Definition squash (self other : changes) : comp VMStatus changes :=
  squash_list (btree_iter id_leb other) self.

(** ** The natives: gas and the results' Move values are left out *)

Definition native_add (d : AggregatorData) (id : AggregatorID) (lim v : Z) : vm AggregatorData :=
  let '(a, d) := get_aggregator d id lim in
  a' ← add a v;
  Return (put_aggregator d id a').

Definition native_sub (d : AggregatorData) (id : AggregatorID) (lim v : Z) : vm AggregatorData :=
  let '(a, d) := get_aggregator d id lim in
  a' ← sub a v;
  Return (put_aggregator d id a').

Definition native_read (d : AggregatorData) (id : AggregatorID) (lim : Z)
  : vm (Z * AggregatorData) :=
  let '(a, d) := get_aggregator d id lim in
  va ← read_and_materialize resolve_table_entry to_vec a id;
  Return (va.1, put_aggregator d id va.2).

Definition native_destroy (d : AggregatorData) (id : AggregatorID) : AggregatorData :=
  remove_aggregator d id.

(** [num_aggregators as u32] in big-endian order. *)
Definition u32_be (n : Z) : bytes :=
  let n := n mod 2 ^ 32 in
  [n / 2 ^ 24; n / 2 ^ 16 mod 256; n / 2 ^ 8 mod 256; n mod 256].

Definition new_aggregator_key (txn_hash : bytes) (d : AggregatorData) : option AccountAddress :=
  hash_to_address (txn_hash ++ u32_be (num_aggregators d)).

Definition native_new_aggregator (txn_hash : bytes) (d : AggregatorData)
  (handle : TableHandle) (lim : Z) : vm (AggregatorID * AggregatorData) :=
  key ← lift (ok_or (new_aggregator_key txn_hash d) extension_error);
  Return ((handle, key), create_new_aggregator d (handle, key) lim).

End Context.

(** ** Invariant of an aggregator of a transaction *)

Definition wf_agg (a : Aggregator) : Prop :=
  (state a = Data /\ history a = None /\ is_u128 (a_limit a) /\ 0 <= value a <= a_limit a) \/
  wf_delta a.

Lemma known_wf lim v : is_u128 lim -> 0 <= v <= lim -> wf_agg (known lim v).
Proof. left. done. Qed.

Lemma wf_agg_cases a :
  wf_agg a -> (exists lim v, a = known lim v /\ is_u128 lim /\ 0 <= v <= lim) \/ wf_delta a.
Proof.
  intros [(Hs & Hh & Hl & Hv)|Hw]; [left|by right].
  destruct a as [v s lim h]; simpl in *; subst. by exists lim, v.
Qed.

Lemma run_op_wf_agg a o a' :
  wf_agg a -> is_u128 (op_value o) -> run_op a o = Return a' ->
  wf_agg a' /\ a_limit a' = a_limit a.
Proof.
  intros [(lim & v & -> & Hl & Hv)|Hw]%wf_agg_cases Ho Hr.
  - assert (Hvu : is_u128 v) by (unfold is_u128 in *; lia).
    destruct o as [w|w]; simpl in Hr, Ho.
    + rewrite known_add in Hr by done. case_decide; [|done]. injection Hr as <-.
      split; [|done]. apply known_wf; [done|]. unfold is_u128 in *. lia.
    + rewrite known_sub in Hr by done. case_decide; [|done]. injection Hr as <-.
      split; [|done]. apply known_wf; [done|]. unfold is_u128 in *. lia.
  - destruct (op_facts a o a' Hw Ho Hr). split; [by right|done].
Qed.

Lemma run_op_no_panic a o : wf_agg a -> is_u128 (op_value o) -> run_op a o <> Panic.
Proof.
  intros [(lim & v & -> & Hl & Hv)|Hw]%wf_agg_cases Ho.
  - assert (Hvu : is_u128 v) by (unfold is_u128 in *; lia).
    destruct o as [w|w]; simpl in *; rewrite ?known_add, ?known_sub by done; by case_decide.
  - assert (Hl : 0 <= 0 <= a_limit a) by (destruct Hw as [? _]; unfold is_u128 in *; lia).
    pose proof (op_simulates 0 a o Hw Hl Ho) as Hs. unfold simulates in Hs.
    destruct (run_op a o); done.
Qed.

Lemma materialize_from_wf a base v a' :
  wf_delta a -> is_u128 base -> materialize_from a base = Return (v, a') ->
  wf_agg a' /\ value a' = v.
Proof.
  intros Hw Hb Hm. pose proof (materialize_from_spec a base Hw Hb) as Hs. rewrite Hm in Hs.
  destruct Hs as (Hin & -> & ->). split; [|done]. apply known_wf; [apply Hw|].
  apply within_range; [done| |done]. apply Hb.
Qed.

(** The change of a well-formed aggregator: its value, or a well-formed delta whose
    application is the materialisation of the aggregator. *)
Lemma change_of_spec a :
  wf_agg a ->
  match change_of a with
  | Return (Write v) => a = known (a_limit a) v
  | Return (Merge d) =>
      wf_delta a /\ wf d /\ limit d = a_limit a /\ signed (update d) = signed_value a /\
      forall base, in_history d base <-> within a base
  | Return Delete | Throw _ | Panic => False
  end.
Proof.
  intros [(lim & v & -> & Hl & Hv)|Hw]%wf_agg_cases; [done|].
  pose proof Hw as Hw'. unfold change_of, wf, in_history, within.
  destruct_agg a; unfold is_u128, U128 in *; repeat split; try tauto; try lia.
Qed.

Lemma change_of_no_panic a : wf_agg a -> exists c, change_of a = Return c.
Proof. intros Hw. pose proof (change_of_spec a Hw). destruct (change_of a); eauto; done. Qed.

(** The delta of an aggregator, applied to a value, is the direct execution on the value. *)
Lemma change_of_ops lim ops a d base :
  is_u128 lim -> 0 <= base <= lim -> Forall (fun o => is_u128 (op_value o)) ops ->
  run_ops (delta_aggregator lim) ops = Return a -> change_of a = Return (Merge d) ->
  match apply_to d base with
  | Ok v => run_ops (known lim base) ops = Return (known lim v)
  | Err _ => exists e, run_ops (known lim base) ops = Throw e
  end.
Proof.
  intros Hl Hb Hf Hr Hc.
  pose proof (speculation_ok lim base ops Hl Hb Hf) as Hs. rewrite Hr in Hs.
  pose proof (ops_simulate ops base (delta_aggregator lim) (delta_aggregator_wf lim Hl) Hb Hf) as Hd.
  cbv zeta in Hd. rewrite Hr in Hd. destruct Hd as (Hw & _).
  pose proof (change_of_spec a (or_intror Hw)) as Hcs. rewrite Hc in Hcs.
  destruct Hcs as (_ & Hwd & Hld & Hsig & Hin).
  assert (Hbu : is_u128 base) by (unfold is_u128 in *; lia).
  pose proof (apply_to_spec d base Hwd Hbu) as Ha.
  pose proof (materialize_from_spec a base Hw Hbu) as Hm.
  destruct (materialize_from a base) as [[v a']|e|]; [| |done].
  - destruct Hm as (Hwi & -> & _). destruct Hs as [Hs ->].
    rewrite decide_True in Ha by (by apply Hin). apply ok_Some in Ha. rewrite Ha, Hs.
    by rewrite shift_signed, Hsig.
  - rewrite decide_False in Ha by (by rewrite Hin). apply ok_None in Ha as [e' ->]. done.
Qed.

(** ** What a change does to the stored value; [None] is a failing delta *)

Definition effect (c : AggregatorChange) (stored : option Z) : option (option Z) :=
  match c with
  | Write v => Some (Some v)
  | Delete => Some None
  | Merge d => base ← stored; v ← ok (apply_to d base); Some (Some v)
  end.

(** Two changes of the same aggregator: well formed, with the limit of the aggregator. *)
Definition wf_change (lim : Z) (c : AggregatorChange) : Prop :=
  match c with
  | Write v => is_u128 v
  | Merge d => wf d /\ limit d = lim
  | Delete => True
  end.

Lemma squash_change_effect f lim c1 c2 s s' :
  wf_change lim c1 -> wf_change lim c2 -> c1 <> Delete -> from_option is_u128 True s ->
  effect c1 s = Some s' ->
  match squash_change f c1 c2 with
  | Return c => wf_change lim c /\ effect c s = effect c2 s'
  | Throw _ => effect c2 s' = None
  | Panic => False
  end.
Proof.
  destruct c1 as [v1|d1|], c2 as [v2|d2|]; simpl; try done; intros Hw1 Hw2 _ Hs.
  - intros [= <-]. simpl. destruct Hw2 as [Hw2 _].
    destruct (apply_to d2 v1) as [r|e] eqn:Hr; simpl; [|done].
    split; [|done]. by eapply apply_to_u128.
  - destruct s as [b|]; simpl; [|done]. destruct Hw1 as [Hw1 Hl1], Hw2 as [Hw2 Hl2].
    destruct (apply_to d1 b) as [x|] eqn:Hx; simpl; [|done]. intros [= <-].
    assert (Hll : limit d1 = limit d2) by congruence.
    pose proof (merge_compose d2 d1 b Hw1 Hw2 Hll Hs) as Hm. rewrite Hx in Hm. simpl in Hm.
    destruct (merge_onto d2 d1) as [d|e] eqn:Hd; simpl in *.
    + destruct (merge_onto_Ok d2 d1 d Hw1 Hw2 Hll Hd) as (_ & Hwd & Hlim & _).
      split; [split; [done|congruence]|]. by rewrite Hm.
    + by rewrite <- Hm.
Qed.

(** ** The data of a transaction *)

Section Data.
Context `{Bcs128, !Bcs128Laws} {TableHandle AccountAddress : Type}.
Context `{Countable TableHandle} `{Countable AccountAddress}.
Context (resolve_table_entry : TableHandle -> bytes -> option (option bytes)).
Context (to_vec : AccountAddress -> bytes).
Context (id_leb : TableHandle * AccountAddress -> TableHandle * AccountAddress -> Prop).
Context `{!RelDecision id_leb}.
Context (f : PartialVMError -> VMStatus).
Context (hash_to_address : bytes -> option AccountAddress).

Abbreviation AggregatorID := (TableHandle * AccountAddress)%type.
Abbreviation AggregatorData := (AggregatorData TableHandle AccountAddress).
Implicit Types (d : AggregatorData) (id : AggregatorID).

(** Every aggregator is well formed, and the created ones exist. *)
Definition wf_data d : Prop :=
  map_Forall (fun _ a => wf_agg a) (aggregators d) /\
  forall id, id ∈ new_aggregators d -> is_Some (aggregators d !! id).

Lemma put_wf d id a : wf_data d -> wf_agg a -> wf_data (put_aggregator d id a).
Proof.
  intros [Ha Hn] Hw. split; simpl.
  - by apply map_Forall_insert_2.
  - intros id' Hid'. apply lookup_insert_is_Some'. auto.
Qed.

Lemma get_wf d id lim a d' :
  wf_data d -> is_u128 lim -> get_aggregator d id lim = (a, d') -> wf_data d' /\ wf_agg a.
Proof.
  unfold get_aggregator. intros Hd Hl. destruct (aggregators d !! id) as [a0|] eqn:Hid.
  - intros [= <- <-]. split; [done|]. by apply (proj1 Hd id).
  - intros [= <- <-].
    assert (Hw : wf_agg (delta_aggregator lim)) by (right; by apply delta_aggregator_wf).
    split; [|done]. by apply put_wf.
Qed.

Lemma native_op_wf d id lim v d' :
  wf_data d -> is_u128 lim -> is_u128 v ->
  native_add d id lim v = Return d' \/ native_sub d id lim v = Return d' -> wf_data d'.
Proof.
  intros Hd Hl Hv. unfold native_add, native_sub.
  destruct (get_aggregator d id lim) as [a d1] eqn:Hg.
  destruct (get_wf _ _ _ _ _ Hd Hl Hg) as [Hd1 Ha].
  intros [Hr|Hr]; apply comp_bind_Return in Hr as (a' & Hop & [= <-]); apply put_wf; try done.
  - by apply (run_op_wf_agg a (OpAdd v) a').
  - by apply (run_op_wf_agg a (OpSub v) a').
Qed.

Lemma native_read_wf d id lim v d' :
  wf_data d -> is_u128 lim ->
  native_read resolve_table_entry to_vec d id lim = Return (v, d') ->
  wf_data d' /\ exists a, aggregators d' !! id = Some a /\ state a = Data /\ value a = v.
Proof.
  intros Hd Hl. unfold native_read.
  destruct (get_aggregator d id lim) as [a d1] eqn:Hg.
  destruct (get_wf _ _ _ _ _ Hd Hl Hg) as [Hd1 Ha].
  intros ([v0 a'] & Hr & [= <- <-])%comp_bind_Return.
  cut (wf_agg a' /\ state a' = Data /\ value a' = v0).
  { intros (Hw & Hst & Hva). split; [by apply put_wf|].
    exists a'. simpl. rewrite lookup_insert_eq. done. }
  destruct (decide (state a = Data)) as [Hst|Hst].
  - unfold read_and_materialize in Hr. rewrite Hst in Hr. injection Hr as <- <-. done.
  - assert (Hw : wf_delta a) by (destruct Ha as [(? & _)|?]; done).
    assert (Hm : exists base, is_u128 base /\ materialize_from a base = Return (v0, a')).
    { unfold read_and_materialize in Hr.
      destruct (state a); [done|..];
        destruct (resolve_table_entry _ _) as [[b|]|]; try discriminate;
        apply comp_bind_Return in Hr as (base & Hb & Hr);
        exists base; (split; [|done]);
        unfold deserialize in Hb; destruct (bcs_from_bytes b) eqn:Hbb; try discriminate;
        injection Hb as <-; by eapply bcs_from_bytes_range. }
    destruct Hm as (base & Hb & Hm).
    pose proof (materialize_from_wf a base v0 a' Hw Hb Hm) as [Hw' Hv'].
    pose proof (materialize_from_spec a base Hw Hb) as Hs. rewrite Hm in Hs.
    destruct Hs as (_ & _ & ->). done.
Qed.

Lemma create_wf d id lim : wf_data d -> is_u128 lim -> wf_data (create_new_aggregator d id lim).
Proof.
  intros [Ha Hn] Hl. split; simpl.
  - apply map_Forall_insert_2; [|done]. apply known_wf; [done|]. unfold is_u128 in *. lia.
  - intros id'. rewrite elem_of_union, elem_of_singleton. rewrite lookup_insert_is_Some'.
    intros [->|?]; auto.
Qed.

Lemma destroy_wf d id : wf_data d -> wf_data (native_destroy d id).
Proof.
  intros [Ha Hn]. unfold native_destroy, remove_aggregator.
  assert (Hdel : map_Forall (fun _ a => wf_agg a) (delete id (aggregators d)))
    by (by apply map_Forall_delete).
  case_decide as Hnew; split; simpl; try done; intros id'.
  - rewrite elem_of_difference, elem_of_singleton. intros [Hin Hne].
    rewrite lookup_delete_ne by done. auto.
  - intros Hin. destruct (decide (id = id')) as [->|Hne]; [done|].
    rewrite lookup_delete_ne by done. auto.
Qed.

(** *** The change set *)

Lemma insert_changes_spec (l : list (AggregatorID * Aggregator)) : forall acc,
  NoDup l.*1 -> Forall (fun x => wf_agg x.2) l ->
  exists m, insert_changes l acc = Return m /\
    (forall id a, (id, a) ∈ l -> exists c, change_of a = Return c /\ m !! id = Some c) /\
    (forall id, id ∉ l.*1 -> m !! id = acc !! id).
Proof.
  induction l as [|[id a] l IH]; intros acc Hnd Hf; simpl.
  { exists acc. split; [done|]. split; [|done]. intros ? ? []%elem_of_nil. }
  apply NoDup_cons in Hnd as [Hni Hnd]. apply Forall_cons_1 in Hf as [Hw Hf].
  destruct (change_of_no_panic a Hw) as [c Hc]. rewrite Hc. simpl.
  destruct (IH (<[id := c]> acc) Hnd Hf) as (m & Hm & Hin & Hout).
  exists m. split; [done|]. split.
  - intros id' a' [[= -> ->]|Hl]%elem_of_cons; [|by apply Hin].
    exists c. split; [done|]. rewrite Hout by done. apply lookup_insert_eq.
  - intros id' [Hne Hl]%not_elem_of_cons. rewrite Hout by done. by rewrite lookup_insert_ne.
Qed.

Lemma insert_deletes_spec (l : list AggregatorID) : forall (m : gmap AggregatorID AggregatorChange) id,
  insert_deletes l m !! id = if decide (id ∈ l) then Some Delete else m !! id.
Proof.
  unfold insert_deletes. induction l as [|x l IH]; intros m id; cbn [foldl].
  { done. }
  rewrite IH. destruct (decide (id ∈ l)) as [Hl|Hl].
  { rewrite decide_True by (by right). done. }
  destruct (decide (id = x)) as [->|Hne].
  - rewrite decide_True by left. apply lookup_insert_eq.
  - rewrite decide_False by (rewrite elem_of_cons; tauto). by rewrite lookup_insert_ne.
Qed.

Lemma into_change_set_spec d :
  wf_data d -> exists m, into_change_set id_leb d = Return m /\
    forall id, m !! id =
      if decide (id ∈ destroyed_aggregators d) then Some Delete
      else a ← aggregators d !! id; match change_of a with Return c => Some c | _ => None end.
Proof.
  intros [Hw _]. unfold into_change_set.
  destruct (insert_changes_spec (btree_iter id_leb (aggregators d)) ∅) as (m & Hm & Hin & Hout).
  { apply btree_iter_NoDup. }
  { rewrite Forall_forall. intros [id a] Hl. apply btree_iter_elem in Hl. simpl. by eapply Hw. }
  rewrite Hm. simpl. eexists. split; [done|]. intros id. rewrite insert_deletes_spec.
  destruct (decide (id ∈ destroyed_aggregators d)) as [Hd|Hd].
  { by rewrite decide_True by (by apply elem_of_elements). }
  rewrite decide_False by (by rewrite elem_of_elements).
  destruct (aggregators d !! id) as [a|] eqn:Ha; simpl.
  - destruct (Hin id a) as (c & Hc & Hl); [by apply btree_iter_elem|]. by rewrite Hc.
  - rewrite Hout; [done|]. intros ([id' a] & Hid & Hl)%list_elem_of_fmap. simpl in Hid. subst id'.
    apply btree_iter_elem in Hl. congruence.
Qed.

(** *** Squashing the changes of two sessions *)

Abbreviation changes := (gmap AggregatorID AggregatorChange).

Definition merged (c o : option AggregatorChange) (r : option AggregatorChange) : Prop :=
  match c, o with
  | Some c, Some o => exists c', squash_change f c o = Return c' /\ r = Some c'
  | None, Some o => r = Some o
  | c, None => r = c
  end.

Lemma squash_list_spec (l : list (AggregatorID * AggregatorChange)) : forall (self m : changes),
  NoDup l.*1 -> squash_list f l self = Return m ->
  forall id, merged (self !! id) ((list_to_map l : changes) !! id) (m !! id).
Proof.
  induction l as [|[x o] l IH]; intros self m Hnd; simpl.
  { intros [= <-] id. unfold merged. rewrite lookup_empty. by destruct (self !! id). }
  apply NoDup_cons in Hnd as [Hni Hnd].
  assert (Hlx : (list_to_map l : changes) !! x = None) by (by apply not_elem_of_list_to_map_1).
  destruct (self !! x) as [c|] eqn:Hx.
  - intros (c' & Hc & Hr)%comp_bind_Return id. specialize (IH _ _ Hnd Hr id).
    destruct (decide (x = id)) as [<-|Hne].
    + rewrite Hx, lookup_insert_eq. simpl. rewrite Hlx in IH. unfold merged in IH. simpl in IH.
      rewrite lookup_insert_eq in IH. by exists c'.
    + rewrite lookup_insert_ne in IH by done. by rewrite lookup_insert_ne.
  - intros Hr id. specialize (IH _ _ Hnd Hr id). destruct (decide (x = id)) as [<-|Hne].
    + rewrite Hx, lookup_insert_eq. simpl. rewrite Hlx in IH. unfold merged in IH. simpl in IH.
      by rewrite lookup_insert_eq in IH.
    + rewrite lookup_insert_ne in IH by done. by rewrite lookup_insert_ne.
Qed.

Lemma squash_spec (self other m : changes) :
  squash id_leb f self other = Return m ->
  forall id, merged (self !! id) (other !! id) (m !! id).
Proof.
  unfold squash. intros Hr id.
  pose proof (squash_list_spec _ _ _ (btree_iter_NoDup id_leb other) Hr id) as Hs.
  replace (list_to_map (btree_iter id_leb other) : changes) with other in Hs; [done|].
  symmetry. rewrite <- (list_to_map_to_list other) at 2. apply list_to_map_proper.
  { apply btree_iter_NoDup. }
  apply btree_iter_perm.
Qed.
End Data.

(** ** Properties *)

(** C28. The delta a transaction emits for an aggregator summarises its operations: applied
    to any base value within the limit, the change computed from the aggregator gives what
    running the operations on that value gives, failures included. *)
Theorem change_is_direct_execution (lim base : Z) (ops : list agg_op) (a : Aggregator) (d : DeltaOp)
  (Hl : is_u128 lim) (Hb : 0 <= base <= lim) (Hf : Forall (fun o => is_u128 (op_value o)) ops)
  (Hr : run_ops (delta_aggregator lim) ops = Return a) (Hc : change_of a = Return (Merge d)) :
  match apply_to d base with
  | Ok v => run_ops (known lim base) ops = Return (known lim v)
  | Err _ => exists e, run_ops (known lim base) ops = Throw e
  end.
Proof. by apply (change_of_ops lim ops a d base). Qed.

Lemma change_is_direct_execution_witness :
  match apply_to (new (Minus 13) 100 7 13) 30 with
  | Ok v => run_ops (known 100 30) [OpAdd 7; OpSub 20] = Return (known 100 v)
  | Err _ => False
  end.
Proof.
  refine (change_is_direct_execution 100 30 [OpAdd 7; OpSub 20]
    {| value := 13; state := NegativeDelta; a_limit := 100;
       history := Some {| h_max_positive := 7; h_min_negative := 13 |} |}
    (new (Minus 13) 100 7 13) _ _ _ eq_refl eq_refl);
    [vm_compute; intuition discriminate..|].
  repeat constructor; vm_compute; intuition discriminate.
Defined.

Section Properties.
Context `{Bcs128} {TableHandle AccountAddress : Type}.
Context `{Countable TableHandle} `{Countable AccountAddress}.
Context (id_leb : TableHandle * AccountAddress -> TableHandle * AccountAddress -> Prop).
Context `{!RelDecision id_leb} (f : PartialVMError -> VMStatus).

(** The change set of a transaction lists exactly its aggregators: a delete for each one
    destroyed, otherwise the write or the delta of the aggregator, and nothing else; its
    construction never fails on well-formed data. *)
Theorem into_change_set_exact (d : AggregatorData TableHandle AccountAddress) (Hw : wf_data d) :
  exists m, into_change_set id_leb d = Return m /\
    forall id, m !! id =
      if decide (id ∈ destroyed_aggregators d) then Some Delete
      else a ← aggregators d !! id; match change_of a with Return c => Some c | _ => None end.
Proof. by apply into_change_set_spec. Qed.


(** The key of a new aggregator depends only on how many aggregators the transaction holds
    at that time, so after [create a; create b; destroy a] the next creation under the
    same handle is given the id of [b], and replaces [b] by a fresh aggregator holding zero. *)
Theorem new_aggregator_reuses_id (hash : bytes -> option AccountAddress) (txn_hash : bytes)
  (d d1 d2 d4 : AggregatorData TableHandle AccountAddress)
  (handle : TableHandle) (ida idb idc : TableHandle * AccountAddress) (la lb lc : Z)
  (Ha : native_new_aggregator hash txn_hash d handle la = Return (ida, d1))
  (Hb : native_new_aggregator hash txn_hash d1 handle lb = Return (idb, d2))
  (Hd : native_new_aggregator hash txn_hash (native_destroy d2 ida) handle lc = Return (idc, d4))
  (Hfa : aggregators d !! ida = None) (Hfb : aggregators d !! idb = None) (Hne : ida <> idb) :
  idc = idb /\ aggregators d4 !! idb = Some (known lc 0).
Proof.
  unfold native_new_aggregator in *.
  apply comp_bind_Return in Ha as (ka & Hka & [= <- <-]).
  apply comp_bind_Return in Hb as (kb & Hkb & [= <- <-]).
  apply comp_bind_Return in Hd as (kc & Hkc & [= <- <-]).
  set (d1 := create_new_aggregator d (handle, ka) la) in *.
  set (d2 := create_new_aggregator d1 (handle, kb) lb) in *.
  assert (Hn : num_aggregators (native_destroy d2 (handle, ka)) = num_aggregators d1).
  { unfold num_aggregators, native_destroy, remove_aggregator.
    replace (aggregators (if decide _ then _ else _)) with (delete (handle, ka) (aggregators d2))
      by (by case_decide).
    unfold d2, d1; simpl. rewrite delete_insert_ne by done. rewrite delete_insert_eq.
    rewrite delete_id by done. by rewrite !map_size_insert_None. }
  assert (Hk : new_aggregator_key hash txn_hash (native_destroy d2 (handle, ka))
               = new_aggregator_key hash txn_hash d1) by (unfold new_aggregator_key; by rewrite Hn).
  rewrite Hk in Hkc. rewrite Hkb in Hkc. injection Hkc as <-. split; [done|].
  simpl. apply lookup_insert_eq.
Qed.
End Properties.

(** Identifiers of the examples are pairs of numbers, in the order of the first, then the
    second. *)
Definition example_id_le (a b : nat * nat) : Prop :=
  (a.1 < b.1)%nat \/ (a.1 = b.1 /\ (a.2 <= b.2)%nat).

#[export] Instance example_id_le_dec : RelDecision example_id_le.
Proof. intros a b. unfold example_id_le. apply _. Defined.

Definition example_vm_status (e : PartialVMError) : VMStatus := VMStatus_Error (status e).
Definition example_data : AggregatorData nat nat :=
  {| new_aggregators := ∅; destroyed_aggregators := {[(1, 2)%nat]};
     aggregators := {[(1, 1)%nat := delta_aggregator 100]} |}.
Definition example_change (d : DeltaOp) : gmap (nat * nat) AggregatorChange :=
  {[(1, 1)%nat := Merge d]}.
(** A hash that is the last byte. *)
Definition example_hash (b : bytes) : option nat := Z.to_nat <$> last b.

Lemma into_change_set_exact_witness :
  exists m, into_change_set example_id_le example_data = Return m /\
    m !! (1, 2)%nat = Some Delete.
Proof.
  destruct (into_change_set_exact example_id_le example_data) as (m & Hm & Hl).
  - split.
    + intros id a Ha. cbn [aggregators example_data] in Ha.
      apply lookup_singleton_Some in Ha as [_ <-]. right. apply delta_aggregator_wf.
      vm_compute. intuition discriminate.
    + intros id. simpl. set_solver.
  - exists m. split; [exact Hm|]. rewrite Hl. reflexivity.
Defined.


Lemma new_aggregator_reuses_id_witness :
  exists d1 d2 d4,
    native_new_aggregator example_hash [] (AggregatorData_default (TableHandle := nat)) 1%nat 100
      = Return ((1, 0)%nat, d1) /\
    native_new_aggregator example_hash [] d1 1%nat 100 = Return ((1, 1)%nat, d2) /\
    native_new_aggregator example_hash [] (native_destroy d2 (1, 0)%nat) 1%nat 100
      = Return ((1, 1)%nat, d4) /\
    (1, 1)%nat = (1, 1)%nat /\ aggregators d4 !! (1, 1)%nat = Some (known 100 0).
Proof.
  eexists _, _, _. split; [reflexivity|]. split; [reflexivity|]. split; [reflexivity|].
  eapply (new_aggregator_reuses_id example_hash [] AggregatorData_default _ _ _ 1%nat
    (1, 0)%nat (1, 1)%nat (1, 1)%nat 100 100 100); reflexivity || discriminate.
Defined.
