(* ===== verification/ChangeSetExt.v ===== *)
(** * Change sets with deltas ([aptos-aggregator/src/transaction.rs])

    [ChangeSetExt] pairs a write set with a delta set; [squash] composes the changes of two
    consecutive sessions.  [TransactionOutputExt] pairs a transaction output with its deltas
    and materialises them.  The theorems give the effect of a change set on the store, key by
    key, and show that squashing composes effects. *)
From S2P Require Import Prelude Delta.

(** [AggregatorValue::from_write] followed by [into]: [None] for a deletion; panics if the
    bytes are not a [u128]. *)
Definition from_write `{Bcs128} {V} `{TransactionWrite V} {E} (write : V) : comp E (option Z) :=
  match extract_raw_bytes write with
  | None => Return None
  | Some b => v ← expect (deserialize b); Return (Some v)
  end.

(** The errors of the squash functions ([anyhow::Error]). *)
Inductive SquashError :=
  | BcsError
  | VmError (e : PartialVMError)
  | Bail
  | FreezeError
  | ChangeSetError.

Section Squash.
Context `{Bcs128} {StateKey Event : Type} `{Countable StateKey}.
Context (key_leb : StateKey -> StateKey -> Prop) `{!RelDecision key_leb}.
(** [WriteSetMut::freeze], and the checks of [ChangeSet::new]. *)
Context (freeze : gmap StateKey WriteOp -> option (gmap StateKey WriteOp)).
Context (change_set_ok : gmap StateKey WriteOp -> list Event -> Z -> bool).

Abbreviation WriteSet := (gmap StateKey WriteOp).
Abbreviation DeltaChangeSet := (gmap StateKey DeltaOp).

Record ChangeSet := { write_set : WriteSet; events : list Event }.

Definition ChangeSet_new (ws : WriteSet) (ev : list Event) (version : Z)
  : result SquashError ChangeSet :=
  if change_set_ok ws ev version
  then Ok {| write_set := ws; events := ev |}
  else Err ChangeSetError.

(** Extension of [ChangeSet] that also holds deltas. *)
Record ChangeSetExt := {
  delta_change_set : DeltaChangeSet;
  change_set : ChangeSet;
  gas_feature_version : Z;
}.

Definition into_inner (self : ChangeSetExt) : DeltaChangeSet * ChangeSet :=
  (delta_change_set self, change_set self).

(** The loops of the two squash functions: [step] is the body, run on every entry in order
    and threading the write and delta maps. *)
Fixpoint for_each {A}
  (step : WriteSet -> DeltaChangeSet -> StateKey -> A ->
          result SquashError (WriteSet * DeltaChangeSet))
  (l : list (StateKey * A)) (write_ops : WriteSet) (delta_ops : DeltaChangeSet)
  : result SquashError (WriteSet * DeltaChangeSet) :=
  match l with
  | [] => Ok (write_ops, delta_ops)
  | (key, x) :: l =>
      wd ← step write_ops delta_ops key x; for_each step l wd.1 wd.2
  end.

(** [bcs::to_bytes(&op.apply_to(bcs::from_bytes(data)?)?)?] *)
Definition apply_bytes (op : DeltaOp) (data : bytes) : result SquashError bytes :=
  val ← ok_or (bcs_from_bytes data) BcsError;
  new ← map_err VmError (apply_to op val);
  ok_or (bcs_to_bytes new) BcsError.

(** One iteration of the loop of [squash_delta_change_set]. *)
Definition squash_delta (write_ops : WriteSet) (delta_ops : DeltaChangeSet)
  (key : StateKey) (op : DeltaOp) : result SquashError (WriteSet * DeltaChangeSet) :=
  match write_ops !! key with
  | Some (Creation data) =>
      new ← apply_bytes op data; Ok (<[key := Creation new]> write_ops, delta_ops)
  | Some (Modification data) =>
      new ← apply_bytes op data; Ok (<[key := Modification new]> write_ops, delta_ops)
  | Some Deletion => Err Bail
  | None =>
      match delta_ops !! key with
      | Some entry =>
          op' ← map_err VmError (merge_onto op entry); Ok (write_ops, <[key := op']> delta_ops)
      | None => Ok (write_ops, <[key := op]> delta_ops)
      end
  end.

Definition finish (ws : WriteSet) (ev : list Event) (deltas : DeltaChangeSet) (version : Z)
  : result SquashError ChangeSetExt :=
  frozen ← ok_or (freeze ws) FreezeError;
  cs ← ChangeSet_new frozen ev version;
  Ok {| delta_change_set := deltas; change_set := cs; gas_feature_version := version |}.

Definition squash_delta_change_set (self : ChangeSetExt) (other : DeltaChangeSet)
  : result SquashError ChangeSetExt :=
  let '(delta_set, cs) := into_inner self in
  wd ← for_each squash_delta (btree_iter key_leb other) (write_set cs) delta_set;
  finish wd.1 (events cs) wd.2 (gas_feature_version self).

(** The inner [match] of [squash_change_set]: the new entry, [None] when it is removed. *)
Definition squash_op (r op : WriteOp) : result SquashError (option WriteOp) :=
  match r, op with
  | (Modification _ | Creation _), Creation _ => Err Bail
  | Deletion, (Deletion | Modification _) => Err Bail
  | Modification _, Modification data => Ok (Some (Modification data))
  | Creation _, Modification data => Ok (Some (Creation data))
  | Modification _, Deletion => Ok (Some Deletion)
  | Deletion, Creation data => Ok (Some (Modification data))
  | Creation _, Deletion => Ok None
  end.

(** One iteration of the loop of [squash_change_set]. *)
Definition squash_write (write_ops : WriteSet) (delta : DeltaChangeSet)
  (key : StateKey) (op : WriteOp) : result SquashError (WriteSet * DeltaChangeSet) :=
  match write_ops !! key with
  | Some r =>
      r' ← squash_op r op;
      Ok (match r' with Some r' => <[key := r']> write_ops | None => delete key write_ops end,
          delta)
  | None => Ok (<[key := op]> write_ops, delete key delta)
  end.

Definition squash_change_set (self : ChangeSetExt) (other : ChangeSet)
  : result SquashError ChangeSetExt :=
  let '(delta, cs) := into_inner self in
  wd ← for_each squash_write (btree_iter key_leb (write_set other)) (write_set cs) delta;
  finish wd.1 (events cs ++ events other) wd.2 (gas_feature_version self).

Definition squash (self other : ChangeSetExt) : result SquashError ChangeSetExt :=
  let '(delta_change_set, change_set) := into_inner other in
  self' ← squash_change_set self change_set;
  squash_delta_change_set self' delta_change_set.
End Squash.

Arguments ChangeSet StateKey Event {_ _}.
Arguments ChangeSetExt StateKey Event {_ _}.

(** ** Transaction outputs with deltas *)

Section Output.
Context `{Bcs128} {StateKey Event TransactionStatus : Type} `{Countable StateKey}.
Context (key_leb : StateKey -> StateKey -> Prop) `{!RelDecision key_leb}.
Context (get_state_value : StateKey -> option (option bytes)).
Context (into_vm_status : PartialVMError -> VMStatus).
(** [TransactionStatus::is_discarded]; [WriteSetMut::squash] and [freeze]. *)
Context (is_discarded : TransactionStatus -> bool).
Context (ws_squash : gmap StateKey WriteOp -> list (StateKey * WriteOp) ->
                     option (gmap StateKey WriteOp)).
Context (freeze : gmap StateKey WriteOp -> option (gmap StateKey WriteOp)).

(** [aptos_types::transaction::TransactionOutput], as [unpack] and [new] show it. *)
Record TransactionOutput := {
  out_write_set : gmap StateKey WriteOp;
  out_events : list Event;
  out_gas_used : Z;
  out_status : TransactionStatus;
}.

Record TransactionOutputExt := {
  out_deltas : gmap StateKey DeltaOp;
  output : TransactionOutput;
}.

Definition merge_delta_writes (out : TransactionOutput) (delta_writes : list (StateKey * WriteOp))
  : comp VMStatus TransactionOutput :=
  ws ← expect (ws_squash (out_write_set out) delta_writes);
  frozen ← expect (freeze ws);
  Return {| out_write_set := frozen; out_events := out_events out;
            out_gas_used := out_gas_used out; out_status := out_status out |}.

(** The materialised writes, where a failing delta is a panic ([expect]). *)
Definition expect_writes (m : comp VMStatus (list (StateKey * WriteOp)))
  : comp VMStatus (list (StateKey * WriteOp)) :=
  match m with Throw _ => Panic | _ => m end.

Definition into_transaction_output (self : TransactionOutputExt) : comp VMStatus TransactionOutput :=
  if is_discarded (out_status (output self)) || dcs_is_empty (out_deltas self)
  then Return (output self)
  else ws ← expect_writes
              (try_into_write_set_mut key_leb get_state_value into_vm_status (out_deltas self));
       merge_delta_writes (output self) ws.

Definition output_with_delta_writes (self : TransactionOutputExt)
  (delta_writes : list (StateKey * WriteOp)) : comp VMStatus TransactionOutput :=
  if is_discarded (out_status (output self)) || dcs_is_empty (out_deltas self)
  then Return (output self)
  else if bool_decide (size (out_deltas self) = length delta_writes)
       then merge_delta_writes (output self) delta_writes
       else Panic (* assert_eq! *).

Definition from_output (out : TransactionOutput) : TransactionOutputExt :=
  {| out_deltas := ∅; output := out |}.
End Output.

Lemma from_write_no_throw `{Bcs128} {V} `{TransactionWrite V} {E} (data : V) (e : E) :
  from_write data <> Throw e.
Proof.
  unfold from_write. destruct (extract_raw_bytes data) as [b|]; [|done].
  by destruct (deserialize b).
Qed.

Lemma from_write_u128 `{Bcs128, !Bcs128Laws} {V} `{TransactionWrite V} {E} (data : V) (v : Z) :
  from_write (E := E) data = Return (Some v) -> is_u128 v.
Proof.
  unfold from_write. destruct (extract_raw_bytes data) as [b|]; [|done].
  unfold deserialize. destruct (bcs_from_bytes b) as [w|] eqn:Hb; simpl; [|done].
  intros [= <-]. by eapply bcs_from_bytes_range.
Qed.

(** [from_write] does not use the error type. *)
Lemma from_write_any `{Bcs128} {V} `{TransactionWrite V} {E F} (data : V) (o : option Z) :
  from_write (E := E) data = Return o -> from_write (E := F) data = Return o.
Proof.
  unfold from_write. destruct (extract_raw_bytes data) as [b|]; [|by intros [= <-]].
  destruct (deserialize b); simpl; [|done]. by intros [= <-].
Qed.

(** ** The effect of a change set on the store, at one key *)

(** A write is defined where it is legal: creating what is absent, modifying or deleting what
    is present. *)
Definition op_effect (op : WriteOp) (s : option bytes) : option (option bytes) :=
  match op, s with
  | Creation data, None => Some (Some data)
  | Modification data, Some _ => Some (Some data)
  | Deletion, Some _ => Some None
  | _, _ => None
  end.

Section Effects.
Context `{Bcs128, !Bcs128Laws}.

(** A delta reads the stored value, applies and stores the result. *)
Definition delta_effect (d : DeltaOp) (s : option bytes) : option (option bytes) :=
  b ← s; new ← ok (apply_bytes d b); Some (Some new).

(** The entry of a key: the write if there is one, else the delta. *)
Definition entry_effect (w : option WriteOp) (d : option DeltaOp) (s : option bytes)
  : option (option bytes) :=
  match w, d with
  | Some op, _ => op_effect op s
  | None, Some d => delta_effect d s
  | None, None => Some s
  end.

Lemma squash_op_effect r op s s1 :
  op_effect r s = Some s1 ->
  match squash_op r op with
  | Ok r' => entry_effect r' None s = op_effect op s1
  | Err _ => op_effect op s1 = None
  end.
Proof. destruct r, op, s; simpl; intros [= <-]; done. Qed.

Lemma write_after_delta d op s s1 :
  delta_effect d s = Some s1 -> op_effect op s = op_effect op s1.
Proof.
  unfold delta_effect. destruct s as [b|]; simpl; [|done].
  destruct (ok (apply_bytes d b)); simpl; intros [= <-]. by destruct op.
Qed.

Lemma apply_bytes_Ok d b b' :
  wf d -> ok (apply_bytes d b) = Some b' <->
  exists v r, bcs_from_bytes b = Some v /\ is_u128 v /\ apply_to d v = Ok r /\ is_u128 r /\
    bcs_to_bytes r = Some b'.
Proof.
  intros Hw. unfold apply_bytes. rewrite ok_Some. split.
  - intros (v & Hv & (r & Hr & Hb)%result_bind_Ok)%result_bind_Ok.
    destruct (bcs_from_bytes b) as [v0|] eqn:Hfb; [|done]. injection Hv as ->.
    pose proof (bcs_from_bytes_range b v Hfb) as Hu.
    destruct (apply_to d v) as [r0|] eqn:Ha; [|done]. injection Hr as ->.
    destruct (bcs_to_bytes r) eqn:Hto; [|done]. injection Hb as ->.
    exists v, r. repeat split; try done; try apply Hu; by eapply apply_to_u128.
  - intros (v & r & Hfb & _ & Ha & _ & Hto). rewrite Hfb. simpl. rewrite Ha. simpl. by rewrite Hto.
Qed.

(** Applying two deltas to the stored bytes is applying their merge. *)
Lemma delta_effect_merge d2 d1 s s1 :
  wf d1 -> wf d2 -> limit d1 = limit d2 -> delta_effect d1 s = Some s1 ->
  match merge_onto d2 d1 with
  | Ok d => delta_effect d s = delta_effect d2 s1
  | Err _ => delta_effect d2 s1 = None
  end.
Proof.
  intros H1 H2 Hl. unfold delta_effect. destruct s as [b|]; simpl; [|done].
  destruct (ok (apply_bytes d1 b)) as [b1|] eqn:Hb1; simpl; intros [= <-].
  apply apply_bytes_Ok in Hb1 as (v & x & Hfb & Hv & Hx & Hxu & Hto); [|done].
  destruct (bcs_roundtrip x Hxu) as (b1' & Hto' & Hfx).
  rewrite Hto in Hto'. injection Hto' as <-. simpl.
  pose proof (merge_compose d2 d1 v H1 H2 Hl Hv) as Hm. rewrite Hx in Hm. simpl in Hm.
  destruct (merge_onto d2 d1) as [d|e] eqn:Hd; simpl in Hm;
    unfold apply_bytes; rewrite Hfx; simpl; [rewrite Hfb; simpl|];
    destruct (apply_to d2 x); try done; destruct (apply_to d v); try done; by injection Hm as ->.
Qed.

Lemma write_then_delta op r s s1 :
  op_effect op s = Some s1 -> wf r ->
  match op with
  | Creation data =>
      forall new, ok (apply_bytes r data) = Some new -> op_effect (Creation new) s = delta_effect r s1
  | Modification data =>
      forall new, ok (apply_bytes r data) = Some new -> op_effect (Modification new) s = delta_effect r s1
  | Deletion => delta_effect r s1 = None
  end.
Proof.
  destruct op, s; simpl; intros [= <-] Hw; try done;
    intros new Hnew; unfold delta_effect; simpl; by rewrite Hnew.
Qed.
End Effects.

Section SquashSpec.
Context `{Bcs128, !Bcs128Laws} {StateKey Event : Type} `{Countable StateKey}.
Context (key_leb : StateKey -> StateKey -> Prop) `{!RelDecision key_leb}.
Context (freeze : gmap StateKey WriteOp -> option (gmap StateKey WriteOp)).
Context (change_set_ok : gmap StateKey WriteOp -> list Event -> Z -> bool).
(** [freeze] keeps the operations; every delta of a key carries the limit of its aggregator. *)
Context (freeze_id : forall ws ws', freeze ws = Some ws' -> ws' = ws).
Context (limits : StateKey -> Z).

Abbreviation WriteSet := (gmap StateKey WriteOp).
Abbreviation DeltaChangeSet := (gmap StateKey DeltaOp).
Implicit Types (ws : WriteSet) (ds : DeltaChangeSet) (k : StateKey).

Definition wf_delta_at k (d : DeltaOp) : Prop := wf d /\ limit d = limits k.

(** No key has both a write and a delta, and the deltas are well formed. *)
Definition wf_maps ws ds : Prop :=
  (forall k, ws !! k = None \/ ds !! k = None) /\
  (forall k d, ds !! k = Some d -> wf_delta_at k d).

Definition effect_at ws ds k : option bytes -> option (option bytes) :=
  entry_effect (ws !! k) (ds !! k).

(** What one step of a loop does: the effect of the key is composed with [oeff x]. *)
Definition composes {A} (oeff : A -> option bytes -> option (option bytes)) (x : A)
  ws ds k (r : result SquashError (WriteSet * DeltaChangeSet)) : Prop :=
  match r with
  | Ok (ws', ds') =>
      wf_maps ws' ds' /\
      (forall k', k' <> k -> ws' !! k' = ws !! k' /\ ds' !! k' = ds !! k') /\
      (forall s s1, effect_at ws ds k s = Some s1 -> effect_at ws' ds' k s = oeff x s1)
  | Err _ => forall s s1, effect_at ws ds k s = Some s1 -> oeff x s1 = None
  end.

Lemma for_each_composes {A} (step : WriteSet -> DeltaChangeSet -> StateKey -> A -> _)
  (oeff : A -> option bytes -> option (option bytes)) (l : list (StateKey * A)) :
  (forall ws ds k x, (k, x) ∈ l -> wf_maps ws ds -> composes oeff x ws ds k (step ws ds k x)) ->
  NoDup l.*1 ->
  forall ws ds, wf_maps ws ds ->
  match for_each step l ws ds with
  | Ok (ws', ds') =>
      wf_maps ws' ds' /\
      (forall k, k ∉ l.*1 -> ws' !! k = ws !! k /\ ds' !! k = ds !! k) /\
      (forall k x s s1, (k, x) ∈ l -> effect_at ws ds k s = Some s1 ->
                        effect_at ws' ds' k s = oeff x s1)
  | Err _ => exists k x, (k, x) ∈ l /\
               forall s s1, effect_at ws ds k s = Some s1 -> oeff x s1 = None
  end.
Proof.
  induction l as [|[k x] l IH]; intros Hstep Hnd ws ds Hwf; simpl.
  { split; [done|]. split; [done|]. intros ? ? ? ? []%elem_of_nil. }
  apply NoDup_cons in Hnd as [Hni Hnd].
  pose proof (Hstep ws ds k x (list_elem_of_here _ _) Hwf) as Hc. unfold composes in Hc.
  destruct (step ws ds k x) as [[ws1 ds1]|e]; simpl.
  2: { exists k, x. split; [left|done]. }
  destruct Hc as (Hwf1 & Hsame1 & Heff1).
  assert (Hstep' : forall ws ds k x, (k, x) ∈ l -> wf_maps ws ds -> composes oeff x ws ds k (step ws ds k x))
    by (intros; apply Hstep; [by right|done]).
  specialize (IH Hstep' Hnd ws1 ds1 Hwf1).
  assert (Hne : forall k' x', (k', x') ∈ l -> k' <> k).
  { intros k' x' Hin ->. apply Hni. apply list_elem_of_fmap. by exists (k, x'). }
  assert (Heq : forall k', k' <> k -> forall s, effect_at ws1 ds1 k' s = effect_at ws ds k' s).
  { intros k' Hk' s. unfold effect_at. by destruct (Hsame1 k' Hk') as [-> ->]. }
  destruct (for_each step l ws1 ds1) as [[ws2 ds2]|e].
  - destruct IH as (Hwf2 & Hsame2 & Heff2). split; [done|]. split.
    + intros k' [Hk Hk']%not_elem_of_cons. destruct (Hsame2 k' Hk') as [-> ->]. auto.
    + intros k' x' s s1 [[= -> ->]|Hin]%elem_of_cons Hs.
      * rewrite <- (Heff1 s s1 Hs). unfold effect_at. by destruct (Hsame2 k Hni) as [-> ->].
      * apply (Heff2 k'); [done|]. rewrite Heq; [done|eauto].
  - destruct IH as (k' & x' & Hin & Hnone). exists k', x'. split; [by right|].
    intros s s1 Hs. apply (Hnone s). rewrite Heq; [done|eauto].
Qed.

Lemma insert_same {A} (m : gmap StateKey A) k x :
  forall k', k' <> k -> <[k := x]> m !! k' = m !! k'.
Proof. intros k' Hk. by rewrite lookup_insert_ne. Qed.

Lemma delete_same {A} (m : gmap StateKey A) k :
  forall k', k' <> k -> delete k m !! k' = m !! k'.
Proof. intros k' Hk. by rewrite lookup_delete_ne. Qed.

Lemma wf_maps_write ws ds k op :
  wf_maps ws ds -> ds !! k = None -> wf_maps (<[k := op]> ws) ds.
Proof.
  intros [Hd Hw] Hk. split; [|done]. intros k'.
  destruct (decide (k' = k)) as [->|Hne]; [by right|]. rewrite insert_same by done. auto.
Qed.

Lemma squash_write_composes ws ds k op :
  wf_maps ws ds -> composes op_effect op ws ds k (squash_write ws ds k op).
Proof.
  intros Hwf. pose proof Hwf as [Hdis Hds]. unfold squash_write, composes, effect_at.
  destruct (ws !! k) as [r|] eqn:Hk.
  - destruct (Hdis k) as [?|Hdk]; [congruence|]. rewrite Hdk.
    destruct (squash_op r op) as [r'|e] eqn:Hr; simpl.
    2: { intros s s1 Hs. pose proof (squash_op_effect r op s s1 Hs) as He. by rewrite Hr in He. }
    split; [|split].
    + destruct r' as [r'|]; [by apply wf_maps_write|]. split; [|done].
      intros k'. destruct (decide (k' = k)) as [->|Hne]; [by right|].
      rewrite delete_same by done. auto.
    + intros k' Hne. split; [|done]. destruct r'; [by apply insert_same|by apply delete_same].
    + intros s s1 Hs. pose proof (squash_op_effect r op s s1 Hs) as He. rewrite Hr in He.
      rewrite <- He. rewrite Hdk. destruct r'; [by rewrite lookup_insert_eq|by rewrite lookup_delete_eq].
  - simpl. split; [|split].
    + apply wf_maps_write; [|by rewrite lookup_delete_eq]. split.
      * intros k'. destruct (Hdis k') as [?|Hn]; [by left|]. right.
        apply lookup_delete_None. by right.
      * intros k' d [_ Hd]%lookup_delete_Some. auto.
    + intros k' Hne. by rewrite insert_same, delete_same.
    + intros s s1 Hs. rewrite lookup_insert_eq. simpl.
      destruct (ds !! k) as [d|]; simpl in Hs; [by eapply write_after_delta|by injection Hs as ->].
Qed.

Lemma wf_maps_delta ws ds k d :
  wf_maps ws ds -> ws !! k = None -> wf_delta_at k d -> wf_maps ws (<[k := d]> ds).
Proof.
  intros [Hdis Hds] Hk Hd. split.
  - intros k'. destruct (decide (k' = k)) as [->|Hne]; [by left|]. rewrite insert_same by done. auto.
  - intros k' d0 [[-> <-]|[_ H0']]%lookup_insert_Some; [done|auto].
Qed.

(** A delta is applied to the value of a write of the same key. *)
Lemma delta_on_write_composes ws ds k d con data :
  wf_delta_at k d -> wf_maps ws ds -> ds !! k = None -> con = Creation \/ con = Modification ->
  match (new ← apply_bytes d data; Ok (<[k := con new]> ws, ds)) with
  | Ok (ws', ds') =>
      wf_maps ws' ds' /\
      (forall k', k' <> k -> ws' !! k' = ws !! k' /\ ds' !! k' = ds !! k') /\
      (forall s s1, op_effect (con data) s = Some s1 ->
        entry_effect (ws' !! k) (ds' !! k) s = delta_effect d s1)
  | Err _ => forall s s1, op_effect (con data) s = Some s1 -> delta_effect d s1 = None
  end.
Proof.
  intros [Hd Hl] Hwf Hdk Hcon. destruct (apply_bytes d data) as [new|e] eqn:Hnew; simpl.
  - split; [by apply wf_maps_write|]. split; [by split; [apply insert_same|]|].
    intros s s1 Hs. rewrite lookup_insert_eq. simpl.
    pose proof (write_then_delta (con data) d s s1 Hs Hd) as Hw.
    destruct Hcon as [-> | ->]; apply Hw; by rewrite Hnew.
  - intros s s1 Hs. destruct Hcon as [-> | ->], s; simpl in Hs; try discriminate;
      injection Hs as <-; unfold delta_effect; simpl; by rewrite Hnew.
Qed.

Lemma squash_delta_composes ws ds k d :
  wf_delta_at k d -> wf_maps ws ds -> composes delta_effect d ws ds k (squash_delta ws ds k d).
Proof.
  intros Hdk Hwf. pose proof Hdk as [Hd Hl]. pose proof Hwf as [Hdis Hds].
  unfold squash_delta, composes, effect_at. destruct (ws !! k) as [op|] eqn:Hk.
  - destruct (Hdis k) as [?|Hnone]; [congruence|]. rewrite Hnone.
    destruct op as [data|data|]; [by apply (delta_on_write_composes); auto..|].
    intros s s1 Hs. apply (write_then_delta Deletion d s s1 Hs Hd).
  - destruct (ds !! k) as [d1|] eqn:Hd1k; simpl.
    2: { split_and!; [by apply wf_maps_delta|split; [done|by apply insert_same]|].
      intros s s1 [= <-]. by rewrite Hk, lookup_insert_eq. }
    destruct (Hds k d1 Hd1k) as [Hd1 Hl1]. assert (Hll : limit d1 = limit d) by congruence.
    assert (He : forall s s1, delta_effect d1 s = Some s1 -> _)
      by (intros s s1; apply (delta_effect_merge d d1 s s1 Hd1 Hd Hll)).
    destruct (merge_onto d d1) as [d'|e] eqn:Hm; simpl; [|exact He].
    destruct (merge_onto_Ok d d1 d' Hd1 Hd Hll Hm) as (_ & Hwd' & Hld' & _).
    split_and!; [apply wf_maps_delta; [done..|split; [done|congruence]]|split; [done|by apply insert_same]|].
    intros s s1 Hs. rewrite Hk, lookup_insert_eq. simpl. by apply He.
Qed.

(** *** The whole squash *)

Definition ext_effect (c : ChangeSetExt StateKey Event) k : option bytes -> option (option bytes) :=
  effect_at (write_set (change_set c)) (delta_change_set c) k.

Definition wf_ext (c : ChangeSetExt StateKey Event) : Prop :=
  wf_maps (write_set (change_set c)) (delta_change_set c).

Lemma finish_Ok ws ev ds version c :
  finish freeze change_set_ok ws ev ds version = Ok c ->
  write_set (change_set c) = ws /\ events (change_set c) = ev /\ delta_change_set c = ds /\
  gas_feature_version c = version.
Proof.
  unfold finish, ChangeSet_new. intros (fz & Hfz & (cs & Hcs & [= <-])%result_bind_Ok)%result_bind_Ok.
  destruct (freeze ws) as [ws'|] eqn:Hf; [|done]. injection Hfz as ->.
  apply freeze_id in Hf as ->. case_match; [|done]. by injection Hcs as <-.
Qed.

Lemma btree_fst {A} (m : gmap StateKey A) k : k ∉ (btree_iter key_leb m).*1 <-> m !! k = None.
Proof.
  rewrite list_elem_of_fmap. split.
  - intros Hk. destruct (m !! k) as [x|] eqn:Hm; [|done]. exfalso. apply Hk.
    exists (k, x). split; [done|]. by apply btree_iter_elem.
  - intros Hm ([k' x] & -> & Hin). apply btree_iter_elem in Hin. simpl in Hm. congruence.
Qed.

Lemma squash_composes a b c :
  wf_ext a -> wf_ext b -> squash key_leb freeze change_set_ok a b = Ok c ->
  wf_ext c /\ events (change_set c) = events (change_set a) ++ events (change_set b) /\
  forall k s s1, ext_effect a k s = Some s1 -> ext_effect c k s = ext_effect b k s1.
Proof.
  intros Ha Hb. unfold squash, into_inner.
  intros (c1 & ([ws1 ds1] & Hw & Hf1)%result_bind_Ok &
    ([ws2 ds2] & Hd & Hf2)%result_bind_Ok)%result_bind_Ok.
  simpl in Hf1, Hf2. apply finish_Ok in Hf1 as (<- & Hev1 & <- & _). apply finish_Ok in Hf2 as (<- & Hev2 & <- & _).
  pose proof (for_each_composes squash_write op_effect
    (btree_iter key_leb (write_set (change_set b)))
    ltac:(intros; by apply squash_write_composes) (btree_iter_NoDup _ _) _ _ Ha) as Hl1.
  rewrite Hw in Hl1. destruct Hl1 as (Hwf1 & Hsame1 & Heff1).
  assert (Hgood : forall ws ds k d, (k, d) ∈ btree_iter key_leb (delta_change_set b) ->
    wf_maps ws ds -> composes delta_effect d ws ds k (squash_delta ws ds k d)).
  { intros ws ds k d Hin. apply squash_delta_composes. apply btree_iter_elem in Hin.
    by apply Hb. }
  pose proof (for_each_composes squash_delta delta_effect _ Hgood (btree_iter_NoDup _ _) _ _ Hwf1) as Hl2.
  rewrite Hd in Hl2. destruct Hl2 as (Hwf2 & Hsame2 & Heff2).
  split; [done|]. split; [by rewrite Hev2, Hev1|].
  intros k s s1 Hs. unfold ext_effect at 2, effect_at, entry_effect.
  destruct (write_set (change_set b) !! k) as [op|] eqn:Hbw.
  - destruct (proj1 Hb k) as [?|Hbd]; [congruence|].
    destruct (Hsame2 k) as [E1 E2]; [by apply btree_fst|].
    unfold ext_effect, effect_at. rewrite E1, E2. apply (Heff1 k op s s1); [|done].
    by apply btree_iter_elem.
  - destruct (Hsame1 k) as [E1 E2]; [by apply btree_fst|].
    destruct (delta_change_set b !! k) as [d|] eqn:Hbd.
    + apply (Heff2 k d s s1); [by apply btree_iter_elem|].
      unfold effect_at. by rewrite E1, E2.
    + destruct (Hsame2 k) as [E3 E4]; [by apply btree_fst|].
      unfold ext_effect, effect_at. by rewrite E3, E4, E1, E2.
Qed.
End SquashSpec.

(** ** Properties *)

(** C13. Squashing two extended change sets composes them: the result keeps the invariant (no key
    has both a write and a delta), its events are the events in order, and at every key, on
    every stored value the first change set applies to, it does what the first and then the
    second do, writes and deltas alike. *)
Theorem squash_composes_effects `{Bcs128, !Bcs128Laws} {StateKey Event : Type} `{Countable StateKey}
  (key_leb : StateKey -> StateKey -> Prop) `{!RelDecision key_leb}
  (freeze : gmap StateKey WriteOp -> option (gmap StateKey WriteOp))
  (change_set_ok : gmap StateKey WriteOp -> list Event -> Z -> bool)
  (freeze_id : forall ws ws', freeze ws = Some ws' -> ws' = ws) (limits : StateKey -> Z)
  (a b c : ChangeSetExt StateKey Event) (Ha : wf_ext limits a) (Hb : wf_ext limits b)
  (Hc : squash key_leb freeze change_set_ok a b = Ok c) :
  wf_ext limits c /\ events (change_set c) = events (change_set a) ++ events (change_set b) /\
  forall k s s1, ext_effect a k s = Some s1 -> ext_effect c k s = ext_effect b k s1.
Proof. by eapply squash_composes. Qed.

Import LittleEndian.

(** A session that modifies key 0, and one that adds 7 to key 0 and to key 1. *)
Definition example_first : ChangeSetExt nat nat :=
  {| delta_change_set := ∅;
     change_set := {| write_set := {[0%nat := Modification (encode 16 5)]};
                      events := [1%nat] |};
     gas_feature_version := 1 |}.
Definition example_second : ChangeSetExt nat nat :=
  {| delta_change_set := {[0%nat := new (Plus 7) 100 7 0; 1%nat := new (Plus 7) 100 7 0]};
     change_set := {| write_set := ∅; events := [2%nat] |};
     gas_feature_version := 1 |}.

Lemma squash_composes_effects_witness :
  let r := {| delta_change_set := {[1%nat := new (Plus 7) 100 7 0]};
              change_set := {| write_set := {[0%nat := Modification (encode 16 12)]};
                               events := [1%nat; 2%nat] |};
              gas_feature_version := 1 |} : ChangeSetExt nat nat in
  squash le Some (fun _ _ _ => true) example_first example_second = Ok r /\
  wf_ext (fun _ => 100) r.
Proof.
  intros r.
  assert (Hs : squash le Some (fun _ _ _ => true) example_first example_second = Ok r)
    by (vm_compute; reflexivity).
  split; [exact Hs|].
  refine (proj1 (squash_composes_effects le Some (fun _ _ _ => true) _ (fun _ => 100)
                   example_first example_second r _ _ Hs)).
  - intros ws ws' [= ->]. done.
  - split; intros k; simpl; [right; apply lookup_empty|]. intros d. by rewrite lookup_empty.
  - split; intros k; simpl; [left; apply lookup_empty|].
    intros d [[_ <-]|[_ [_ <-]%lookup_singleton_Some]]%lookup_insert_Some;
      (split; [vm_compute; intuition discriminate|done]).
Defined.
