(* ===== verification/MVMap.v ===== *)
(** * The multi-version data structure ([mvhashmap/src/lib.rs])

    [MVHashMap] keeps, for every key, the entries of the transactions that wrote it: a full
    write with the incarnation that made it, or a delta.  An entry may be flagged as an
    estimate.  A read at index [i] goes down from the highest entry below [i].

    The DashMap of the code gives a method exclusive access to the tree of its key, so each
    method is one function of the state; a tree is a [gmap] iterated in the order of its
    keys, as a [BTreeMap] is. *)
From S2P Require Import Prelude Delta ChangeSetExt.

Abbreviation TxnIndex := nat.
Abbreviation Incarnation := nat.
Abbreviation Version := (nat * nat)%type.

Definition FLAG_DONE : Z := 0.
Definition FLAG_ESTIMATE : Z := 1.

(** The content of a single entry. *)
Inductive EntryCell (V : Type) :=
  | EWrite (incarnation : Incarnation) (data : V)
  | EDelta (d : DeltaOp).
Arguments EWrite {V} incarnation data.
Arguments EDelta {V} d.

(** Every entry has an "estimate" flag and some content. *)
Record Entry (V : Type) := { flag : Z; cell : EntryCell V }.
Arguments flag {V} _.
Arguments cell {V} _.
Arguments Build_Entry {V} _ _.

#[export] Instance EntryCell_eq_dec {V} `{EqDecision V} : EqDecision (EntryCell V).
Proof. solve_decision. Defined.
#[export] Instance Entry_eq_dec {V} `{EqDecision V} : EqDecision (Entry V).
Proof. solve_decision. Defined.

Definition new_write_from {V} (f : Z) (incarnation : Incarnation) (data : V) : Entry V :=
  {| flag := f; cell := EWrite incarnation data |}.
Definition new_delta_from {V} (f : Z) (data : DeltaOp) : Entry V :=
  {| flag := f; cell := EDelta data |}.
Definition entry_mark_estimate {V} (e : Entry V) : Entry V :=
  {| flag := FLAG_ESTIMATE; cell := cell e |}.

(** Returned as [Err(..)] when failed to read from the multi-version data-structure. *)
Inductive MVHashMapError :=
  | NotFound
  | Unresolved (d : DeltaOp)
  | Dependency (idx : TxnIndex)
  | DeltaApplicationFailure.

(** Returned as [Ok(..)] when read successfully. *)
Inductive MVHashMapOutput (V : Type) :=
  | Resolved (value : Z)
  | RVersion (version : Version) (data : V).
Arguments Resolved {V} value.
Arguments RVersion {V} version data.

#[export] Instance MVHashMapError_eq_dec : EqDecision MVHashMapError.
Proof. solve_decision. Defined.
#[export] Instance MVHashMapOutput_eq_dec {V} `{EqDecision V} : EqDecision (MVHashMapOutput V).
Proof. solve_decision. Defined.

(** The result of a read; it may also panic. *)
Abbreviation ReadOutput V := (comp MVHashMapError (MVHashMapOutput V)).

Section MVHashMap.
Context `{Bcs128} {K V : Type} `{Countable K} `{TransactionWrite V}.

Abbreviation Tree := (gmap TxnIndex (Entry V)).
Abbreviation MVHashMap := (gmap K Tree).

Definition mv_new : MVHashMap := ∅.

(** Removes the BTreeMap of a key from the map. *)
Definition entry_map_for_key (m : MVHashMap) (key : K) : option Tree * MVHashMap :=
  (m !! key, delete key m).

(** [data.entry(key).or_insert(BTreeMap::new())] *)
Definition tree_of (m : MVHashMap) (key : K) : Tree := default ∅ (m !! key).

(** Add a write of versioned data at a specified key; [None] when the assertion that the
    previous entry has a lower incarnation fails. *)
Definition add_write (m : MVHashMap) (key : K) (version : Version) (data : V)
  : option MVHashMap :=
  let '(txn_idx, incarnation) := version in
  let tree := tree_of m key in
  let prev_entry := tree !! txn_idx in
  let m' := <[key := <[txn_idx := new_write_from FLAG_DONE incarnation data]> tree]> m in
  if match prev_entry with
     | None => true
     | Some entry =>
         match cell entry with
         | EWrite i _ => bool_decide (i < incarnation)%nat
         | EDelta _ => true
         end
     end
  then Some m' else None.

(** Add a delta at a specified key. *)
Definition add_delta (m : MVHashMap) (key : K) (txn_idx : TxnIndex) (delta : DeltaOp)
  : MVHashMap :=
  <[key := <[txn_idx := new_delta_from FLAG_DONE delta]> (tree_of m key)]> m.

(** Mark an entry as an estimated write; [None] is the panic when it does not exist. *)
Definition mark_estimate (m : MVHashMap) (key : K) (txn_idx : TxnIndex) : option MVHashMap :=
  tree ← m !! key;
  entry ← tree !! txn_idx;
  Some (<[key := <[txn_idx := entry_mark_estimate entry]> tree]> m).

(** Delete an entry; [None] is the panic when the path has never been written. *)
Definition mv_delete (m : MVHashMap) (key : K) (txn_idx : TxnIndex) : option MVHashMap :=
  tree ← m !! key;
  Some (<[key := base.delete txn_idx tree]> m).

(** [tree.range(0..txn_idx)], from the back. *)
Definition range_back (tree : Tree) (txn_idx : TxnIndex) : list (TxnIndex * Entry V) :=
  reverse (below tree txn_idx).

(** The loop of [read], over the entries from the highest down. *)
Fixpoint read_loop (iter : list (TxnIndex * Entry V)) (accumulator : option DeltaOp)
  : ReadOutput V :=
  match iter with
  | [] =>
      match accumulator with
      | Some accumulator => Throw (Unresolved accumulator)
      | None => Throw NotFound
      end
  | (idx, entry) :: iter =>
      if bool_decide (flag entry = FLAG_ESTIMATE) then Throw (Dependency idx)
      else if negb (bool_decide (flag entry = FLAG_DONE)) then Panic (* debug_assert! *)
      else
        match cell entry, accumulator with
        | EWrite incarnation data, None => Return (RVersion (idx, incarnation) data)
        | EWrite incarnation data, Some accumulator =>
            maybe_value ← from_write data;
            match maybe_value with
            | None => Return (RVersion (idx, incarnation) data)
            | Some value =>
                result ← lift (map_err (fun _ => DeltaApplicationFailure)
                                 (apply_to accumulator value));
                Return (Resolved result)
            end
        | EDelta delta, Some accumulator =>
            accumulator ← lift (map_err (fun _ => DeltaApplicationFailure)
                                  (merge_onto accumulator delta));
            read_loop iter (Some accumulator)
        | EDelta delta, None => read_loop iter (Some delta)
        end
  end.

(** Read entry from transaction [txn_idx] at access path [key]. *)
Definition read (m : MVHashMap) (key : K) (txn_idx : TxnIndex) : ReadOutput V :=
  match m !! key with
  | Some tree => read_loop (range_back tree txn_idx) None
  | None => Throw NotFound
  end.
End MVHashMap.

(** ** The shape of a read *)

Section ReadLemmas.
Context `{Bcs128} {K V : Type} `{Countable K} `{TransactionWrite V}.
Implicit Types (t : gmap TxnIndex (Entry V)) (n : nat) (m : gmap K (gmap TxnIndex (Entry V))).

Lemma range_back_0 t : range_back t 0 = [].
Proof. unfold range_back. by rewrite below_0. Qed.

Lemma range_back_S t n :
  range_back t (S n) = match t !! n with Some e => [(n, e)] | None => [] end ++ range_back t n.
Proof. unfold range_back. rewrite below_S, reverse_app. by destruct (t !! n). Qed.

Lemma range_back_ext t t' n :
  (forall i, (i < n)%nat -> t !! i = t' !! i) -> range_back t n = range_back t' n.
Proof.
  induction n as [|n IH]; intros He; [by rewrite !range_back_0|].
  rewrite !range_back_S, He by lia. rewrite IH; [done|]. intros i Hi. apply He. lia.
Qed.

(** A read sees a missing tree as an empty one. *)
Lemma read_tree m key n : read m key n = read_loop (range_back (tree_of m key) n) None.
Proof.
  unfold read, tree_of. destruct (m !! key); simpl; [done|].
  unfold range_back, below, btree_iter. by rewrite map_to_list_empty.
Qed.

(** Only the entries below the index matter. *)
Lemma read_ext m m' key n :
  (forall i, (i < n)%nat -> tree_of m key !! i = tree_of m' key !! i) ->
  read m key n = read m' key n.
Proof. intros He. rewrite !read_tree. by rewrite (range_back_ext _ _ _ He). Qed.

Lemma tree_of_insert_eq m key t : tree_of (<[key := t]> m) key = t.
Proof. unfold tree_of. by rewrite lookup_insert_eq. Qed.

Lemma tree_of_insert_ne m key key' t : key <> key' -> tree_of (<[key := t]> m) key' = tree_of m key'.
Proof. intros Hne. unfold tree_of. by rewrite lookup_insert_ne. Qed.

(** An estimate that is reached stops the read; one that is not reached is not seen.
    So replacing an estimate changes a read only if the read was a dependency on it. *)
Lemma read_loop_estimate t t' n j acc e :
  t !! j = Some e -> flag e = FLAG_ESTIMATE -> (forall i, i <> j -> t' !! i = t !! i) ->
  read_loop (range_back t n) acc = Throw (Dependency j) \/
  (read_loop (range_back t' n) acc = read_loop (range_back t n) acc).
Proof.
  intros Hj He Hsame. revert acc. induction n as [|n IH]; intros acc.
  { right. by rewrite !range_back_0. }
  rewrite !range_back_S. destruct (decide (n = j)) as [->|Hne].
  { left. rewrite Hj. simpl. by rewrite He. }
  rewrite Hsame by done. destruct (t !! n) as [[f c]|]; [|apply IH]. simpl.
  destruct (bool_decide (f = FLAG_ESTIMATE)); [by right|].
  destruct (bool_decide (f = FLAG_DONE)); simpl; [|by right].
  destruct c as [inc data|d], acc as [acc|]; simpl; [by right|by right| |apply IH].
  destruct (merge_onto acc d); simpl; [apply IH|by right].
Qed.

(** Replacing what was not an entry below the index ... is seen only from above. *)
Lemma read_other_index t t' n j acc :
  (n <= j)%nat -> (forall i, i <> j -> t' !! i = t !! i) ->
  read_loop (range_back t' n) acc = read_loop (range_back t n) acc.
Proof.
  intros Hn Hsame. rewrite (range_back_ext t' t); [done|]. intros i Hi. apply Hsame. lia.
Qed.

(** A version that is read is the one in the map. *)
Lemma read_loop_version t n : forall acc i inc data,
  read_loop (range_back t n) acc = Return (RVersion (i, inc) data) ->
  (i < n)%nat /\ t !! i = Some {| flag := FLAG_DONE; cell := EWrite inc data |}.
Proof.
  induction n as [|n IH]; intros acc i inc data.
  { rewrite range_back_0. simpl. by destruct acc. }
  rewrite range_back_S. destruct (t !! n) as [[f c]|] eqn:Hn; simpl.
  2: { intros Hr. apply IH in Hr as [? ?]. split; [lia|done]. }
  case_bool_decide; [done|]. case_bool_decide as Hf; simpl; [|done].
  destruct c as [inc0 data0|d], acc as [acc|]; simpl.
  - intros ([v|] & Hfw & Hr)%comp_bind_Return.
    + apply comp_bind_Return in Hr as (? & _ & [=]).
    + injection Hr as -> -> ->. split; [lia|]. by rewrite Hn, Hf.
  - intros [= -> -> ->]. split; [lia|]. by rewrite Hn, Hf.
  - intros (d' & _ & Hr)%comp_bind_Return. apply IH in Hr as [? ?]. split; [lia|done].
  - intros Hr. apply IH in Hr as [? ?]. split; [lia|done].
Qed.

Lemma read_version m key n i inc data :
  read m key n = Return (RVersion (i, inc) data) ->
  (i < n)%nat /\ tree_of m key !! i = Some {| flag := FLAG_DONE; cell := EWrite inc data |}.
Proof. rewrite read_tree. apply read_loop_version. Qed.

(** A dependency is on a transaction below whose entry is an estimate. *)
Lemma read_loop_dependency t n : forall acc j,
  read_loop (range_back t n) acc = Throw (Dependency j) ->
  (j < n)%nat /\ exists e, t !! j = Some e /\ flag e = FLAG_ESTIMATE.
Proof.
  induction n as [|n IH]; intros acc j.
  { rewrite range_back_0. simpl. by destruct acc. }
  assert (Hstep : forall acc, read_loop (range_back t n) acc = Throw (Dependency j) ->
    (j < S n)%nat /\ exists e, t !! j = Some e /\ flag e = FLAG_ESTIMATE).
  { intros acc' Hr. apply IH in Hr as [? ?]. split; [lia|done]. }
  rewrite range_back_S. destruct (t !! n) as [[f c]|] eqn:Hn; simpl; [|apply Hstep].
  case_bool_decide as Hfl.
  { intros [= ->]. split; [lia|]. eexists. rewrite Hn. split; [done|]. simpl. done. }
  case_bool_decide as Hf; simpl; [|done].
  destruct c as [inc0 data0|d], acc as [acc|]; simpl; [| |  |apply Hstep].
  - unfold from_write. destruct (extract_raw_bytes data0) as [b|]; simpl; [|done].
    destruct (deserialize b); simpl; [|done]. by destruct (apply_to acc z).
  - done.
  - destruct (merge_onto acc d); simpl; [apply Hstep|done].
Qed.

Lemma read_dependency m key n j :
  read m key n = Throw (Dependency j) ->
  (j < n)%nat /\ exists e, tree_of m key !! j = Some e /\ flag e = FLAG_ESTIMATE.
Proof. rewrite read_tree. apply read_loop_dependency. Qed.
End ReadLemmas.

(** ** What a read stops at *)

Section ReadStops.
Context `{Bcs128} {K V : Type} `{Countable K} `{TransactionWrite V}.
Implicit Types (t : gmap TxnIndex (Entry V)) (n : nat) (m : gmap K (gmap TxnIndex (Entry V))).

(** Between [i] and [n] there are only final deltas. *)
Definition only_deltas t i n : Prop :=
  forall j e, (i < j < n)%nat -> t !! j = Some e ->
    flag e = FLAG_DONE /\ exists d, cell e = EDelta d.

Lemma only_deltas_S t i n :
  only_deltas t i n ->
  (forall e, t !! n = Some e -> flag e = FLAG_DONE /\ exists d, cell e = EDelta d) ->
  only_deltas t i (S n).
Proof.
  intros Ho Hn j e Hj He. destruct (decide (j = n)) as [->|Hne]; [by apply Hn|].
  apply (Ho j); [lia|done].
Qed.

(** What a result says of the entry it comes from, and of the entries above it. *)
Definition read_stop t n (acc : option DeltaOp) (r : ReadOutput V) : Prop :=
  match r with
  | Return (RVersion (i, inc) data) =>
      (i < n)%nat /\ t !! i = Some {| flag := FLAG_DONE; cell := EWrite inc data |} /\
      only_deltas t i n
  | Throw (Dependency i) =>
      (i < n)%nat /\ (exists e, t !! i = Some e /\ flag e = FLAG_ESTIMATE) /\ only_deltas t i n
  | Throw NotFound => acc = None /\ forall i, (i < n)%nat -> t !! i = None
  | _ => True
  end.

Lemma read_stop_S t n acc acc' r :
  (forall e, t !! n = Some e -> flag e = FLAG_DONE /\ exists d, cell e = EDelta d) ->
  (acc' = None -> acc = None /\ t !! n = None) ->
  read_stop t n acc' r -> read_stop t (S n) acc r.
Proof.
  intros Hn Hacc. unfold read_stop. destruct r as [[v|[i inc] data]|[|d|i|]|]; try done.
  - intros (? & ? & ?). split; [lia|]. split; [done|]. by apply only_deltas_S.
  - intros [Ha Hnone]. destruct (Hacc Ha) as [-> Htn]. split; [done|]. intros i Hi.
    destruct (decide (i = n)) as [->|]; [done|]. apply Hnone. lia.
  - intros (? & ? & ?). split; [lia|]. split; [done|]. by apply only_deltas_S.
Qed.

Lemma read_stop_here t n acc f inc data :
  t !! n = Some {| flag := f; cell := EWrite inc data |} -> f = FLAG_DONE ->
  read_stop t (S n) acc (Return (RVersion (n, inc) data)).
Proof. intros Hn ->. split; [lia|]. split; [done|]. intros j e Hj. lia. Qed.

Lemma read_loop_stop t n : forall acc, read_stop t n acc (read_loop (range_back t n) acc).
Proof.
  induction n as [|n IH]; intros acc.
  { rewrite range_back_0. destruct acc; simpl; [done|]. split; [done|]. lia. }
  rewrite range_back_S. destruct (t !! n) as [[f c]|] eqn:Hn; simpl.
  2: { apply (read_stop_S t n acc acc); [by rewrite Hn|by rewrite Hn|apply IH]. }
  case_bool_decide as He.
  { split; [lia|]. split; [eauto|]. intros j e Hj. lia. }
  case_bool_decide as Hf; simpl; [|done].
  assert (Hdelta : forall d, c = EDelta d -> forall e, t !! n = Some e ->
    flag e = FLAG_DONE /\ exists d, cell e = EDelta d).
  { intros d -> e. rewrite Hn. intros [= <-]. eauto. }
  destruct c as [inc data|d], acc as [acc|]; simpl.
  - destruct (from_write data) as [[v|]|e|] eqn:Hfw; simpl; [|by apply (read_stop_here _ _ None _ _ _ Hn)| |done].
    + by destruct (apply_to acc v).
    + by apply from_write_no_throw in Hfw.
  - by apply (read_stop_here _ _ None _ _ _ Hn).
  - destruct (merge_onto acc d) as [acc'|]; simpl; [|done].
    apply (read_stop_S t n _ (Some acc')); [by eapply Hdelta|done|apply IH].
  - apply (read_stop_S t n _ (Some d)); [by eapply Hdelta|done|apply IH].
Qed.

Lemma range_back_above t i n :
  (i < n)%nat -> (forall j, (i < j < n)%nat -> t !! j = None) ->
  range_back t n = range_back t (S i).
Proof.
  induction n as [|n IH]; intros Hi Hnone; [lia|].
  destruct (decide (n = i)) as [->|Hne]; [done|].
  rewrite range_back_S, Hnone by lia. apply IH; [lia|]. intros j Hj. apply Hnone. lia.
Qed.
End ReadStops.

(** ** Properties *)

(** A read stops at the right entry: a version it returns is the one of a final write below
    the index, a dependency is on an estimate below it, and in both cases every entry in
    between is a final delta; a read that finds nothing, below which there is no entry. *)
Theorem read_stops_right `{Bcs128} {K V : Type} `{Countable K} `{TransactionWrite V}
  (m : gmap K (gmap TxnIndex (Entry V))) (key : K) (n : TxnIndex) :
  let t := tree_of m key in
  let deltas_between i := forall j e, (i < j < n)%nat -> t !! j = Some e ->
    flag e = FLAG_DONE /\ exists d, cell e = EDelta d in
  match read m key n with
  | Return (RVersion (i, inc) data) =>
      (i < n)%nat /\ t !! i = Some {| flag := FLAG_DONE; cell := EWrite inc data |} /\
      deltas_between i
  | Throw (Dependency i) =>
      (i < n)%nat /\ (exists e, t !! i = Some e /\ flag e = FLAG_ESTIMATE) /\ deltas_between i
  | Throw NotFound => forall i, (i < n)%nat -> t !! i = None
  | _ => True
  end.
Proof.
  cbv zeta. rewrite read_tree. pose proof (read_loop_stop (tree_of m key) n None) as Hs.
  unfold read_stop in Hs. destruct (read_loop _ _) as [[v|[i inc] data]|[|d|i|]|]; tauto.
Qed.

(** What a writer does is what a higher reader sees: with no entry between [i] and [n], a
    read at [n] after a write by [i] gives that write and its version, after an estimate mark
    a dependency on [i], and after a delete what a read at [i] gives; reads of other keys
    and reads at [i] or below never change. *)
Theorem update_visible_above `{Bcs128} {K V : Type} `{Countable K} `{TransactionWrite V}
  (m m1 m2 m3 : gmap K (gmap TxnIndex (Entry V))) (key : K) (i n : TxnIndex) (inc : Incarnation)
  (data : V) (Hi : (i < n)%nat)
  (Hgap : forall j, (i < j < n)%nat -> tree_of m key !! j = None)
  (Hw : add_write m key (i, inc) data = Some m1)
  (He : mark_estimate m1 key i = Some m2) (Hdel : mv_delete m2 key i = Some m3) :
  read m1 key n = Return (RVersion (i, inc) data) /\
  read m2 key n = Throw (Dependency i) /\
  read m3 key n = read m key i /\
  forall key' n', key' <> key \/ (n' <= i)%nat ->
    read m1 key' n' = read m key' n' /\ read m2 key' n' = read m key' n' /\
    read m3 key' n' = read m key' n'.
Proof.
  unfold add_write in Hw. case_match; [|done]. injection Hw as <-.
  unfold mark_estimate in He. rewrite lookup_insert_eq in He. simpl in He.
  rewrite lookup_insert_eq in He. simpl in He. injection He as <-.
  unfold mv_delete in Hdel. rewrite lookup_insert_eq in Hdel. simpl in Hdel. injection Hdel as <-.
  split; [|split; [|split]].
  - rewrite read_tree, tree_of_insert_eq, (range_back_above _ i).
    + rewrite range_back_S, lookup_insert_eq. done.
    + done.
    + intros j Hj. rewrite lookup_insert_ne by lia. auto.
  - rewrite read_tree, tree_of_insert_eq, (range_back_above _ i).
    + rewrite range_back_S, lookup_insert_eq. done.
    + done.
    + intros j Hj. rewrite !lookup_insert_ne by lia. auto.
  - rewrite !read_tree, tree_of_insert_eq, (range_back_above _ i).
    + rewrite range_back_S, lookup_delete_eq. simpl. f_equal. apply range_back_ext.
      intros j Hj. rewrite lookup_delete_ne, !lookup_insert_ne by lia. done.
    + done.
    + intros j Hj. rewrite lookup_delete_ne, !lookup_insert_ne by lia. auto.
  - intros key' n' Hor.
    assert (Hsame : forall t, (forall j, j <> i -> t !! j = tree_of m key !! j) ->
      read (<[key := t]> m) key' n' = read m key' n').
    { intros t Ht. apply read_ext. intros j Hj. destruct (decide (key' = key)) as [->|Hne].
      - rewrite tree_of_insert_eq. destruct Hor; [done|]. apply Ht. lia.
      - by rewrite tree_of_insert_ne. }
    rewrite !insert_insert_eq.
    split; [|split]; apply Hsame; intros j Hj; rewrite ?lookup_delete_ne, ?lookup_insert_ne by lia; done.
Qed.

#[local] Instance option_write : TransactionWrite (option bytes) := fun v => v.

Lemma update_visible_above_witness :
  exists m1 m2 m3 : gmap nat (gmap TxnIndex (Entry (option bytes))),
    add_write ∅ 7%nat (1%nat, 2%nat) None = Some m1 /\ mark_estimate m1 7%nat 1%nat = Some m2 /\
    mv_delete m2 7%nat 1%nat = Some m3 /\
    read (H := LittleEndian.le_bcs) m1 7%nat 5%nat = Return (RVersion (1%nat, 2%nat) None).
Proof.
  eexists _, _, _. do 3 (split; [vm_compute; reflexivity|]).
  refine (proj1 (update_visible_above ∅ _ _ _ 7%nat 1%nat 5%nat 2%nat None _ _
                   eq_refl eq_refl eq_refl)); [lia|].
  intros j _. done.
Defined.
