(* ===== verification/Resolver.v ===== *)
(** * Resolving the deltas of a block
    ([parallel-executor/src/output_delta_resolver.rs])

    After the block, every delta is materialised: for each key the entries are traversed from
    the lowest transaction up, starting from the value in storage.  The theorems relate that
    forward pass to the backward reads of the multi-version map: both give the value that the
    transactions below produce in order. *)
From S2P Require Import Prelude Delta ChangeSetExt MVMap.

Section Resolve.
Context `{Bcs128} {K V : Type} `{Countable K} `{TransactionWrite V}.
Abbreviation Tree := (gmap TxnIndex (Entry V)).
Abbreviation MVHashMap := (gmap K Tree).
Abbreviation Outputs := (list (list (K * WriteOp))).

(** [storage_val.ok().map(|value| value.map(|bytes| deserialize(&bytes)))], flattened. *)
Definition initial_value (storage_val : option (option bytes)) : comp Empty_set (option Z) :=
  match storage_val with
  | None | Some None => Return None
  | Some (Some b) => v ← expect (deserialize b); Return (Some v)
  end.

(** [ret[idx].push((key, op))]; indexing out of bounds panics. *)
Definition push_output (ret : Outputs) (idx : TxnIndex) (key : K) (op : WriteOp)
  : comp Empty_set Outputs :=
  l ← expect (ret !! idx); Return (<[idx := l ++ [(key, op)]]> ret).

(** The body of the loop over the entries of a key. *)
Definition resolve_entry (key : K) (idx : TxnIndex) (entry : Entry V)
  (st : option Z * Outputs) : comp Empty_set (option Z * Outputs) :=
  let '(latest_value, ret) := st in
  match cell entry with
  | EWrite _ data =>
      latest ← from_write data; Return (latest, ret)
  | EDelta delta =>
      base ← expect latest_value;
      aggregator_value ← expect (ok (apply_to delta base));
      out ← expect (serialize aggregator_value);
      ret ← push_output ret idx key (Modification out);
      Return (Some aggregator_value, ret)
  end.

Fixpoint resolve_entries (key : K) (l : list (TxnIndex * Entry V))
  (st : option Z * Outputs) : comp Empty_set (option Z * Outputs) :=
  match l with
  | [] => Return st
  | (idx, entry) :: l => st ← resolve_entry key idx entry st; resolve_entries key l st
  end.

(** The body of the outer loop: one aggregator key. *)
Definition resolve_key (key : K) (storage_val : option (option bytes))
  (st : MVHashMap * Outputs) : comp Empty_set (MVHashMap * Outputs) :=
  let '(versioned_outputs, ret) := st in
  latest_value ← initial_value storage_val;
  let '(tree, rest) := entry_map_for_key versioned_outputs key in
  indexed_entries ← expect tree;
  r ← resolve_entries key (btree_iter Nat.le indexed_entries) (latest_value, ret);
  Return (rest, r.2).

Fixpoint resolve_keys (l : list (K * option (option bytes))) (st : MVHashMap * Outputs)
  : comp Empty_set (MVHashMap * Outputs) :=
  match l with
  | [] => Return st
  | (key, storage_val) :: l => st ← resolve_key key storage_val st; resolve_keys l st
  end.

Definition resolve (versioned_outputs : MVHashMap)
  (aggregator_keys : list (K * option (option bytes))) (block_size : nat)
  : comp Empty_set Outputs :=
  st ← resolve_keys aggregator_keys (versioned_outputs, replicate block_size []);
  Return st.2.
End Resolve.

(** ** The forward pass, and reads against it *)

Section Forward.
Context `{Bcs128, !Bcs128Laws} {K V : Type} `{Countable K} `{TransactionWrite V}.
Implicit Types (t : gmap TxnIndex (Entry V)) (n : nat).

(** The value after an entry, without the outputs. *)
Definition forward_entry (latest : option Z) (entry : Entry V) : comp Empty_set (option Z) :=
  match cell entry with
  | EWrite _ data => from_write data
  | EDelta delta =>
      base ← expect latest; v ← expect (ok (apply_to delta base)); Return (Some v)
  end.

(** The value that the transactions below [n] leave, from the value in storage. *)
Fixpoint forward t (storage : option Z) n : comp Empty_set (option Z) :=
  match n with
  | O => Return storage
  | S n =>
      latest ← forward t storage n;
      match t !! n with Some e => forward_entry latest e | None => Return latest end
  end.

(** Every entry below [n] is final, with a well-formed delta of the given limit. *)
Definition final_below (lim : Z) t n : Prop :=
  forall i e, (i < n)%nat -> t !! i = Some e ->
    flag e = FLAG_DONE /\
    match cell e with EDelta d => wf d /\ limit d = lim | EWrite _ _ => True end.

Lemma forward_u128 lim t n storage v :
  from_option is_u128 True storage -> final_below lim t n ->
  forward t storage n = Return (Some v) -> is_u128 v.
Proof.
  intros Hs. revert v. induction n as [|n IH]; intros v Hf; simpl.
  { intros [= ->]. done. }
  intros (latest & Hl & Hr)%comp_bind_Return.
  assert (Hf' : final_below lim t n) by (intros i e Hi; apply Hf; lia).
  destruct (t !! n) as [e|] eqn:Hn; [|injection Hr as ->; by apply IH].
  destruct (Hf n e ltac:(lia) Hn) as [_ Hd]. unfold forward_entry in Hr.
  destruct (cell e) as [inc data|d]; [by eapply from_write_u128|].
  destruct latest as [b|]; simpl in Hr; [|done].
  destruct (apply_to d b) as [x|] eqn:Hx; simpl in Hr; [|done]. injection Hr as <-.
  eapply apply_to_u128; [apply Hd|by apply IH|done].
Qed.

(** What a read with an accumulated delta may answer, given the value [latest] below. *)
Definition read_spec (lim : Z) (storage : option Z) (acc : option DeltaOp) (latest : option Z)
  (r : ReadOutput V) : Prop :=
  let value d := x ← latest; ok (apply_to d x) in
  match r, acc with
  | Return (Resolved v), Some d => value d = Some v
  | Return (Resolved v), None => latest = Some v
  | Return (RVersion _ data), None => from_write (E := Empty_set) data = Return latest
  | Return (RVersion _ data), Some _ => latest = None
  | Throw (Unresolved u), Some d =>
      wf u /\ limit u = lim /\ (b ← storage; ok (apply_to u b)) = value d
  | Throw (Unresolved u), None =>
      wf u /\ limit u = lim /\ (b ← storage; ok (apply_to u b)) = latest
  | Throw NotFound, None => latest = storage
  | Throw DeltaApplicationFailure, Some d => value d = None
  | _, _ => False
  end.

Lemma read_loop_forward lim t storage n :
  from_option is_u128 True storage ->
  forall acc latest,
    final_below lim t n -> forward t storage n = Return latest ->
    match acc with Some d => wf d /\ limit d = lim | None => True end ->
    read_spec lim storage acc latest (read_loop (range_back t n) acc).
Proof.
  intros Hs. induction n as [|n IH]; intros acc latest Hf Hfw Hacc.
  { rewrite range_back_0. simpl in *. injection Hfw as ->.
    destruct acc as [d|]; simpl; [|done]. by destruct Hacc. }
  assert (Hf' : final_below lim t n) by (intros i e Hi; apply Hf; lia).
  simpl in Hfw. apply comp_bind_Return in Hfw as (below & Hb & Hfw).
  rewrite range_back_S. destruct (t !! n) as [e|] eqn:Hn.
  2: { injection Hfw as <-. by apply IH. }
  destruct (Hf n e ltac:(lia) Hn) as [Hfl Hd]. simpl.
  rewrite Hfl. simpl. unfold forward_entry in Hfw.
  destruct (cell e) as [inc data|delta] eqn:Hcell.
  - destruct acc as [acc|]; simpl; [|done].
    rewrite (from_write_any _ _ Hfw). simpl. destruct latest as [v|]; simpl; [|done].
    destruct (apply_to acc v) as [r|] eqn:Hr; simpl; by rewrite Hr.
  - destruct below as [b|]; simpl in Hfw; [|done].
    destruct (apply_to delta b) as [x|] eqn:Hx; simpl in Hfw; [|done]. injection Hfw as <-.
    assert (Hbu : is_u128 b) by (by eapply forward_u128).
    destruct acc as [acc|]; simpl.
    + destruct Hacc as [Hwa Hla], Hd as [Hwd Hld].
      assert (Hll : limit delta = limit acc) by congruence.
      pose proof (merge_compose acc delta b Hwd Hwa Hll Hbu) as Hm. rewrite Hx in Hm. simpl in Hm.
      destruct (merge_onto acc delta) as [acc'|err] eqn:Hmo; simpl in *; [|done].
      destruct (merge_onto_Ok acc delta acc' Hwd Hwa Hll Hmo) as (_ & Hwf & Hlim & _).
      assert (Hacc' : wf acc' /\ limit acc' = lim) by (split; [done|congruence]).
      pose proof (IH (Some acc') (Some b) Hf' Hb Hacc') as Hr.
      destruct (read_loop (range_back t n) (Some acc')) as [[v|ver data]|[|u|j|]|]; simpl in *;
        try done; by rewrite <- Hm.
    + pose proof (IH (Some delta) (Some b) Hf' Hb Hd) as Hr.
      destruct (read_loop (range_back t n) (Some delta)) as [[v|ver data]|[|u|j|]|]; simpl in *;
        rewrite ?Hx in Hr; simpl in Hr; try done.
Qed.

(** A read at [n] of a tree that is final below [n] answers with the forward value. *)
Lemma read_forward lim (m : gmap K (gmap TxnIndex (Entry V))) key storage n latest :
  from_option is_u128 True storage -> final_below lim (tree_of m key) n ->
  forward (tree_of m key) storage n = Return latest ->
  read_spec lim storage None latest (read m key n).
Proof. intros Hs Hf Hfw. rewrite read_tree. by apply read_loop_forward. Qed.

(** ** The outputs of the resolver *)

(** The writes pushed for [key] at index [idx]: the value after a delta. *)
Definition pushed_at (key : K) t (storage : option Z) (idx : nat) : list (K * WriteOp) :=
  match t !! idx with
  | Some {| flag := _; cell := EDelta _ |} =>
      match forward t storage (S idx) with
      | Return (Some v) =>
          match serialize v with Some out => [(key, Modification out)] | None => [] end
      | _ => []
      end
  | _ => []
  end.

Lemma resolve_entries_app (key : K) (l1 l2 : list (nat * Entry V)) : forall st,
  resolve_entries key (l1 ++ l2) st = (st ← resolve_entries key l1 st; resolve_entries key l2 st).
Proof.
  induction l1 as [|[i e] l1 IH]; intros st; simpl; [done|].
  destruct (resolve_entry key i e st); simpl; [apply IH|done|done].
Qed.

Definition appended (f : nat -> list (K * WriteOp)) (ret ret' : list (list (K * WriteOp))) : Prop :=
  length ret' = length ret /\ forall i l, ret !! i = Some l -> ret' !! i = Some (l ++ f i).

Lemma resolve_entries_spec lim (key : K) t storage ret n : forall latest,
  from_option is_u128 True storage -> final_below lim t n -> (n <= length ret)%nat ->
  forward t storage n = Return latest ->
  exists ret', resolve_entries key (below t n) (storage, ret) = Return (latest, ret') /\
    appended (fun i => if decide (i < n)%nat then pushed_at key t storage i else []) ret ret'.
Proof.
  induction n as [|n IH]; intros latest Hs Hf Hn Hfw.
  { rewrite below_0. injection Hfw as ->. exists ret. split; [done|].
    split; [done|]. intros i l Hi. cbn beta. rewrite decide_False by lia. by rewrite app_nil_r. }
  assert (Hf' : final_below lim t n) by (intros i e Hi; apply Hf; lia).
  pose proof Hfw as Hfw0. simpl in Hfw. apply comp_bind_Return in Hfw as (before & Hb & Hfw).
  destruct (IH before Hs Hf' ltac:(lia) Hb) as (ret1 & Hr1 & Hlen1 & Hat1).
  cbn beta in Hat1. rewrite below_S, resolve_entries_app, Hr1. cbn [mbind comp_bind].
  assert (Hsplit : forall i l, ret !! i = Some l -> i <> n ->
    ret1 !! i = Some (l ++ (if decide (i < S n)%nat then pushed_at key t storage i else []))).
  { intros i l Hi Hne. rewrite (Hat1 _ _ Hi).
    destruct (decide (i < n)%nat), (decide (i < S n)%nat); done || lia. }
  destruct (t !! n) as [[fl c]|] eqn:Htn.
  2: { injection Hfw as ->. exists ret1. split; [done|]. split; [done|]. intros i l Hi. cbn beta.
    destruct (decide (i = n)) as [->|Hne]; [|by apply Hsplit].
    rewrite (Hat1 _ _ Hi), decide_False, decide_True by lia.
    unfold pushed_at. by rewrite Htn. }
  simpl. destruct c as [inc data|delta]; unfold forward_entry in Hfw; simpl in Hfw |- *.
  - rewrite Hfw. simpl. exists ret1. split; [done|]. split; [done|]. intros i l Hi. cbn beta.
    destruct (decide (i = n)) as [->|Hne]; [|by apply Hsplit].
    rewrite (Hat1 _ _ Hi), decide_False, decide_True by lia.
    unfold pushed_at. by rewrite Htn.
  - destruct before as [b|]; simpl in Hfw |- *; [|done].
    destruct (apply_to delta b) as [v|] eqn:Hv; simpl in Hfw |- *; [|done].
    injection Hfw as <-.
    assert (Hvu : is_u128 v) by (by eapply (forward_u128 lim t (S n))).
    destruct (bcs_roundtrip v Hvu) as (out & Hout & _).
    unfold serialize at 1. rewrite Hout. simpl.
    destruct (lookup_lt_is_Some_2 ret1 n) as [ln Hln]; [lia|].
    unfold push_output. rewrite Hln. simpl.
    eexists. split; [done|]. split; [by rewrite length_insert|]. intros i l Hi. cbn beta.
    destruct (decide (i = n)) as [->|Hne].
    + rewrite list_lookup_insert_eq by lia. rewrite decide_True by lia.
      pose proof (Hat1 _ _ Hi) as Hl. rewrite decide_False, app_nil_r in Hl by lia.
      assert (l = ln) as -> by congruence.
      unfold pushed_at. rewrite Htn, Hfw0. unfold serialize. by rewrite Hout.
    + rewrite list_lookup_insert_ne by done. by apply Hsplit.
Qed.

(** The hypotheses on one aggregator key of the block. *)
Definition key_ready (m : gmap K (gmap TxnIndex (Entry V))) (block_size : nat)
  (key : K) (storage_val : option (option bytes)) (storage : option Z) : Prop :=
  exists t lim latest,
    m !! key = Some t /\ (forall i, is_Some (t !! i) -> (i < block_size)%nat) /\
    initial_value storage_val = Return storage /\ final_below lim t block_size /\
    forward t storage block_size = Return latest.

Lemma initial_value_u128 storage_val storage :
  initial_value storage_val = Return storage -> from_option is_u128 True storage.
Proof.
  destruct storage_val as [[b|]|]; simpl; [|by intros [= <-]..].
  unfold deserialize. destruct (bcs_from_bytes b) as [v|] eqn:Hb; simpl; [|done].
  intros [= <-]. simpl. by eapply bcs_from_bytes_range.
Qed.

Definition pushed_key (m : gmap K (gmap TxnIndex (Entry V))) (x : K * option (option bytes))
  (idx : nat) : list (K * WriteOp) :=
  match initial_value x.2 with
  | Return storage => pushed_at x.1 (tree_of m x.1) storage idx
  | _ => []
  end.

Lemma resolve_key_spec m block_size key sv storage ret :
  key_ready m block_size key sv storage -> length ret = block_size ->
  exists ret', resolve_key key sv (m, ret) = Return (base.delete key m, ret') /\
    appended (pushed_key m (key, sv)) ret ret'.
Proof.
  intros (t & lim & latest & Hm & Hbound & Hiv & Hf & Hfw) Hlen.
  unfold resolve_key, entry_map_for_key. rewrite Hiv. simpl. rewrite Hm. simpl.
  rewrite (btree_iter_below t block_size) by done.
  destruct (resolve_entries_spec lim key t storage ret block_size latest) as (ret' & Hr & Hl & Hat);
    [by eapply initial_value_u128|done|lia|done|].
  rewrite Hr. simpl. exists ret'. split; [done|]. split; [done|]. intros i l Hi.
  rewrite (Hat _ _ Hi). cbn beta. rewrite decide_True by (apply lookup_lt_Some in Hi; lia).
  unfold pushed_key, tree_of. simpl. by rewrite Hiv, Hm.
Qed.

Lemma resolve_keys_spec block_size (l : list (K * option (option bytes))) : forall m ret,
  NoDup l.*1 ->
  (forall key sv, (key, sv) ∈ l -> exists storage, key_ready m block_size key sv storage) ->
  length ret = block_size ->
  exists m' ret', resolve_keys l (m, ret) = Return (m', ret') /\
    appended (fun i => l ≫= fun x => pushed_key m x i) ret ret'.
Proof.
  induction l as [|[key sv] l IH]; intros m ret Hnd Hready Hlen.
  { exists m, ret. split; [done|]. split; [done|]. intros i l' Hi. by rewrite app_nil_r. }
  apply NoDup_cons in Hnd as [Hni Hnd].
  destruct (Hready key sv (list_elem_of_here _ _)) as (storage & Hk).
  destruct (resolve_key_spec m block_size key sv storage ret Hk Hlen) as (ret1 & Hr1 & Hl1 & Hat1).
  assert (Hne : forall key' sv', (key', sv') ∈ l -> key' <> key).
  { intros key' sv' Hin ->. apply Hni. apply list_elem_of_fmap. by exists (key, sv'). }
  destruct (IH (base.delete key m) ret1 Hnd) as (m' & ret' & Hr & Hl & Hat); [|lia|].
  { intros key' sv' Hin. destruct (Hready key' sv' (list_elem_of_further _ _ _ Hin)) as (st & t & Hst).
    exists st, t. rewrite lookup_delete_ne by (symmetry; eauto). done. }
  exists m', ret'. cbn [resolve_keys]. rewrite Hr1. split; [done|]. split; [lia|].
  intros i l' Hi. rewrite (Hat _ _ (Hat1 _ _ Hi)), <- app_assoc. cbn beta.
  change (((key, sv) :: l) ≫= (fun x => pushed_key m x i))
    with (pushed_key m (key, sv) i ++ (l ≫= fun x => pushed_key m x i)).
  do 3 f_equal.
  assert (Hext : forall l0, (forall x, x ∈ l0 -> x.1 <> key) ->
    (l0 ≫= fun x => pushed_key (base.delete key m) x i) = (l0 ≫= fun x => pushed_key m x i)).
  { induction l0 as [|x l0 IHl]; intros Hx; [done|]. cbn. rewrite IHl by (intros; apply Hx; by right).
    f_equal. unfold pushed_key, tree_of. by rewrite lookup_delete_ne by (symmetry; apply Hx; left). }
  apply Hext. intros [key' sv'] Hin. by eapply Hne.
Qed.

Lemma resolve_spec m (keys : list (K * option (option bytes))) block_size :
  NoDup keys.*1 ->
  (forall key sv, (key, sv) ∈ keys -> exists storage, key_ready m block_size key sv storage) ->
  exists ret, resolve m keys block_size = Return ret /\ length ret = block_size /\
    forall idx, (idx < block_size)%nat -> ret !! idx = Some (keys ≫= fun x => pushed_key m x idx).
Proof.
  intros Hnd Hready.
  destruct (resolve_keys_spec block_size keys m (replicate block_size []) Hnd Hready)
    as (m' & ret & Hr & Hl & Hat); [apply length_replicate|].
  unfold resolve. rewrite Hr. exists ret. split; [done|].
  rewrite length_replicate in Hl. split; [done|]. intros idx Hidx.
  rewrite (Hat idx []); [done|]. by apply lookup_replicate_2.
Qed.
End Forward.

(** ** Properties *)

(** C14. The backward, merging read agrees with running the transactions forward: when every entry
    below the index is final and [latest] is the value they produce in order from the value in
    storage, the read returns that value, as a resolved integer, as the version that wrote
    it, or as an unresolved delta (resp. nothing) whose application to the value in storage
    (resp. which) gives it; it never reports a dependency or a failing delta. *)
Theorem read_matches_forward `{Bcs128, !Bcs128Laws} {K V : Type} `{Countable K} `{TransactionWrite V}
  (m : gmap K (gmap TxnIndex (Entry V))) (key : K) (n : TxnIndex) (lim : Z)
  (storage latest : option Z) (Hs : from_option is_u128 True storage)
  (Hf : final_below lim (tree_of m key) n)
  (Hl : forward (tree_of m key) storage n = Return latest) :
  match read m key n with
  | Return (Resolved v) => latest = Some v
  | Return (RVersion _ data) => from_write (E := Empty_set) data = Return latest
  | Throw (Unresolved u) => (b ← storage; ok (apply_to u b)) = latest
  | Throw NotFound => latest = storage
  | Throw (Dependency _) | Throw DeltaApplicationFailure | Panic => False
  end.
Proof.
  pose proof (read_forward lim m key storage n latest Hs Hf Hl) as Hr. unfold read_spec in Hr.
  destruct (read m key n) as [[v|ver data]|[|u|j|]|]; tauto.
Qed.

Import LittleEndian.
#[local] Instance option_write : TransactionWrite (option bytes) := fun v => v.

(** Transaction 0 writes 5; transactions 1 and 2 add 7 each. *)
Definition example_tree : gmap TxnIndex (Entry (option bytes)) :=
  list_to_map [(0%nat, new_write_from FLAG_DONE 0%nat (to_bytes 5));
               (1%nat, new_delta_from FLAG_DONE (new (Plus 7) 100 7 0));
               (2%nat, new_delta_from FLAG_DONE (new (Plus 7) 100 7 0))].
Definition example_map : gmap nat (gmap TxnIndex (Entry (option bytes))) := {[9%nat := example_tree]}.

Lemma example_final : final_below 100 example_tree 3.
Proof.
  intros i e _ He. apply elem_of_list_to_map_2 in He.
  repeat (apply elem_of_cons in He as [[= -> ->]|He];
          [split; [reflexivity|]; vm_compute; intuition discriminate|]).
  by apply elem_of_nil in He.
Defined.

Lemma read_matches_forward_witness :
  read example_map 9%nat 3%nat = Return (Resolved 19) /\ Some 19 = Some 19.
Proof.
  assert (Hr : read example_map 9%nat 3%nat = Return (Resolved 19)) by (vm_compute; reflexivity).
  assert (Ht : tree_of example_map 9%nat = example_tree) by (vm_compute; reflexivity).
  split; [exact Hr|].
  pose proof (read_matches_forward example_map 9%nat 3%nat 100 None (Some 19) I) as Hm.
  rewrite Ht, Hr in Hm. apply Hm; [exact example_final|vm_compute; reflexivity].
Defined.


