(* ===== verification/Conc.v ===== *)
(** * Threads over shared state

    The parallel executor is a pool of threads that run the same loop over atomics, mutexes and
    concurrent maps.  A thread is a [prog]: a sequence of atomic actions on the shared state,
    with binding and loops.  [tstep] runs one action of one thread, [pool_step] interleaves
    the threads of a pool, [play] does so by a schedule, and [exec] runs one thread alone.

    [wp] is a program logic for the pool: an invariant relates a world and the shared state to
    one ghost value per thread, every atomic action must preserve it (and must not panic) and
    change the state as [Steps] allows, a thread may wait only where its ghost value allows it,
    and a loop has a loop invariant.  [pool_sound] is its soundness for every interleaving,
    [pool_steps] tells how the state changes, and [pool_stuck] what is known when no thread can
    go on.

    Worlds are ordered: an action makes the world less or leaves it level ([advance]).  An
    iteration of a loop makes it less ([counted]), or polls: then it leaves the thread quiet, and
    has made the world less if all threads were waiting or quiet since its start ([polled],
    [wph]).  [Fair] shows that then every fair run of the pool ends. *)
From S2P Require Import Prelude.
From stdpp Require Import relations.

(** An atomic action returns and updates the state, waits (a held lock, a condition variable),
    or panics. *)
Inductive outcome (S A : Type) : Type :=
  | Go (a : A) (s : S)
  | Wait
  | Crash.
Arguments Go {S A} a s.
Arguments Wait {S A}.
Arguments Crash {S A}.

Inductive prog (S : Type) : Type -> Type :=
  | Ret {A} (a : A) : prog S A
  | Atom {A} (f : S -> outcome S A) : prog S A
  | Bind {X A} (p : prog S X) (k : X -> prog S A) : prog S A
  | Iter {I A} (body : I -> prog S (I + A)) (i : I) : prog S A.
Arguments Ret {S A} a.
Arguments Atom {S A} f.
Arguments Bind {S X A} p k.
Arguments Iter {S I A} body i.

(** [x <- p ;; q] and [p ;; q] for programs. *)
Declare Scope prog_scope.
Delimit Scope prog_scope with prog.
Notation "x <- p ;; q" := (Bind p (fun x => q))
  (at level 100, p at next level, right associativity) : prog_scope.
Notation "p ;; q" := (Bind p (fun _ => q))
  (at level 100, right associativity) : prog_scope.

(** ** Elementary actions *)

(** A read of the shared state, an update, and an action that may panic. *)
Definition load {S A} (f : S -> A) : prog S A := Atom (fun s => Go (f s) s).
Definition modify {S} (f : S -> S) : prog S unit := Atom (fun s => Go tt (f s)).
Definition panic {S A} : prog S A := Atom (fun _ => Crash).
Definition expecting {S A} (o : option A) : prog S A :=
  match o with Some a => Ret a | None => panic end.

(** ** One thread *)

Inductive tresult (S A : Type) : Type :=
  | TDone (a : A)
  | TStep (p : prog S A) (s : S)
  | TBlocked
  | TCrash.
Arguments TDone {S A} a.
Arguments TStep {S A} p s.
Arguments TBlocked {S A}.
Arguments TCrash {S A}.

(** The next step of a thread. *)
Fixpoint tstep {S A} (p : prog S A) (s : S) : tresult S A :=
  match p with
  | Ret a => TDone a
  | Atom f =>
      match f s with Go a s' => TStep (Ret a) s' | Wait => TBlocked | Crash => TCrash end
  | Bind p k =>
      match tstep p s with
      | TDone a => TStep (k a) s
      | TStep p' s' => TStep (Bind p' k) s'
      | TBlocked => TBlocked
      | TCrash => TCrash
      end
  | Iter body i =>
      TStep (Bind (body i) (fun r => match r with inl i => Iter body i | inr a => Ret a end)) s
  end.

(** One thread alone, with [fuel] iterations at most for each loop. *)
Inductive eresult (S A : Type) : Type :=
  | EDone (a : A) (s : S)
  | EBlocked
  | ECrash
  | EOutOfFuel.
Arguments EDone {S A} a s.
Arguments EBlocked {S A}.
Arguments ECrash {S A}.
Arguments EOutOfFuel {S A}.

Fixpoint exec (fuel : nat) {S A} (p : prog S A) (s : S) : eresult S A :=
  match p with
  | Ret a => EDone a s
  | Atom f => match f s with Go a s' => EDone a s' | Wait => EBlocked | Crash => ECrash end
  | Bind p k =>
      match exec fuel p s with
      | EDone a s' => exec fuel (k a) s'
      | EBlocked => EBlocked
      | ECrash => ECrash
      | EOutOfFuel => EOutOfFuel
      end
  | Iter body i =>
      (fix loop n i s :=
         match n with
         | O => EOutOfFuel
         | Datatypes.S n =>
             match exec fuel (body i) s with
             | EDone (inl i') s' => loop n i' s'
             | EDone (inr a) s' => EDone a s'
             | EBlocked => EBlocked
             | ECrash => ECrash
             | EOutOfFuel => EOutOfFuel
             end
         end) fuel i s
  end.

(** ** A pool of threads *)

Abbreviation pool S := (list (prog S unit)).

Inductive pool_step {S} : pool S * S -> pool S * S -> Prop :=
  | PoolStep (ps : pool S) (t : nat) p s p' s' :
      ps !! t = Some p -> tstep p s = TStep p' s' ->
      pool_step (ps, s) (<[t := p']> ps, s').

(** Some thread is about to panic. *)
Definition crashing {S} (c : pool S * S) : Prop :=
  exists t p, c.1 !! t = Some p /\ tstep p c.2 = TCrash.

(** Every thread has returned. *)
Definition finished {S} (c : pool S * S) : Prop :=
  Forall (fun p => p = Ret tt) c.1.

(** A pool can take a step or not, and one that cannot only has threads that returned or wait. *)
Definition steps {S A} (p : prog S A) (s : S) : bool :=
  match tstep p s with TStep _ _ => true | _ => false end.

Lemma pool_can_step {S} (c : pool S * S) :
  (exists c', pool_step c c') \/
  (forall t p p' s', c.1 !! t = Some p -> tstep p c.2 <> TStep p' s').
Proof.
  destruct c as [ps s]. simpl.
  destruct (decide (Exists (fun p => steps p s = true) ps)) as [Hex|Hex].
  - left. apply Exists_exists in Hex as (p & (t & Hp)%list_elem_of_lookup & Hs).
    unfold steps in Hs. destruct (tstep p s) as [a|p' s'| |] eqn:Ht; try done.
    exists (<[t := p']> ps, s'). by apply (PoolStep ps t p).
  - right. intros t p p' s' Hp Ht. apply Hex, Exists_exists. exists p.
    split; [by eapply list_elem_of_lookup_2|]. unfold steps. by rewrite Ht.
Qed.

Lemma tstep_done {S A} (p : prog S A) s a : tstep p s = TDone a -> p = Ret a.
Proof.
  destruct p as [A a'|A f|X A p k|I A body i]; simpl.
  - by intros [= ->].
  - by destruct (f s).
  - by destruct (tstep p s).
  - done.
Qed.

(** A schedule names the thread of each step; one that cannot go on is passed over. *)
Fixpoint play {S} (schedule : list nat) (c : pool S * S) : pool S * S :=
  match schedule with
  | [] => c
  | t :: schedule =>
      play schedule
        (match c.1 !! t with
         | Some p => match tstep p c.2 with TStep p' s' => (<[t := p']> c.1, s') | _ => c end
         | None => c
         end)
  end.

Lemma play_reaches {S} schedule : forall c : pool S * S, rtc pool_step c (play schedule c).
Proof.
  induction schedule as [|t schedule IH]; intros [ps s]; simpl; [apply rtc_refl|].
  destruct (ps !! t) as [p|] eqn:Hp; [|apply IH].
  destruct (tstep p s) as [a|p' s'| |] eqn:Ht; [apply IH| |apply IH|apply IH].
  eapply rtc_l; [by apply (PoolStep ps t p s p' s')|apply IH].
Qed.

Lemma play_one {S} t (c : pool S * S) :
  match c.1 !! t with Some p => steps p c.2 | None => false end = true ->
  pool_step c (play [t] c).
Proof.
  destruct c as [ps s]. simpl. destruct (ps !! t) as [p|] eqn:Hp; [|done]. unfold steps.
  destruct (tstep p s) as [a|p' s'| |] eqn:Ht; try done. intros _. by apply (PoolStep ps t p s p' s').
Qed.

(** ** Acting on a part of the state *)

Fixpoint zoom {S T A} (get : T -> S) (put : S -> T -> T) (p : prog S A) : prog T A :=
  match p with
  | Ret a => Ret a
  | Atom f =>
      Atom (fun t => match f (get t) with
                     | Go a s => Go a (put s t) | Wait => Wait | Crash => Crash end)
  | Bind p k => Bind (zoom get put p) (fun x => zoom get put (k x))
  | Iter body i => Iter (fun i => zoom get put (body i)) i
  end.

(** The programs without loops. *)
Fixpoint loopless {S A} (p : prog S A) : Prop :=
  match p with
  | Ret _ | Atom _ => True
  | Bind p k => loopless p /\ forall x, loopless (k x)
  | Iter _ _ => False
  end.

Lemma loopless_zoom {S T A} (get : T -> S) (put : S -> T -> T) (p : prog S A) :
  loopless p -> loopless (zoom get put p).
Proof.
  induction p as [A a|A f|X A p IHp k IHk|I A body IHb i]; simpl; [done..| |done].
  intros [Hp Hk]. split; auto.
Qed.

(** The rest of a loop, after an iteration. *)
Definition next {S I A} (body : I -> prog S (I + A)) (r : I + A) : prog S A :=
  match r with inl i => Iter body i | inr a => Ret a end.

(** ** The program logic *)

Section Logic.
Context {S L W : Type} (Inv : W -> S -> list L -> Prop) (Waits : S -> L -> Prop).
Context (Steps : S -> S -> Prop).
Context (Less Level : W -> W -> Prop) (count : L -> nat) (Quiet : W -> L -> Prop).

(** An action of a thread makes the world less, or leaves it level; then it does not count, and
    the thread goes on waiting, and stays quiet. *)
Definition levels (w : W) (s : S) (l : L) (w' : W) (s' : S) (l' : L) : Prop :=
  Level w' w /\ count l' = count l /\ (Waits s l -> Waits s' l') /\ (Quiet w l -> Quiet w' l').
Definition advance (w : W) (s : S) (l : L) (w' : W) (s' : S) (l' : L) : Prop :=
  Less w' w \/ levels w s l w' s' l'.

(** An atomic action of a thread whose ghost value is [l]: it does not panic, and keeps the
    invariant. *)
Definition action {A} (f : S -> outcome S A) (Q : W -> S -> list L -> W -> A -> L -> Prop) (l : L) : Prop :=
  forall w s ls t, Inv w s ls -> ls !! t = Some l ->
  match f s with
  | Go a s' => Steps s s' /\
      exists w' l', Inv w' s' (<[t := l']> ls) /\ advance w s l w' s' l' /\ Q w s ls w' a l'
  | Wait => Waits s l
  | Crash => False
  end.

(** Nothing has moved: all threads wait or are quiet, and the world is level with [w0]. *)
Definition resting (w : W) (s : S) (ls : list L) : Prop := Forall (fun l => Waits s l \/ Quiet w l) ls.
Definition unmoved (w0 : W) (h : Prop) (w : W) (s : S) (ls : list L) (w' : W) : Prop :=
  h /\ Level w w0 /\ resting w s ls /\ Level w' w.

(** A run of a program without loops, that also tells what is known if nothing has moved: [h]
    holds if nothing has moved so far. *)
Fixpoint wph {A} (w0 : W) (p : prog S A) : Prop -> (Prop -> A -> L -> Prop) -> L -> Prop :=
  match p in prog _ A return Prop -> (Prop -> A -> L -> Prop) -> L -> Prop with
  | Ret a => fun h Q => Q h a
  | Atom f => fun h Q => action f (fun w s ls w' a l' => Q (unmoved w0 h w s ls w') a l')
  | Bind p k => fun h Q => wph w0 p h (fun h' x => wph w0 (k x) h' Q)
  | Iter _ _ => fun _ _ _ => False
  end.

(** After an iteration of a loop with invariant [J]: of one whose iterations count, and of one
    that polls, which must not be in vain. *)
Definition looped {I A} (J : I -> L -> Prop) (Q : A -> L -> Prop) (r : I + A) (l : L) : Prop :=
  match r with inl i => J i l | inr a => Q a l end.
Definition counted {I A} (J : I -> L -> Prop) (Q : A -> L -> Prop) (l0 : L) (r : I + A) (l : L) : Prop :=
  looped J Q r l /\ match r with inl _ => count l <> count l0 | inr _ => True end.
Definition polled {I A} (J : I -> L -> Prop) (Q : A -> L -> Prop) (h : Prop) (r : I + A) (l : L) : Prop :=
  looped J Q r l /\ ~ h /\ match r with inl _ => forall w, Quiet w l | inr _ => True end.

(** From a thread whose ghost value is [l], [p] runs without panic, keeps the invariant at
    each of its atomic actions, and ends with a result and a ghost value in [Q]. *)
Fixpoint wp {A} (p : prog S A) : (A -> L -> Prop) -> L -> Prop :=
  match p in prog _ A return (A -> L -> Prop) -> L -> Prop with
  | Ret a => fun Q => Q a
  | Atom f => fun Q => action f (fun _ _ _ _ => Q)
  | Bind p k => fun Q => wp p (fun x => wp (k x) Q)
  | Iter body i => fun Q l => exists J : _ -> L -> Prop, J i l /\
      ((forall i l0, J i l0 -> wp (body i) (counted J Q l0) l0) \/
       (forall i l0 w0, J i l0 -> wph w0 (body i) True (polled J Q) l0))
  end.

Lemma action_mono {A} (f : S -> outcome S A) (Q Q' : W -> S -> list L -> W -> A -> L -> Prop) l :
  (forall w s ls w' a l', Q w s ls w' a l' -> Q' w s ls w' a l') -> action f Q l -> action f Q' l.
Proof.
  intros HQ Hf w s ls t Hi Hl. specialize (Hf w s ls t Hi Hl).
  destruct (f s); [|done..]. destruct Hf as (? & w' & l' & ? & ? & ?). eauto 10.
Qed.

Lemma wph_mono {A} w0 (p : prog S A) : forall h (Q Q' : Prop -> A -> L -> Prop) l,
  (forall h a l, Q h a l -> Q' h a l) -> wph w0 p h Q l -> wph w0 p h Q' l.
Proof.
  induction p as [A a|A f|X A p IHp k IHk|I A body IHb i]; simpl; intros h Q Q' l HQ; [apply HQ| | |done].
  - apply action_mono. auto.
  - apply IHp. intros h' a l'. by apply IHk.
Qed.

Lemma wp_mono {A} (p : prog S A) : forall (Q Q' : A -> L -> Prop) l,
  (forall a l, Q a l -> Q' a l) -> wp p Q l -> wp p Q' l.
Proof.
  induction p as [A a|A f|X A p IHp k IHk|I A body IHb i]; simpl; intros Q Q' l HQ.
  - apply HQ.
  - apply action_mono. auto.
  - apply IHp. intros a l'. by apply IHk.
  - intros (J & Hj & Hb). exists J. split; [done|].
    assert (Hlp : forall r l, looped J Q r l -> looped J Q' r l) by (intros [i'|a] l'; [done|apply HQ]).
    destruct Hb as [Hb|Hb]; [left|right].
    + intros i' l0 Hj'. eapply IHb; [|by apply Hb]. intros r l' [? ?]. split; auto.
    + intros i' l0 w0 Hj'. eapply wph_mono; [|by apply Hb]. intros h r l' [? ?]. split; auto.
Qed.

(** Without what is known, a run is one of [wp], and the other way round. *)
Lemma wph_wp {A} w0 (p : prog S A) : forall h (Q : Prop -> A -> L -> Prop) l,
  wph w0 p h Q l -> wp p (fun a l => exists h, Q h a l) l.
Proof.
  induction p as [A a|A f|X A p IHp k IHk|I A body IHb i]; simpl; intros h Q l Hp; [by exists h| | |done].
  - eapply action_mono; [|exact Hp]. intros w s ls w' a l' Ha. by exists (unmoved w0 h w s ls w').
  - eapply wp_mono; [|eapply IHp, Hp]. intros x l' [h' Hx]. by eapply IHk.
Qed.

Lemma wp_wph {A} w0 (p : prog S A) : forall (h0 h : Prop) (Q : A -> L -> Prop) l,
  loopless p -> (h -> h0) -> wp p Q l -> wph w0 p h (fun h a l => (h -> h0) /\ Q a l) l.
Proof.
  induction p as [A a|A f|X A p IHp k IHk|I A body IHb i]; simpl; intros h0 h Q l Hd Hh Hp; [done| | |done].
  - eapply action_mono; [|exact Hp]. intros w s ls w' a l' Ha. split; [|done]. by intros [? _]; auto.
  - destruct Hd as [Hd Hdk]. eapply wph_mono; [|by eapply IHp]. intros h' x l' [Hh' Hx]. by apply IHk.
Qed.

(** The loop, from the end of an iteration. *)
Lemma wp_counted {I A} (body : I -> prog S (I + A)) (J : I -> L -> Prop) (Q : A -> L -> Prop) :
  (forall i l0, J i l0 -> wp (body i) (counted J Q l0) l0) ->
  forall r l, looped J Q r l -> wp (next body r) Q l.
Proof. intros Hb [i|a] l Hr; [exists J; auto|done]. Qed.
Lemma wp_polled {I A} (body : I -> prog S (I + A)) (J : I -> L -> Prop) (Q : A -> L -> Prop) :
  (forall i l0 w0, J i l0 -> wph w0 (body i) True (polled J Q) l0) ->
  forall r l, looped J Q r l -> wp (next body r) Q l.
Proof. intros Hb [i|a] l Hr; [exists J; auto|done]. Qed.
Lemma wp_next {I A} (body : I -> prog S (I + A)) (J : I -> L -> Prop) (Q : A -> L -> Prop) (R : I + A -> L -> Prop) p l :
  (forall r l, R r l -> looped J Q r l) -> (forall r l, looped J Q r l -> wp (next body r) Q l) ->
  wp p R l -> wp (Bind p (next body)) Q l.
Proof. intros HR Hn. simpl. apply wp_mono. auto. Qed.

Context (level_refl : forall w, Level w w).

Lemma levels_refl w s l : levels w s l w s l.
Proof. by split_and!. Qed.

Lemma wp_tstep {A} (p : prog S A) : forall (Q : A -> L -> Prop) l w s ls t,
  wp p Q l -> Inv w s ls -> ls !! t = Some l ->
  match tstep p s with
  | TDone a => Q a l
  | TStep p' s' =>
      (s' = s \/ Steps s s') /\ exists w' l', Inv w' s' (<[t := l']> ls) /\
        advance w s l w' s' l' /\ wp p' Q l'
  | TBlocked => Waits s l
  | TCrash => False
  end.
Proof.
  induction p as [A a|A f|X A p IHp k IHk|I A body IHb i]; simpl; intros Q l w s ls t Hwp Hi Hl.
  - done.
  - specialize (Hwp w s ls t Hi Hl). destruct (f s); [|done..].
    destruct Hwp as (? & w' & l' & ? & ? & ?). split; [by right|eauto 10].
  - specialize (IHp _ l w s ls t Hwp Hi Hl). destruct (tstep p s); simpl; try done.
    split; [by left|]. exists w, l. split_and!; [by rewrite list_insert_id|right; apply levels_refl|done].
  - split; [by left|]. exists w, l. split; [by rewrite list_insert_id|]. split; [right; apply levels_refl|].
    destruct Hwp as (J & Hj & [Hb|Hb]).
    + apply (wp_next body J Q (counted J Q l)); [by intros r l' []|by apply wp_counted|by apply Hb].
    + apply (wp_next body J Q (fun r l => exists h, polled J Q h r l)); [by intros r l' [h []]|by apply wp_polled|].
      apply (wph_wp w (body i) True), Hb, Hj.
Qed.

(** Soundness: an invariant that holds initially holds after any interleaving, and no thread
    ever panics. *)
Context (Q : unit -> L -> Prop).

Definition pool_at (w : W) (ls : list L) (c : pool S * S) : Prop :=
  Inv w c.2 ls /\ Forall2 (fun p l => wp p Q l) c.1 ls.
Definition pool_ok (c : pool S * S) : Prop := exists w ls, pool_at w ls c.

Lemma pool_ok_step c c' : pool_ok c -> pool_step c c' -> pool_ok c'.
Proof.
  intros (w & ls & Hi & Hps) Hstep. destruct Hstep as [ps t p s p' s' Hp Ht]. simpl in *.
  destruct (Forall2_lookup_l _ _ _ _ _ Hps Hp) as (l & Hl & Hwp).
  pose proof (wp_tstep p Q l w s ls t Hwp Hi Hl) as Hs. rewrite Ht in Hs.
  destruct Hs as (_ & w' & l' & Hi' & _ & Hwp'). exists w', (<[t := l']> ls). split; [done|].
  by apply Forall2_insert.
Qed.

Lemma pool_sound c c' : pool_ok c -> rtc pool_step c c' -> pool_ok c'.
Proof. intros Hok Hs. induction Hs; [done|]. eauto using pool_ok_step. Qed.

Lemma pool_ok_no_crash c : pool_ok c -> ~ crashing c.
Proof.
  intros (w & ls & Hi & Hps) (t & p & Hp & Ht).
  destruct (Forall2_lookup_l _ _ _ _ _ Hps Hp) as (l & Hl & Hwp).
  pose proof (wp_tstep p Q l w c.2 ls t Hwp Hi Hl) as Hs. by rewrite Ht in Hs.
Qed.

Lemma pool_steps c c' : pool_ok c -> pool_step c c' -> c'.2 = c.2 \/ Steps c.2 c'.2.
Proof.
  intros (w & ls & Hi & Hps) Hstep. destruct Hstep as [ps t p s p' s' Hp Ht]. simpl in *.
  destruct (Forall2_lookup_l _ _ _ _ _ Hps Hp) as (l & Hl & Hwp).
  pose proof (wp_tstep p Q l w s ls t Hwp Hi Hl) as Hs. rewrite Ht in Hs. by destruct Hs.
Qed.

(** When no thread can go on, each has returned or waits. *)
Lemma pool_stuck c :
  pool_ok c -> (forall t p p' s', c.1 !! t = Some p -> tstep p c.2 <> TStep p' s') ->
  exists w ls, Inv w c.2 ls /\
    Forall2 (fun p l => (p = Ret tt /\ Q tt l) \/ Waits c.2 l) c.1 ls.
Proof.
  intros (w & ls & Hi & Hps) Hstuck. exists w, ls. split; [done|].
  apply Forall2_same_length_lookup_2; [by eapply Forall2_length|].
  intros t p l Hp Hl. pose proof (Forall2_lookup_lr _ _ _ _ _ _ Hps Hp Hl) as Hwp.
  pose proof (wp_tstep p Q l w c.2 ls t Hwp Hi Hl) as Hs. specialize (Hstuck t p).
  destruct (tstep p c.2) as [[]|p' s'| |] eqn:Ht; [left|..].
  - by apply tstep_done in Ht.
  - by destruct (Hstuck p' s' Hp).
  - by right.
  - done.
Qed.
End Logic.

