(* ===== verification/Fair.v ===== *)
(** * Fair runs of a pool of threads

    In a fair run no thread is passed over forever while it can take a step.  When every action
    makes the world less or leaves it level, in the logic of [Conc], a thread whose world stays
    level comes to its end, waits, or is quiet at the start of a loop that polls; and if all the
    threads wait or are quiet, one that polls makes the world less.  So if the order of the
    worlds is well founded, and the threads cannot all be waiting, every fair run ends
    ([fair_run_ends]).  Without fairness, a run still makes finitely many changes
    ([changes_end]). *)
From S2P Require Import Prelude Conc.
From stdpp Require Import relations.

(** ** Runs *)

Section Runs.
Context {S : Type}.
Implicit Types (c : pool S * S) (run : nat -> pool S * S).

(** A step of a thread, and whether it can take one. *)
Inductive steps_by (t : nat) : pool S * S -> pool S * S -> Prop :=
  | StepBy (ps : pool S) p s p' s' :
      ps !! t = Some p -> tstep p s = TStep p' s' -> steps_by t (ps, s) (<[t := p']> ps, s').

Definition enabled (t : nat) c : Prop := exists c', steps_by t c c'.

(** From a moment on, a thread that can always take a step takes one. *)
Record fair_run run : Prop := {
  run_steps n : run (Datatypes.S n) = run n \/ exists t, steps_by t (run n) (run (Datatypes.S n));
  run_fair n t : exists m, (n <= m)%nat /\ (~ enabled t (run m) \/ steps_by t (run m) (run (Datatypes.S m)));
}.

Lemma steps_by_pool t c c' : steps_by t c c' -> pool_step c c'.
Proof. destruct 1 as [ps p s p' s' Hp Ht]. by apply (PoolStep ps t p). Qed.

Lemma steps_by_length t c c' : steps_by t c c' -> length c'.1 = length c.1.
Proof. destruct 1. simpl. by rewrite length_insert. Qed.

Lemma enabled_lt t c : enabled t c -> (t < length c.1)%nat.
Proof. intros [c' Hc]. destruct Hc. by eapply lookup_lt_Some. Qed.

Lemma pool_steps_by c c' : pool_step c c' -> exists t, steps_by t c c'.
Proof. destruct 1 as [ps t p s p' s' Hp Ht]. exists t. by apply (StepBy t ps p). Qed.

Lemma run_reaches run n m : fair_run run -> (n <= m)%nat -> rtc pool_step (run n) (run m).
Proof.
  intros Hrun Hm. induction Hm as [|m _ IH]; [constructor|].
  destruct (run_steps _ Hrun m) as [->|[t Ht]]; [done|].
  eapply rtc_r; [exact IH|by eapply steps_by_pool].
Qed.

(** ** Taking turns

    Every state has a fair run: the threads take a step in turn, if they can. *)
Fixpoint in_turn (threads : nat) c (n : nat) : pool S * S :=
  match n with
  | O => c
  | Datatypes.S n => let c := in_turn threads c n in play [(n mod threads)%nat] c
  end.

Lemma in_turn_S threads c n : in_turn threads c (Datatypes.S n) = play [(n mod threads)%nat] (in_turn threads c n).
Proof. done. Qed.

Lemma play_turn t c : play [t] c = c /\ ~ enabled t c \/ steps_by t c (play [t] c).
Proof.
  destruct c as [ps s]. simpl. destruct (ps !! t) as [p|] eqn:Hp.
  2: { left. split; [done|]. intros [c' Hc]. inversion Hc. congruence. }
  destruct (tstep p s) as [a|p' s'| |] eqn:Ht; [left|right; by apply (StepBy t ps p)|left..];
    (split; [done|]; intros [c' Hc]; inversion Hc; congruence).
Qed.

Lemma in_turn_fair threads c : (length c.1 <= threads)%nat -> fair_run (in_turn threads c).
Proof.
  intros Hth. split.
  - intros n. rewrite in_turn_S. destruct (play_turn (n mod threads) (in_turn threads c n)) as [[-> _]|Hs]; [by left|eauto].
  - intros n t. destruct (decide (t < threads)%nat) as [Ht|Ht].
    + exists (n * threads + t)%nat. split; [nia|]. rewrite in_turn_S.
      replace ((n * threads + t) mod threads)%nat with t.
      * destruct (play_turn t (in_turn threads c (n * threads + t))) as [[_ ?]|?]; auto.
      * rewrite Nat.add_comm, Nat.Div0.mod_add. symmetry. by apply Nat.mod_small.
    + exists n. split; [done|]. left. intros He%enabled_lt.
      assert (Hlen : forall m, length (in_turn threads c m).1 = length c.1).
      { induction m as [|m IH]; [done|]. rewrite in_turn_S.
        destruct (play_turn (m mod threads) (in_turn threads c m)) as [[-> _]|Hs]; [done|].
        by rewrite (steps_by_length _ _ _ Hs). }
      rewrite Hlen in He. lia.
Qed.
End Runs.

(** ** Threads whose world stays level *)

Section Liveness.
Context {S L W : Type} (Inv : W -> S -> list L -> Prop) (Waits : S -> L -> Prop).
Context (Steps : S -> S -> Prop).
Context (Less Level : W -> W -> Prop) (count : L -> nat) (Quiet : W -> L -> Prop).
Context (level_refl : forall w, Level w w).
Context (level_trans : forall w1 w2 w3, Level w1 w2 -> Level w2 w3 -> Level w1 w3).
Context (less_level : forall w1 w2 w3, Less w1 w2 -> Level w2 w3 -> Less w1 w3).
Context (waits_level : forall w s ls w' s' ls' l,
  Inv w s ls -> Inv w' s' ls' -> Level w' w -> Waits s l -> Waits s' l).
Context (quiet_level : forall w w' l, Level w' w -> Quiet w l -> Quiet w' l).

Abbreviation wp := (wp Inv Waits Steps Less Level count Quiet).
Abbreviation wph := (wph Inv Waits Steps Less Level count Quiet).
Abbreviation levels := (levels Waits Level count Quiet).
Abbreviation resting := (resting Waits Quiet).
Abbreviation counted := (counted count).
Abbreviation polled := (polled Quiet).

(** As long as the world stays level and [F] holds, a run of a thread comes to [G], or waits. *)
Section Ends.
Context (F : W -> S -> list L -> Prop).

Inductive ends {A} (G : prog S A -> L -> Prop) (Q : A -> L -> Prop) : prog S A -> L -> Prop :=
  | ends_now p l : wp p Q l -> G p l -> ends G Q p l
  | ends_step p l (N : prog S A -> L -> Prop) :
      wp p Q l ->
      (forall w s ls t, Inv w s ls -> ls !! t = Some l -> F w s ls ->
         match tstep p s with
         | TStep p' s' => exists w' l', Inv w' s' (<[t := l']> ls) /\ wp p' Q l' /\
             (Less w' w \/ (levels w s l w' s' l' /\ N p' l'))
         | TBlocked => Waits s l
         | _ => False
         end) ->
      (forall p' l', N p' l' -> ends G Q p' l') -> ends G Q p l.

Lemma ends_mono {A} (G G' : prog S A -> L -> Prop) Q p l :
  (forall p l, G p l -> G' p l) -> ends G Q p l -> ends G' Q p l.
Proof. intros HG He. induction He as [p l ? ?|p l N ? Hs _ IH]; [apply ends_now; auto|by apply (ends_step _ _ p l N)]. Qed.

(** A step that only unfolds the program. *)
Lemma ends_unfold {A} (G : prog S A -> L -> Prop) Q p p' l :
  wp p Q l -> wp p' Q l -> (forall s, tstep p s = TStep p' s) -> (W -> ends G Q p' l) -> ends G Q p l.
Proof.
  intros Hp Hp' Ht He. apply (ends_step G Q p l (fun q m => ends G Q q m)); [done| |done].
  intros w s ls t Hi Hl _. rewrite Ht. exists w, l. rewrite list_insert_id by done.
  split_and!; [done..|]. right. split; [by apply levels_refl|by apply He].
Qed.

Lemma ends_seq {X A} (G : prog S X -> L -> Prop) (G' : prog S A -> L -> Prop) R Q p (k : X -> prog S A) l :
  (forall p' l', wp p' R l' -> wp (Bind p' k) Q l') ->
  (forall p' l', wp p' R l' -> G p' l' -> ends G' Q (Bind p' k) l') ->
  ends G R p l -> ends G' Q (Bind p k) l.
Proof.
  intros Hk HG He. induction He as [p l Hp Hg|p l N Hp Hs _ IH]; [auto|].
  apply (ends_step _ _ _ _ (fun q m => exists p', q = Bind p' k /\ N p' m)); [auto| |].
  - intros w s ls t Hi Hl Hf. specialize (Hs w s ls t Hi Hl Hf). simpl. destruct (tstep p s); [done| |done..].
    destruct Hs as (w' & l' & ? & ? & Hor). exists w', l'. split_and!; [done|by apply Hk|].
    destruct Hor as [?|[? ?]]; [by left|right; eauto].
  - intros q m (p' & -> & Hn). by apply IH.
Qed.

(** A run of an action, and of a program without loops, with what it knows. *)
Lemma ends_action {A} (f : S -> outcome S A) (R : W -> S -> list L -> W -> A -> L -> Prop)
  (G : prog S A -> L -> Prop) (Q : A -> L -> Prop) l :
  action Inv Waits Steps Less Level count Quiet f R l ->
  (forall w s ls w' a l', R w s ls w' a l' -> Q a l') ->
  (forall w s ls w' a l', R w s ls w' a l' -> F w s ls -> Level w' w -> count l' = count l -> G (Ret a) l') ->
  ends G Q (Atom f) l.
Proof.
  intros Hf HQ HG. apply (ends_step _ _ _ _ (fun q m => exists a, q = Ret a /\ Q a m /\ G q m)).
  - eapply action_mono; [|exact Hf]. eauto.
  - intros w s ls t Hi Hl HF. specialize (Hf w s ls t Hi Hl). simpl. destruct (f s) as [a s'| |]; [|done..].
    destruct Hf as (_ & w' & l' & Hi' & Hadv & HR). exists w', l'. split_and!; [done|by eapply HQ|].
    destruct Hadv as [?|Hlv]; [by left|right]. split; [done|]. exists a. split_and!; [done|by eapply HQ|].
    destruct Hlv as (? & ? & _). by eapply HG.
  - intros q m (a & -> & ? & ?). by apply ends_now.
Qed.

Lemma wph_ends {A} (K : Prop) w0 (p : prog S A) :
  (K -> forall w s ls, F w s ls -> Level w w0 /\ resting w s ls) -> forall (h : Prop) Q l,
  wph w0 p h Q l ->
  ends (fun q m => count m = count l /\ exists a (h' : Prop), q = Ret a /\ (K -> h -> h') /\ Q h' a m)
    (fun a m => exists h, Q h a m) p l.
Proof.
  intros HK. induction p as [A a|A f|X A p IHp k IHk|I A body IHb i]; intros h Q l Hp.
  - apply ends_now; [by exists h|]. split; [done|]. by exists a, h.
  - eapply ends_action; [exact Hp|simpl; eauto|]. intros w s ls w' a l' HR HF Hlv Hc. split; [done|].
    eexists a, _. split_and!; [done| |exact HR]. intros Hk Hh. destruct (HK Hk w s ls HF). by split_and!.
  - simpl in Hp. eapply ends_seq; [| |by apply IHp].
    + intros p' l' Hp'. simpl. eapply wp_mono; [|exact Hp']. intros x m [h' Hx]. by eapply wph_wp.
    + intros p' l' Hp' (Hc & x & h' & -> & Hh & Hx).
      assert (Hw : wp (k x) (fun a m => exists h, Q h a m) l') by (by eapply wph_wp).
      eapply ends_unfold; [exact Hw|exact Hw|done|]. intros _.
      eapply ends_mono; [|by apply IHk]. intros q m (Hc' & a & h2 & -> & Hh2 & HQ).
      split; [congruence|]. exists a, h2. split_and!; auto.
  - done.
Qed.
End Ends.

(** ** At the start of a loop that polls *)

Definition frozen (w0 : W) (w : W) (s : S) (ls : list L) : Prop := Level w w0 /\ resting w s ls.

(** A thread that is quiet, and makes the world less if all the threads wait or are quiet. *)
Definition restarts {A} (p : prog S A) (Q : A -> L -> Prop) (l : L) : Prop :=
  (forall w, Quiet w l) /\ forall w0, ends (frozen w0) (fun _ _ => False) Q p l.
Definition settled {A} (Q : A -> L -> Prop) (p : prog S A) (l : L) : Prop :=
  (exists a, p = Ret a /\ Q a l) \/ restarts p Q l.

Lemma restarts_bind {X A} (p : prog S X) (k : X -> prog S A) R Q l :
  (forall p' l', wp p' R l' -> wp (Bind p' k) Q l') -> restarts p R l -> restarts (Bind p k) Q l.
Proof.
  intros Hk [Hl Hr]. split; [done|]. intros w0. eapply ends_seq; [exact Hk| |apply Hr]. done.
Qed.

Lemma restarts_polls {I A} (body : I -> prog S (I + A)) i (J : I -> L -> Prop) (Q : A -> L -> Prop) l :
  J i l -> (forall i l0 w0, J i l0 -> wph w0 (body i) True (polled J Q) l0) ->
  (forall w, Quiet w l) -> restarts (Iter body i) Q l.
Proof.
  intros HJ Hb Hl. split; [done|]. intros w0.
  assert (Hn : forall p l, wp p (fun r l => exists h, polled J Q h r l) l -> wp (Bind p (next body)) Q l).
  { intros p' l'. apply (wp_next _ _ _ _ _ _ _ body J); [by intros r m [h []]|by apply wp_polled]. }
  eapply ends_unfold; [by exists J; auto|by eapply Hn, wph_wp, (Hb i l w0 HJ)|done|]. intros _.
  eapply ends_seq; [exact Hn| |apply (wph_ends (frozen w0) True w0 _ (fun _ w s ls H => H) True), Hb, HJ].
  intros p' l' _ (_ & r & h & -> & Hh & _ & Hne & _). destruct Hne. auto.
Qed.

(** A run of a thread comes to its end, to the start of such a loop, or to a wait. *)
Lemma wp_ends F {A} (p : prog S A) : forall (Q : A -> L -> Prop) l,
  wp p Q l -> ends F (fun q m => count m = count l /\ settled Q q m) Q p l.
Proof.
  induction p as [A a|A f|X A p IHp k IHk|I A body IHb i]; intros Q l Hp.
  - apply ends_now; [done|]. split; [done|]. left. by exists a.
  - eapply ends_action; [exact Hp|done|]. intros w s ls w' a l' HQ _ _ Hc. split; [done|]. left. by exists a.
  - eapply ends_seq; [| |by apply IHp].
    + done.
    + intros p' l' Hp' [Hc [(x & -> & Hx)|Hr]].
      * eapply ends_unfold; [exact Hx|exact Hx|done|]. intros _.
        eapply ends_mono; [|by apply IHk]. intros q m [? ?]. split; [congruence|done].
      * apply ends_now; [done|]. split; [done|]. right. by eapply restarts_bind.
  - pose proof Hp as (J & HJ & [Hb|Hb]).
    + assert (Hn : forall q m, wp q (counted J Q l) m -> wp (Bind q (next body)) Q m).
      { intros q m. apply (wp_next _ _ _ _ _ _ _ body J); [by intros r m' []|by apply wp_counted]. }
      eapply ends_unfold; [exact Hp|by apply Hn, Hb|done|]. intros _.
      eapply ends_seq; [exact Hn| |by apply IHb, Hb]. intros q m Hq [Hc [(r & -> & Hlp & Hr)|Hr]].
      * destruct r as [i'|a]; [done|]. apply (ends_unfold _ _ _ _ (Ret a)); [by apply Hn|exact Hlp|done|].
        intros _. apply ends_now; [done|]. split; [done|]. left. by exists a.
      * apply ends_now; [by apply Hn|]. split; [done|]. right. by eapply restarts_bind.
    + assert (Hn : forall q m, wp q (fun r m => exists h, polled J Q h r m) m -> wp (Bind q (next body)) Q m).
      { intros q m. apply (wp_next _ _ _ _ _ _ _ body J); [by intros r m' [h []]|by apply wp_polled]. }
      apply (ends_step _ _ _ _ _ (fun q m => q = Bind (body i) (next body) /\ m = l /\ exists w : W, True)); [exact Hp| |].
      { intros w s ls t Hi Hl _. simpl. exists w, l. rewrite list_insert_id by done.
        split_and!; [done|by eapply Hn, wph_wp, (Hb i l w HJ)|]. right. split; [by apply levels_refl|]. eauto. }
      intros q m (-> & -> & w0 & _).
      eapply ends_seq; [exact Hn| |apply (wph_ends F False w0 _ (fun k => False_ind _ k) True), Hb, HJ].
      intros q m Hq (Hc & r & h & -> & _ & Hlp & _ & Hr).
      apply (ends_unfold _ _ _ _ (next body r)); [by apply Hn|by apply (wp_polled _ _ _ _ _ _ _ body J Q Hb)|done|].
      intros _. apply ends_now; [by apply (wp_polled _ _ _ _ _ _ _ body J Q Hb)|]. split; [done|].
      destruct r as [i'|a]; [right; by eapply restarts_polls|left; by exists a].
Qed.

(** ** Along a fair run *)

Section Run.
Context (run : nat -> pool S * S) (Hrun : fair_run run) (Q : unit -> L -> Prop).
Abbreviation pool_at := (pool_at Inv Waits Steps Less Level count Quiet Q).
Implicit Types (c : pool S * S) (H : W -> list L -> pool S * S -> Prop).

(** A step of a thread that leaves the world level, and what it keeps. *)
Definition level_step (w : W) (ls : list L) c (w' : W) (ls' : list L) c' : Prop :=
  exists t p l p' l', c.1 !! t = Some p /\ ls !! t = Some l /\ tstep p c.2 = TStep p' c'.2 /\
    c'.1 = <[t := p']> c.1 /\ ls' = <[t := l']> ls /\ pool_at w ls c /\ pool_at w' ls' c' /\
    levels w c.2 l w' c'.2 l'.
Definition stable H : Prop := forall w ls c w' ls' c', level_step w ls c w' ls' c' -> H w ls c -> H w' ls' c'.

(** From a moment of the run, the world gets less, or stays level until [E], and [H] holds. *)
Definition leads (n : nat) (w : W) H (E : list L -> pool S * S -> Prop) : Prop :=
  exists m w' ls', (n <= m)%nat /\ pool_at w' ls' (run m) /\
    (Less w' w \/ (Level w' w /\ H w' ls' (run m) /\ E ls' (run m))).

Lemma leads_now n w ls H E : pool_at w ls (run n) -> H w ls (run n) -> E ls (run n) -> leads n w H E.
Proof. intros Hp Hh He. exists n, w, ls. split_and!; auto. Qed.

Lemma leads_level n n' w w' H E : (n <= n')%nat -> Level w' w -> leads n' w' H E -> leads n w H E.
Proof.
  intros Hn Hw (m & w2 & ls & Hm & Hp & Hor). exists m, w2, ls. split_and!; [lia|done|].
  destruct Hor as [?|(? & ? & ?)]; [left|right]; eauto.
Qed.

Lemma leads_then n w H E H' E' : leads n w H E ->
  (forall m w' ls, (n <= m)%nat -> pool_at w' ls (run m) -> Level w' w -> H w' ls (run m) -> E ls (run m) ->
     leads m w' H' E') ->
  leads n w H' E'.
Proof.
  intros (m & w' & ls & Hm & Hp & [Hl|(Hl & Hh & He)]) Hk.
  - exists m, w', ls. split_and!; auto.
  - eapply leads_level; [exact Hm|exact Hl|]. by apply (Hk m w' ls).
Qed.

Lemma leads_next n w w' H E : Level w' w -> leads (Datatypes.S n) w' H E -> leads n w H E.
Proof. apply leads_level. lia. Qed.

Lemma leads_less n w w' ls H E : pool_at w' ls (run (Datatypes.S n)) -> Less w' w -> leads n w H E.
Proof. intros Hp Hl. exists (Datatypes.S n), w', ls. split_and!; [lia|done|by left]. Qed.

Definition thread_at (t : nat) (G : S -> prog S unit -> L -> Prop) (ls : list L) c : Prop :=
  exists p l, c.1 !! t = Some p /\ ls !! t = Some l /\ G c.2 p l.

Lemma level_step_level w ls c w' ls' c' : level_step w ls c w' ls' c' -> Level w' w.
Proof. intros (? & ? & ? & ? & ? & ? & ? & ? & ? & ? & ? & ? & Hw & _). exact Hw. Qed.

(** The step of a thread, and of another one. *)
Lemma own_step t w ls c c' p l (N : prog S unit -> L -> Prop) :
  pool_at w ls c -> thread_at t (fun _ q m => q = p /\ m = l) ls c -> steps_by t c c' ->
  (forall p' s', tstep p c.2 = TStep p' s' -> exists w' l', Inv w' s' (<[t := l']> ls) /\ wp p' Q l' /\
     (Less w' w \/ (levels w c.2 l w' s' l' /\ N p' l'))) ->
  exists w' ls', pool_at w' ls' c' /\
    (Less w' w \/ (level_step w ls c w' ls' c' /\ thread_at t (fun _ => N) ls' c')) /\
    forall t', t' <> t -> c'.1 !! t' = c.1 !! t' /\ ls' !! t' = ls !! t'.
Proof.
  intros Hc (? & ? & Hp & Hl & -> & ->) Hs Hstep. destruct Hs as [ps q s p' s' Hq Ht]. simpl in *.
  assert (q = p) as -> by congruence. destruct (Hstep p' s' Ht) as (w' & l' & Hi' & Hwp' & Hor).
  assert (Hc' : pool_at w' (<[t := l']> ls) (<[t := p']> ps, s')).
  { split; [done|]. apply Forall2_insert; [apply Hc|done]. }
  exists w', (<[t := l']> ls). split_and!; [done| |].
  - destruct Hor as [?|[Hlv Hn]]; [by left|right]. split; [by exists t, p, l, p', l'|].
    exists p', l'. split_and!; [|by apply list_lookup_insert_eq; eapply lookup_lt_Some|done].
    apply list_lookup_insert_eq. by eapply lookup_lt_Some.
  - intros t' Hne. simpl. by rewrite !list_lookup_insert_ne.
Qed.

Lemma pool_at_step t w ls c c' : pool_at w ls c -> steps_by t c c' ->
  exists w' ls', pool_at w' ls' c' /\ (Less w' w \/ level_step w ls c w' ls' c') /\
    forall t', t' <> t -> c'.1 !! t' = c.1 !! t' /\ ls' !! t' = ls !! t'.
Proof.
  intros Hc Hs. pose proof Hs as Hs'. destruct Hs as [ps p s p' s' Hp Ht]. pose proof Hc as [Hi Hps]. simpl in *.
  destruct (Forall2_lookup_l _ _ _ _ _ Hps Hp) as (l & Hl & Hwp).
  destruct (own_step t w ls _ _ p l (fun _ _ => True) Hc ltac:(by exists p, l) Hs')
    as (w' & ls' & Hc' & Hor & Hsame); [|exists w', ls'; split_and!; [done|tauto|done]].
  intros p2 s2 Ht2. pose proof (wp_tstep _ _ _ _ _ _ _ level_refl p Q l w s ls t Hwp Hi Hl) as Hs.
  simpl in Ht2. rewrite Ht2 in Hs. destruct Hs as (_ & w' & l' & Hi' & Hadv & Hwp').
  exists w', l'. split_and!; [done..|]. destruct Hadv; [by left|by right].
Qed.

(** A run of a thread that comes to [G] or waits does so. *)
Lemma ends_run F G H t p l : stable H -> (forall w ls c, H w ls c -> F w c.2 ls) -> ends F G Q p l ->
  forall n w ls, pool_at w ls (run n) -> H w ls (run n) -> thread_at t (fun _ q m => q = p /\ m = l) ls (run n) ->
  leads n w H (thread_at t (fun s p l => Waits s l \/ G p l)).
Proof.
  intros Hst HF He. induction He as [p l Hwp Hg|p l N Hwp Hs _ IH].
  { intros n w ls Hp Hh (? & ? & Hpt & Hlt & -> & ->). eapply leads_now; [done..|]. exists p, l. auto. }
  set (E := thread_at t (fun s p l => Waits s l \/ G p l)).
  assert (Hown : forall n w ls, pool_at w ls (run n) -> H w ls (run n) ->
    thread_at t (fun _ q m => q = p /\ m = l) ls (run n) -> steps_by t (run n) (run (Datatypes.S n)) -> leads n w H E).
  { intros n w ls Hp Hh Hat Hown. pose proof Hat as (? & ? & _ & Hlt & -> & ->).
    destruct (own_step t w ls _ _ p l N Hp Hat Hown) as (w' & ls' & Hp' & [Hless|[Hlv Hn]] & _).
    - intros p' s' Hts. specialize (Hs w (run n).2 ls t (proj1 Hp) Hlt (HF _ _ _ Hh)). by rewrite Hts in Hs.
    - by eapply leads_less.
    - destruct Hn as (p' & l' & ? & ? & Hn). eapply leads_next; [by eapply level_step_level|].
      eapply (IH p' l' Hn); [done|by eapply Hst|by exists p', l']. }
  intros n w ls. destruct (run_fair _ Hrun n t) as (m & Hm & Hor). remember (m - n)%nat as d eqn:Hd.
  revert n w ls Hm Hd. induction d as [|d IHd]; intros n w ls Hm Hd Hp Hh Hat.
  - assert (m = n) as -> by lia. destruct Hor as [Hno|Hown']; [|by eapply Hown].
    destruct Hat as (? & ? & Hpt & Hlt & -> & ->). eapply leads_now; [done..|].
    exists p, l. split_and!; [done..|]. left.
    specialize (Hs w (run n).2 ls t (proj1 Hp) Hlt (HF _ _ _ Hh)).
    destruct (tstep p (run n).2) as [a|p' s'| |] eqn:Hts; [done| |done..].
    destruct Hno. exists (<[t := p']> (run n).1, s'). destruct (run n) as [ps s]. by apply (StepBy t ps p).
  - destruct (run_steps _ Hrun n) as [Heq|[t' Hs']].
    { eapply leads_next; [apply level_refl|]. apply (IHd _ w ls); [lia|lia|by rewrite Heq..]. }
    destruct (decide (t' = t)) as [->|Hne]; [by eapply Hown|].
    destruct (pool_at_step t' w ls _ _ Hp Hs') as (w' & ls' & Hp' & [Hless|Hlv] & Hsame); [by eapply leads_less|].
    eapply leads_next; [by eapply level_step_level|]. destruct (Hsame t) as [Hpt' Hlt']; [done|].
    apply (IHd _ w' ls'); [lia|lia|done|by eapply Hst|]. destruct Hat as (q & m' & ? & ? & ?).
    exists q, m'. by rewrite Hpt', Hlt'.
Qed.

(** A thread comes to its end, to the start of a loop that polls, or waits. *)
Lemma thread_settles H t n w ls : stable H -> pool_at w ls (run n) -> H w ls (run n) ->
  (t < length (run n).1)%nat -> leads n w H (thread_at t (fun s p l => Waits s l \/ settled Q p l)).
Proof.
  intros Hst Hp Hh Ht. destruct (lookup_lt_is_Some_2 _ _ Ht) as [p Hpt].
  destruct (Forall2_lookup_l _ _ _ _ _ (proj2 Hp) Hpt) as (l & Hlt & Hwp).
  eapply leads_then; [eapply (ends_run _ _ H t p l Hst (fun _ _ _ _ => I)); [by apply (wp_ends (fun _ _ _ => True))|done..|by exists p, l]|].
  intros m w' ls' _ Hp' _ Hh' (q & l' & ? & ? & Hor). eapply leads_now; [done..|].
  exists q, l'. split_and!; [done..|]. destruct Hor as [|[_ ?]]; auto.
Qed.

Lemma run_length n : length (run n).1 = length (run 0%nat).1.
Proof.
  induction n as [|n IH]; [done|]. rewrite <- IH.
  destruct (run_steps _ Hrun n) as [->|[t Ht]]; [done|by eapply steps_by_length].
Qed.

(** ** The end of a fair run *)

Context (rests_end : forall l, Q tt l -> forall w, Quiet w l).
Context (some_goes : forall w s ls, Inv w s ls -> Forall (fun l => Q tt l \/ Waits s l) ls ->
  Forall (fun l => ~ Waits s l) ls).

(** All the threads wait or are quiet, at the same time. *)
Definition rest_below (k : nat) (w : W) (ls : list L) c : Prop :=
  forall t l, (t < k)%nat -> ls !! t = Some l -> Waits c.2 l \/ Quiet w l.

Lemma rest_below_stable k : stable (rest_below k).
Proof.
  intros w ls c w' ls' c' (t & p & l & p' & l' & Hp & Hl & _ & _ & -> & [Hi _] & [Hi' _] & Hlv & _ & Hw & Hq) Hr u m Hu Hm.
  apply list_lookup_insert_Some in Hm as [(<- & <- & _)|[_ Hm]].
  - destruct (Hr t l Hu Hl); auto.
  - destruct (Hr u m Hu Hm) as [|]; [left; by apply (waits_level _ _ _ _ _ _ _ Hi Hi')|right; by eapply quiet_level].
Qed.

Lemma rests_below k n w ls : pool_at w ls (run n) -> leads n w (rest_below k) (fun _ _ => True).
Proof.
  intros Hp. induction k as [|k IH]; [eapply leads_now; [done| |done]; intros t l Ht; lia|].
  eapply leads_then; [exact IH|]. clear IH. intros m w1 ls1 _ Hp1 _ Hr _.
  destruct (decide (k < length (run m).1)%nat) as [Hk|Hk].
  - eapply leads_then; [by eapply (thread_settles _ k), Hk; [apply rest_below_stable|..]|].
    intros m' w2 ls2 _ Hp2 _ Hr2 (p & l & _ & Hl & Hor). eapply leads_now; [done| |done].
    intros t l' Ht Hl'. destruct (decide (t = k)) as [->|Hne]; [|apply (Hr2 t); [lia|done]].
    assert (l' = l) as -> by congruence. destruct Hor as [?|[(a & _ & HQ)|[Hq _]]]; [by left|right|right; auto].
    destruct a. auto.
  - eapply leads_now; [done| |done]. intros t l Ht Hl. apply (Hr t); [|done].
    apply lookup_lt_Some in Hl. rewrite <- (Forall2_length _ _ _ (proj2 Hp1)) in Hl. lia.
Qed.

(** ... and then they all come to their end or wait. *)
Definition over_below (w0 : W) (k : nat) (w : W) (ls : list L) c : Prop :=
  frozen w0 w c.2 ls /\ forall t p l, (t < k)%nat -> c.1 !! t = Some p -> ls !! t = Some l ->
    (p = Ret tt /\ Q tt l) \/ Waits c.2 l.

Lemma over_below_stable w0 k : stable (over_below w0 k).
Proof.
  intros w ls c w' ls' c' Hs [[Hw0 Hr] Ho]. split.
  - split; [eapply level_trans; [by eapply level_step_level|done]|].
    apply Forall_lookup_2. intros t l Hl.
    apply (rest_below_stable (Datatypes.S t) _ _ _ _ _ _ Hs) with t; [|lia|done].
    intros u m _ Hm. by apply (Forall_lookup_1 _ _ _ _ Hr Hm).
  - destruct Hs as (t & p & l & p' & l' & Hp & Hl & Ht & Hc' & -> & [Hi _] & [Hi' _] & Hlv & _ & Hw & _).
    intros u q m Hu Hq Hm. rewrite Hc' in Hq.
    apply list_lookup_insert_Some in Hm as [(<- & <- & _)|[Hne Hm]].
    + right. destruct (Ho t p l Hu Hp Hl) as [[-> _]|?]; [done|auto].
    + rewrite list_lookup_insert_ne in Hq by done.
      destruct (Ho u q m Hu Hq Hm) as [?|?]; [by left|right]. by apply (waits_level _ _ _ _ _ _ _ Hi Hi').
Qed.

Lemma over_all w0 k n w ls : (k <= length (run n).1)%nat -> pool_at w ls (run n) -> frozen w0 w (run n).2 ls ->
  leads n w (over_below w0 k) (fun _ _ => True).
Proof.
  intros Hk Hp Hf. induction k as [|k IH].
  { eapply leads_now; [done| |done]. split; [done|]. intros t p l Ht. lia. }
  eapply leads_then; [apply IH; lia|]. clear IH. intros m w1 ls1 _ Hp1 _ Ho _.
  assert (Hend : forall m w' ls', pool_at w' ls' (run m) -> over_below w0 k w' ls' (run m) ->
    thread_at k (fun s p l => (p = Ret tt /\ Q tt l) \/ Waits s l) ls' (run m) ->
    leads m w' (over_below w0 (Datatypes.S k)) (fun _ _ => True)).
  { intros m' w' ls' Hp' [Hf' Ho'] (p & l & Hpk & Hlk & Hor). eapply leads_now; [done| |done].
    split; [done|]. intros t q l' Ht Hq Hl'.
    destruct (decide (t = k)) as [->|Hne]; [by simplify_eq|apply (Ho' t); [lia|done..]]. }
  eapply leads_then; [eapply (thread_settles (over_below w0 k) k); [apply over_below_stable|done|done|]|].
  { rewrite run_length in *. lia. }
  intros m2 w2 ls2 _ Hp2 _ Ho2 (p & l & Hpk & Hlk & [Hw|[([] & -> & HQ)|[_ Hr]]]).
  - apply (Hend _ _ ls2); [done..|]. exists p, l. auto.
  - apply (Hend _ _ ls2); [done..|]. exists (Ret tt), l. auto.
  - eapply leads_then; [eapply (ends_run _ _ (over_below w0 k) k p l); [apply over_below_stable| |apply (Hr w0)|done|done|by exists p, l]|].
    { by intros w' ls' c [Hf' _]. }
    intros m3 w3 ls3 _ Hp3 _ Ho3 (q & l' & Hq & Hl' & [Hw|[]]).
    apply (Hend _ _ ls3); [done..|]. exists q, l'. auto.
Qed.

Lemma fair_run_lessens n w ls : pool_at w ls (run n) ->
  exists m w' ls', (n <= m)%nat /\ pool_at w' ls' (run m) /\ (Less w' w \/ finished (run m)).
Proof.
  intros Hp. set (k := length (run 0%nat).1).
  assert (Hl : leads n w (over_below w k) (fun _ _ => True)).
  { eapply leads_then; [exact (rests_below k n w ls Hp)|]. intros m w1 ls1 _ Hp1 Hw1 Hr _.
    apply (over_all w k m w1 ls1); [by rewrite run_length|done|]. split; [done|].
    apply Forall_lookup_2. intros t l Hl. apply (Hr t); [|done]. apply lookup_lt_Some in Hl.
    by rewrite <- (Forall2_length _ _ _ (proj2 Hp1)), run_length in Hl. }
  destruct Hl as (m & w' & ls' & Hm & Hp' & [?|(_ & [_ Ho] & _)]); exists m, w', ls'; split_and!; auto.
  right. pose proof Hp' as [Hi Hps].
  assert (Hall : forall t p l, (run m).1 !! t = Some p -> ls' !! t = Some l ->
    (p = Ret tt /\ Q tt l) \/ Waits (run m).2 l).
  { intros t p l Hpt Hlt. apply (Ho t); [|done..]. apply lookup_lt_Some in Hpt. by rewrite run_length in Hpt. }
  assert (Hno : Forall (fun l => ~ Waits (run m).2 l) ls').
  { eapply some_goes; [done|]. apply Forall_lookup_2. intros t l Hl.
    destruct (Forall2_lookup_r _ _ _ _ _ Hps Hl) as (p & Hpt & _).
    destruct (Hall t p l Hpt Hl) as [[_ ?]|?]; auto. }
  apply Forall_lookup_2. intros t p Hpt. destruct (Forall2_lookup_l _ _ _ _ _ Hps Hpt) as (l & Hl & _).
  destruct (Hall t p l Hpt Hl) as [[? _]|Hw]; [done|]. by destruct (Forall_lookup_1 _ _ _ _ Hno Hl).
Qed.

Lemma fair_run_ends w : Acc Less w -> forall n ls, pool_at w ls (run n) ->
  exists m, (n <= m)%nat /\ finished (run m).
Proof.
  intros Hw. induction Hw as [w _ IH]. intros n ls Hp.
  destruct (fair_run_lessens n w ls Hp) as (m & w' & ls' & Hm & Hp' & [Hl|Hf]); [|by exists m].
  destruct (IH w' Hl m ls' Hp') as (m' & Hm' & Hf). exists m'. split; [lia|done].
Qed.
End Run.

(** ** Runs that need not be fair *)

Context (level_less : forall w1 w2 w3, Level w1 w2 -> Less w2 w3 -> Less w1 w3).
Context (less_trans : forall w1 w2 w3, Less w1 w2 -> Less w2 w3 -> Less w1 w3).
Context (Q : unit -> L -> Prop).
Abbreviation pool_at := (pool_at Inv Waits Steps Less Level count Quiet Q).

Lemma pool_at_next w ls c c' : pool_at w ls c -> pool_step c c' ->
  exists w' ls', pool_at w' ls' c' /\ (Less w' w \/ Level w' w).
Proof.
  intros Hc (t & Ht)%pool_steps_by. destruct (pool_at_step Q t w ls c c' Hc Ht) as (w' & ls' & Hc' & Hor & _).
  exists w', ls'. split; [done|]. destruct Hor as [?|Hs]; [by left|right]. by eapply level_step_level.
Qed.

Lemma pool_at_steps w ls c c' : pool_at w ls c -> rtc pool_step c c' ->
  exists w' ls', pool_at w' ls' c' /\ (Less w' w \/ Level w' w).
Proof.
  intros Hc Hs. revert w ls Hc. induction Hs as [c|c c1 c2 H01 _ IH]; intros w ls Hc; [exists w, ls; auto|].
  destruct (pool_at_next w ls c c1 Hc H01) as (w1 & ls1 & Hc1 & Hor).
  destruct (IH w1 ls1 Hc1) as (w2 & ls2 & Hc2 & Hor2).
  exists w2, ls2. split; [done|]. destruct Hor, Hor2; eauto.
Qed.

(** What a level step does not change is changed finitely often, whatever the interleaving. *)
Definition changes_part {B} (part : S -> B) (c' c : pool S * S) : Prop :=
  exists c1, rtc pool_step c c1 /\ pool_step c1 c' /\ part c'.2 <> part c1.2.

Lemma changes_end {B} (part : S -> B) :
  (forall w s ls w' s' ls', Inv w s ls -> Inv w' s' ls' -> Level w' w -> part s' = part s) ->
  forall w, Acc Less w -> forall ls c, pool_at w ls c -> Acc (changes_part part) c.
Proof.
  intros Hpart w Hw. induction Hw as [w _ IH]. intros ls c Hc. constructor.
  intros c' (c1 & Hr & Hs & Hne). destruct (pool_at_steps w ls c c1 Hc Hr) as (w1 & ls1 & Hc1 & Hor).
  destruct (pool_at_next w1 ls1 c1 c' Hc1 Hs) as (w2 & ls2 & Hc2 & [Hls|Hlv]).
  - apply (IH w2) with ls2; [|done]. destruct Hor; eauto.
  - destruct Hne. by eapply Hpart; [apply Hc1|apply Hc2|].
Qed.
End Liveness.
