(* ===== verification/Scheduler.v ===== *)
(** * The collaborative scheduler ([parallel-executor/src/scheduler.rs])

    The scheduler hands out execution and validation tasks with two shared indices, a status
    per transaction, dependency lists, and a count of the active tasks.  Every method is a
    [prog] over the scheduler's state whose atomic actions are the operations on one atomic or
    one critical section under one mutex.  [wait_for_dependency] takes a status mutex while it
    holds a dependency mutex, so the dependency mutexes are explicit ([dep_locked]).

    The orderings of the code (SeqCst, and Acquire/Release on the done marker) are
    modelled as an interleaving.  Indices are [nat]: no counter comes near the width of
    [usize].  A [DependencyCondvar] is an index in [condvars], the flags under the mutexes; a
    wait on the condition variable is a wait for the flag, which is what the loop around it is. *)
From S2P Require Import Prelude Conc.

Abbreviation TxnIndex := nat.
Abbreviation Incarnation := nat.
Abbreviation Version := (nat * nat)%type.
Abbreviation DependencyCondvar := nat.

#[local] Open Scope nat_scope.
#[local] Open Scope prog_scope.

(** A holder for potential task returned from the Scheduler.  The [TaskGuard] each task holds
    is a unit of [num_active_tasks]: [guard_new] takes it and [guard_drop] gives it back,
    where the code drops the guard. *)
Inductive SchedulerTask :=
  | ExecutionTask (v : Version) (condvar : option DependencyCondvar)
  | ValidationTask (v : Version)
  | NoTask
  | Done.

(** All possible statuses for each transaction. *)
Inductive TransactionStatus :=
  | ReadyToExecute (incarnation : Incarnation) (condvar : option DependencyCondvar)
  | Executing (incarnation : Incarnation)
  | Suspended (incarnation : Incarnation) (condvar : DependencyCondvar)
  | Executed (incarnation : Incarnation)
  | Aborting (incarnation : Incarnation).

#[export] Instance SchedulerTask_eq_dec : EqDecision SchedulerTask.
Proof. solve_decision. Defined.
#[export] Instance TransactionStatus_eq_dec : EqDecision TransactionStatus.
Proof. solve_decision. Defined.

(** [PartialEq for TransactionStatus] ignores the condition variables. *)
Definition status_eqb (a b : TransactionStatus) : bool :=
  match a, b with
  | ReadyToExecute a _, ReadyToExecute b _
  | Executing a, Executing b
  | Suspended a _, Suspended b _
  | Executed a, Executed b
  | Aborting a, Aborting b => a =? b
  | _, _ => false
  end.

(** The status transition diagram of the comment on [TransactionStatus]. *)
Inductive transition : TransactionStatus -> TransactionStatus -> Prop :=
  | TIncarnate inc cv : transition (ReadyToExecute inc cv) (Executing inc)
  | TSuspend inc cv : transition (Executing inc) (Suspended inc cv)
  | TResume inc cv : transition (Suspended inc cv) (ReadyToExecute inc (Some cv))
  | TFinish inc : transition (Executing inc) (Executed inc)
  | TAbort inc : transition (Executed inc) (Aborting inc)
  | TAborted inc : transition (Aborting inc) (ReadyToExecute (inc + 1) None).

Record Scheduler := {
  num_txns : nat;
  execution_idx : nat;
  validation_idx : nat;
  decrease_cnt : nat;
  num_active_tasks : nat;
  done_marker : bool;
  txn_dependency : list (list TxnIndex);
  dep_locked : list bool;
  txn_status : list TransactionStatus;
  condvars : list bool;
}.

Definition Scheduler_new (n : nat) : Scheduler :=
  {| num_txns := n; execution_idx := 0; validation_idx := 0; decrease_cnt := 0;
     num_active_tasks := 0; done_marker := false;
     txn_dependency := replicate n []; dep_locked := replicate n false;
     txn_status := replicate n (ReadyToExecute 0 None); condvars := [] |}.

(** ** Updates of one field *)

Definition set_execution_idx (v : nat) (s : Scheduler) : Scheduler :=
  {| num_txns := num_txns s; execution_idx := v; validation_idx := validation_idx s;
     decrease_cnt := decrease_cnt s; num_active_tasks := num_active_tasks s;
     done_marker := done_marker s; txn_dependency := txn_dependency s;
     dep_locked := dep_locked s; txn_status := txn_status s; condvars := condvars s |}.
Definition set_validation_idx (v : nat) (s : Scheduler) : Scheduler :=
  {| num_txns := num_txns s; execution_idx := execution_idx s; validation_idx := v;
     decrease_cnt := decrease_cnt s; num_active_tasks := num_active_tasks s;
     done_marker := done_marker s; txn_dependency := txn_dependency s;
     dep_locked := dep_locked s; txn_status := txn_status s; condvars := condvars s |}.
Definition set_decrease_cnt (v : nat) (s : Scheduler) : Scheduler :=
  {| num_txns := num_txns s; execution_idx := execution_idx s;
     validation_idx := validation_idx s; decrease_cnt := v;
     num_active_tasks := num_active_tasks s; done_marker := done_marker s;
     txn_dependency := txn_dependency s; dep_locked := dep_locked s;
     txn_status := txn_status s; condvars := condvars s |}.
Definition set_num_active_tasks (v : nat) (s : Scheduler) : Scheduler :=
  {| num_txns := num_txns s; execution_idx := execution_idx s;
     validation_idx := validation_idx s; decrease_cnt := decrease_cnt s;
     num_active_tasks := v; done_marker := done_marker s;
     txn_dependency := txn_dependency s; dep_locked := dep_locked s;
     txn_status := txn_status s; condvars := condvars s |}.
Definition set_done_marker (v : bool) (s : Scheduler) : Scheduler :=
  {| num_txns := num_txns s; execution_idx := execution_idx s;
     validation_idx := validation_idx s; decrease_cnt := decrease_cnt s;
     num_active_tasks := num_active_tasks s; done_marker := v;
     txn_dependency := txn_dependency s; dep_locked := dep_locked s;
     txn_status := txn_status s; condvars := condvars s |}.
Definition set_txn_dependency (v : list (list TxnIndex)) (s : Scheduler) : Scheduler :=
  {| num_txns := num_txns s; execution_idx := execution_idx s;
     validation_idx := validation_idx s; decrease_cnt := decrease_cnt s;
     num_active_tasks := num_active_tasks s; done_marker := done_marker s;
     txn_dependency := v; dep_locked := dep_locked s;
     txn_status := txn_status s; condvars := condvars s |}.
Definition set_dep_locked (v : list bool) (s : Scheduler) : Scheduler :=
  {| num_txns := num_txns s; execution_idx := execution_idx s;
     validation_idx := validation_idx s; decrease_cnt := decrease_cnt s;
     num_active_tasks := num_active_tasks s; done_marker := done_marker s;
     txn_dependency := txn_dependency s; dep_locked := v;
     txn_status := txn_status s; condvars := condvars s |}.
Definition set_txn_status (v : list TransactionStatus) (s : Scheduler) : Scheduler :=
  {| num_txns := num_txns s; execution_idx := execution_idx s;
     validation_idx := validation_idx s; decrease_cnt := decrease_cnt s;
     num_active_tasks := num_active_tasks s; done_marker := done_marker s;
     txn_dependency := txn_dependency s; dep_locked := dep_locked s;
     txn_status := v; condvars := condvars s |}.
Definition set_condvars (v : list bool) (s : Scheduler) : Scheduler :=
  {| num_txns := num_txns s; execution_idx := execution_idx s;
     validation_idx := validation_idx s; decrease_cnt := decrease_cnt s;
     num_active_tasks := num_active_tasks s; done_marker := done_marker s;
     txn_dependency := txn_dependency s; dep_locked := dep_locked s;
     txn_status := txn_status s; condvars := v |}.

(** ** Atomics *)

Definition fetch_add_execution_idx : prog Scheduler nat :=
  Atom (fun s => Go (execution_idx s) (set_execution_idx (execution_idx s + 1) s)).
Definition fetch_add_validation_idx : prog Scheduler nat :=
  Atom (fun s => Go (validation_idx s) (set_validation_idx (validation_idx s + 1) s)).
Definition fetch_min_execution_idx (v : nat) : prog Scheduler nat :=
  Atom (fun s => Go (execution_idx s) (set_execution_idx (min (execution_idx s) v) s)).
Definition fetch_min_validation_idx (v : nat) : prog Scheduler nat :=
  Atom (fun s => Go (validation_idx s) (set_validation_idx (min (validation_idx s) v) s)).
Definition incr_decrease_cnt : prog Scheduler unit :=
  modify (fun s => set_decrease_cnt (decrease_cnt s + 1) s).

(** [TaskGuard::new] *)
Definition guard_new : prog Scheduler unit :=
  modify (fun s => set_num_active_tasks (num_active_tasks s + 1) s).

(** [Drop for TaskGuard], with its assertion. *)
Definition guard_drop : prog Scheduler unit :=
  Atom (fun s => if 0 <? num_active_tasks s
                 then Go tt (set_num_active_tasks (num_active_tasks s - 1) s)
                 else Crash).

(** ** Critical sections on the status of a transaction

    [status_section txn_idx f] locks the status, runs [f] on it and unlocks: [f] gives the
    result and the new status, [None] is a panic.  Indexing out of bounds panics. *)
Definition status_section {A} (txn_idx : TxnIndex)
  (f : TransactionStatus -> option (A * TransactionStatus)) : prog Scheduler A :=
  Atom (fun s =>
    match txn_status s !! txn_idx with
    | None => Crash
    | Some status =>
        match f status with
        | None => Crash
        | Some (a, status') => Go a (set_txn_status (<[txn_idx := status']> (txn_status s)) s)
        end
    end).

(** Try to abort version = (txn_idx, incarnation), called upon validation failure. *)
Definition try_abort (txn_idx : TxnIndex) (incarnation : Incarnation) : prog Scheduler bool :=
  status_section txn_idx (fun status =>
    if status_eqb status (Executed incarnation)
    then Some (true, Aborting incarnation)
    else Some (false, status)).

(** Try and incarnate a transaction. *)
Definition try_incarnate (txn_idx : TxnIndex)
  : prog Scheduler (option (Incarnation * option DependencyCondvar)) :=
  len <- load (fun s => length (txn_status s)) ;;
  if len <=? txn_idx then Ret None
  else status_section txn_idx (fun status =>
    match status with
    | ReadyToExecute incarnation maybe_condvar =>
        Some (Some (incarnation, maybe_condvar), Executing incarnation)
    | _ => Some (None, status)
    end).

(** If the status of transaction is Executed(incarnation), returns Some(incarnation). *)
Definition is_executed (txn_idx : TxnIndex) : prog Scheduler (option Incarnation) :=
  len <- load (fun s => length (txn_status s)) ;;
  if len <=? txn_idx then Ret None
  else status_section txn_idx (fun status =>
    match status with
    | Executed incarnation => Some (Some incarnation, status)
    | _ => Some (None, status)
    end).

(** Put a transaction in a suspended state; [unreachable!()] unless it is executing. *)
Definition suspend (txn_idx : TxnIndex) (dep_condvar : DependencyCondvar) : prog Scheduler unit :=
  status_section txn_idx (fun status =>
    match status with
    | Executing incarnation => Some (tt, Suspended incarnation dep_condvar)
    | _ => None
    end).

(** When a dependency is resolved, mark the transaction as ReadyToExecute. *)
Definition resume (txn_idx : TxnIndex) : prog Scheduler unit :=
  status_section txn_idx (fun status =>
    match status with
    | Suspended incarnation dep_condvar =>
        Some (tt, ReadyToExecute incarnation (Some dep_condvar))
    | _ => None
    end).

(** Set status of the transaction to Executed(incarnation). *)
Definition set_executed_status (txn_idx : TxnIndex) (incarnation : Incarnation)
  : prog Scheduler unit :=
  status_section txn_idx (fun status =>
    if status_eqb status (Executing incarnation) (* debug_assert! *)
    then Some (tt, Executed incarnation) else None).

(** After a successful abort, mark the transaction as ready for re-execution with an
    incremented incarnation number. *)
Definition set_aborted_status (txn_idx : TxnIndex) (incarnation : Incarnation)
  : prog Scheduler unit :=
  status_section txn_idx (fun status =>
    if status_eqb status (Aborting incarnation) (* debug_assert! *)
    then Some (tt, ReadyToExecute (incarnation + 1) None) else None).

(** ** The indices *)

(** Decreases the validation index, increases the decrease counter if it actually decreased. *)
Definition decrease_validation_idx (target_idx : TxnIndex) : prog Scheduler unit :=
  prev <- fetch_min_validation_idx target_idx ;;
  if target_idx <? prev then incr_decrease_cnt else Ret tt.

(** Decreases the execution index, increases the decrease counter if it actually decreased. *)
Definition decrease_execution_idx (target_idx : TxnIndex) : prog Scheduler unit :=
  prev <- fetch_min_execution_idx target_idx ;;
  if target_idx <? prev then incr_decrease_cnt else Ret tt.

(** A lazy check of whether the scheduler execution is completed. *)
Definition check_done : prog Scheduler bool :=
  observed_cnt <- load decrease_cnt ;;
  val_idx <- load validation_idx ;;
  exec_idx <- load execution_idx ;;
  num_tasks <- load num_active_tasks ;;
  n <- load num_txns ;;
  if (min exec_idx val_idx <? n) || (0 <? num_tasks) then Ret false
  else
    cnt <- load decrease_cnt ;;
    if observed_cnt =? cnt
    then modify (set_done_marker true) ;; Ret true
    else Ret false.

(** Checks whether the done marker is set. *)
Definition done : prog Scheduler bool := load done_marker.

(** Grab an index to try and validate next. *)
Definition try_validate_next_version : prog Scheduler (option Version) :=
  idx <- load validation_idx ;;
  n <- load num_txns ;;
  if n <=? idx then (check_done ;; Ret None)
  else
    guard_new ;;
    idx_to_validate <- fetch_add_validation_idx ;;
    r <- is_executed idx_to_validate ;;
    match r with
    | Some incarnation => Ret (Some (idx_to_validate, incarnation))
    | None => guard_drop ;; Ret None
    end.

(** Grab an index to try and execute next. *)
Definition try_execute_next_version
  : prog Scheduler (option (Version * option DependencyCondvar)) :=
  idx <- load execution_idx ;;
  n <- load num_txns ;;
  if n <=? idx then (check_done ;; Ret None)
  else
    guard_new ;;
    idx_to_execute <- fetch_add_execution_idx ;;
    r <- try_incarnate idx_to_execute ;;
    match r with
    | Some (incarnation, maybe_condvar) =>
        Ret (Some ((idx_to_execute, incarnation), maybe_condvar))
    | None => guard_drop ;; Ret None
    end.

(** Return the next task for the thread. *)
Definition next_task : prog Scheduler SchedulerTask :=
  Iter (fun _ : unit =>
    d <- done ;;
    if (d : bool) then Ret (inr Done)
    else
      idx_to_validate <- load validation_idx ;;
      idx_to_execute <- load execution_idx ;;
      if idx_to_validate <? idx_to_execute then
        r <- try_validate_next_version ;;
        match r with
        | Some version => Ret (inr (ValidationTask version))
        | None => Ret (inl tt)
        end
      else
        r <- try_execute_next_version ;;
        match r with
        | Some (version, maybe_condvar) => Ret (inr (ExecutionTask version maybe_condvar))
        | None => Ret (inl tt)
        end) tt.

(** ** Dependencies *)

(** [Arc::new((Mutex::new(false), Condvar::new()))] *)
Definition new_condvar : prog Scheduler DependencyCondvar :=
  Atom (fun s => Go (length (condvars s)) (set_condvars (condvars s ++ [false]) s)).

(** [self.txn_dependency[i].lock()], and the end of the critical section. *)
Definition lock_dependency (i : TxnIndex) : prog Scheduler unit :=
  Atom (fun s =>
    match dep_locked s !! i with
    | None => Crash
    | Some true => Wait
    | Some false => Go tt (set_dep_locked (<[i := true]> (dep_locked s)) s)
    end).
Definition unlock_dependency (i : TxnIndex) : prog Scheduler unit :=
  modify (fun s => set_dep_locked (<[i := false]> (dep_locked s)) s).

Definition push_dependency (i txn_idx : TxnIndex) : prog Scheduler unit :=
  modify (fun s => set_txn_dependency (alter (fun l => l ++ [txn_idx]) i (txn_dependency s)) s).

(** [std::mem::take] of the dependency list, under its lock. *)
Definition take_dependencies (i : TxnIndex) : prog Scheduler (list TxnIndex) :=
  Atom (fun s =>
    match txn_dependency s !! i, dep_locked s !! i with
    | Some l, Some false => Go l (set_txn_dependency (<[i := []]> (txn_dependency s)) s)
    | Some _, Some true => Wait
    | _, _ => Crash
    end).

(** When a txn depends on another txn, adds it to the dependency list of the other txn. *)
Definition wait_for_dependency (txn_idx dep_txn_idx : TxnIndex)
  : prog Scheduler (option DependencyCondvar) :=
  dep_condvar <- new_condvar ;;
  lock_dependency dep_txn_idx ;;
  r <- is_executed dep_txn_idx ;;
  match r with
  | Some _ => unlock_dependency dep_txn_idx ;; Ret None
  | None =>
      suspend txn_idx dep_condvar ;;
      push_dependency dep_txn_idx txn_idx ;;
      unlock_dependency dep_txn_idx ;;
      Ret (Some dep_condvar)
  end.

(** The waiting loop on a condition variable, and its notification. *)
Definition wait_condvar (cv : DependencyCondvar) : prog Scheduler unit :=
  Atom (fun s => match condvars s !! cv with
                 | Some true => Go tt s | Some false => Wait | None => Crash end).
Definition notify_condvar (cv : DependencyCondvar) : prog Scheduler unit :=
  modify (fun s => set_condvars (<[cv := true]> (condvars s)) s).

(** The minimum so far and one more index ([Iterator::min]). *)
Definition opt_min (m : option nat) (i : nat) : option nat :=
  Some (match m with None => i | Some j => min j i end).

(** [txn_deps.into_iter().map(|dep| {self.resume(dep); dep}).min()] *)
Fixpoint resume_all (deps : list TxnIndex) (min_dep : option TxnIndex)
  : prog Scheduler (option TxnIndex) :=
  match deps with
  | [] => Ret min_dep
  | dep :: deps => resume dep ;; resume_all deps (opt_min min_dep dep)
  end.

(** After txn is executed, schedule its dependencies for re-execution. *)
Definition finish_execution (txn_idx : TxnIndex) (incarnation : Incarnation)
  (revalidate_suffix : bool) : prog Scheduler SchedulerTask :=
  set_executed_status txn_idx incarnation ;;
  txn_deps <- take_dependencies txn_idx ;;
  min_dep <- resume_all txn_deps None ;;
  match min_dep with
  | Some execution_target_idx => decrease_execution_idx execution_target_idx
  | None => Ret tt
  end ;;
  v <- load validation_idx ;;
  if txn_idx <? v then
    if revalidate_suffix
    then decrease_validation_idx txn_idx ;; guard_drop ;; Ret NoTask
    else Ret (ValidationTask (txn_idx, incarnation))
  else guard_drop ;; Ret NoTask.

(** Finalize the abort of version (txn_idx, incarnation). *)
Definition finish_abort (txn_idx : TxnIndex) (incarnation : Incarnation)
  : prog Scheduler SchedulerTask :=
  set_aborted_status txn_idx incarnation ;;
  decrease_validation_idx (txn_idx + 1) ;;
  e <- load execution_idx ;;
  if txn_idx <? e then
    r <- try_incarnate txn_idx ;;
    match r with
    | Some (new_incarnation, maybe_condvar) =>
        Ret (ExecutionTask (txn_idx, new_incarnation) maybe_condvar)
    | None => guard_drop ;; Ret NoTask
    end
  else guard_drop ;; Ret NoTask.
