(* ===== verification/LastInputOutput.v ===== *)
(** * Read sets and outputs of the transactions
    ([parallel-executor/src/{task,errors,txn_last_input_output}.rs])

    [TxnLastInputOutput] keeps, per transaction, the reads captured by its last execution and
    its last output, and the module paths ever read and written.  Each access to an
    [ArcSwapOption], a [DashSet] or the flag is one atomic action. *)
From S2P Require Import Prelude Delta MVMap Conc.

#[local] Open Scope nat_scope.
#[local] Open Scope prog_scope.

(** The execution result of a transaction. *)
Inductive ExecutionStatus (T E : Type) : Type :=
  | Success (t : T)
  | Abort (e : E)
  | SkipRest (t : T).
Arguments Success {T E} t.
Arguments Abort {T E} e.
Arguments SkipRest {T E} t.

(** [errors.rs] *)
Inductive Error (E : Type) : Type :=
  | InvariantViolation
  | ModulePathReadWrite
  | UserError (e : E).
Arguments InvariantViolation {E}.
Arguments ModulePathReadWrite {E}.
Arguments UserError {E} e.

(** Information about the read which is used by validation. *)
Inductive ReadKind :=
  | KVersion (txn_idx : TxnIndex) (incarnation : Incarnation)
  | KResolved (value : Z)
  | KUnresolved (d : DeltaOp)
  | KStorage
  | KDeltaApplicationFailure.

#[export] Instance ReadKind_eq_dec : EqDecision ReadKind.
Proof. solve_decision. Defined.

Record ReadDescriptor (K : Type) := { access_path : K; kind : ReadKind }.
Arguments access_path {K} _.
Arguments kind {K} _.
Arguments Build_ReadDescriptor {K} _ _.

Definition from_version {K} (path : K) (txn_idx : TxnIndex) (incarnation : Incarnation)
  : ReadDescriptor K := {| access_path := path; kind := KVersion txn_idx incarnation |}.
Definition from_resolved {K} (path : K) (value : Z) : ReadDescriptor K :=
  {| access_path := path; kind := KResolved value |}.
Definition from_unresolved {K} (path : K) (d : DeltaOp) : ReadDescriptor K :=
  {| access_path := path; kind := KUnresolved d |}.
Definition from_storage {K} (path : K) : ReadDescriptor K :=
  {| access_path := path; kind := KStorage |}.
Definition from_delta_application_failure {K} (path : K) : ReadDescriptor K :=
  {| access_path := path; kind := KDeltaApplicationFailure |}.

Definition validate_version {K} (r : ReadDescriptor K) (version : Version) : bool :=
  let '(txn_idx, incarnation) := version in bool_decide (kind r = KVersion txn_idx incarnation).
Definition validate_resolved {K} (r : ReadDescriptor K) (value : Z) : bool :=
  bool_decide (kind r = KResolved value).
Definition validate_unresolved {K} (r : ReadDescriptor K) (d : DeltaOp) : bool :=
  bool_decide (kind r = KUnresolved d).
Definition validate_storage {K} (r : ReadDescriptor K) : bool := bool_decide (kind r = KStorage).
Definition validate_delta_application_failure {K} (r : ReadDescriptor K) : bool :=
  bool_decide (kind r = KDeltaApplicationFailure).

(** What a transaction produces: the trait [TransactionOutput] and [Transaction::Key]. *)
Class TransactionOutput (K V O : Type) := {
  get_writes : O -> list (K * V);
  get_deltas : O -> list (K * DeltaOp);
  skip_output : O;
}.

(** [trait ModulePath] *)
Class ModulePath (K P : Type) := module_path : K -> option P.

Section LastInputOutput.
Context {K V O E P : Type} `{Countable K} `{Countable P}.
Context `{TransactionOutput K V O} `{ModulePath K P}.

Abbreviation Status := (ExecutionStatus O (Error E)).

Record TxnLastInputOutput := {
  inputs : list (option (list (ReadDescriptor K)));
  outputs : list (option Status);
  module_writes : gset P;
  module_reads : gset P;
  module_read_write_intersection : bool;
}.

Definition TxnLastInputOutput_new (num_txns : nat) : TxnLastInputOutput :=
  {| inputs := replicate num_txns None; outputs := replicate num_txns None;
     module_writes := ∅; module_reads := ∅; module_read_write_intersection := false |}.

Definition set_inputs v (s : TxnLastInputOutput) : TxnLastInputOutput :=
  {| inputs := v; outputs := outputs s; module_writes := module_writes s;
     module_reads := module_reads s;
     module_read_write_intersection := module_read_write_intersection s |}.
Definition set_outputs v (s : TxnLastInputOutput) : TxnLastInputOutput :=
  {| inputs := inputs s; outputs := v; module_writes := module_writes s;
     module_reads := module_reads s;
     module_read_write_intersection := module_read_write_intersection s |}.
Definition set_module_writes v (s : TxnLastInputOutput) : TxnLastInputOutput :=
  {| inputs := inputs s; outputs := outputs s; module_writes := v;
     module_reads := module_reads s;
     module_read_write_intersection := module_read_write_intersection s |}.
Definition set_module_reads v (s : TxnLastInputOutput) : TxnLastInputOutput :=
  {| inputs := inputs s; outputs := outputs s; module_writes := module_writes s;
     module_reads := v;
     module_read_write_intersection := module_read_write_intersection s |}.
Definition set_intersection v (s : TxnLastInputOutput) : TxnLastInputOutput :=
  {| inputs := inputs s; outputs := outputs s; module_writes := module_writes s;
     module_reads := module_reads s; module_read_write_intersection := v |}.

(** [append_and_check], where [ins] and [other] are the set to append to and the set to
    check: first record the path, then look for it in the other set. *)
Fixpoint append_and_check (paths : list P) (ins : P -> TxnLastInputOutput -> TxnLastInputOutput)
  (other : TxnLastInputOutput -> gset P) : prog TxnLastInputOutput bool :=
  match paths with
  | [] => Ret false
  | path :: paths =>
      modify (ins path) ;;
      found <- load (fun s => bool_decide (path ∈ other s)) ;;
      if (found : bool) then Ret true else append_and_check paths ins other
  end.

Definition insert_module_read (path : P) (s : TxnLastInputOutput) : TxnLastInputOutput :=
  set_module_reads ({[path]} ∪ module_reads s) s.
Definition insert_module_write (path : P) (s : TxnLastInputOutput) : TxnLastInputOutput :=
  set_module_writes ({[path]} ∪ module_writes s) s.

Definition read_modules (input : list (ReadDescriptor K)) : list P :=
  omap (fun desc => module_path (access_path desc)) input.

Definition written_modules (output : Status) : list P :=
  match output with
  | Success output | SkipRest output =>
      omap (fun kv : K * V => module_path (kv.1)) (get_writes output)
  | Abort _ => []
  end.

(** [inputs[txn_idx].store(..)] and [outputs[txn_idx].store(..)]. *)
Definition store_input (txn_idx : TxnIndex) (input : list (ReadDescriptor K))
  : prog TxnLastInputOutput unit :=
  Atom (fun s => if txn_idx <? length (inputs s)
                 then Go tt (set_inputs (<[txn_idx := Some input]> (inputs s)) s)
                 else Crash).
Definition store_output (txn_idx : TxnIndex) (output : Status)
  : prog TxnLastInputOutput unit :=
  Atom (fun s => if txn_idx <? length (outputs s)
                 then Go tt (set_outputs (<[txn_idx := Some output]> (outputs s)) s)
                 else Crash).

(** Records the reads and the output of an execution; see the flags principle above. *)
Definition record (txn_idx : TxnIndex) (input : list (ReadDescriptor K)) (output : Status)
  : prog TxnLastInputOutput unit :=
  flag <- load module_read_write_intersection ;;
  (if (flag : bool) then Ret tt
   else
     a <- append_and_check (read_modules input) insert_module_read module_writes ;;
     b <- (if (a : bool) then Ret true
           else append_and_check (written_modules output) insert_module_write module_reads) ;;
     if (b : bool) then modify (set_intersection true) else Ret tt) ;;
  store_input txn_idx input ;;
  store_output txn_idx output.

Definition module_publishing_may_race (s : TxnLastInputOutput) : bool :=
  module_read_write_intersection s.

(** [read_set(txn_idx)]; indexing out of bounds panics. *)
Definition read_set (txn_idx : TxnIndex)
  : prog TxnLastInputOutput (option (list (ReadDescriptor K))) :=
  Atom (fun s => match inputs s !! txn_idx with Some o => Go o s | None => Crash end).

(** The keys written or updated by an output. *)
Definition output_keys (o : O) : list K := (get_writes o).*1 ++ (get_deltas o).*1.
Definition status_keys (o : option Status) : gset K :=
  match o with
  | Some (Success t) | Some (SkipRest t) => list_to_set (output_keys t)
  | Some (Abort _) | None => ∅
  end.

(** Extracts a set of paths written or updated during execution from transaction output. *)
Definition modified_keys (txn_idx : TxnIndex) : prog TxnLastInputOutput (gset K) :=
  Atom (fun s => match outputs s !! txn_idx with
                 | Some o => Go (status_keys o) s | None => Crash end).

(** Grabs an output after the execution is done ([Arc::try_unwrap] of a pointer nobody else
    holds); [None] is a panic. *)
Definition take_output (txn_idx : TxnIndex) (s : TxnLastInputOutput)
  : option (Status * TxnLastInputOutput) :=
  match outputs s !! txn_idx with
  | Some (Some output) => Some (output, set_outputs (<[txn_idx := None]> (outputs s)) s)
  | _ => None
  end.
End LastInputOutput.
Arguments TxnLastInputOutput K O E P {_ _}.
