(* ===== verification/Executor.v ===== *)
(** * The parallel executor ([parallel-executor/src/executor.rs])

    The worker threads, the view they pass to the VM, and the block they execute.  The VM is a
    parameter: [execute_transaction] gives, for a transaction, the tree of the reads it makes
    ([VMRun]), since the trait [ExecutorTask] lets it see the view only through [read].

    The multi-version map is shared at the grain of the code: a read takes the shared lock of
    the key, then loads the flag of one entry after the other, while [mark_estimate], which
    takes the same shared lock, may store one of them.  A DashMap locks a shard, so a lock per
    key allows every interleaving of the code.  The iteration order of a [HashSet] is a
    parameter, [hash_iter]. *)
From S2P Require Import Prelude Delta ChangeSetExt MVMap Conc Scheduler LastInputOutput.

#[local] Open Scope nat_scope.
#[local] Open Scope prog_scope.

(** The result of the read from the proxy. *)
Inductive ReadResult (V : Type) :=
  | Value (v : V)
  | RU128 (value : Z)
  | RUnresolved (d : DeltaOp)
  | RNone.
Arguments Value {V} v.
Arguments RU128 {V} value.
Arguments RUnresolved {V} d.
Arguments RNone {V}.

(** A run of the VM: it reads keys through the view and ends with an execution status, or
    panics. *)
Inductive VMRun (K V O E : Type) :=
  | VMDone (status : ExecutionStatus O E)
  | VMRead (key : K) (cont : ReadResult V -> VMRun K V O E)
  | VMPanic.
Arguments VMDone {K V O E} status.
Arguments VMRead {K V O E} key cont.
Arguments VMPanic {K V O E}.

(** ** The shared multi-version map *)

Section SharedMap.
Context `{Bcs128} {K V : Type} `{Countable K} `{TransactionWrite V}.

(** The map and, per key, the number of the readers that hold its lock. *)
Record MVShared := {
  mv_data : gmap K (gmap TxnIndex (Entry V));
  mv_readers : gmap K nat;
}.
Definition MVShared_new : MVShared := {| mv_data := mv_new; mv_readers := ∅ |}.
Definition set_mv_data v (s : MVShared) : MVShared :=
  {| mv_data := v; mv_readers := mv_readers s |}.
Definition set_mv_readers v (s : MVShared) : MVShared :=
  {| mv_data := mv_data s; mv_readers := v |}.
Definition readers (s : MVShared) (key : K) : nat := default 0 (mv_readers s !! key).

(** An operation under the exclusive lock of a key; [None] is a panic. *)
Definition exclusive (key : K)
  (f : gmap K (gmap TxnIndex (Entry V)) -> option (gmap K (gmap TxnIndex (Entry V))))
  : prog MVShared unit :=
  Atom (fun s => if readers s key =? 0
                 then match f (mv_data s) with
                      | Some m => Go tt (set_mv_data m s) | None => Crash end
                 else Wait).

Definition shared_add_write (key : K) (version : Version) (data : V) : prog MVShared unit :=
  exclusive key (fun m => add_write m key version data).
Definition shared_add_delta (key : K) (txn_idx : TxnIndex) (delta : DeltaOp)
  : prog MVShared unit :=
  exclusive key (fun m => Some (add_delta m key txn_idx delta)).
Definition shared_delete (key : K) (txn_idx : TxnIndex) : prog MVShared unit :=
  exclusive key (fun m => mv_delete m key txn_idx).

(** [mark_estimate] takes the shared lock and stores a flag. *)
Definition shared_mark_estimate (key : K) (txn_idx : TxnIndex) : prog MVShared unit :=
  Atom (fun s => match mark_estimate (mv_data s) key txn_idx with
                 | Some m => Go tt (set_mv_data m s) | None => Crash end).

(** [self.data.get(key)], and the end of the life of what it returns. *)
Definition read_begin (key : K) : prog MVShared (option (gmap TxnIndex (Entry V))) :=
  Atom (fun s => match mv_data s !! key with
                 | Some tree =>
                     Go (Some tree)
                        (set_mv_readers (<[key := readers s key + 1]> (mv_readers s)) s)
                 | None => Go None s
                 end).
Definition read_end (key : K) : prog MVShared unit :=
  modify (fun s => set_mv_readers (<[key := readers s key - 1]> (mv_readers s)) s).

(** [entry.flag()]; the lock keeps the entry in the tree. *)
Definition load_flag (key : K) (idx : TxnIndex) : prog MVShared Z :=
  Atom (fun s => match mv_data s !! key ≫= (fun tree => tree !! idx) with
                 | Some entry => Go (flag entry) s
                 | None => Crash
                 end).

(** One iteration of the loop of [MVMap.read]: a result, or the next accumulator. *)
Definition read_entry (idx : TxnIndex) (entry : Entry V) (accumulator : option DeltaOp)
  : ReadOutput V + option DeltaOp :=
  if bool_decide (flag entry = FLAG_ESTIMATE) then inl (Throw (Dependency idx))
  else if negb (bool_decide (flag entry = FLAG_DONE)) then inl Panic (* debug_assert! *)
  else
    match cell entry, accumulator with
    | EWrite incarnation data, None => inl (Return (RVersion (idx, incarnation) data))
    | EWrite incarnation data, Some accumulator =>
        inl (maybe_value ← from_write data;
             match maybe_value with
             | None => Return (RVersion (idx, incarnation) data)
             | Some value =>
                 result ← lift (map_err (fun _ => DeltaApplicationFailure)
                                  (apply_to accumulator value));
                 Return (Resolved result)
             end)
    | EDelta delta, Some accumulator =>
        match merge_onto accumulator delta with
        | Ok accumulator => inr (Some accumulator)
        | Err _ => inl (Throw DeltaApplicationFailure)
        end
    | EDelta delta, None => inr (Some delta)
    end.

(** The loop of [MVHashMap::read] over the entries of the locked tree. *)
Fixpoint shared_read_loop (key : K) (iter : list (TxnIndex * Entry V))
  (accumulator : option DeltaOp) : prog MVShared (ReadOutput V) :=
  match iter with
  | [] =>
      Ret (match accumulator with
           | Some accumulator => Throw (Unresolved accumulator)
           | None => Throw NotFound
           end)
  | (idx, entry) :: iter =>
      f <- load_flag key idx ;;
      match read_entry idx {| flag := f; cell := cell entry |} accumulator with
      | inl r => Ret r
      | inr accumulator => shared_read_loop key iter accumulator
      end
  end.

Definition shared_read (key : K) (txn_idx : TxnIndex) : prog MVShared (ReadOutput V) :=
  t <- read_begin key ;;
  match t with
  | Some tree =>
      r <- shared_read_loop key (range_back tree txn_idx) None ;;
      read_end key ;;
      Ret r
  | None => Ret (Throw NotFound)
  end.
End SharedMap.
Arguments MVShared K V {_ _}.

(** ** The executor *)

Section Executor.
Context `{Bcs128} {K V O E P T : Type} `{Countable K} `{Countable P}.
Context `{TransactionWrite V} `{TransactionOutput K V O} `{ModulePath K P}.
Context (hash_iter : gset K -> list K).
Context (execute_transaction : TxnIndex -> T -> VMRun K V O E).

(** What the threads share. *)
Record Block := {
  scheduler : Scheduler;
  versioned_data_cache : MVShared K V;
  last_input_output : TxnLastInputOutput K O E P;
}.
Definition Block_new (num_txns : nat) : Block :=
  {| scheduler := Scheduler_new num_txns; versioned_data_cache := MVShared_new;
     last_input_output := TxnLastInputOutput_new num_txns |}.
Definition set_scheduler v (b : Block) : Block :=
  {| scheduler := v; versioned_data_cache := versioned_data_cache b;
     last_input_output := last_input_output b |}.
Definition set_data_cache v (b : Block) : Block :=
  {| scheduler := scheduler b; versioned_data_cache := v;
     last_input_output := last_input_output b |}.
Definition set_last_io v (b : Block) : Block :=
  {| scheduler := scheduler b; versioned_data_cache := versioned_data_cache b;
     last_input_output := v |}.

Definition on_scheduler {A} (p : prog Scheduler A) : prog Block A :=
  zoom scheduler set_scheduler p.
Definition on_data {A} (p : prog (MVShared K V) A) : prog Block A :=
  zoom versioned_data_cache set_data_cache p.
Definition on_io {A} (p : prog (TxnLastInputOutput K O E P) A) : prog Block A :=
  zoom last_input_output set_last_io p.

Abbreviation Reads := (list (ReadDescriptor K)).

(** [MVHashMapView::read]: captures a read from the VM execution. *)
Definition view_read (txn_idx : TxnIndex) (key : K) (captured_reads : Reads)
  : prog Block (ReadResult V * Reads) :=
  Iter (fun _ : unit =>
    r <- on_data (shared_read key txn_idx) ;;
    match r with
    | Return (RVersion (idx, incarnation) v) =>
        Ret (inr (Value v, captured_reads ++ [from_version key idx incarnation]))
    | Return (Resolved value) =>
        Ret (inr (RU128 value, captured_reads ++ [from_resolved key value]))
    | Throw NotFound => Ret (inr (RNone, captured_reads ++ [from_storage key]))
    | Throw (Unresolved delta) =>
        Ret (inr (RUnresolved delta, captured_reads ++ [from_unresolved key delta]))
    | Throw (Dependency dep_idx) =>
        w <- on_scheduler (wait_for_dependency txn_idx dep_idx) ;;
        match w with
        | Some dep_condition => on_scheduler (wait_condvar dep_condition) ;; Ret (inl tt)
        | None => Ret (inl tt)
        end
    | Throw DeltaApplicationFailure =>
        Ret (inr (RU128 0%Z, captured_reads ++ [from_delta_application_failure key]))
    | Panic => panic
    end) tt.

(** [executor.execute_transaction(&state_view, txn)], with the captured reads. *)
Fixpoint run_vm (txn_idx : TxnIndex) (r : VMRun K V O E) (captured_reads : Reads)
  : prog Block (ExecutionStatus O E * Reads) :=
  match r with
  | VMDone status => Ret (status, captured_reads)
  | VMRead key cont =>
      v <- view_read txn_idx key captured_reads ;;
      run_vm txn_idx (cont v.1) v.2
  | VMPanic => panic
  end.

(** The two loops of [apply_updates], over the keys that are left of the previous write set
    and the flag [updates_outside]. *)
Fixpoint apply_writes (version : Version) (l : list (K * V)) (st : gset K * bool)
  : prog Block (gset K * bool) :=
  match l with
  | [] => Ret st
  | (k, v) :: l =>
      let '(prev_modified_keys, updates_outside) := st in
      on_data (shared_add_write k version v) ;;
      apply_writes version l
        (prev_modified_keys ∖ {[k]},
         updates_outside || negb (bool_decide (k ∈ prev_modified_keys)))
  end.
Fixpoint apply_deltas (idx : TxnIndex) (l : list (K * DeltaOp)) (st : gset K * bool)
  : prog Block (gset K * bool) :=
  match l with
  | [] => Ret st
  | (k, d) :: l =>
      let '(prev_modified_keys, updates_outside) := st in
      on_data (shared_add_delta k idx d) ;;
      apply_deltas idx l
        (prev_modified_keys ∖ {[k]},
         updates_outside || negb (bool_decide (k ∈ prev_modified_keys)))
  end.
Definition apply_updates (version : Version) (output : O) (st : gset K * bool)
  : prog Block (gset K * bool) :=
  st <- apply_writes version (get_writes output) st ;;
  apply_deltas version.1 (get_deltas output) st.

Fixpoint delete_keys (idx : TxnIndex) (l : list K) : prog Block unit :=
  match l with
  | [] => Ret tt
  | k :: l => on_data (shared_delete k idx) ;; delete_keys idx l
  end.

(** [execute]: one incarnation of a transaction. *)
Definition execute (version : Version) (signature_verified_block : list T)
  : prog Block SchedulerTask :=
  let '(idx_to_execute, incarnation) := version in
  txn <- expecting (signature_verified_block !! idx_to_execute) ;;
  r <- run_vm idx_to_execute (execute_transaction idx_to_execute txn) [] ;;
  let '(execute_result, reads) := r in
  prev_modified_keys <- on_io (modified_keys idx_to_execute) ;;
  st <- match execute_result with
        | Success output | SkipRest output =>
            apply_updates (idx_to_execute, incarnation) output (prev_modified_keys, false)
        | Abort _ => Ret (prev_modified_keys, false)
        end ;;
  let '(prev_modified_keys, updates_outside) := st in
  delete_keys idx_to_execute (hash_iter prev_modified_keys) ;;
  on_io (record idx_to_execute reads
           match execute_result with
           | Success output => Success output
           | SkipRest output => SkipRest output
           | Abort err => Abort (UserError err)
           end) ;;
  on_scheduler (finish_execution idx_to_execute incarnation updates_outside).

(** Whether a read would be made again with the same result. *)
Definition validate_read (r : ReadDescriptor K) (v : ReadOutput V) : prog Block bool :=
  match v with
  | Return (RVersion version _) => Ret (validate_version r version)
  | Return (Resolved value) => Ret (validate_resolved r value)
  | Throw (Dependency _) => Ret false
  | Throw (Unresolved delta) => Ret (validate_unresolved r delta)
  | Throw NotFound => Ret (validate_storage r)
  | Throw DeltaApplicationFailure => Ret (validate_delta_application_failure r)
  | Panic => panic
  end.

(** [read_set.iter().all(..)], which stops at the first invalid read. *)
Fixpoint validate_reads (idx : TxnIndex) (read_set : Reads) : prog Block bool :=
  match read_set with
  | [] => Ret true
  | r :: read_set =>
      v <- on_data (shared_read (access_path r) idx) ;;
      valid <- validate_read r v ;;
      if (valid : bool) then validate_reads idx read_set else Ret false
  end.

Fixpoint mark_estimates (idx : TxnIndex) (l : list K) : prog Block unit :=
  match l with
  | [] => Ret tt
  | k :: l => on_data (shared_mark_estimate k idx) ;; mark_estimates idx l
  end.

(** [validate]: validates the reads of an incarnation, and aborts it when they changed.  The
    guard of the task is dropped at the end, unless [finish_abort] takes it. *)
Definition validate (version_to_validate : Version) : prog Block SchedulerTask :=
  let '(idx_to_validate, incarnation) := version_to_validate in
  o <- on_io (read_set idx_to_validate) ;;
  reads <- expecting o ;;
  valid <- validate_reads idx_to_validate reads ;;
  aborted <- (if (valid : bool) then Ret false
              else on_scheduler (try_abort idx_to_validate incarnation)) ;;
  if (aborted : bool) then
    keys <- on_io (modified_keys idx_to_validate) ;;
    mark_estimates idx_to_validate (hash_iter keys) ;;
    on_scheduler (finish_abort idx_to_validate incarnation)
  else
    on_scheduler guard_drop ;; Ret NoTask.

(** One iteration of the loop of [work_task_with_scope]. *)
Definition work_task (block : list T) (scheduler_task : SchedulerTask)
  : prog Block (SchedulerTask + unit) :=
  match scheduler_task with
  | ValidationTask version_to_validate =>
      t <- validate version_to_validate ;; Ret (inl t)
  | ExecutionTask version_to_execute None =>
      t <- execute version_to_execute block ;; Ret (inl t)
  | ExecutionTask _ (Some condvar) =>
      on_scheduler (notify_condvar condvar) ;; on_scheduler guard_drop ;; Ret (inl NoTask)
  | NoTask => t <- on_scheduler next_task ;; Ret (inl t)
  | Done => Ret (inr tt)
  end.

Definition work_task_with_scope (block : list T) : prog Block unit :=
  Iter (work_task block) NoTask.

(** [ParallelTransactionExecutor::new] asserts this of the concurrency level. *)
Definition valid_concurrency_level (num_cpus concurrency_level : nat) : bool :=
  (1 <? concurrency_level) && (concurrency_level <=? num_cpus).

(** The loop over the final outputs; [None] is a panic. *)
Fixpoint collect (idxs : list TxnIndex) (io : TxnLastInputOutput K O E P)
  (final_results : list O) : option (list O * option (Error E)) :=
  match idxs with
  | [] => Some (final_results, None)
  | idx :: idxs =>
      match take_output idx io with
      | Some (Success t, io) => collect idxs io (final_results ++ [t])
      | Some (SkipRest t, _) => Some (final_results ++ [t], None)
      | Some (Abort err, _) => Some (final_results, Some err)
      | None => None
      end
  end.

(** [final_results.resize_with(num_txns, E::Output::skip_output)] *)
Definition resize_with (n : nat) (l : list O) : list O := resize n skip_output l.

(** What [execute_transactions_parallel] returns once the threads are done: the outputs and
    the map it gives to [OutputDeltaResolver::new], or an error. *)
Definition block_result (b : Block)
  : option (result (Error E) (list O * gmap K (gmap TxnIndex (Entry V)))) :=
  let n := num_txns (scheduler b) in
  '(final_results, maybe_err) ←
    (if module_publishing_may_race (last_input_output b) then Some ([], Some ModulePathReadWrite)
     else collect (seq 0 n) (last_input_output b) []);
  Some (match maybe_err with
        | Some err => Err err
        | None => Ok (resize_with n final_results, mv_data (versioned_data_cache b))
        end).

(** The threads of the pool, at the start. *)
Definition spawn (concurrency_level : nat) (block : list T) : pool Block * Block :=
  (replicate concurrency_level (work_task_with_scope block), Block_new (length block)).

(** The results [execute_transactions_parallel] may return. *)
Inductive execute_transactions_parallel (concurrency_level : nat) (block : list T)
  : result (Error E) (list O * gmap K (gmap TxnIndex (Entry V))) -> Prop :=
  | ExecuteEmpty :
      block = [] -> execute_transactions_parallel concurrency_level block (Ok ([], mv_new))
  | ExecuteBlock c r :
      block <> [] ->
      rtc pool_step (spawn concurrency_level block) c -> finished c ->
      block_result c.2 = Some r ->
      execute_transactions_parallel concurrency_level block r.
End Executor.
