(* ===== verification/Protocol.v ===== *)
(** * The protocol of the worker threads

    An abstraction of the threads of [Executor]: a [PC] is what a thread knows and owes
    between two atomic actions, and [act] is the effect of an action on its [PC] and on the
    shared state.  [pstep] interleaves the actions of the threads, and also keeps the log of
    every versioned write that was ever made.

    The invariants of the executor are proved over the configurations that [pstep] reaches
    ([Ownership], [Quiescence], [Versions], [Validity]), and [Simulation] shows that every
    action of the programs of [Executor] is an [act]. *)
From S2P Require Import Prelude Delta ChangeSetExt MVMap Conc Scheduler LastInputOutput Executor.
From stdpp Require Import relations.

#[local] Open Scope nat_scope.

(** ** What [MVHashMapView::read] makes of a read of the map *)

Section View.
Context {K V : Type}.

(** The value it returns, and the descriptor it captures; [None] for a dependency. *)
Definition view_result (key : K) (r : ReadOutput V) : option (ReadResult V * ReadDescriptor K) :=
  match r with
  | Return (RVersion (idx, incarnation) v) => Some (Value v, from_version key idx incarnation)
  | Return (Resolved value) => Some (RU128 value, from_resolved key value)
  | Throw NotFound => Some (RNone, from_storage key)
  | Throw (Unresolved delta) => Some (RUnresolved delta, from_unresolved key delta)
  | Throw DeltaApplicationFailure => Some (RU128 0%Z, from_delta_application_failure key)
  | Throw (Dependency _) | Panic => None
  end.

(** Whether a read in progress validates a captured one. *)
Definition validates (d : ReadDescriptor K) (r : ReadOutput V) : bool :=
  match view_result (access_path d) r with
  | Some (_, d') => bool_decide (kind d = kind d')
  | None => false
  end.
End View.

Section Protocol.
Context `{Bcs128} {K V O E P T : Type} `{Countable K} `{Countable P}.
Context `{TransactionWrite V} `{TransactionOutput K V O} `{ModulePath K P}.
Context (hash_iter : gset K -> list K).
Context (execute_transaction : TxnIndex -> T -> VMRun K V O E).
Context (block : list T).

Abbreviation Block := (Block (K := K) (V := V) (O := O) (E := E) (P := P)).
Abbreviation Reads := (list (ReadDescriptor K)).
Abbreviation Run := (VMRun K V O E).
Abbreviation Status := (ExecutionStatus O E).
Abbreviation Iterator := (list (TxnIndex * Entry V)).

(** ** The program counters *)

(** Where an execution or a validation is within one read. *)
Inductive Sub :=
  | Plain
  | Reading (key : K) (iter : Iterator) (acc : option DeltaOp)
  | ReadDone (key : K) (r : ReadOutput V)
  | Blocked (dep : TxnIndex)
  | Fresh (cv : DependencyCondvar) (dep : TxnIndex)
  | Locked (cv : DependencyCondvar) (dep : TxnIndex)
  | Seen (cv : DependencyCondvar) (dep : TxnIndex)
  | Checked (cv : DependencyCondvar) (dep : TxnIndex)
  | ToPush (cv : DependencyCondvar) (dep : TxnIndex)
  | Pushed (cv : DependencyCondvar) (dep : TxnIndex)
  | Waiting (cv : DependencyCondvar).

(** Where [finish_execution] is. *)
Inductive Stage :=
  | FTake
  | FResume (deps : list TxnIndex) (min_dep : option TxnIndex)
  | FIncr
  | FLoad.

Inductive PC :=
  (* between tasks, and the stages of [check_done] *)
  | Idle
  | Finished
  | Check1 (cnt : nat)
  | Check2 (cnt : nat)
  | Check3 (cnt : nat)
  | Check4 (cnt : nat)
  | Check5
  (* an index that was seen in range, a guard without a task, and the claims of an index *)
  | Aim
  | Held
  | ClaimV (i : TxnIndex)
  | ClaimE (i : TxnIndex)
  | Ticket (cv : DependencyCondvar)
  | Incr
  (* an execution: the VM with its captured reads, the updates, the record *)
  | Exec (i : TxnIndex) (inc : Incarnation) (captured : Reads) (rest : Run) (sub : Sub)
  | Apply (i : TxnIndex) (inc : Incarnation) (captured : Reads) (out : Status)
      (ws : list (K * V)) (ds : list (K * DeltaOp)) (prev : gset K) (outside : bool)
  | Del (i : TxnIndex) (inc : Incarnation) (captured : Reads) (out : Status) (keys : list K)
      (outside : bool)
  | Store (i : TxnIndex) (inc : Incarnation) (captured : Reads) (out : Status) (outside : bool)
  | Stored (i : TxnIndex) (inc : Incarnation) (captured : Reads) (out : Status) (outside : bool)
  | Fin (i : TxnIndex) (inc : Incarnation) (outside : bool) (stage : Stage)
  | FinVal (i : TxnIndex) (inc : Incarnation)
  (* a validation: the reads that are left; and an abort: the keys to mark *)
  | Val0 (i : TxnIndex) (inc : Incarnation)
  | Val (i : TxnIndex) (inc : Incarnation) (left : Reads) (sub : Sub)
  | ValFail (i : TxnIndex) (inc : Incarnation)
  | Mark0 (i : TxnIndex) (inc : Incarnation)
  | Mark (i : TxnIndex) (inc : Incarnation) (keys : list K)
  | FA1 (i : TxnIndex)
  | FA2 (i : TxnIndex)
  | FA3 (i : TxnIndex).

(** The end of a read, and a read that may be at its end. *)
Definition read_over (acc : option DeltaOp) : ReadOutput V :=
  match acc with Some acc => Throw (Unresolved acc) | None => Throw NotFound end.
Definition reading (key : K) (iter : Iterator) (acc : option DeltaOp) : Sub :=
  match iter with [] => ReadDone key (read_over acc) | _ => Reading key iter acc end.

(** The writes and deltas of an execution, and the updates that may be at their end. *)
Definition status_writes (out : Status) : list (K * V) :=
  match out with Success o | SkipRest o => get_writes o | Abort _ => [] end.
Definition status_deltas (out : Status) : list (K * DeltaOp) :=
  match out with Success o | SkipRest o => get_deltas o | Abort _ => [] end.
Definition recorded (out : Status) : ExecutionStatus O (Error E) :=
  match out with
  | Success o => Success o | SkipRest o => SkipRest o | Abort err => Abort (UserError err)
  end.
Definition applying (i : TxnIndex) (inc : Incarnation) (captured : Reads) (out : Status)
  (ws : list (K * V)) (ds : list (K * DeltaOp)) (prev : gset K) (outside : bool) : PC :=
  match ws, ds with
  | [], [] => Del i inc captured out (hash_iter prev) outside
  | _, _ => Apply i inc captured out ws ds prev outside
  end.

(** ** The effects on the shared state *)

Abbreviation Log := (gmap (K * TxnIndex * Incarnation) V).

(** The shared state and the log of the writes. *)
Record Shared := { blk : Block; log : Log }.

Definition upS (f : Scheduler -> Scheduler) (c : Shared) : Shared :=
  {| blk := set_scheduler (f (scheduler (blk c))) (blk c); log := log c |}.
Definition upD (f : MVShared K V -> MVShared K V) (c : Shared) : Shared :=
  {| blk := set_data_cache (f (versioned_data_cache (blk c))) (blk c); log := log c |}.
Definition upI (f : TxnLastInputOutput K O E P -> TxnLastInputOutput K O E P) (c : Shared)
  : Shared :=
  {| blk := set_last_io (f (last_input_output (blk c))) (blk c); log := log c |}.
Definition upM (m : gmap K (gmap TxnIndex (Entry V))) : Shared -> Shared := upD (set_mv_data m).
Definition upLog (k : K) (i : TxnIndex) (inc : Incarnation) (v : V) (c : Shared) : Shared :=
  {| blk := blk c; log := <[(k, i, inc) := v]> (log c) |}.

Definition sch (c : Shared) : Scheduler := scheduler (blk c).
Definition mvs (c : Shared) : MVShared K V := versioned_data_cache (blk c).
Definition data (c : Shared) : gmap K (gmap TxnIndex (Entry V)) := mv_data (mvs c).
Definition io (c : Shared) : TxnLastInputOutput K O E P := last_input_output (blk c).
Definition status_at (c : Shared) (i : TxnIndex) : option TransactionStatus :=
  txn_status (sch c) !! i.

Definition set_status (i : TxnIndex) (st : TransactionStatus) (s : Scheduler) : Scheduler :=
  set_txn_status (<[i := st]> (txn_status s)) s.
Definition lock_key (key : K) (s : MVShared K V) : MVShared K V :=
  set_mv_readers (<[key := readers s key + 1]> (mv_readers s)) s.
Definition unlock_key (key : K) (s : MVShared K V) : MVShared K V :=
  set_mv_readers (<[key := readers s key - 1]> (mv_readers s)) s.

(** ** The actions *)

(** The actions of one read at index [i]. *)
Inductive read_step (i : TxnIndex) (key : K) : Sub -> Shared -> Sub -> Shared -> Prop :=
  | ReadBegin c tree :
      data c !! key = Some tree ->
      read_step i key Plain c (reading key (range_back tree i) None) (upD (lock_key key) c)
  | ReadNext c j e iter acc e' acc' :
      tree_of (data c) key !! j = Some e' ->
      read_entry j {| flag := flag e'; cell := cell e |} acc = inr acc' ->
      read_step i key (Reading key ((j, e) :: iter) acc) c (reading key iter acc') c
  | ReadStop c j e iter acc e' r :
      tree_of (data c) key !! j = Some e' ->
      read_entry j {| flag := flag e'; cell := cell e |} acc = inl r ->
      read_step i key (Reading key ((j, e) :: iter) acc) c (ReadDone key r) c.

(** The actions of [wait_for_dependency], by the execution of [i]. *)
Inductive wait_step (i : TxnIndex) : Sub -> Shared -> Sub -> Shared -> Prop :=
  | WaitNew c dep :
      wait_step i (Blocked dep) c (Fresh (length (condvars (sch c))) dep)
        (upS (fun s => set_condvars (condvars s ++ [false]) s) c)
  | WaitLock c cv dep :
      dep_locked (sch c) !! dep = Some false ->
      wait_step i (Fresh cv dep) c (Locked cv dep)
        (upS (fun s => set_dep_locked (<[dep := true]> (dep_locked s)) s) c)
  | WaitSeen c cv dep inc :
      status_at c dep = Some (Executed inc) ->
      wait_step i (Locked cv dep) c (Seen cv dep) c
  | WaitRetry c cv dep :
      wait_step i (Seen cv dep) c Plain
        (upS (fun s => set_dep_locked (<[dep := false]> (dep_locked s)) s) c)
  | WaitCheck c cv dep :
      (forall inc, status_at c dep <> Some (Executed inc)) ->
      wait_step i (Locked cv dep) c (Checked cv dep) c
  | WaitSuspend c cv dep inc :
      status_at c i = Some (Executing inc) ->
      wait_step i (Checked cv dep) c (ToPush cv dep) (upS (set_status i (Suspended inc cv)) c)
  | WaitPush c cv dep :
      dep < length (txn_dependency (sch c)) ->
      wait_step i (ToPush cv dep) c (Pushed cv dep)
        (upS (fun s => set_txn_dependency (alter (fun l => l ++ [i]) dep (txn_dependency s)) s) c)
  | WaitUnlock c cv dep :
      wait_step i (Pushed cv dep) c (Waiting cv)
        (upS (fun s => set_dep_locked (<[dep := false]> (dep_locked s)) s) c)
  | WaitWake c cv :
      condvars (sch c) !! cv = Some true -> wait_step i (Waiting cv) c Plain c.

(** The outcomes of [try_incarnate]. *)
Inductive incarnate_step (i : TxnIndex) : Shared -> PC -> Shared -> Prop :=
  | IncarnateStart c inc txn :
      status_at c i = Some (ReadyToExecute inc None) -> block !! i = Some txn ->
      incarnate_step i c (Exec i inc [] (execute_transaction i txn) Plain)
        (upS (set_status i (Executing inc)) c)
  | IncarnateTicket c inc cv :
      status_at c i = Some (ReadyToExecute inc (Some cv)) ->
      incarnate_step i c (Ticket cv) (upS (set_status i (Executing inc)) c)
  | IncarnateNone c :
      (forall inc cv, status_at c i <> Some (ReadyToExecute inc cv)) ->
      incarnate_step i c Held c.

(** The actions between tasks. *)
Inductive idle_step : PC -> Shared -> PC -> Shared -> Prop :=
  | IdleFinish c : done_marker (sch c) = true -> idle_step Idle c Finished c
  | IdleCheck c : idle_step Idle c (Check1 (decrease_cnt (sch c))) c
  | CheckVal c cnt :
      num_txns (sch c) <= validation_idx (sch c) -> idle_step (Check1 cnt) c (Check2 cnt) c
  | CheckExec c cnt :
      num_txns (sch c) <= execution_idx (sch c) -> idle_step (Check2 cnt) c (Check3 cnt) c
  | CheckTasks c cnt :
      num_active_tasks (sch c) = 0 -> idle_step (Check3 cnt) c (Check4 cnt) c
  | CheckCnt c cnt : decrease_cnt (sch c) = cnt -> idle_step (Check4 cnt) c Check5 c
  | CheckDone c : idle_step Check5 c Idle (upS (set_done_marker true) c)
  | IdleAim c :
      execution_idx (sch c) < num_txns (sch c) \/ validation_idx (sch c) < num_txns (sch c) ->
      idle_step Idle c Aim c
  | IdleGuard c :
      idle_step Aim c Held (upS (fun s => set_num_active_tasks (num_active_tasks s + 1) s) c)
  | HeldDrop c :
      0 < num_active_tasks (sch c) ->
      idle_step Held c Idle (upS (fun s => set_num_active_tasks (num_active_tasks s - 1) s) c)
  | HeldClaimV c :
      idle_step Held c (ClaimV (validation_idx (sch c)))
        (upS (fun s => set_validation_idx (validation_idx s + 1) s) c)
  | HeldClaimE c :
      idle_step Held c (ClaimE (execution_idx (sch c)))
        (upS (fun s => set_execution_idx (execution_idx s + 1) s) c)
  | ClaimVTask c i inc :
      status_at c i = Some (Executed inc) -> idle_step (ClaimV i) c (Val0 i inc) c
  | ClaimVNone c i :
      (forall inc, status_at c i <> Some (Executed inc)) -> idle_step (ClaimV i) c Held c
  | ClaimETask c i pc c' : incarnate_step i c pc c' -> idle_step (ClaimE i) c pc c'
  | TicketNotify c cv :
      idle_step (Ticket cv) c Held (upS (fun s => set_condvars (<[cv := true]> (condvars s)) s) c)
  | IncrCnt c :
      idle_step Incr c Held (upS (fun s => set_decrease_cnt (decrease_cnt s + 1) s) c).

(** The actions of an execution, up to [finish_execution]. *)
Inductive exec_step : PC -> Shared -> PC -> Shared -> Prop :=
  | ExecRead c c' i inc captured key cont sub sub' :
      read_step i key sub c sub' c' ->
      exec_step (Exec i inc captured (VMRead key cont) sub) c
                (Exec i inc captured (VMRead key cont) sub') c'
  | ExecReadNone c i inc captured key cont v d :
      data c !! key = None -> view_result key (Throw NotFound) = Some (v, d) ->
      exec_step (Exec i inc captured (VMRead key cont) Plain) c
                (Exec i inc (captured ++ [d]) (cont v) Plain) c
  | ExecReadEnd c i inc captured key cont r v d :
      view_result key r = Some (v, d) ->
      exec_step (Exec i inc captured (VMRead key cont) (ReadDone key r)) c
                (Exec i inc (captured ++ [d]) (cont v) Plain) (upD (unlock_key key) c)
  | ExecReadBlocked c i inc captured key cont dep :
      exec_step (Exec i inc captured (VMRead key cont) (ReadDone key (Throw (Dependency dep)))) c
                (Exec i inc captured (VMRead key cont) (Blocked dep)) (upD (unlock_key key) c)
  | ExecWait c c' i inc captured rest sub sub' :
      wait_step i sub c sub' c' ->
      exec_step (Exec i inc captured rest sub) c (Exec i inc captured rest sub') c'
  | ExecDone c i inc captured out o :
      outputs (io c) !! i = Some o ->
      exec_step (Exec i inc captured (VMDone out) Plain) c
        (applying i inc captured out (status_writes out) (status_deltas out) (status_keys o) false) c
  | ApplyWrite c i inc captured out k v ws ds prev outside m :
      readers (mvs c) k = 0 -> add_write (data c) k (i, inc) v = Some m ->
      exec_step (Apply i inc captured out ((k, v) :: ws) ds prev outside) c
        (applying i inc captured out ws ds (prev ∖ {[k]})
           (outside || negb (bool_decide (k ∈ prev)))) (upLog k i inc v (upM m c))
  | ApplyDelta c i inc captured out k d ds prev outside :
      readers (mvs c) k = 0 ->
      exec_step (Apply i inc captured out [] ((k, d) :: ds) prev outside) c
        (applying i inc captured out [] ds (prev ∖ {[k]})
           (outside || negb (bool_decide (k ∈ prev)))) (upM (add_delta (data c) k i d) c)
  | DelKey c i inc captured out k keys outside m :
      readers (mvs c) k = 0 -> mv_delete (data c) k i = Some m ->
      exec_step (Del i inc captured out (k :: keys) outside) c
        (Del i inc captured out keys outside) (upM m c)
  | DelModules c i inc captured out outside f :
      inputs (f (io c)) = inputs (io c) -> outputs (f (io c)) = outputs (io c) ->
      exec_step (Del i inc captured out [] outside) c (Del i inc captured out [] outside) (upI f c)
  | StoreInput c i inc captured out outside :
      exec_step (Del i inc captured out [] outside) c (Store i inc captured out outside)
        (upI (fun x => set_inputs (<[i := Some captured]> (inputs x)) x) c)
  | StoreOutput c i inc captured out outside :
      exec_step (Store i inc captured out outside) c (Stored i inc captured out outside)
        (upI (fun x => set_outputs (<[i := Some (recorded out)]> (outputs x)) x) c)
  | StoredExecuted c i inc captured out outside :
      status_at c i = Some (Executing inc) ->
      exec_step (Stored i inc captured out outside) c (Fin i inc outside FTake)
        (upS (set_status i (Executed inc)) c).

(** The rest of [finish_execution]. *)
Inductive fin_step : PC -> Shared -> PC -> Shared -> Prop :=
  | FinTake c i inc outside deps :
      txn_dependency (sch c) !! i = Some deps -> dep_locked (sch c) !! i = Some false ->
      fin_step (Fin i inc outside FTake) c (Fin i inc outside (FResume deps None))
        (upS (fun s => set_txn_dependency (<[i := []]> (txn_dependency s)) s) c)
  | FinResume c i inc outside dep deps m inc' cv :
      status_at c dep = Some (Suspended inc' cv) ->
      fin_step (Fin i inc outside (FResume (dep :: deps) m)) c
        (Fin i inc outside (FResume deps (opt_min m dep)))
        (upS (set_status dep (ReadyToExecute inc' (Some cv))) c)
  | FinDecrease c i inc outside target :
      target < execution_idx (sch c) ->
      fin_step (Fin i inc outside (FResume [] (Some target))) c (Fin i inc outside FIncr)
        (upS (set_execution_idx (min (execution_idx (sch c)) target)) c)
  | FinNoDecrease c i inc outside target :
      execution_idx (sch c) <= target ->
      fin_step (Fin i inc outside (FResume [] (Some target))) c (Fin i inc outside FLoad)
        (upS (set_execution_idx (min (execution_idx (sch c)) target)) c)
  | FinIncr c i inc outside :
      fin_step (Fin i inc outside FIncr) c (Fin i inc outside FLoad)
        (upS (fun s => set_decrease_cnt (decrease_cnt s + 1) s) c)
  | FinLower c i inc outside stage :
      stage = FResume [] None \/ stage = FLoad -> validation_idx (sch c) <= i ->
      fin_step (Fin i inc outside stage) c Held c
  | FinSuffix c i inc stage :
      stage = FResume [] None \/ stage = FLoad -> fin_step (Fin i inc true stage) c (FinVal i inc) c
  | FinTask c i inc stage :
      stage = FResume [] None \/ stage = FLoad -> fin_step (Fin i inc false stage) c (Val0 i inc) c
  | FinValDecrease c i inc :
      i < validation_idx (sch c) ->
      fin_step (FinVal i inc) c Incr
        (upS (set_validation_idx (min (validation_idx (sch c)) i)) c)
  | FinValNoDecrease c i inc :
      validation_idx (sch c) <= i ->
      fin_step (FinVal i inc) c Held
        (upS (set_validation_idx (min (validation_idx (sch c)) i)) c).

(** The actions of a validation, and of the abort that may follow it. *)
Inductive val_step : PC -> Shared -> PC -> Shared -> Prop :=
  | ValStart c i inc reads :
      inputs (io c) !! i = Some (Some reads) ->
      val_step (Val0 i inc) c (Val i inc reads Plain) c
  | ValRead c c' i inc d left sub sub' :
      read_step i (access_path d) sub c sub' c' ->
      val_step (Val i inc (d :: left) sub) c (Val i inc (d :: left) sub') c'
  | ValReadNone c i inc d left :
      data c !! access_path d = None ->
      val_step (Val i inc (d :: left) Plain) c
        (if validates (V := V) d (Throw NotFound) then Val i inc left Plain else ValFail i inc) c
  | ValReadEnd c i inc d left r :
      val_step (Val i inc (d :: left) (ReadDone (access_path d) r)) c
        (if validates d r then Val i inc left Plain else ValFail i inc)
        (upD (unlock_key (access_path d)) c)
  | ValPass c i inc :
      0 < num_active_tasks (sch c) ->
      val_step (Val i inc [] Plain) c Idle
        (upS (fun s => set_num_active_tasks (num_active_tasks s - 1) s) c)
  | ValAbort c i inc :
      status_at c i = Some (Executed inc) ->
      val_step (ValFail i inc) c (Mark0 i inc) (upS (set_status i (Aborting inc)) c)
  | ValAborted c i inc :
      status_at c i <> Some (Executed inc) -> val_step (ValFail i inc) c Held c
  | MarkStart c i inc o :
      outputs (io c) !! i = Some o ->
      val_step (Mark0 i inc) c (Mark i inc (hash_iter (status_keys o))) c
  | MarkKey c i inc k keys m :
      mark_estimate (data c) k i = Some m ->
      val_step (Mark i inc (k :: keys)) c (Mark i inc keys) (upM m c)
  | MarkDone c i inc :
      status_at c i = Some (Aborting inc) ->
      val_step (Mark i inc []) c (FA1 i) (upS (set_status i (ReadyToExecute (inc + 1) None)) c)
  | AbortDecrease c i :
      i + 1 < validation_idx (sch c) ->
      val_step (FA1 i) c (FA2 i) (upS (set_validation_idx (min (validation_idx (sch c)) (i + 1))) c)
  | AbortNoDecrease c i :
      validation_idx (sch c) <= i + 1 ->
      val_step (FA1 i) c (FA3 i)
        (upS (set_validation_idx (min (validation_idx (sch c)) (i + 1))) c)
  | AbortIncr c i :
      val_step (FA2 i) c (FA3 i)
        (upS (fun s => set_decrease_cnt (decrease_cnt s + 1) s) c)
  | AbortClaim c i : i < execution_idx (sch c) -> val_step (FA3 i) c (ClaimE i) c
  | AbortLeave c i : execution_idx (sch c) <= i -> val_step (FA3 i) c Held c.

(** An action; [Forget] is one that changes nothing, by a thread that drops what it observed. *)
Inductive act : PC -> Shared -> PC -> Shared -> Prop :=
  | AStutter pc c : act pc c pc c
  | AForget pc c :
      match pc with Check1 _ | Check2 _ | Check3 _ | Check4 _ | Check5 => True | _ => False end ->
      act pc c Idle c
  | AIdle pc c pc' c' : idle_step pc c pc' c' -> act pc c pc' c'
  | AExec pc c pc' c' : exec_step pc c pc' c' -> act pc c pc' c'
  | AFin pc c pc' c' : fin_step pc c pc' c' -> act pc c pc' c'
  | AVal pc c pc' c' : val_step pc c pc' c' -> act pc c pc' c'.

(** ** Configurations *)

Abbreviation Config := (Shared * list PC)%type.

Inductive pstep : Config -> Config -> Prop :=
  | PStep c pcs t pc pc' c' :
      pcs !! t = Some pc -> act pc c pc' c' -> pstep (c, pcs) (c', <[t := pc']> pcs).

Definition init (threads : nat) : Config :=
  ({| blk := Block_new (length block); log := ∅ |}, replicate threads Idle).

Definition reach (threads : nat) (x : Config) : Prop := rtc pstep (init threads) x.

(** Rule induction: an invariant may use one that was proved before. *)
Lemma reach_ind threads (Inv Old : Config -> Prop) :
  (forall x, reach threads x -> Old x) ->
  Inv (init threads) ->
  (forall c pcs t pc pc' c', pcs !! t = Some pc -> act pc c pc' c' ->
     Old (c, pcs) -> Old (c', <[t := pc']> pcs) -> Inv (c, pcs) -> Inv (c', <[t := pc']> pcs)) ->
  forall x, reach threads x -> Inv x.
Proof.
  intros Hold Hinit Hstep x Hx.
  assert (Hboth : Old x /\ Inv x); [|by destruct Hboth].
  unfold reach in Hx. revert Hx.
  apply (rtc_ind_r (fun x => Old x /\ Inv x) (init threads)).
  - split; [|done]. apply Hold. by constructor.
  - intros y z Hy Hyz [Ho Hi]. assert (Hz : reach threads z).
    { eapply rtc_r; eauto. }
    destruct Hyz as [c pcs t pc pc' c' Hl Ha]. split; [auto|]. eapply Hstep; eauto.
Qed.
Lemma reach_length threads x : reach threads x -> length x.2 = threads.
Proof.
  apply (reach_ind _ (fun x => length x.2 = threads) (fun _ => True)); [done| |].
  - apply length_replicate.
  - intros c pcs t pc pc' c' _ _ _ _ Hlen. simpl. by rewrite length_insert.
Qed.

Lemma read_step_sch i key sub (c : Shared) sub' (c' : Shared) :
  read_step i key sub c sub' c' -> sch c' = sch c.
Proof. by destruct 1. Qed.
End Protocol.

(** ** The cases of an action *)

(** One goal per action, but for the steps of a read. *)
Ltac act_cases Ha :=
  destruct Ha as [pc c|pc c Hpc|pc c pc' c' Ha|pc c pc' c' Ha|pc c pc' c' Ha|pc c pc' c' Ha];
  [ | destruct pc; try done
  | destruct Ha as [| | | | | | | | | | | | | |c0 i0 pc0 c0' Hinc| | ];
    [..|destruct Hinc| | ]
  | destruct Ha as [? ? ? ? ? ? ? ? ? Hread| | | |? ? ? ? ? ? ? ? Hwait| | | | | | | |];
    [..|destruct Hwait| | | | | | | |]
  | destruct Ha as [| | | | |? ? ? ? stage Hst ?|? ? ? stage Hst|? ? ? stage Hst| | ];
    try (destruct Hst; subst stage)
  | destruct Ha as [|? ? ? ? ? ? ? ? Hread| | | | | | | | | | | | |] ].

(** ... reduced to the fields of the scheduler. *)
Ltac act_simpl :=
  unfold applying, status_at in *;
  repeat match goal with
  | Hr : read_step _ _ _ _ _ _ |- _ => apply read_step_sch in Hr
  | Hr : sch ?c' = sch _ |- context [sch ?c'] => rewrite Hr
  | Hr : sch ?c' = sch _, Hx : context [sch ?c'] |- _ =>
      lazymatch Hx with Hr => fail | _ => rewrite Hr in Hx end
  end;
  repeat case_match; unfold sch in *; simpl in *.
