(* ===== verification/Ownership.v ===== *)
(** * Who owns a transaction

    The status of a transaction says who may act on it: an [Executing] transaction is executed
    by exactly one thread, which may be waiting for its condition variable if it was resumed;
    a [Suspended] one is in exactly one dependency list; an [Aborting] one is being aborted
    by exactly one thread.  So no [unreachable!()] and no [debug_assert!] of the
    scheduler can fail. *)
From S2P Require Import Prelude MVMap Conc Scheduler LastInputOutput Executor Protocol.

#[local] Open Scope nat_scope.

(** What a thread has of the statuses: the transaction it executes, with the condition
    variable it made or waits on, a ticket to notify one, the suspended transactions it will
    resume, or the transaction it aborts. *)
Inductive Hold :=
  | HNone
  | HFresh (cv : DependencyCondvar)
  | HPush (cv : DependencyCondvar)
  | HWait (cv : DependencyCondvar).

Inductive Role :=
  | RResume (deps : list TxnIndex)
  | RTicket (cv : DependencyCondvar)
  | ROwn (i : TxnIndex) (inc : Incarnation) (h : Hold)
  | RAbort (i : TxnIndex) (inc : Incarnation).

Definition same (i j : nat) : nat := if decide (i = j) then 1 else 0.

(** How many times a role owns, aborts, or will resume a transaction; and how many times it
    has a condition variable or a ticket for it. *)
Definition owns (i : TxnIndex) (r : Role) : nat :=
  match r with ROwn j _ _ => same i j | _ => 0 end.
Definition aborts (i : TxnIndex) (r : Role) : nat :=
  match r with RAbort j _ => same i j | _ => 0 end.
Definition resumes (i : TxnIndex) (r : Role) : nat :=
  match r with RResume deps => total (same i) deps | ROwn j _ (HPush _) => same i j | _ => 0 end.
Definition uses (cv : DependencyCondvar) (r : Role) : nat :=
  match r with
  | ROwn _ _ (HFresh cv') | ROwn _ _ (HPush cv') | ROwn _ _ (HWait cv') => same cv cv'
  | _ => 0
  end.
Definition tickets (cv : DependencyCondvar) (r : Role) : nat :=
  match r with RTicket cv' => same cv cv' | _ => 0 end.

(** The same numbers, according to the status. *)
Definition st_owned (st : option TransactionStatus) : nat :=
  match st with
  | Some (Executing _) | Some (Suspended _ _) | Some (ReadyToExecute _ (Some _)) => 1
  | _ => 0
  end.
Definition st_aborted (st : option TransactionStatus) : nat :=
  match st with Some (Aborting _) => 1 | _ => 0 end.
Definition st_suspended (st : option TransactionStatus) : nat :=
  match st with Some (Suspended _ _) => 1 | _ => 0 end.

(** The statuses that an owner may see. *)
Definition owner_sees (inc : Incarnation) (h : Hold) (st : option TransactionStatus) : Prop :=
  match h with
  | HNone | HFresh _ => st = Some (Executing inc)
  | HPush cv => st = Some (Suspended inc cv)
  | HWait cv =>
      st = Some (Suspended inc cv) \/ st = Some (ReadyToExecute inc (Some cv)) \/
      st = Some (Executing inc)
  end.

(** Nobody has notified the condition variable, or is about to. *)
Definition unnotified (cv : DependencyCondvar) (s : Scheduler) (rs : list Role) : Prop :=
  condvars s !! cv = Some false /\ total (tickets cv) rs = 0.

Record own (N : nat) (s : Scheduler) (rs : list Role) : Prop := {
  o_len : length (txn_status s) = N /\ length (txn_dependency s) = N /\
          length (dep_locked s) = N /\ num_txns s = N;
  o_own i : total (owns i) rs = st_owned (txn_status s !! i);
  o_abort i : total (aborts i) rs = st_aborted (txn_status s !! i);
  o_resume i : total (total (same i)) (txn_dependency s) + total (resumes i) rs
               = st_suspended (txn_status s !! i);
  o_cv cv : total (uses cv) rs <= 1;
  o_new cv : length (condvars s) <= cv -> total (uses cv) rs + total (tickets cv) rs = 0;
  o_fresh t i inc cv : rs !! t = Some (ROwn i inc (HFresh cv)) -> unnotified cv s rs;
  o_flag i inc cv :
    txn_status s !! i = Some (Suspended inc cv) \/
    txn_status s !! i = Some (ReadyToExecute inc (Some cv)) -> unnotified cv s rs;
  o_owner t i inc h : rs !! t = Some (ROwn i inc h) -> owner_sees inc h (txn_status s !! i);
  o_aborter t i inc : rs !! t = Some (RAbort i inc) -> txn_status s !! i = Some (Aborting inc);
}.

Lemma same_eq i : same i i = 1.
Proof. unfold same. by rewrite decide_True. Qed.
Lemma same_ne i j : i <> j -> same i j = 0.
Proof. intros. unfold same. by rewrite decide_False. Qed.

(** ** Consequences *)

Section Own.
Context (N : nat) (s : Scheduler) (rs : list Role) (Hown : own N s rs).

Lemma own_lt i st : txn_status s !! i = Some st -> i < N.
Proof. intros Hs. apply lookup_lt_Some in Hs. by rewrite (proj1 (o_len _ _ _ Hown)) in Hs. Qed.

Lemma own_owner_lt t i inc h : rs !! t = Some (ROwn i inc h) -> i < N.
Proof.
  intros Ht. pose proof (o_owner _ _ _ Hown _ _ _ _ Ht) as Ho.
  destruct h; simpl in Ho; [..|destruct Ho as [Ho|[Ho|Ho]]]; by eapply own_lt.
Qed.

Lemma own_unique t t' i inc inc' h h' :
  rs !! t = Some (ROwn i inc h) -> rs !! t' = Some (ROwn i inc' h') -> t = t'.
Proof.
  intros Ht Ht'. destruct (decide (t = t')) as [|Hne]; [done|].
  pose proof (total_two (owns i) _ _ _ _ _ Hne Ht Ht') as Htwo. simpl in Htwo.
  rewrite (o_own _ _ _ Hown), !same_eq in Htwo.
  unfold st_owned in Htwo. repeat case_match; lia.
Qed.

Lemma own_aborter_unique t t' i inc inc' :
  rs !! t = Some (RAbort i inc) -> rs !! t' = Some (RAbort i inc') -> t = t'.
Proof.
  intros Ht Ht'. destruct (decide (t = t')) as [|Hne]; [done|].
  pose proof (total_two (aborts i) _ _ _ _ _ Hne Ht Ht') as Htwo. simpl in Htwo.
  rewrite (o_abort _ _ _ Hown), !same_eq in Htwo.
  unfold st_aborted in Htwo. repeat case_match; lia.
Qed.

Lemma own_cv_unique t t' r r' cv :
  rs !! t = Some r -> rs !! t' = Some r' -> uses cv r = 1 -> uses cv r' = 1 -> t = t'.
Proof.
  intros Ht Ht' Hr Hr'. destruct (decide (t = t')) as [|Hne]; [done|].
  pose proof (total_two (uses cv) _ _ _ _ _ Hne Ht Ht').
  pose proof (o_cv _ _ _ Hown cv). lia.
Qed.

(** A suspended or resumed transaction has its waiting owner. *)
Lemma own_exists i st :
  txn_status s !! i = Some st -> st_owned (Some st) = 1 ->
  exists t inc h, rs !! t = Some (ROwn i inc h) /\ owner_sees inc h (Some st).
Proof.
  intros Hs Ho. pose proof (o_own _ _ _ Hown i) as Ht. rewrite Hs, Ho in Ht.
  destruct (total_pos (owns i) rs) as (t & r & Hr & Hp); [lia|].
  destruct r as [deps|cv|j inc h|j inc]; simpl in Hp; try lia.
  destruct (decide (i = j)) as [<-|Hne]; [|rewrite same_ne in Hp; [lia|done]].
  exists t, inc, h. split; [done|]. rewrite <- Hs. by eapply o_owner.
Qed.

Lemma own_waiter i inc cv :
  txn_status s !! i = Some (Suspended inc cv) \/
  txn_status s !! i = Some (ReadyToExecute inc (Some cv)) ->
  exists t h, rs !! t = Some (ROwn i inc h) /\ uses cv (ROwn i inc h) = 1.
Proof.
  intros Hs.
  assert (Hex : exists t inc' h, rs !! t = Some (ROwn i inc' h) /\
    owner_sees inc' h (txn_status s !! i)).
  { destruct Hs as [Hs|Hs]; rewrite Hs; by eapply own_exists. }
  destruct Hex as (t & inc' & h & Ht & Ho). exists t.
  destruct h; simpl in Ho |- *; destruct Hs as [Hs|Hs]; rewrite Hs in Ho;
    simplify_eq; try destruct Ho as [Ho|[Ho|Ho]]; simplify_eq; eexists; (split; [done|]);
    simpl; by rewrite same_eq.
Qed.

Lemma own_cv_lt t r cv : rs !! t = Some r -> uses cv r = 1 -> cv < length (condvars s).
Proof.
  intros Ht Hr. destruct (decide (cv < length (condvars s))) as [|Hn]; [done|].
  pose proof (o_new _ _ _ Hown cv ltac:(lia)).
  pose proof (total_one (uses cv) _ _ _ Ht). lia.
Qed.

Lemma own_suspended i : 0 < total (resumes i) rs \/ 0 < total (total (same i)) (txn_dependency s) ->
  exists inc cv, txn_status s !! i = Some (Suspended inc cv).
Proof.
  pose proof (o_resume _ _ _ Hown i) as Ho. intros Hp.
  assert (Hs : st_suspended (txn_status s !! i) <> 0) by lia.
  unfold st_suspended in Hs. repeat case_match; try lia. eauto.
Qed.

(** A condition variable belongs to one transaction. *)
Lemma own_status_cv i i' inc inc' cv :
  txn_status s !! i = Some (Suspended inc cv) \/
  txn_status s !! i = Some (ReadyToExecute inc (Some cv)) ->
  txn_status s !! i' = Some (Suspended inc' cv) \/
  txn_status s !! i' = Some (ReadyToExecute inc' (Some cv)) -> i = i'.
Proof.
  intros Hs Hs'. destruct (own_waiter _ _ _ Hs) as (t & h & Ht & Hu).
  destruct (own_waiter _ _ _ Hs') as (t' & h' & Ht' & Hu').
  assert (t = t') as -> by (by eapply own_cv_unique). congruence.
Qed.

(** ... and no thread that made one waits for another's. *)
Lemma own_fresh_cv t i i' inc inc' cv :
  rs !! t = Some (ROwn i' inc' (HFresh cv)) ->
  txn_status s !! i = Some (Suspended inc cv) \/
  txn_status s !! i = Some (ReadyToExecute inc (Some cv)) -> False.
Proof.
  intros Ht Hs. destruct (own_waiter _ _ _ Hs) as (t' & h & Ht' & Hu).
  assert (t = t') as ->.
  { eapply own_cv_unique; [done..| |done]. simpl. apply same_eq. }
  simplify_eq. pose proof (o_owner _ _ _ Hown _ _ _ _ Ht) as Ho. simpl in Ho.
  destruct Hs; congruence.
Qed.
End Own.

(** ** The changes of role

    Each lemma is one change of the statuses, of the dependency lists or of the condition
    variables, with the change of role of the thread that makes it. *)

(** The totals of an updated list, and the lookups of updated lists. *)
Ltac totals Hl :=
  repeat match goal with
  | |- context [total ?f (<[?t := ?r']> ?rs)] =>
      let H := fresh "Htot" in
      pose proof (total_insert f rs t _ r' Hl) as H;
      let n := fresh "n" in set (n := total f (<[t := r']> rs)) in *; clearbody n; simpl in H; rewrite ?total_cons, ?total_nil in H
  end.

Ltac lookups :=
  repeat match goal with
  | H : <[_ := _]> _ !! _ = Some _ |- _ =>
      apply list_lookup_insert_Some in H as [(? & ? & ?)|[? H]]; simplify_eq
  end.

Lemma status_insert {A} (l : list A) i x j :
  i < length l -> <[i := x]> l !! j = if decide (j = i) then Some x else l !! j.
Proof.
  intros Hi. case_decide as Hj; [subst; by apply list_lookup_insert_eq|].
  by apply list_lookup_insert_ne.
Qed.

(** Closes the parts of [own] that are arithmetic, and the parts about other threads. *)
Ltac own_arith :=
  unfold same in *; repeat case_decide; subst;
  repeat match goal with
  | Hs : txn_status ?s !! ?i = _, H : context [txn_status ?s !! ?i] |- _ =>
      lazymatch H with Hs => fail | _ => rewrite Hs in H end
  end; simpl in *; lia.

Ltac own_step Hown Hl :=
  constructor; simpl; [
    rewrite ?length_insert, ?length_alter; apply Hown
  | intros j; totals Hl; pose proof (o_own _ _ _ Hown j);
    rewrite ?status_insert by done; try own_arith
  | intros j; totals Hl; pose proof (o_abort _ _ _ Hown j);
    rewrite ?status_insert by done; try own_arith
  | intros j; totals Hl; pose proof (o_resume _ _ _ Hown j);
    rewrite ?status_insert by done; try own_arith
  | intros cv'; totals Hl; pose proof (o_cv _ _ _ Hown cv'); try own_arith
  | intros cv' Hcv'; totals Hl; pose proof (o_new _ _ _ Hown cv') as Hnew;
    try specialize (Hnew Hcv'); try own_arith
  | intros t' i' inc' cv' Ht'; lookups; try (
      destruct (o_fresh _ _ _ Hown _ _ _ _ Ht') as [? ?]; split; [done|]; totals Hl; own_arith)
  | intros i' inc' cv' Hs'; rewrite ?status_insert in Hs' by done;
    try (case_decide; [destruct Hs'; by simplify_eq|]);
    try (destruct (o_flag _ _ _ Hown _ _ _ Hs') as [? ?]; split; [done|]; totals Hl; own_arith)
  | intros t' i' inc' h' Ht'; rewrite ?status_insert by done; lookups;
    try (by rewrite decide_True); try (by case_decide; [subst; simpl; auto|]);
    try (pose proof (o_owner _ _ _ Hown _ _ _ _ Ht') as Ho; case_decide; [|done]; subst;
         by destruct h'; simpl in Ho; simplify_eq; destruct Ho as [|[|]]; simplify_eq);
    try (case_decide; [subst; by pose proof (own_unique _ _ _ Hown _ _ _ _ _ _ _ Hl Ht')|]);
    try (by eapply o_owner)
  | intros t' i' inc' Ht'; rewrite ?status_insert by done; lookups;
    try (by rewrite decide_True);
    try (pose proof (o_aborter _ _ _ Hown _ _ _ Ht'); case_decide; [subst; congruence|done]);
    try (case_decide; [subst; by pose proof (own_aborter_unique _ _ _ Hown _ _ _ _ _ Hl Ht')|]);
    try (by eapply o_aborter) ].

Lemma alter_insert {A} (f : A -> A) (l : list A) i x : l !! i = Some x -> alter f i l = <[i := f x]> l.
Proof. revert i. induction l as [|y l IH]; intros [|i] Hi; simplify_eq/=; f_equal; auto. Qed.

Section Change.
Context (N : nat) (s : Scheduler) (rs : list Role) (t : nat) (r : Role).
Context (Hown : own N s rs) (Hl : rs !! t = Some r).

(** [try_incarnate] of a fresh incarnation. *)
Lemma own_incarnate i inc :
  r = RResume [] -> txn_status s !! i = Some (ReadyToExecute inc None) ->
  own N (set_status i (Executing inc) s) (<[t := ROwn i inc HNone]> rs).
Proof.
  intros -> Hs. pose proof (lookup_lt_Some _ _ _ Hs) as Hlt. own_step Hown Hl.
Qed.

(** [try_incarnate] of a resumed one. *)
Lemma own_ticket i inc cv :
  r = RResume [] -> txn_status s !! i = Some (ReadyToExecute inc (Some cv)) ->
  own N (set_status i (Executing inc) s) (<[t := RTicket cv]> rs).
Proof.
  intros -> Hs. pose proof (lookup_lt_Some _ _ _ Hs) as Hlt.
  pose proof (o_flag _ _ _ Hown i inc cv (or_intror Hs)) as [Hcv _].
  apply lookup_lt_Some in Hcv. own_step Hown Hl.
  - destruct (o_fresh _ _ _ Hown _ _ _ _ Ht') as [? ?]. split; [done|]. totals Hl.
    assert (cv' <> cv) by (intros ->; eapply own_fresh_cv; eauto). own_arith.
  - destruct (o_flag _ _ _ Hown _ _ _ Hs') as [? ?]. split; [done|]. totals Hl.
    assert (cv' <> cv) by (intros ->; eauto using own_status_cv). own_arith.
  - pose proof (o_owner _ _ _ Hown _ _ _ _ Ht') as Ho. case_decide; [|done]. subst.
    rewrite Hs in Ho. destruct h'; simpl in Ho |- *; simplify_eq.
    destruct Ho as [|[|]]; simplify_eq. auto.
Qed.

(** [set_executed_status], [try_abort] and [set_aborted_status]. *)
Lemma own_executed i inc :
  r = ROwn i inc HNone -> txn_status s !! i = Some (Executing inc) ->
  own N (set_status i (Executed inc) s) (<[t := RResume []]> rs).
Proof.
  intros -> Hs. pose proof (lookup_lt_Some _ _ _ Hs) as Hlt. own_step Hown Hl.
Qed.
Lemma own_abort i inc :
  r = RResume [] -> txn_status s !! i = Some (Executed inc) ->
  own N (set_status i (Aborting inc) s) (<[t := RAbort i inc]> rs).
Proof.
  intros -> Hs. pose proof (lookup_lt_Some _ _ _ Hs) as Hlt. own_step Hown Hl.
Qed.
Lemma own_aborted i inc :
  r = RAbort i inc -> txn_status s !! i = Some (Aborting inc) ->
  own N (set_status i (ReadyToExecute (inc + 1) None) s) (<[t := RResume []]> rs).
Proof.
  intros -> Hs. pose proof (lookup_lt_Some _ _ _ Hs) as Hlt. own_step Hown Hl.
Qed.

(** [new_condvar], and giving it up. *)
Lemma own_new_condvar i inc :
  r = ROwn i inc HNone ->
  own N (set_condvars (condvars s ++ [false]) s)
    (<[t := ROwn i inc (HFresh (length (condvars s)))]> rs).
Proof.
  intros ->. own_step Hown Hl.
  - pose proof (o_new _ _ _ Hown cv'). own_arith.
  - rewrite length_app in Hcv'. simpl in Hcv'. specialize (Hnew ltac:(lia)). own_arith.
  - split; simpl; [by apply list_lookup_middle|]. totals Hl.
    pose proof (o_new _ _ _ Hown (length (condvars s))). lia.
  - destruct (o_fresh _ _ _ Hown _ _ _ _ Ht') as [Hc ?].
    split; [by apply lookup_app_l_Some|]. totals Hl. lia.
  - destruct (o_flag _ _ _ Hown _ _ _ Hs') as [Hc ?].
    split; [by apply lookup_app_l_Some|]. totals Hl. lia.
  - by pose proof (o_owner _ _ _ Hown _ _ _ _ Hl).
Qed.
Lemma own_retry i inc cv :
  r = ROwn i inc (HFresh cv) -> own N s (<[t := ROwn i inc HNone]> rs).
Proof.
  intros ->. own_step Hown Hl.
  by pose proof (o_owner _ _ _ Hown _ _ _ _ Hl).
Qed.

(** [suspend], and the dependency list. *)
Lemma own_suspend i inc cv :
  r = ROwn i inc (HFresh cv) -> txn_status s !! i = Some (Executing inc) ->
  own N (set_status i (Suspended inc cv) s) (<[t := ROwn i inc (HPush cv)]> rs).
Proof.
  intros -> Hs. pose proof (lookup_lt_Some _ _ _ Hs) as Hlt. own_step Hown Hl.
  assert (cv' = cv \/ txn_status s !! i' = Some (Suspended inc' cv') \/
    txn_status s !! i' = Some (ReadyToExecute inc' (Some cv'))) as [->|Hs''].
  { case_decide; [destruct Hs'; simplify_eq; auto|auto]. }
  - destruct (o_fresh _ _ _ Hown _ _ _ _ Hl). split; [done|]. totals Hl. lia.
  - destruct (o_flag _ _ _ Hown _ _ _ Hs''). split; [done|]. totals Hl. lia.
Qed.
Lemma own_push i inc cv dep :
  r = ROwn i inc (HPush cv) -> dep < length (txn_dependency s) ->
  own N (set_txn_dependency (alter (fun l => l ++ [i]) dep (txn_dependency s)) s)
    (<[t := ROwn i inc (HWait cv)]> rs).
Proof.
  intros -> Hdep. own_step Hown Hl.
  - apply lookup_lt_is_Some in Hdep as [l Hdep].
    rewrite (alter_insert _ _ _ _ Hdep). totals Hdep.
    rewrite total_app in *. unfold total in * |-. simpl in *. lia.
  - pose proof (o_owner _ _ _ Hown _ _ _ _ Hl). simpl in *. auto.
Qed.
Lemma own_take i deps :
  r = RResume [] -> txn_dependency s !! i = Some deps ->
  own N (set_txn_dependency (<[i := []]> (txn_dependency s)) s) (<[t := RResume deps]> rs).
Proof.
  intros -> Hdep. own_step Hown Hl.
  totals Hdep. lia.
Qed.
Lemma own_resume dep deps inc cv :
  r = RResume (dep :: deps) -> txn_status s !! dep = Some (Suspended inc cv) ->
  own N (set_status dep (ReadyToExecute inc (Some cv)) s) (<[t := RResume deps]> rs).
Proof.
  intros -> Hs. pose proof (lookup_lt_Some _ _ _ Hs) as Hlt. own_step Hown Hl.
  - assert (txn_status s !! i' = Some (Suspended inc' cv') \/
      txn_status s !! i' = Some (ReadyToExecute inc' (Some cv'))) as Hs''.
    { case_decide; [|done]. subst. destruct Hs'; simplify_eq. auto. }
    destruct (o_flag _ _ _ Hown _ _ _ Hs''). split; [done|]. totals Hl. lia.
  - pose proof (o_owner _ _ _ Hown _ _ _ _ Ht') as Ho. case_decide; [|done]. subst.
    rewrite Hs in Ho. pose proof (total_one (resumes dep) _ _ _ Hl) as H1.
    pose proof (o_resume _ _ _ Hown dep) as H2. rewrite Hs in H2. simpl in H1, H2.
    rewrite total_cons, same_eq in H1.
    destruct h' as [|cv'|cv'|cv']; simpl in Ho |- *; simplify_eq.
    + pose proof (total_two (resumes dep) _ _ _ _ _ H Hl Ht') as H3.
      simpl in H3. rewrite total_cons, !same_eq in H3. lia.
    + destruct Ho as [|[|]]; simplify_eq. auto.
Qed.


(** [wait_condvar] and [notify_condvar]. *)
Lemma own_wake i inc cv :
  r = ROwn i inc (HWait cv) -> condvars s !! cv = Some true ->
  own N s (<[t := ROwn i inc HNone]> rs).
Proof.
  intros -> Hcv. own_step Hown Hl.
  pose proof (o_owner _ _ _ Hown _ _ _ _ Hl) as Ho. destruct Ho as [Ho|[Ho|Ho]]; [..|done].
  - destruct (o_flag _ _ _ Hown _ _ _ (or_introl Ho)). congruence.
  - destruct (o_flag _ _ _ Hown _ _ _ (or_intror Ho)). congruence.
Qed.
Lemma own_notify cv :
  r = RTicket cv ->
  own N (set_condvars (<[cv := true]> (condvars s)) s) (<[t := RResume []]> rs).
Proof.
  intros ->. own_step Hown Hl.
  - rewrite length_insert in Hcv'. specialize (Hnew Hcv'). own_arith.
  - destruct (o_fresh _ _ _ Hown _ _ _ _ Ht') as [? ?]. split; simpl.
    + rewrite list_lookup_insert_ne; [done|]. intros ->.
      pose proof (total_one (tickets cv') _ _ _ Hl) as Hone. simpl in Hone. rewrite same_eq in Hone. lia.
    + totals Hl. lia.
  - destruct (o_flag _ _ _ Hown _ _ _ Hs') as [? ?]. split; simpl.
    + rewrite list_lookup_insert_ne; [done|]. intros ->.
      pose proof (total_one (tickets cv') _ _ _ Hl) as Hone. simpl in Hone. rewrite same_eq in Hone. lia.
    + totals Hl. lia.
Qed.
End Change.

(** ** The invariant of the protocol *)

Section Roles.
Context `{Bcs128} {K V O E P T : Type} `{Countable K} `{Countable P}.
Context `{TransactionWrite V} `{TransactionOutput K V O} `{ModulePath K P}.
Context (hash_iter : gset K -> list K).
Context (execute_transaction : TxnIndex -> T -> VMRun K V O E).
Context (block : list T).

Abbreviation PC := (PC (K := K) (V := V) (O := O) (E := E)).
Abbreviation Shared := (Shared (K := K) (V := V) (O := O) (E := E) (P := P)).
Abbreviation act := (act (K := K) (V := V) (O := O) (E := E) (P := P) hash_iter execute_transaction block).
Abbreviation reach := (reach (K := K) (V := V) (O := O) (E := E) (P := P) hash_iter execute_transaction block).

Definition hold (sub : Sub (K := K) (V := V)) : Hold :=
  match sub with
  | Fresh cv _ | Locked cv _ | Seen cv _ | Checked cv _ => HFresh cv
  | ToPush cv _ => HPush cv
  | Pushed cv _ | Waiting cv => HWait cv
  | _ => HNone
  end.

Definition role (pc : PC) : Role :=
  match pc with
  | Ticket cv => RTicket cv
  | Exec i inc _ _ sub => ROwn i inc (hold sub)
  | Apply i inc _ _ _ _ _ _ | Del i inc _ _ _ _ | Store i inc _ _ _ | Stored i inc _ _ _ =>
      ROwn i inc HNone
  | Fin _ _ _ (FResume deps _) => RResume deps
  | Mark0 i inc | Mark i inc _ => RAbort i inc
  | _ => RResume []
  end.

Definition owned (x : Shared * list PC) : Prop :=
  own (length block) (sch x.1) (role <$> x.2).

Lemma hold_reading key iter acc : hold (reading key iter acc) = HNone.
Proof. by destruct iter. Qed.

Lemma role_applying i inc captured out ws ds prev outside :
  role (applying hash_iter i inc captured out ws ds prev outside) = ROwn i inc HNone.
Proof. by destruct ws, ds. Qed.

(** What the invariant looks at. *)
Lemma own_frame N s s' rs :
  txn_status s' = txn_status s -> txn_dependency s' = txn_dependency s ->
  length (dep_locked s') = length (dep_locked s) -> condvars s' = condvars s ->
  num_txns s' = num_txns s -> own N s rs -> own N s' rs.
Proof.
  intros H1' H2' H3' H4' H5' [].
  constructor; unfold unnotified; rewrite ?H1', ?H2', ?H3', ?H4', ?H5'; done.
Qed.

Lemma read_step_role i key sub c sub' c' :
  read_step (O := O) (E := E) (P := P) i key sub c sub' c' ->
  sch c' = sch c /\ hold sub = HNone /\ hold sub' = HNone.
Proof. by destruct 1; rewrite ?hold_reading. Qed.

(** A change of status, in terms of the roles. *)
Lemma owned_change c c' pcs t pc pc' :
  pcs !! t = Some pc ->
  (forall rs, own (length block) (sch c) rs -> rs !! t = Some (role pc) ->
     own (length block) (sch c') (<[t := role pc']> rs)) ->
  owned (c, pcs) -> owned (c', <[t := pc']> pcs).
Proof.
  unfold owned. simpl. rewrite list_fmap_insert. intros Hl Hch Ho. apply Hch; [done|].
  by rewrite list_lookup_fmap, Hl.
Qed.

Lemma owned_same c c' pcs t pc pc' :
  pcs !! t = Some pc -> role pc' = role pc ->
  txn_status (sch c') = txn_status (sch c) ->
  txn_dependency (sch c') = txn_dependency (sch c) ->
  length (dep_locked (sch c')) = length (dep_locked (sch c)) ->
  condvars (sch c') = condvars (sch c) ->
  num_txns (sch c') = num_txns (sch c) -> owned (c, pcs) -> owned (c', <[t := pc']> pcs).
Proof.
  intros Hl Hr ?????. apply (owned_change _ _ _ _ pc); [done|]. intros rs Ho Ht.
  rewrite list_insert_id by congruence. by eapply own_frame.
Qed.

Lemma owned_init threads : owned (init block threads).
Proof.
  unfold owned, init. simpl. rewrite fmap_replicate. simpl.
  assert (Ht : forall f, f (RResume []) = 0 -> total f (replicate threads (RResume [])) = 0).
  { intros f Hf. rewrite total_replicate, Hf. lia. }
  assert (Hs : forall i, txn_status (Scheduler_new (length block)) !! i = None \/
    txn_status (Scheduler_new (length block)) !! i = Some (ReadyToExecute 0 None)).
  { intros i. simpl. destruct (decide (i < length block)).
    - right. by apply lookup_replicate_2.
    - left. apply lookup_ge_None. rewrite length_replicate. lia. }
  constructor.
  - simpl. by rewrite !length_replicate.
  - intros i. rewrite Ht by done. pose proof (Hs i) as Hi. simpl in Hi |- *.
    by destruct Hi as [-> | ->].
  - intros i. rewrite Ht by done. pose proof (Hs i) as Hi. simpl in Hi |- *.
    by destruct Hi as [-> | ->].
  - intros i. rewrite Ht by done. pose proof (Hs i) as Hi. simpl in Hi |- *.
    rewrite total_replicate, total_nil. destruct Hi as [-> | ->]; simpl; lia.
  - intros cv. rewrite Ht by done. lia.
  - intros cv _. by rewrite !Ht.
  - intros t i inc cv Hl. by apply lookup_replicate in Hl as [? _].
  - intros i inc cv. pose proof (Hs i) as Hi. simpl in Hi |- *.
    destruct Hi as [-> | ->]; intros [?|?]; simplify_eq.
  - intros t i inc h Hl. by apply lookup_replicate in Hl as [? _].
  - intros t i inc Hl. by apply lookup_replicate in Hl as [? _].
Qed.

(** The status of the transaction a thread owns. *)
Lemma owned_role c pcs t pc :
  owned (c, pcs) -> pcs !! t = Some pc -> (role <$> pcs) !! t = Some (role pc).
Proof. intros _ Hl. by rewrite list_lookup_fmap, Hl. Qed.

Ltac same_role :=
  match goal with Hl : _ !! _ = Some _ |- _ =>
    solve [eapply (owned_same _ _ _ _ _ _ Hl); rewrite ?role_applying; simpl;
           rewrite ?length_insert; first [done|congruence]]
  end.
Ltac change_role :=
  match goal with Hl : _ !! _ = Some _ |- _ =>
    eapply (owned_change _ _ _ _ _ _ Hl); [|done]; simpl; intros rs Ho Ht
  end.

Lemma owned_wait_step i inc captured rest sub c sub' c' pcs t :
  wait_step i sub c sub' c' -> pcs !! t = Some (Exec i inc captured rest sub) ->
  owned (c, pcs) -> owned (c', <[t := Exec i inc captured rest sub']> pcs).
Proof.
  intros Hw Hl. destruct Hw; intros Hown.
  - change_role. by eapply own_new_condvar.
  - same_role.
  - same_role.
  - change_role. apply (own_frame _ (sch c)); simpl; rewrite ?length_insert; try done.
    by eapply own_retry.
  - same_role.
  - change_role. assert (inc0 = inc) as ->.
    { pose proof (o_owner _ _ _ Ho _ _ _ _ Ht) as Hs. unfold status_at in *. simpl in Hs. congruence. }
    by eapply own_suspend.
  - change_role. by eapply own_push.
  - same_role.
  - change_role. by eapply own_wake.
Qed.

Lemma owned_incarnate_step i c pc c' pcs t pc0 :
  incarnate_step (K := K) (V := V) (O := O) (E := E) (P := P) execute_transaction block i c pc c' ->
  pcs !! t = Some pc0 -> role pc0 = RResume [] ->
  owned (c, pcs) -> owned (c', <[t := pc]> pcs).
Proof.
  intros Hi Hl Hr. destruct Hi; intros Hown.
  - change_role. by eapply own_incarnate.
  - change_role. by eapply own_ticket.
  - same_role.
Qed.

Lemma owned_step c pcs t pc pc' c' :
  pcs !! t = Some pc -> act pc c pc' c' -> owned (c, pcs) -> owned (c', <[t := pc']> pcs).
Proof.
  intros Hl Ha. destruct Ha as [pc c|pc c Hpc|pc c pc' c' Ha|pc c pc' c' Ha|pc c pc' c' Ha|pc c pc' c' Ha].
  - same_role.
  - destruct pc; try done; same_role.
  - destruct Ha; try same_role.
    + by eapply owned_incarnate_step.
    + intros Hown. change_role. by eapply own_notify.
  - destruct Ha as [c c' i inc captured key cont sub sub' Hr| | | |c c' i inc captured rest sub sub' Hw| | | | | | | |];
      try same_role.
    + apply read_step_role in Hr as (Hs & Hh & Hh'). same_role.
    + by eapply owned_wait_step.
    + intros Hown. change_role. by eapply own_executed.
  - destruct Ha as [| | | | |c i inc outside stage Hst Hv|c i inc stage Hst|c i inc stage Hst| | ]; try same_role;
      try (by destruct Hst as [-> | ->]; same_role).
    + intros Hown. change_role. by eapply own_take.
    + intros Hown. change_role. by eapply own_resume.
  - destruct Ha as [|c c' i inc d left sub sub' Hr| | | | | | | | | | | | |]; try same_role.
    + apply read_step_role in Hr as (Hs & Hh & Hh'). same_role.
    + case_match; same_role.
    + case_match; same_role.
    + intros Hown. change_role. by eapply own_abort.
    + intros Hown. change_role. by eapply own_aborted.
Qed.

(** Every reachable configuration is owned. *)
Lemma owned_reach threads x : reach threads x -> owned x.
Proof.
  apply (reach_ind _ _ _ _ _ (fun _ => True)); [done|apply owned_init|].
  intros c pcs t pc pc' c' Hl Ha _ _. by eapply owned_step.
Qed.

(** What it says of a thread. *)
Lemma owned_owner c pcs t pc i inc :
  owned (c, pcs) -> pcs !! t = Some pc -> role pc = ROwn i inc HNone ->
  status_at c i = Some (Executing inc) /\ i < length block.
Proof.
  intros Ho Hl Hr. pose proof (owned_role _ _ _ _ Ho Hl) as Ht. rewrite Hr in Ht.
  split; [|by eapply own_owner_lt]. by pose proof (o_owner _ _ _ Ho _ _ _ _ Ht).
Qed.

Lemma owned_aborter c pcs t pc i inc :
  owned (c, pcs) -> pcs !! t = Some pc -> role pc = RAbort i inc ->
  status_at c i = Some (Aborting inc).
Proof.
  intros Ho Hl Hr. pose proof (owned_role _ _ _ _ Ho Hl) as Ht. rewrite Hr in Ht.
  by pose proof (o_aborter _ _ _ Ho _ _ _ Ht).
Qed.
End Roles.
