(* ===== verification/Quiescence.v ===== *)
(** * When the block is done

    The guards count the threads that may change something; the indices say which transactions
    may need a task, and [decrease_cnt] counts how often they went down.  [check_done] reads
    these one after the other while other threads run: this file proves that it sets the done
    marker only when nothing is left to do, and that nothing happens afterwards. *)
From S2P Require Import Prelude MVMap Conc Scheduler LastInputOutput Executor Protocol Ownership.

#[local] Open Scope nat_scope.

Section Quiescence.
Context `{Bcs128} {K V O E P T : Type} `{Countable K} `{Countable P}.
Context `{TransactionWrite V} `{TransactionOutput K V O} `{ModulePath K P}.
Context (hash_iter : gset K -> list K).
Context (execute_transaction : TxnIndex -> T -> VMRun K V O E).
Context (block : list T).

Abbreviation PC := (PC (K := K) (V := V) (O := O) (E := E)).
Abbreviation Shared := (Shared (K := K) (V := V) (O := O) (E := E) (P := P)).
Abbreviation act := (act (K := K) (V := V) (O := O) (E := E) (P := P) hash_iter execute_transaction block).
Abbreviation reach := (reach (K := K) (V := V) (O := O) (E := E) (P := P) hash_iter execute_transaction block).

(** The guard of a thread, a decrease that is not counted yet, and a transaction the thread
    will try to incarnate. *)
Definition guards (pc : PC) : nat :=
  match pc with
  | Idle | Finished | Check1 _ | Check2 _ | Check3 _ | Check4 _ | Check5 | Aim => 0
  | _ => 1
  end.
Definition pending (pc : PC) : nat :=
  match pc with Fin _ _ _ FIncr | Incr | FA2 _ => 1 | _ => 0 end.
Definition wants (i : TxnIndex) (pc : PC) : nat :=
  match pc with ClaimE j | FA1 j | FA2 j | FA3 j => same i j | _ => 0 end.

(** A thread that will not change anything. *)
Definition calm (pc : PC) : Prop :=
  match pc with
  | Idle | Finished | Check1 _ | Check2 _ | Check3 _ | Check4 _ | Check5 | Aim | Held => True
  | ClaimV i | ClaimE i => length block <= i
  | _ => False
  end.

Definition quiet (x : Shared * list PC) : Prop :=
  length block <= validation_idx (sch x.1) /\ length block <= execution_idx (sch x.1) /\
  Forall calm x.2.

(** The decreases of the indices so far. *)
Definition decreases (x : Shared * list PC) : nat := decrease_cnt (sch x.1) + total pending x.2.

(** What a thread knows at each stage of [check_done]. *)
Definition knows (x : Shared * list PC) (pc : PC) : Prop :=
  let s := sch x.1 in
  match pc with
  | Check1 n => n <= decrease_cnt s
  | Check2 n => n <= decrease_cnt s /\ (decreases x = n -> length block <= validation_idx s)
  | Check3 n =>
      n <= decrease_cnt s /\
      (decreases x = n -> length block <= validation_idx s /\ length block <= execution_idx s)
  | Check4 n => n <= decrease_cnt s /\ (decrease_cnt s = n -> quiet x)
  | Check5 => quiet x
  | Finished => done_marker s = true
  | _ => True
  end.

Record counted (x : Shared * list PC) : Prop := {
  c_guards : num_active_tasks (sch x.1) = total guards x.2;
  c_ready i inc : status_at x.1 i = Some (ReadyToExecute inc None) ->
    execution_idx (sch x.1) <= i \/ 0 < total (wants i) x.2;
  c_knows t pc : x.2 !! t = Some pc -> knows x pc;
  c_done : done_marker (sch x.1) = true -> quiet x;
}.

(** ** One action *)

Lemma act_num_txns pc c pc' c' : act pc c pc' c' -> num_txns (sch c') = num_txns (sch c).
Proof. intros Ha. act_cases Ha; act_simpl; done. Qed.

Lemma act_guard pc c pc' c' :
  act pc c pc' c' ->
  num_active_tasks (sch c') + guards pc = num_active_tasks (sch c) + guards pc'.
Proof. intros Ha. act_cases Ha; act_simpl; lia. Qed.

(** The indices go down only if a decrease is added. *)
Lemma act_decreases pc c pc' c' :
  act pc c pc' c' ->
  decrease_cnt (sch c) <= decrease_cnt (sch c') /\
  decrease_cnt (sch c) + pending pc <= decrease_cnt (sch c') + pending pc' /\
  (decrease_cnt (sch c') + pending pc' = decrease_cnt (sch c) + pending pc ->
   validation_idx (sch c) <= validation_idx (sch c') /\
   execution_idx (sch c) <= execution_idx (sch c')).
Proof. intros Ha. act_cases Ha; act_simpl; lia. Qed.

Lemma act_done pc c pc' c' :
  act pc c pc' c' -> done_marker (sch c') = true -> done_marker (sch c) = true \/ pc = Check5.
Proof. intros Ha. act_cases Ha; act_simpl; auto. Qed.

Lemma act_done_mono pc c pc' c' :
  act pc c pc' c' -> done_marker (sch c) = true -> done_marker (sch c') = true.
Proof. intros Ha. act_cases Ha; act_simpl; auto. Qed.

(** A calm thread stays calm. *)
Lemma act_calm pc c pc' c' :
  length (txn_status (sch c)) = length block ->
  length block <= validation_idx (sch c) -> length block <= execution_idx (sch c) ->
  act pc c pc' c' -> calm pc ->
  calm pc' /\ validation_idx (sch c) <= validation_idx (sch c') /\
  execution_idx (sch c) <= execution_idx (sch c').
Proof.
  intros Hlen Hv He Ha. act_cases Ha; act_simpl; intros Hc; try lia; try done.
  all: match goal with Hs : _ !! _ = Some _ |- _ => apply lookup_lt_Some in Hs; lia end.
Qed.

(** A transaction that is ready is below the index or claimed. *)
Lemma act_ready pc c pc' c' i inc :
  act pc c pc' c' -> status_at c' i = Some (ReadyToExecute inc None) ->
  (status_at c i = Some (ReadyToExecute inc None) /\ wants i pc <= wants i pc' /\
   (execution_idx (sch c) <= i -> execution_idx (sch c') <= i)) \/
  execution_idx (sch c') <= i \/ wants i pc' = 1.
Proof.
  intros Ha Hs. act_cases Ha; act_simpl; unfold same in *;
    try (apply list_lookup_insert_Some in Hs as [(? & ? & ?)|[? Hs]]; simplify_eq);
    repeat case_decide; subst; try congruence; try lia;
    try (left; split; [done|lia]); exfalso; naive_solver.
Qed.

(** ** The invariant *)

Section Step.
Context (c : Shared) (pcs : list PC) (t : nat) (pc : PC) (c' : Shared) (pc' : PC).
Context (Hl : pcs !! t = Some pc) (Ha : act pc c pc' c') (Ho : owned block (c, pcs)).

Lemma quiet_step : quiet (c, pcs) -> quiet (c', <[t := pc']> pcs).
Proof.
  intros (Hv & He & Hcalm). simpl in *. pose proof (proj1 (o_len _ _ _ Ho)) as Hlen.
  destruct (act_calm pc c pc' c') as (Hc & ? & ?); [done..| |].
  { by eapply Forall_lookup_1. }
  split_and!; simpl; [lia..|]. by apply Forall_insert.
Qed.

Lemma decreases_step :
  decreases (c, pcs) <= decreases (c', <[t := pc']> pcs) /\
  (decreases (c', <[t := pc']> pcs) = decreases (c, pcs) ->
   validation_idx (sch c) <= validation_idx (sch c') /\
   execution_idx (sch c) <= execution_idx (sch c')).
Proof.
  pose proof (act_decreases _ _ _ _ Ha) as (Hc & Hd & Hi).
  pose proof (total_insert pending pcs t pc pc' Hl). unfold decreases. simpl. lia.
Qed.

(** Without a guard in any thread, no decrease is pending and all the threads are calm. *)
Lemma no_guards : total guards pcs = 0 -> total pending pcs = 0 /\ Forall calm pcs.
Proof.
  intros Hg. split.
  - destruct (decide (total pending pcs = 0)) as [|Hne]; [done|].
    destruct (total_pos pending pcs) as (t' & p & Hp & Hpos); [lia|].
    pose proof (total_zero _ _ _ _ Hg Hp). destruct p; simpl in *; try case_match; lia.
  - apply Forall_lookup_2. intros t' p Hp. pose proof (total_zero _ _ _ _ Hg Hp).
    by destruct p.
Qed.

(** What the other threads know remains. *)
Lemma knows_other p : knows (c, pcs) p -> knows (c', <[t := pc']> pcs) p.
Proof.
  pose proof (act_decreases _ _ _ _ Ha) as (Hc & _ & _). pose proof decreases_step as [Hd Hi].
  pose proof quiet_step as Hq.
  assert (Hdec : decrease_cnt (sch c) <= decreases (c, pcs)) by (unfold decreases; simpl; lia).
  destruct p; simpl; try done.
  - by eapply act_done_mono.
  - lia.
  - lia.
  - lia.
  - intros [? Hk]. split; [lia|]. intros ?. apply Hq, Hk. lia.
Qed.

End Step.

(** What a thread knows after its own action. *)
Lemma knows_own c pcs t pc c' pc' :
  pcs !! t = Some pc -> act pc c pc' c' -> owned block (c, pcs) -> counted (c, pcs) ->
  knows (c', <[t := pc']> pcs) pc'.
Proof.
  intros Hl Ha Ho Hc. pose proof (c_knows _ Hc t pc Hl) as Hk.
  pose proof (knows_other _ _ _ _ _ _ Hl Ha Ho pc) as Hother.
  pose proof (quiet_step _ _ _ _ _ _ Hl Ha Ho) as Hq.
  pose proof (o_len _ _ _ Ho) as (_ & _ & _ & Hn). pose proof (no_guards pcs) as Hng.
  pose proof (c_guards _ Hc) as Hg.
  pose proof (total_insert pending pcs t pc pc' Hl) as Hpend. unfold decreases in *. simpl in *.
  destruct Ha as [p c0|p c0 Hpc|p c0 p' c0' Hi|p c0 p' c0' Hi|p c0 p' c0' Hi|p c0 p' c0' Hi].
  - auto.
  - done.
  - destruct Hi; simpl in *; try done; try lia.
    + split; [lia|]. intros ?. apply Hq. destruct Hng as [Hp Hcalm]; [lia|].
      unfold decreases in Hk. simpl in Hk. split_and!; simpl; [lia..|done].
    + apply Hq. by apply Hk.
    + by match goal with Hi : incarnate_step _ _ _ _ _ _ |- _ => destruct Hi end.
  - destruct Hi; unfold applying; repeat case_match; done.
  - by destruct Hi.
  - destruct Hi; repeat case_match; done.
Qed.

Lemma counted_step c pcs t pc c' pc' :
  pcs !! t = Some pc -> act pc c pc' c' -> owned block (c, pcs) -> counted (c, pcs) ->
  counted (c', <[t := pc']> pcs).
Proof.
  intros Hl Ha Ho Hc. constructor; simpl.
  - pose proof (c_guards _ Hc). pose proof (act_guard _ _ _ _ Ha).
    pose proof (total_insert guards pcs t pc pc' Hl). simpl in *. lia.
  - intros i inc Hs. pose proof (total_insert (wants i) pcs t pc pc' Hl).
    pose proof (total_one (wants i) pcs t pc Hl).
    destruct (act_ready _ _ _ _ _ _ Ha Hs) as [(Hs' & Hw & He)|?]; [|lia].
    destruct (c_ready _ Hc _ _ Hs'); simpl in *; lia.
  - intros t' p Hp. apply list_lookup_insert_Some in Hp as [(<- & -> & _)|[_ Hp]].
    + by eapply knows_own.
    + apply (knows_other _ _ _ _ _ _ Hl Ha Ho). by apply (c_knows _ Hc t').
  - intros Hd. apply (quiet_step _ _ _ _ _ _ Hl Ha Ho).
    destruct (act_done _ _ _ _ Ha Hd) as [Hd'| ->].
    + by apply (c_done _ Hc).
    + by pose proof (c_knows _ Hc t Check5 Hl).
Qed.

Lemma counted_init threads : counted (init block threads).
Proof.
  constructor; simpl.
  - rewrite total_replicate. simpl. lia.
  - intros i inc _. lia.
  - intros t pc Hl. by apply lookup_replicate in Hl as [-> _].
  - done.
Qed.

Lemma counted_reach threads x : reach threads x -> counted x.
Proof.
  apply (reach_ind _ _ _ _ _ (owned block)).
  - apply owned_reach.
  - apply counted_init.
  - intros c pcs t pc pc' c' Hl Ha Ho _. by apply (counted_step c pcs t pc).
Qed.

(** When all is quiet, every transaction is executed. *)
Lemma quiet_executed x i :
  owned block x -> counted x -> quiet x -> i < length block ->
  exists inc, status_at x.1 i = Some (Executed inc).
Proof.
  destruct x as [c pcs]. intros Ho Hc (Hv & He & Hcalm) Hi. simpl in *.
  assert (Hrole : forall t pc, pcs !! t = Some pc -> role pc = RResume []).
  { intros t pc Hl. pose proof (Forall_lookup_1 _ _ _ _ Hcalm Hl). by destruct pc. }
  assert (Hz : forall f, f (RResume []) = 0 -> total f (role <$> pcs) = 0).
  { intros f Hf. rewrite total_fmap.
    destruct (decide (total (f ∘ role) pcs = 0)) as [|Hne]; [done|].
    destruct (total_pos (f ∘ role) pcs) as (t & pc & Hl & Hp); [lia|].
    simpl in Hp. rewrite (Hrole t pc Hl) in Hp. lia. }
  pose proof (o_own _ _ _ Ho i) as Hown. pose proof (o_abort _ _ _ Ho i) as Hab.
  simpl in Hown, Hab. rewrite Hz in Hown, Hab by done.
  destruct (lookup_lt_is_Some_2 (txn_status (sch c)) i) as [st Hst].
  { pose proof (proj1 (o_len _ _ _ Ho)) as Hlen. simpl in Hlen. by rewrite Hlen. }
  unfold status_at. rewrite Hst in Hown, Hab |- *. destruct st as [inc [cv|]| | |inc|]; try done; [|eauto].
  destruct (c_ready _ Hc i inc Hst) as [|Hw]; [simpl in *; lia|].
  destruct (total_pos _ _ Hw) as (t & pc & Hl & Hp).
  pose proof (Forall_lookup_1 _ _ _ _ Hcalm Hl) as Hca.
  destruct pc; simpl in *; try lia. unfold same in Hp. case_decide; subst; lia.
Qed.
End Quiescence.
