(* ===== verification/Locks.v ===== *)
(** * The locks of the multi-version map

    A read of a key holds its shared lock: the entries it iterates over stay in the tree, and
    only their flags may change, by [mark_estimate].  This file proves that the number of
    readers of a key is the number of threads that read it, and that what a reader has left
    to look at is what the tree has left. *)
From S2P Require Import Prelude Delta ChangeSetExt MVMap Conc Scheduler LastInputOutput Executor.
From S2P Require Import Protocol Ownership Quiescence.

#[local] Open Scope nat_scope.

(** ** The effect of the operations of the map on its trees *)

Section Changes.
Context `{Bcs128} {K V : Type} `{Countable K} `{TransactionWrite V}.
Implicit Types (m : gmap K (gmap TxnIndex (Entry V))) (t : gmap TxnIndex (Entry V)).

Lemma tree_of_lookup m key j : m !! key ≫= (fun t => t !! j) = tree_of m key !! j.
Proof. unfold tree_of. destruct (m !! key); simpl; [done|]. symmetry. apply lookup_empty. Qed.

(** [m'] is [m] with the entry [e] of transaction [i] at [key]. *)
Definition changes m m' (key : K) (i : TxnIndex) (e : option (Entry V)) : Prop :=
  forall key' j,
    tree_of m' key' !! j = if decide (key' = key /\ j = i) then e else tree_of m key' !! j.

Lemma changes_insert m key t i e :
  t !! i = e -> (forall j, j <> i -> t !! j = tree_of m key !! j) ->
  changes m (<[key := t]> m) key i e.
Proof.
  intros Hi Hj key' j. destruct (decide (key' = key)) as [->|Hne].
  - rewrite tree_of_insert_eq. case_decide as Hd; [by destruct Hd as [_ ->]|].
    apply Hj. naive_solver.
  - rewrite tree_of_insert_ne by done. rewrite decide_False; [done|]. by intros [? _].
Qed.

Lemma add_write_changes m m' key i inc v :
  add_write m key (i, inc) v = Some m' ->
  changes m m' key i (Some (new_write_from FLAG_DONE inc v)).
Proof.
  unfold add_write. case_match; [|done]. intros [= <-]. apply changes_insert.
  - apply lookup_insert_eq.
  - intros j Hj. by rewrite lookup_insert_ne.
Qed.

Lemma add_delta_changes m key i d :
  changes m (add_delta m key i d) key i (Some (new_delta_from FLAG_DONE d)).
Proof.
  unfold add_delta. apply changes_insert.
  - apply lookup_insert_eq.
  - intros j Hj. by rewrite lookup_insert_ne.
Qed.

Lemma mv_delete_changes m m' key i : mv_delete m key i = Some m' -> changes m m' key i None.
Proof.
  unfold mv_delete. destruct (m !! key) as [t|] eqn:Ht; simpl; [|done]. intros [= <-].
  apply changes_insert.
  - apply lookup_delete_eq.
  - intros j Hj. rewrite lookup_delete_ne by done. unfold tree_of. by rewrite Ht.
Qed.

Lemma mark_estimate_changes m m' key i :
  mark_estimate m key i = Some m' ->
  exists e, tree_of m key !! i = Some e /\ changes m m' key i (Some (entry_mark_estimate e)).
Proof.
  unfold mark_estimate. destruct (m !! key) as [t|] eqn:Ht; simpl; [|done].
  destruct (t !! i) as [e|] eqn:He; simpl; [|done]. intros [= <-]. exists e.
  split; [unfold tree_of; by rewrite Ht|]. apply changes_insert.
  - apply lookup_insert_eq.
  - intros j Hj. rewrite lookup_insert_ne by done. unfold tree_of. by rewrite Ht.
Qed.

(** Entries up to their flags. *)
Definition shape (l : list (TxnIndex * Entry V)) : list (TxnIndex * EntryCell V) :=
  prod_map id cell <$> l.

Lemma shape_range_back t t' n :
  (forall j, j < n -> cell <$> t !! j = cell <$> t' !! j) ->
  shape (range_back t n) = shape (range_back t' n).
Proof.
  induction n as [|n IH]; intros Hc; [by rewrite !range_back_0|].
  rewrite !range_back_S. unfold shape in *. rewrite !fmap_app, IH by (intros; apply Hc; lia).
  f_equal. specialize (Hc n ltac:(lia)). destruct (t !! n), (t' !! n); simplify_eq/=; [|done].
  unfold prod_map. simpl. congruence.
Qed.

(** The entries of a range are those of the tree, below its bound. *)
Lemma range_back_elem t n j e : (j, e) ∈ range_back t n <-> j < n /\ t !! j = Some e.
Proof. unfold range_back. rewrite elem_of_reverse. apply below_elem. Qed.

Lemma shape_elem l j e :
  (j, e) ∈ l -> (j, cell e) ∈ shape l.
Proof. intros Hin. by apply (list_elem_of_fmap_2 (prod_map id cell) l (j, e)). Qed.

(** What is left of a range after its first entry. *)
Lemma range_back_tail t n j e l :
  range_back t n = (j, e) :: l -> j < n /\ t !! j = Some e /\ l = range_back t j.
Proof.
  induction n as [|n IH]; [by rewrite range_back_0|]. rewrite range_back_S.
  destruct (t !! n) as [e'|] eqn:Hn; simpl.
  - intros [= -> -> <-]. auto.
  - intros Hr. destruct (IH Hr) as (? & ? & ?). auto.
Qed.

Lemma shape_cons t n j e l :
  (j, e) :: l = range_back t n \/ shape ((j, e) :: l) = shape (range_back t n) ->
  j < n /\ exists e', t !! j = Some e' /\ cell e' = cell e /\ shape l = shape (range_back t j).
Proof.
  intros Hs. assert (Hs' : shape ((j, e) :: l) = shape (range_back t n)).
  { destruct Hs as [<-|]; done. }
  destruct (range_back t n) as [|[j' e'] l'] eqn:Hr; [done|].
  apply range_back_tail in Hr as (Hj & He & ->).
  injection Hs' as -> Hc Hl. split; [done|]. exists e'. done.
Qed.
End Changes.

(** ** The readers *)

Section Locks.
Context `{Bcs128} {K V O E P T : Type} `{Countable K} `{Countable P}.
Context `{TransactionWrite V} `{TransactionOutput K V O} `{ModulePath K P}.
Context (hash_iter : gset K -> list K).
Context (execute_transaction : TxnIndex -> T -> VMRun K V O E).
Context (block : list T).

Abbreviation PC := (PC (K := K) (V := V) (O := O) (E := E)).
Abbreviation Sub := (Sub (K := K) (V := V)).
Abbreviation Shared := (Shared (K := K) (V := V) (O := O) (E := E) (P := P)).
Abbreviation act := (act (K := K) (V := V) (O := O) (E := E) (P := P) hash_iter execute_transaction block).
Abbreviation reach := (reach (K := K) (V := V) (O := O) (E := E) (P := P) hash_iter execute_transaction block).

(** The index and the progress of a thread that executes or validates. *)
Definition progress (pc : PC) : option (TxnIndex * Sub) :=
  match pc with
  | Exec i _ _ _ sub | Val i _ _ sub => Some (i, sub)
  | _ => None
  end.

Definition sub_reads (key : K) (sub : Sub) : nat :=
  match sub with Reading k _ _ | ReadDone k _ => if decide (key = k) then 1 else 0 | _ => 0 end.
Definition reads (key : K) (pc : PC) : nat :=
  match progress pc with Some (_, sub) => sub_reads key sub | None => 0 end.

Lemma sub_reads_reading key k iter acc :
  sub_reads key (reading k iter acc) = if decide (key = k) then 1 else 0.
Proof. by destruct iter. Qed.

Lemma readers_insert (s : MVShared K V) key n key' :
  readers (set_mv_readers (<[key := n]> (mv_readers s)) s) key'
  = if decide (key' = key) then n else readers s key'.
Proof.
  unfold readers. simpl. case_decide as Hk; [subst; by rewrite lookup_insert_eq|].
  by rewrite lookup_insert_ne.
Qed.

Lemma read_step_reads i key key' sub (c : Shared) sub' (c' : Shared) :
  read_step i key sub c sub' c' ->
  readers (mvs c') key' + sub_reads key' sub = readers (mvs c) key' + sub_reads key' sub'.
Proof.
  destruct 1; rewrite ?sub_reads_reading; simpl; [|lia|lia].
  change (mvs (upD (lock_key key) c)) with (lock_key key (mvs c)). unfold lock_key.
  rewrite readers_insert. case_decide; subst; lia.
Qed.

Lemma readers_unlock (c : Shared) key key' :
  0 < readers (mvs c) key ->
  readers (mvs (upD (unlock_key key) c)) key' + (if decide (key' = key) then 1 else 0)
  = readers (mvs c) key'.
Proof.
  intros Hp. change (mvs (upD (unlock_key key) c)) with (unlock_key key (mvs c)).
  unfold unlock_key. rewrite readers_insert. case_decide; subst; lia.
Qed.

Lemma act_readers pc c pc' c' key :
  act pc c pc' c' -> (forall k, reads k pc <= readers (mvs c) k) ->
  readers (mvs c') key + reads key pc = readers (mvs c) key + reads key pc'.
Proof.
  intros Ha. act_cases Ha; unfold applying; repeat case_match;
    try (apply (read_step_reads _ _ key) in Hread); unfold reads in *; simpl in *; intros Hp; try done;
    try lia.
  all: match goal with Hp : forall k, (if decide (k = ?key) then _ else _) <= _ |- _ =>
    pose proof (Hp key) as Hk; rewrite decide_True in Hk by done;
    pose proof (readers_unlock c key) as Hu end;
    match goal with |- readers _ ?k + _ = _ => specialize (Hu k ltac:(lia)) end; lia.
Qed.

(** An action leaves the map as it is, or changes one entry: under the exclusive lock, or only
    its flag. *)
Lemma act_data pc c pc' c' :
  act pc c pc' c' ->
  data c' = data c \/
  exists key i e, changes (data c) (data c') key i e /\
    (readers (mvs c) key = 0 \/ cell <$> e = cell <$> tree_of (data c) key !! i).
Proof.
  intros Ha. act_cases Ha; unfold applying; repeat case_match; try (by left);
    try (by left; destruct Hread).
  - right. exists k, i. eexists. split; [by eapply add_write_changes|auto].
  - right. exists k, i. eexists. split; [by eapply add_delta_changes|auto].
  - right. exists k, i. eexists. split; [by eapply mv_delete_changes|auto].
  - right. match goal with Hm : mark_estimate _ _ _ = _ |- _ =>
      apply mark_estimate_changes in Hm as (e & He & Hm) end.
    exists k, i. eexists. split; [done|]. right. by rewrite He.
Qed.

(** The transaction a read depends on. *)
Definition sub_dep (sub : Sub) : option TxnIndex :=
  match sub with
  | ReadDone _ (Throw (Dependency dep)) | Blocked dep | Fresh _ dep | Locked _ dep | Seen _ dep
  | Checked _ dep | ToPush _ dep | Pushed _ dep => Some dep
  | _ => None
  end.

(** What is left of a read at index [i] is what the tree has below some bound. *)
Definition sub_ok (c : Shared) (i : TxnIndex) (sub : Sub) : Prop :=
  match sub with
  | Reading key iter _ =>
      exists b, b <= i /\ shape iter = shape (range_back (tree_of (data c) key) b)
  | _ => True
  end /\
  (forall dep, sub_dep sub = Some dep -> dep < i).

Record locked (x : Shared * list PC) : Prop := {
  l_readers key : readers (mvs x.1) key = total (reads key) x.2;
  l_sub t pc i sub : x.2 !! t = Some pc -> progress pc = Some (i, sub) -> sub_ok x.1 i sub;
}.

Lemma sub_ok_data c c' i sub :
  (forall key iter acc, sub = Reading key iter acc ->
     forall j, cell <$> tree_of (data c') key !! j = cell <$> tree_of (data c) key !! j) ->
  sub_ok c i sub -> sub_ok c' i sub.
Proof.
  intros Hsame [Hs Hd]. split; [|done]. destruct sub as [|key iter acc| | | | | | | | |]; try done.
  destruct Hs as (b & Hb & Hs). exists b. split; [done|]. rewrite Hs.
  apply shape_range_back. intros j _. by rewrite (Hsame key iter acc).
Qed.

(** A thread that reads a key keeps its tree. *)
Lemma locked_cells x pc c' pc' t p i key iter acc :
  locked x -> x.2 !! t = Some p -> progress p = Some (i, Reading key iter acc) ->
  act pc x.1 pc' c' ->
  forall j, cell <$> tree_of (data c') key !! j = cell <$> tree_of (data x.1) key !! j.
Proof.
  intros Hk Hp Hr Ha j. destruct (act_data _ _ _ _ Ha) as [-> |(k & i' & e & Hc & Hl)]; [done|].
  rewrite Hc. case_decide as Hd; [|done]. destruct Hd as [-> ->]. destruct Hl as [Hl|Hl]; [|done].
  rewrite (l_readers _ Hk) in Hl. pose proof (total_zero _ _ _ _ Hl Hp) as Hz.
  unfold reads in Hz. rewrite Hr in Hz. simpl in Hz. by rewrite decide_True in Hz.
Qed.

Lemma read_entry_dep j (e : Entry V) acc dep :
  read_entry j e acc = inl (Throw (Dependency dep)) -> dep = j.
Proof.
  unfold read_entry. case_bool_decide; [by intros [= ->]|]. case_bool_decide; simpl; [|done].
  destruct (cell e) as [inc v|d], acc as [acc|]; try done.
  - intros [= Hr]. unfold from_write in Hr.
    destruct (extract_raw_bytes v) as [b|]; simpl in Hr; [|done].
    destruct (deserialize b) as [z|]; simpl in Hr; [|done]. by destruct (apply_to acc z).
  - by destruct (merge_onto acc d).
Qed.

Lemma sub_ok_reading c i b key iter acc :
  b <= i -> shape iter = shape (range_back (tree_of (data c) key) b) ->
  sub_ok c i (reading key iter acc).
Proof.
  intros Hb Hs. destruct iter as [|x iter].
  - split; [done|]. simpl. by destruct acc.
  - split; [|done]. by exists b.
Qed.

Lemma read_step_ok i key sub (c : Shared) sub' (c' : Shared) :
  read_step i key sub c sub' c' -> sub_ok c i sub -> sub_ok c' i sub'.
Proof.
  intros Hr. destruct Hr as [c tree Ht|c j e iter acc e' acc' He Hn|c j e iter acc e' r He Hn].
  - intros _. apply (sub_ok_reading _ _ i); [done|]. simpl. unfold tree_of, data. simpl.
    change (mv_data (versioned_data_cache (blk c))) with (data c). by rewrite Ht.
  - intros [(b & Hb & Hs) _].
    destruct (shape_cons _ _ _ _ _ (or_intror Hs)) as (Hj & _ & _ & _ & Hs').
    apply (sub_ok_reading _ _ j); [lia|done].
  - intros [(b & Hb & Hs) _]. split; [done|]. intros dep. simpl.
    destruct r as [|[| |dep'|]|]; try done. intros [= ->].
    apply read_entry_dep in Hn as ->.
    destruct (shape_cons _ _ _ _ _ (or_intror Hs)) as (Hj & _). lia.
Qed.

Lemma act_sub_ok pc c pc' c' i sub' :
  act pc c pc' c' -> (forall j sub, progress pc = Some (j, sub) -> sub_ok c j sub) ->
  progress pc' = Some (i, sub') -> sub_ok c' i sub'.
Proof.
  intros Ha. act_cases Ha; unfold applying; repeat case_match; simpl; intros Hok Hp; simplify_eq;
    try done; try (eapply read_step_ok; [done|]; by apply Hok).
  { auto. }
  all: split; [done|]; intros dep' [= <-]; by apply (Hok _ _ eq_refl).
Qed.

Lemma locked_step c pcs t pc c' pc' :
  pcs !! t = Some pc -> act pc c pc' c' -> locked (c, pcs) -> locked (c', <[t := pc']> pcs).
Proof.
  intros Hl Ha Hk. constructor; simpl.
  - intros key. pose proof (total_insert (reads key) pcs t pc pc' Hl).
    pose proof (l_readers _ Hk key). simpl in *.
    enough (readers (mvs c') key + reads key pc = readers (mvs c) key + reads key pc') by lia.
    apply act_readers; [done|]. intros k. rewrite (l_readers _ Hk). by apply (total_one _ _ t).
  - intros t' p i sub Hp Hr. apply list_lookup_insert_Some in Hp as [(<- & -> & _)|[_ Hp]].
    + apply (act_sub_ok _ _ _ _ _ _ Ha); [|done]. intros j sub'. by apply (l_sub _ Hk t).
    + apply (sub_ok_data c); [|by apply (l_sub _ Hk t' p)]. intros key iter acc ->.
      by apply (locked_cells (c, pcs) pc c' pc' t' p i key iter acc).
Qed.

Lemma locked_reach threads x : reach threads x -> locked x.
Proof.
  apply (reach_ind _ _ _ _ _ (fun _ => True)); [done| |].
  - constructor; simpl.
    + intros key. rewrite total_replicate. unfold readers, reads. simpl.
      rewrite lookup_empty. simpl. lia.
    + intros t pc i sub Hl. by apply lookup_replicate in Hl as [-> _].
  - intros c pcs t pc pc' c' Hl Ha _ _. by apply (locked_step c pcs t pc).
Qed.
End Locks.
