(* ===== verification/Versions.v ===== *)
(** * What the multi-version map holds

    For every transaction, the status and the owner tell which entries it has in the map: all
    its last writes and deltas when it is executed, estimates in their place while it is aborted
    and executed again, and the new entries as they are made.  No version is ever written
    twice, so that a recorded read of a version tells the value that was read: the log. *)
From S2P Require Import Prelude Delta ChangeSetExt MVMap Conc Scheduler LastInputOutput Executor.
From S2P Require Import Protocol Ownership Quiescence Locks.

#[local] Open Scope nat_scope.

(** ** Layouts: the entries of one transaction *)

Section Layout.
Context {K V : Type} `{Countable K}.

(** The entries that are final, the keys whose entries are estimates, and the current
    incarnation. *)
Record Layout := {
  lay_done : gmap K (EntryCell V);
  lay_stale : gset K;
  lay_inc : Incarnation;
}.

Definition old_cell (inc : Incarnation) (cl : EntryCell V) : Prop :=
  match cl with EWrite inc' _ => inc' < inc | EDelta _ => True end.

(** A write that is in the map is in the log. *)
Definition logged (lg : Incarnation -> option V) (cl : EntryCell V) : Prop :=
  match cl with EWrite inc v => lg inc = Some v | EDelta _ => True end.

(** The entries [ent] of a transaction, and its writes in the log [lg], follow a layout. *)
Definition matches (ent : K -> option (Entry V)) (lg : K -> Incarnation -> option V)
  (L : Layout) : Prop :=
  forall k,
    match lay_done L !! k with
    | Some cl => ent k = Some {| flag := FLAG_DONE; cell := cl |}
    | None =>
        if decide (k ∈ lay_stale L)
        then exists cl, ent k = Some {| flag := FLAG_ESTIMATE; cell := cl |} /\
                        old_cell (lay_inc L) cl
        else ent k = None
    end /\
    (forall inc v, lg k inc = Some v ->
       inc < lay_inc L \/
       (inc = lay_inc L /\ exists v', lay_done L !! k = Some (EWrite (lay_inc L) v'))).

Implicit Types (ent : K -> option (Entry V)) (lg : K -> Incarnation -> option V) (L : Layout).

Lemma matches_ext ent ent' lg lg' L L' :
  (forall k, ent' k = ent k) -> (forall k inc, lg' k inc = lg k inc) ->
  (forall k, lay_done L' !! k = lay_done L !! k) ->
  (forall k, lay_done L !! k = None -> k ∈ lay_stale L' <-> k ∈ lay_stale L) ->
  lay_inc L' = lay_inc L ->
  matches ent lg L -> matches ent' lg' L'.
Proof.
  intros He Hlg Hd Hs Hi Hm k. specialize (Hm k) as [H1 H2].
  rewrite Hd, He, Hi. split.
  - destruct (lay_done L !! k) eqn:Hk; [done|]. specialize (Hs k Hk).
    repeat case_decide; tauto.
  - intros inc v. rewrite Hlg. apply H2.
Qed.

(** A later incarnation. *)
Lemma matches_next ent lg L inc :
  lay_inc L < inc -> matches ent lg L ->
  matches ent lg {| lay_done := lay_done L; lay_stale := lay_stale L; lay_inc := inc |}.
Proof.
  intros Hi Hm k. specialize (Hm k) as [H1 H2]. simpl. split.
  - destruct (lay_done L !! k); [done|]. case_decide; [|done].
    destruct H1 as (cl & Hk & Ho). exists cl. split; [done|]. destruct cl; simpl in *; [lia|done].
  - intros n v Hl. destruct (H2 n v Hl); lia.
Qed.

(** A new final entry at [k0], which was an estimate or nothing. *)
Lemma matches_update ent ent' lg lg' L k0 cl :
  lay_done L !! k0 = None ->
  (forall k, ent' k = if decide (k = k0) then Some {| flag := FLAG_DONE; cell := cl |} else ent k) ->
  (forall k inc v, lg' k inc = Some v -> lg k inc = Some v \/
     (k = k0 /\ inc = lay_inc L /\ exists v', cl = EWrite (lay_inc L) v')) ->
  matches ent lg L ->
  matches ent' lg'
    {| lay_done := <[k0 := cl]> (lay_done L); lay_stale := lay_stale L ∖ {[k0]};
       lay_inc := lay_inc L |}.
Proof.
  intros Hnone He Hlg Hm k. pose proof (Hm k) as [H1 H2]. simpl.
  rewrite He. destruct (decide (k = k0)) as [->|Hne].
  - rewrite lookup_insert_eq. split; [done|].
    intros inc v [Hl|(_ & -> & v' & ->)]%Hlg; [|eauto].
    destruct (H2 inc v Hl) as [|(_ & v' & Hv)]; [by left|]. congruence.
  - rewrite lookup_insert_ne by done. split.
    + destruct (lay_done L !! k); [done|].
      destruct (decide (k ∈ lay_stale L)); [rewrite decide_True by set_solver; done|].
      rewrite decide_False by set_solver. done.
    + intros inc v [Hl|(-> & _)]%Hlg; [|done]. by apply (H2 inc v).
Qed.

(** An estimate is deleted. *)
Lemma matches_delete ent ent' lg L k0 :
  lay_done L !! k0 = None ->
  (forall k, ent' k = if decide (k = k0) then None else ent k) ->
  matches ent lg L ->
  matches ent' lg
    {| lay_done := lay_done L; lay_stale := lay_stale L ∖ {[k0]}; lay_inc := lay_inc L |}.
Proof.
  intros Hnone He Hm k. pose proof (Hm k) as [H1 H2]. simpl. rewrite He. split; [|done].
  destruct (decide (k = k0)) as [->|Hne].
  - rewrite Hnone. by rewrite decide_False by set_solver.
  - destruct (lay_done L !! k); [done|].
    destruct (decide (k ∈ lay_stale L)); [rewrite decide_True by set_solver; done|].
    rewrite decide_False by set_solver. done.
Qed.

(** A final entry is marked as an estimate. *)
Lemma matches_mark ent ent' lg L k0 cl :
  lay_done L !! k0 = Some cl -> old_cell (lay_inc L) cl ->
  (forall k, ent' k = if decide (k = k0)
     then Some {| flag := FLAG_ESTIMATE; cell := cl |} else ent k) ->
  matches ent lg L ->
  matches ent' lg
    {| lay_done := delete k0 (lay_done L); lay_stale := lay_stale L ∪ {[k0]};
       lay_inc := lay_inc L |}.
Proof.
  intros Hdone Hold He Hm k. pose proof (Hm k) as [H1 H2]. simpl. rewrite He.
  destruct (decide (k = k0)) as [->|Hne].
  - rewrite lookup_delete_eq, decide_True by set_solver. split; [eauto|].
    intros inc v Hl. destruct (H2 inc v Hl) as [|(_ & v' & Hv)]; [by left|].
    assert (cl = EWrite (lay_inc L) v') as -> by congruence. simpl in Hold. lia.
  - rewrite lookup_delete_ne by done. split; [|done]. destruct (lay_done L !! k); [done|].
    destruct (decide (k ∈ lay_stale L)); [rewrite decide_True by set_solver; done|].
    rewrite decide_False by set_solver. done.
Qed.

(** Nothing but estimates, or nothing but final entries. *)
Lemma matches_flag ent lg L k e :
  matches ent lg L -> ent k = Some e ->
  match lay_done L !! k with
  | Some cl => e = {| flag := FLAG_DONE; cell := cl |}
  | None => k ∈ lay_stale L /\ flag e = FLAG_ESTIMATE
  end.
Proof.
  intros Hm He. destruct (Hm k) as [H1 _]. rewrite He in H1.
  destruct (lay_done L !! k); [congruence|]. case_decide; [|done].
  destruct H1 as (cl & [= ->] & _). done.
Qed.
End Layout.
Arguments Layout K V {_ _}.

(** ** Outputs and their entries *)

Section Updates.
Context {K V O E : Type} `{Countable K} `{TransactionOutput K V O}.
Implicit Types (ws : list (K * V)) (ds : list (K * DeltaOp)).

(** The updates of an output, in the order of [apply_updates]. *)
Definition updates (inc : Incarnation) ws ds : list (K * EntryCell V) :=
  (prod_map id (EWrite inc) <$> ws) ++ (prod_map id EDelta <$> ds).

Definition left_keys ws ds : list K := ws.*1 ++ ds.*1.

Lemma updates_keys inc ws ds : (updates inc ws ds).*1 = left_keys ws ds.
Proof.
  unfold updates, left_keys. rewrite fmap_app, <- !list_fmap_compose. done.
Qed.

(** The entries that an output gives. *)
Definition cells (inc : Incarnation) (o : option (ExecutionStatus O (Error E)))
  : gmap K (EntryCell V) :=
  match o with
  | Some (Success o) | Some (SkipRest o) => list_to_map (updates inc (get_writes o) (get_deltas o))
  | _ => ∅
  end.

Lemma cells_recorded inc (out : ExecutionStatus O E) :
  cells inc (Some (recorded out)) = list_to_map (updates inc (status_writes out) (status_deltas out)).
Proof. by destruct out. Qed.

Lemma status_keys_cells inc o k :
  k ∈ status_keys (K := K) (V := V) o <-> is_Some (cells inc o !! k).
Proof.
  assert (Hl : forall out, k ∈ (list_to_set (output_keys out) : gset K) <->
    is_Some ((list_to_map (updates inc (get_writes out) (get_deltas out)) : gmap K _) !! k)).
  { intros out. rewrite elem_of_list_to_set. unfold output_keys.
    fold (left_keys (get_writes out) (get_deltas out)). rewrite <- (updates_keys inc).
    rewrite <- not_eq_None_Some, <- not_elem_of_list_to_map. split; [auto|].
    intros Hn. destruct (decide (k ∈ (updates inc (get_writes out) (get_deltas out)).*1)); [done|].
    by destruct Hn. }
  destruct o as [[out|e|out]|]; simpl; try apply Hl;
    rewrite lookup_empty, elem_of_empty; split; [done|by intros []|done|by intros []].
Qed.

Lemma status_keys_recorded (out : ExecutionStatus O E) k :
  k ∈ status_keys (K := K) (V := V) (Some (recorded out)) <->
  k ∈ left_keys (status_writes out) (status_deltas out).
Proof.
  rewrite (status_keys_cells 0), cells_recorded, <- (updates_keys 0).
  rewrite <- not_eq_None_Some, <- not_elem_of_list_to_map. split; [|auto].
  intros Hn. destruct (decide (k ∈ (updates 0 (status_writes out) (status_deltas out)).*1)); [done|].
  by destruct Hn.
Qed.

Lemma cells_inc inc o k inc' v : cells inc o !! k = Some (EWrite inc' v) -> inc' = inc.
Proof.
  assert (Hl : forall out, (list_to_map (updates inc (get_writes out) (get_deltas out)) : gmap K _) !! k
    = Some (EWrite inc' v) -> inc' = inc).
  { intros out Hk%elem_of_list_to_map_2. unfold updates in Hk.
    apply elem_of_app in Hk as [Hk|Hk]; apply list_elem_of_fmap in Hk as ([k' x] & Hx & _);
      unfold prod_map in Hx; simpl in Hx; congruence. }
  destruct o as [[out|e|out]|]; simpl; try apply Hl; by rewrite lookup_empty.
Qed.

(** The updates that are made, when [ws] and [ds] are left. *)
Definition made (inc : Incarnation) (out : ExecutionStatus O E) ws ds : gmap K (EntryCell V) :=
  filter (fun x => x.1 ∉ left_keys ws ds) (cells inc (Some (recorded out))).

Lemma made_lookup inc out ws ds k :
  made inc out ws ds !! k =
  if decide (k ∈ left_keys ws ds) then None else cells inc (Some (recorded out)) !! k.
Proof.
  unfold made. rewrite map_lookup_filter.
  destruct (cells inc (Some (recorded out)) !! k) as [cl|] eqn:Hk; simpl; [|by case_decide].
  destruct (decide (k ∈ left_keys ws ds)) as [Hd|Hd].
  - case_guard; [done|done].
  - case_guard; done.
Qed.

Lemma made_none inc out k :
  made inc out (status_writes out) (status_deltas out) !! k = None.
Proof.
  rewrite made_lookup. case_decide as Hd; [done|]. apply eq_None_not_Some.
  rewrite <- (status_keys_cells inc), status_keys_recorded. done.
Qed.

(** The first update that is left, and the map once it is made. *)
Definition suffix_of inc (out : ExecutionStatus O E) ws ds : Prop :=
  exists done, updates inc (status_writes out) (status_deltas out) = done ++ updates inc ws ds.

Lemma made_next inc (out : ExecutionStatus O E) ws ds ws' ds' k cl :
  NoDup (left_keys (status_writes out) (status_deltas out)) ->
  suffix_of inc out ws ds -> updates inc ws ds = (k, cl) :: updates inc ws' ds' ->
  suffix_of inc out ws' ds' /\
  made inc out ws ds !! k = None /\
  forall k', made inc out ws' ds' !! k' = <[k := cl]> (made inc out ws ds) !! k'.
Proof.
  intros Hnd [done Hs] Hu. rewrite Hu in Hs. split; [|split].
  - exists (done ++ [(k, cl)]). by rewrite <- app_assoc.
  - rewrite made_lookup, decide_True; [done|]. rewrite <- (updates_keys inc), Hu. left.
  - intros k'. pose proof Hnd as Hnd'. rewrite <- (updates_keys inc), Hs, fmap_app in Hnd'.
    apply NoDup_app in Hnd' as (_ & _ & Hnd'). simpl in Hnd'. apply NoDup_cons in Hnd' as [Hk _].
    rewrite updates_keys in Hk. destruct (decide (k' = k)) as [->|Hne].
    + rewrite lookup_insert_eq, made_lookup, decide_False, cells_recorded by done.
      apply elem_of_list_to_map_1; [by rewrite updates_keys|]. rewrite Hs.
      apply elem_of_app. right. left.
    + rewrite lookup_insert_ne, !made_lookup by done.
      rewrite <- !(updates_keys inc), Hu. simpl.
      destruct (decide (k' ∈ (updates inc ws' ds').*1)).
      * by rewrite decide_True by (by right).
      * rewrite decide_False; [done|]. by intros [|]%elem_of_cons.
Qed.
End Updates.

(** ** The invariant *)

(** What a VM may output: no key twice, and deltas only on the keys of aggregators.  [agg]
    gives the limit of the aggregator at a key; its writes are encodings of a [u128], and its
    deltas are well formed.  In return, that is all the VM may be shown by a read, and it
    panics on none of it. *)
Section Assumptions.
Context `{Bcs128} {K V O E : Type} `{TransactionWrite V} `{TransactionOutput K V O}.
Context (agg : K -> option Z).

Definition write_ok (k : K) (v : V) : Prop :=
  is_Some (agg k) -> exists o, from_write (E := MVHashMapError) v = Return o.
Definition delta_ok (k : K) (d : DeltaOp) : Prop := agg k = Some (limit d) /\ wf d.

Definition cell_ok (k : K) (cl : EntryCell V) : Prop :=
  match cl with
  | EWrite _ v => write_ok k v
  | EDelta d => delta_ok k d
  end.

Definition readable (k : K) (v : ReadResult V) : Prop :=
  match v with
  | Value v => write_ok k v
  | RU128 z => is_Some (agg k) /\ is_u128 z
  | RUnresolved d => delta_ok k d
  | RNone => True
  end.

Definition output_ok (out : ExecutionStatus O E) : Prop :=
  NoDup (left_keys (status_writes out) (status_deltas out)) /\
  forall inc k cl, (k, cl) ∈ updates inc (status_writes out) (status_deltas out) -> cell_ok k cl.

Fixpoint run_ok (r : VMRun K V O E) : Prop :=
  match r with
  | VMDone out => output_ok out
  | VMRead key cont => forall v, readable key v -> run_ok (cont v)
  | VMPanic => False
  end.

Lemma delta_ok_agg k d : delta_ok k d -> is_Some (agg k).
Proof. intros [-> _]. done. Qed.

Lemma delta_ok_merge k acc d m :
  delta_ok k acc -> delta_ok k d -> merge_onto acc d = Ok m -> delta_ok k m.
Proof.
  intros [Hag Hwf] [Hag' Hwf'] Hm. assert (Hl : limit d = limit acc) by congruence.
  destruct (merge_onto_Ok acc d m Hwf' Hwf Hl Hm) as (_ & Hwm & Hlm & _). split; congruence.
Qed.
End Assumptions.

(** A run of the VM on captured reads. *)
Section Replay.
Context {K V O E : Type} `{Countable K}.
Abbreviation Log := (gmap (K * TxnIndex * Incarnation) V).
Implicit Types (lg : Log) (r : VMRun K V O E) (ds : list (ReadDescriptor K)).

(** The value of a read, from its descriptor and the log. *)
Definition described lg (d : ReadDescriptor K) : option (ReadResult V) :=
  match kind d with
  | KVersion j inc => Value <$> lg !! (access_path d, j, inc)
  | KResolved v => Some (RU128 v)
  | KUnresolved d => Some (RUnresolved d)
  | KStorage => Some RNone
  | KDeltaApplicationFailure => Some (RU128 0%Z)
  end.

Fixpoint replay lg r ds {struct ds} : option (VMRun K V O E) :=
  match ds, r with
  | [], _ => Some r
  | d :: ds, VMRead key cont =>
      if decide (access_path d = key)
      then described lg d ≫= (fun v => replay lg (cont v) ds) else None
  | _ :: _, _ => None
  end.

Lemma replay_snoc lg r ds key cont d v :
  replay lg r ds = Some (VMRead key cont) -> access_path d = key -> described lg d = Some v ->
  replay lg r (ds ++ [d]) = Some (cont v).
Proof.
  revert r. induction ds as [|d' ds IH]; intros r Hr Hk Hd.
  - simpl in Hr. injection Hr as ->. simpl. by rewrite decide_True, Hd.
  - simpl in *. destruct r as [|key' cont'|]; [done| |done]. case_decide; [|done].
    destruct (described lg d') as [v'|]; simpl in *; [|done]. by apply IH.
Qed.

Lemma described_mono lg lg' d v : lg ⊆ lg' -> described lg d = Some v -> described lg' d = Some v.
Proof.
  intros Hsub. unfold described. destruct (kind d); try done.
  intros (w & Hw & ->)%fmap_Some. by rewrite (lookup_weaken _ _ _ _ Hw Hsub).
Qed.

Lemma replay_mono lg lg' ds : forall r r',
  lg ⊆ lg' -> replay lg r ds = Some r' -> replay lg' r ds = Some r'.
Proof.
  induction ds as [|d ds IH]; intros r r' Hsub; simpl; [done|]. destruct r; [done| |done].
  case_decide; [|done]. destruct (described lg d) as [v|] eqn:Hd; simpl; [|done].
  rewrite (described_mono _ _ _ _ Hsub Hd). simpl. by apply IH.
Qed.

Lemma view_result_path (key : K) (o : ReadOutput V) v d :
  view_result key o = Some (v, d) -> access_path d = key.
Proof. destruct o as [[z|[j inc] w]|[]|]; simpl; by intros [= <- <-]. Qed.
End Replay.

Lemma replay_ok `{Bcs128} {K V O E} `{Countable K} `{TransactionWrite V}
  `{TransactionOutput K V O} agg lg ds : forall (r r' : VMRun K V O E),
  run_ok agg r -> replay lg r ds = Some r' ->
  Forall (fun d => exists v, described lg d = Some v /\ readable agg (access_path d) v) ds ->
  run_ok agg r'.
Proof.
  induction ds as [|d ds IH]; intros r r' Hr; simpl; [by intros [= <-]|].
  destruct r as [|key cont|]; [done| |done]. case_decide as Hk; [|done]. subst key.
  intros Hre [(v & Hd & Hok) Hds]%Forall_cons. rewrite Hd in Hre. simpl in Hre. 
  eapply IH; [|exact Hre|exact Hds]. by apply Hr.
Qed.

Section Versions.
Context `{Bcs128, !Bcs128Laws} {K V O E P T : Type} `{Countable K} `{Countable P}.
Context `{TransactionWrite V} `{TransactionOutput K V O} `{ModulePath K P}.
Context (hash_iter : gset K -> list K).
Context (execute_transaction : TxnIndex -> T -> VMRun K V O E).
Context (block : list T).
Context (agg : K -> option Z).
Context (Hiter : forall s, hash_iter s ≡ₚ elements s).
Context (Hvm : forall i txn, block !! i = Some txn -> run_ok agg (execute_transaction i txn)).

Abbreviation PC := (PC (K := K) (V := V) (O := O) (E := E)).
Abbreviation Sub := (Sub (K := K) (V := V)).
Abbreviation Shared := (Shared (K := K) (V := V) (O := O) (E := E) (P := P)).
Abbreviation act := (act (K := K) (V := V) (O := O) (E := E) (P := P) hash_iter execute_transaction block).
Abbreviation reach := (reach (K := K) (V := V) (O := O) (E := E) (P := P) hash_iter execute_transaction block).
Abbreviation Log := (gmap (K * TxnIndex * Incarnation) V).

Definition entry_of (c : Shared) (i : TxnIndex) (k : K) : option (Entry V) :=
  tree_of (data c) k !! i.
Definition log_of (c : Shared) (i : TxnIndex) (k : K) (inc : Incarnation) : option V :=
  log c !! (k, i, inc).
Definition out_of (c : Shared) (i : TxnIndex) : option (ExecutionStatus O (Error E)) :=
  outputs (io c) !! i ≫= id.
Definition holds (c : Shared) (i : TxnIndex) (L : Layout K V) : Prop :=
  matches (entry_of c i) (log_of c i) L.

(** The layout of the transaction a thread owns or aborts, and of one nobody does. *)
Definition pc_layout (c : Shared) (pc : PC) : option (TxnIndex * Layout K V) :=
  match pc with
  | Exec i inc _ _ _ =>
      Some (i, {| lay_done := ∅; lay_stale := status_keys (out_of c i); lay_inc := inc |})
  | Apply i inc _ out ws ds prev _ =>
      Some (i, {| lay_done := made inc out ws ds; lay_stale := prev; lay_inc := inc |})
  | Del i inc _ out keys _ =>
      Some (i, {| lay_done := cells inc (Some (recorded out)); lay_stale := list_to_set keys;
                  lay_inc := inc |})
  | Store i inc _ out _ | Stored i inc _ out _ =>
      Some (i, {| lay_done := cells inc (Some (recorded out)); lay_stale := ∅; lay_inc := inc |})
  | Mark0 i inc =>
      Some (i, {| lay_done := cells inc (out_of c i); lay_stale := ∅; lay_inc := inc + 1 |})
  | Mark i inc keys =>
      Some (i, {| lay_done := filter (fun x => x.1 ∈ keys) (cells inc (out_of c i));
                  lay_stale := status_keys (out_of c i) ∖ list_to_set keys; lay_inc := inc + 1 |})
  | _ => None
  end.
Definition status_layout (c : Shared) (i : TxnIndex) : option (Layout K V) :=
  match status_at c i with
  | Some (ReadyToExecute inc None) =>
      Some {| lay_done := ∅; lay_stale := status_keys (out_of c i); lay_inc := inc |}
  | Some (Executed inc) =>
      Some {| lay_done := cells inc (out_of c i); lay_stale := ∅; lay_inc := inc |}
  | _ => None
  end.

Definition has_input (c : Shared) (i : TxnIndex) : Prop :=
  exists reads, inputs (io c) !! i = Some (Some reads).
Definition replays (lg : Log) (i : TxnIndex) (captured : list (ReadDescriptor K))
  (r : VMRun K V O E) : Prop :=
  (exists txn, block !! i = Some txn /\ replay lg (execute_transaction i txn) captured = Some r) /\
  Forall (fun d => exists v, described lg d = Some v /\ readable agg (access_path d) v) captured.

(** A read in progress. *)
Definition sub_known (lg : Log) (sub : Sub) : Prop :=
  match sub with
  | Reading key iter acc =>
      (forall j e, (j, e) ∈ iter -> cell_ok agg key (cell e) /\
         logged (fun n => lg !! (key, j, n)) (cell e)) /\ (forall d, acc = Some d -> delta_ok agg key d)
  | ReadDone key r =>
      r <> Panic /\ forall v d, view_result key r = Some (v, d) ->
        described lg d = Some v /\ readable agg key v
  | _ => True
  end.

(** What each thread knows of its own transaction. *)
Definition pc_known (c : Shared) (pc : PC) : Prop :=
  match pc with
  | Exec i inc captured rest sub => replays (log c) i captured rest /\ sub_known (log c) sub
  | Apply i inc captured out ws ds prev _ =>
      replays (log c) i captured (VMDone out) /\ suffix_of inc out ws ds /\
      (forall k, k ∈ prev -> made inc out ws ds !! k = None)
  | Del i inc captured out keys _ =>
      replays (log c) i captured (VMDone out) /\ NoDup keys /\
      (forall k, k ∈ keys -> cells inc (Some (recorded out)) !! k = None)
  | Store i inc captured out _ =>
      replays (log c) i captured (VMDone out) /\ inputs (io c) !! i = Some (Some captured)
  | Stored i inc captured out _ =>
      replays (log c) i captured (VMDone out) /\ inputs (io c) !! i = Some (Some captured) /\
      outputs (io c) !! i = Some (Some (recorded out))
  | Fin i _ _ _ | FinVal i _ | Val0 i _ | ValFail i _ => has_input c i
  | Val i _ _ sub => has_input c i /\ sub_known (log c) sub
  | Mark i inc keys => NoDup keys /\ (forall k, k ∈ keys -> k ∈ status_keys (out_of c i))
  | _ => True
  end.

(** The recorded output of an executed transaction is that of the VM on its recorded reads. *)
Definition recorded_ok (c : Shared) (i : TxnIndex) : Prop :=
  exists captured out, inputs (io c) !! i = Some (Some captured) /\
    outputs (io c) !! i = Some (Some (recorded out)) /\ replays (log c) i captured (VMDone out).

Record versioned (x : Shared * list PC) : Prop := {
  v_io : length (inputs (io x.1)) = length block /\ length (outputs (io x.1)) = length block;
  v_entry i k e : entry_of x.1 i k = Some e ->
    (flag e = FLAG_DONE \/ flag e = FLAG_ESTIMATE) /\ cell_ok agg k (cell e) /\
    logged (log_of x.1 i k) (cell e);
  v_bound i k e : entry_of x.1 i k = Some e -> i < length block;
  v_pc t pc i L : x.2 !! t = Some pc -> pc_layout x.1 pc = Some (i, L) -> holds x.1 i L;
  v_status i L : status_layout x.1 i = Some L -> holds x.1 i L;
  v_known t pc : x.2 !! t = Some pc -> pc_known x.1 pc;
  v_recorded i inc : status_at x.1 i = Some (Executed inc) -> recorded_ok x.1 i;
}.

(** ** An action changes only the transaction its thread owns or aborts *)

Definition target (pc : PC) : option TxnIndex :=
  match role pc with ROwn i _ _ | RAbort i _ => Some i | _ => None end.

(** Two configurations that agree on transaction [j]. *)
Record agree (c c' : Shared) (j : TxnIndex) : Prop := {
  a_entry k : entry_of c' j k = entry_of c j k;
  a_log k n : log_of c' j k n = log_of c j k n;
  a_inputs : inputs (io c') !! j = inputs (io c) !! j;
  a_outputs : outputs (io c') !! j = outputs (io c) !! j;
}.

Lemma agree_refl c j : agree c c j.
Proof. done. Qed.

Lemma agree_same c c' j : data c' = data c -> log c' = log c -> io c' = io c -> agree c c' j.
Proof. intros Hd Hlg Hio. constructor; unfold entry_of, log_of; by rewrite ?Hd, ?Hlg, ?Hio. Qed.

Lemma agree_changes c c' key i e j :
  changes (data c) (data c') key i e -> i <> j -> io c' = io c ->
  (forall k n, log_of c' j k n = log_of c j k n) -> agree c c' j.
Proof.
  intros Hc Hne Hio Hlg. constructor; rewrite ?Hio; try done.
  intros k. unfold entry_of. rewrite Hc, decide_False; [done|]. by intros [_ ->].
Qed.

Lemma read_step_same i key sub (c : Shared) sub' (c' : Shared) :
  read_step i key sub c sub' c' -> data c' = data c /\ log c' = log c /\ io c' = io c.
Proof. by destruct 1. Qed.

Lemma act_agree pc c pc' c' j :
  act pc c pc' c' -> target pc <> Some j -> agree c c' j.
Proof.
  intros Ha. act_cases Ha; unfold applying, target; repeat case_match; simpl; intros Hj;
    try (by apply agree_same);
    try (by apply read_step_same in Hread as (? & ? & ?); apply agree_same); match goal with Hr : role _ = _ |- _ => simpl in Hr end; simplify_eq.
  - eapply agree_changes; [by apply add_write_changes|congruence|done|].
    intros k' n. unfold log_of. simpl. rewrite lookup_insert_ne; [done|congruence].
  - eapply agree_changes; [by apply add_delta_changes|congruence|done|done].
  - eapply agree_changes; [by apply mv_delete_changes|congruence|done|done].
  - constructor; try done; unfold io in *; simpl; congruence.
  - constructor; try done. simpl. rewrite list_lookup_insert_ne; [done|congruence].
  - constructor; try done. simpl. rewrite list_lookup_insert_ne; [done|congruence].
  - match goal with Hm : mark_estimate _ _ _ = _ |- _ =>
      apply mark_estimate_changes in Hm as (e & _ & Hm) end.
    eapply agree_changes; [done|congruence|done|done].
Qed.

(** What agreement preserves. *)
Lemma agree_out c c' j : agree c c' j -> out_of c' j = out_of c j.
Proof. intros Ha. unfold out_of. by rewrite (a_outputs _ _ _ Ha). Qed.

Lemma agree_holds c c' j L : agree c c' j -> holds c j L -> holds c' j L.
Proof. intros []. by apply matches_ext. Qed.

Lemma agree_pc_layout c c' j pc L :
  agree c c' j -> pc_layout c' pc = Some (j, L) -> pc_layout c pc = Some (j, L).
Proof.
  intros Ha Hp. destruct pc; simpl in *; simplify_eq; by rewrite ?(agree_out _ _ _ Ha).
Qed.

Lemma pc_layout_target c pc i L : pc_layout c pc = Some (i, L) -> target pc = Some i.
Proof. destruct pc; simpl; intros ?; simplify_eq; done. Qed.

(** Two threads never have the same target. *)
Lemma target_unique (c : Shared) pcs t t' pc pc' i :
  owned block (c, pcs) -> pcs !! t = Some pc -> pcs !! t' = Some pc' ->
  target pc = Some i -> target pc' = Some i -> t = t'.
Proof.
  intros Ho Hl Hl' Ht Ht'. unfold target in *.
  pose proof (owned_role _ _ _ _ _ Ho Hl) as Hr. pose proof (owned_role _ _ _ _ _ Ho Hl') as Hr'.
  destruct (role pc) as [| |j inc h|j inc] eqn:E1, (role pc') as [| |j' inc' h'|j' inc'] eqn:E2;
    simplify_eq.
  - by eapply own_unique.
  - pose proof (o_owner _ _ _ Ho _ _ _ _ Hr) as H1'. pose proof (o_aborter _ _ _ Ho _ _ _ Hr').
    destruct h; simpl in H1'; [..|destruct H1' as [|[|]]]; simpl in *; congruence.
  - pose proof (o_owner _ _ _ Ho _ _ _ _ Hr') as H1'. pose proof (o_aborter _ _ _ Ho _ _ _ Hr).
    destruct h'; simpl in H1'; [..|destruct H1' as [|[|]]]; simpl in *; congruence.
  - by eapply own_aborter_unique.
Qed.

(** A transaction with a target is not one with a layout of its own. *)
Lemma target_status (c : Shared) pcs t pc i :
  owned block (c, pcs) -> pcs !! t = Some pc -> target pc = Some i -> status_layout c i = None.
Proof.
  intros Ho Hl Ht. unfold target in Ht. pose proof (owned_role _ _ _ _ _ Ho Hl) as Hr.
  unfold status_layout. destruct (role pc) as [| |j inc h|j inc]; simplify_eq.
  - pose proof (o_owner _ _ _ Ho _ _ _ _ Hr) as H1'.
    destruct h; simpl in H1'; [..|destruct H1' as [H1'|[H1'|H1']]];
      unfold status_at; simpl in *; by rewrite H1'.
  - pose proof (o_aborter _ _ _ Ho _ _ _ Hr) as H1'. unfold status_at. simpl in *. by rewrite H1'.
Qed.

(** ** What an action does to the log and to the recorded inputs *)

Lemma act_io_length pc c pc' c' :
  act pc c pc' c' ->
  length (inputs (io c')) = length (inputs (io c)) /\
  length (outputs (io c')) = length (outputs (io c)).
Proof.
  intros Ha. act_cases Ha; unfold applying; repeat case_match; try done;
    try (by apply read_step_same in Hread as (_ & _ & ->)); simpl; rewrite ?length_insert; try done.
  unfold io in *. simpl. by split; f_equal.
Qed.

Lemma act_has_input pc c pc' c' i : act pc c pc' c' -> has_input c i -> has_input c' i.
Proof.
  intros Ha [reads Hr]. unfold has_input.
  act_cases Ha; unfold applying; repeat case_match; try (by eauto);
    try (by apply read_step_same in Hread as (_ & _ & ->); eauto).
  - unfold io in *. simpl. exists reads. congruence.
  - simpl. destruct (decide (i = i0)) as [->|Hne].
    + exists captured. apply list_lookup_insert_eq. by eapply lookup_lt_Some.
    + exists reads. by rewrite list_lookup_insert_ne.
Qed.

Lemma sub_known_mono lg lg' sub : lg ⊆ lg' -> sub_known lg sub -> sub_known lg' sub.
Proof.
  intros Hsub. destruct sub as [|key iter acc|key r| | | | | | | |]; simpl; try done.
  - intros [He Ha]. split; [|done]. intros j e Hin. destruct (He j e Hin) as [? Hlg]. split; [done|].
    destruct (cell e); simpl in *; [|done]. by eapply lookup_weaken.
  - intros [? Hd]. split; [done|]. intros v d Hv. destruct (Hd v d Hv). eauto using described_mono.
Qed.

Lemma replays_mono lg lg' i captured r :
  lg ⊆ lg' -> replays lg i captured r -> replays lg' i captured r.
Proof.
  intros Hsub [(txn & ? & ?) Hf]. split; [exists txn; eauto using replay_mono|].
  eapply Forall_impl; [exact Hf|]. intros d (v & ? & ?). eauto using described_mono.
Qed.

Lemma replays_run_ok lg i captured r : replays lg i captured r -> run_ok agg r.
Proof. intros [(txn & Ht & Hr) Hf]. eapply replay_ok; [|done..]. by apply Hvm. Qed.

Lemma act_log pc c pc' c' :
  act pc c pc' c' ->
  (forall i L, pc_layout c pc = Some (i, L) -> holds c i L) -> log c ⊆ log c'.
Proof.
  intros Ha. act_cases Ha; unfold applying; repeat case_match; intros Hh; try done;
    try (by apply read_step_same in Hread as (_ & -> & _)).
  simpl. apply insert_subseteq. destruct (log c !! (k, i, inc)) as [v'|] eqn:Hlg; [|done].
  destruct (Hh i _ eq_refl k) as [_ H2'].
  destruct (H2' inc v' Hlg) as [Hlt|(_ & w & Hd)]; simpl in *; [lia|].
  rewrite made_lookup, decide_True in Hd; [done|]. left.
Qed.

(** ** The entries *)

Definition entry_ok (c : Shared) (i : TxnIndex) (k : K) (e : Entry V) : Prop :=
  (flag e = FLAG_DONE \/ flag e = FLAG_ESTIMATE) /\ cell_ok agg k (cell e) /\
  logged (log_of c i k) (cell e).

Lemma entry_ok_mono c c' i k e : log c ⊆ log c' -> entry_ok c i k e -> entry_ok c' i k e.
Proof.
  intros Hsub (? & ? & Hl). split_and!; [done..|].
  unfold log_of in *. destruct (cell e); simpl in *; [|done]. by eapply lookup_weaken.
Qed.

Lemma changes_entry_ok c c' key i e j k e' :
  changes (data c) (data c') key i e -> log c ⊆ log c' ->
  (forall e', e = Some e' -> entry_ok c' i key e') ->
  (forall j k e, entry_of c j k = Some e -> entry_ok c j k e) ->
  entry_of c' j k = Some e' -> entry_ok c' j k e'.
Proof.
  intros Hc Hsub Hnew Hold. unfold entry_of. rewrite Hc.
  case_decide as Hd; [destruct Hd as [-> ->]; apply Hnew|].
  intros He. eapply entry_ok_mono; [done|]. by apply Hold.
Qed.

(** The updates that are left come from an output. *)
Lemma suffix_ok lg i inc captured out ws ds k cl :
  replays lg i captured (VMDone out) -> suffix_of inc out ws ds ->
  (k, cl) ∈ updates inc ws ds ->
  NoDup (left_keys (status_writes out) (status_deltas out)) /\ cell_ok agg k cl.
Proof.
  intros Hr [done Hs] Hin. apply replays_run_ok in Hr as [Hnd Hok]. split; [done|].
  apply (Hok inc). rewrite Hs. apply elem_of_app. by right.
Qed.

Lemma act_entry_ok pc c pc' c' j k e :
  act pc c pc' c' -> log c ⊆ log c' -> pc_known c pc ->
  (forall j k e, entry_of c j k = Some e -> entry_ok c j k e) ->
  entry_of c' j k = Some e -> entry_ok c' j k e.
Proof.
  intros Ha Hsub Hkn Hold.
  assert (Hsame : data c' = data c -> log c' = log c ->
    entry_of c' j k = Some e -> entry_ok c' j k e).
  { intros Hd _ He. unfold entry_of in He. rewrite Hd in He. eapply entry_ok_mono; eauto. }
  revert Hsub Hkn Hold Hsame.
  act_cases Ha; unfold applying; repeat case_match; intros Hsub Hkn Hold Hsame; try (by apply Hsame);
    try (by apply read_step_same in Hread as (? & ? & _); apply Hsame).
  - destruct Hkn as (Hr & Hs & _).
    destruct (suffix_ok _ _ _ _ _ _ _ k0 (EWrite inc v) Hr Hs) as [_ Hok]; [left|].
    eapply changes_entry_ok; [by apply add_write_changes|done| |done].
    intros e' [= <-]. split_and!; [by left|done|]. simpl. unfold log_of. simpl.
    by rewrite lookup_insert_eq.
  - destruct Hkn as (Hr & Hs & _).
    destruct (suffix_ok _ _ _ _ _ _ _ k0 (EDelta d) Hr Hs) as [_ Hok]; [left|].
    eapply changes_entry_ok; [by apply add_delta_changes|done| |done].
    intros e' [= <-]. split_and!; [by left|done..].
  - by eapply changes_entry_ok; [by apply mv_delete_changes|..].
  - match goal with Hm : mark_estimate _ _ _ = _ |- _ =>
      apply mark_estimate_changes in Hm as (e0 & He0 & Hm) end.
    eapply changes_entry_ok; [done|done| |done]. intros e' [= <-].
    destruct (Hold i k0 e0 He0) as (_ & ? & ?). split_and!; [by right|done..].
Qed.

(** ** The layouts *)

Lemma holds_applying (c : Shared) i inc captured out ws ds prev outside L :
  holds c i {| lay_done := made inc out ws ds; lay_stale := prev; lay_inc := inc |} ->
  pc_layout c (applying hash_iter i inc captured out ws ds prev outside) = Some (i, L) ->
  holds c i L.
Proof.
  intros Hh. unfold applying.
  destruct ws as [|w ws], ds as [|d ds]; simpl; intros [= <-]; try done.
  revert Hh. apply matches_ext; simpl; try done.
  - intros k. rewrite made_lookup, decide_False; [done|]. apply not_elem_of_nil.
  - intros k _. by rewrite elem_of_list_to_set, Hiter, elem_of_elements.
Qed.

Lemma holds_update (c c' : Shared) i inc (out : ExecutionStatus O E) ws ds ws' ds' prev k cl :
  NoDup (left_keys (status_writes out) (status_deltas out)) ->
  suffix_of inc out ws ds -> updates inc ws ds = (k, cl) :: updates inc ws' ds' ->
  changes (data c) (data c') k i (Some {| flag := FLAG_DONE; cell := cl |}) ->
  (forall k' inc' v, log_of c' i k' inc' = Some v ->
     log_of c i k' inc' = Some v \/ (k' = k /\ inc' = inc /\ exists v', cl = EWrite inc v')) ->
  holds c i {| lay_done := made inc out ws ds; lay_stale := prev; lay_inc := inc |} ->
  holds c' i {| lay_done := made inc out ws' ds'; lay_stale := prev ∖ {[k]}; lay_inc := inc |}.
Proof.
  intros Hnd Hs Hu Hc Hlg Hh. destruct (made_next _ _ _ _ _ _ _ _ Hnd Hs Hu) as (_ & Hnone & Hmade).
  apply (matches_ext (entry_of c' i) _ (log_of c' i) _
    {| lay_done := <[k := cl]> (made inc out ws ds); lay_stale := prev ∖ {[k]}; lay_inc := inc |});
    simpl; try done.
  apply (matches_update (entry_of c i) _ (log_of c i) _
    {| lay_done := made inc out ws ds; lay_stale := prev; lay_inc := inc |} k cl); try done.
  intros k'. unfold entry_of. rewrite Hc. destruct (decide (k' = k)) as [->|].
  - by rewrite !decide_True.
  - rewrite decide_False; [done|]. by intros [? _].
Qed.

Lemma holds_delete (c c' : Shared) i inc (out : ExecutionStatus O E) k keys :
  cells inc (Some (recorded out)) !! k = None -> k ∉ keys ->
  changes (data c) (data c') k i None -> log c' = log c ->
  holds c i {| lay_done := cells inc (Some (recorded out)); lay_stale := list_to_set (k :: keys);
               lay_inc := inc |} ->
  holds c' i {| lay_done := cells inc (Some (recorded out)); lay_stale := list_to_set keys;
                lay_inc := inc |}.
Proof.
  intros Hnone Hk Hc Hlg Hh.
  apply (matches_ext (entry_of c' i) _ (log_of c i) _
    {| lay_done := cells inc (Some (recorded out));
       lay_stale := list_to_set (k :: keys) ∖ {[k]}; lay_inc := inc |}); try done.
  - intros k' n. unfold log_of. by rewrite Hlg.
  - intros k' _. simpl. rewrite elem_of_difference, elem_of_union, elem_of_singleton, elem_of_list_to_set.
    split; [|tauto]. intros Hk'. split; [by right|]. by intros ->.
  - refine (matches_delete (entry_of c i) (entry_of c' i) (log_of c i)
      {| lay_done := cells inc (Some (recorded out)); lay_stale := list_to_set (k :: keys);
         lay_inc := inc |} k _ _ _); [done| |done].
    intros k'. unfold entry_of. rewrite Hc. destruct (decide (k' = k)) as [->|].
    + by rewrite decide_True.
    + rewrite decide_False; [done|]. by intros [? _].
Qed.

(** The layout of an abort, with [keys] left to mark. *)
Definition marking (c : Shared) i inc keys : Layout K V :=
  {| lay_done := filter (fun x => x.1 ∈ keys) (cells inc (out_of c i));
     lay_stale := status_keys (out_of c i) ∖ list_to_set keys; lay_inc := inc + 1 |}.

Lemma marking_lookup c i inc keys k :
  lay_done (marking c i inc keys) !! k =
  if decide (k ∈ keys) then cells inc (out_of c i) !! k else None.
Proof.
  simpl. rewrite map_lookup_filter.
  destruct (cells inc (out_of c i) !! k) as [cl|] eqn:Hk; simpl; [|by case_decide].
  destruct (decide (k ∈ keys)); case_guard; done.
Qed.

Lemma holds_mark_start (c : Shared) i inc :
  holds c i {| lay_done := cells inc (out_of c i); lay_stale := ∅; lay_inc := inc + 1 |} ->
  holds c i (marking c i inc (hash_iter (status_keys (out_of c i)))).
Proof.
  assert (Hin : forall k, k ∈ hash_iter (status_keys (V := V) (out_of c i)) <->
    k ∈ status_keys (V := V) (out_of c i)).
  { intros k. by rewrite Hiter, elem_of_elements. }
  apply matches_ext; try done.
  - intros k. rewrite marking_lookup. simpl. case_decide as Hd; [done|].
    rewrite Hin, (status_keys_cells inc) in Hd. symmetry. by apply eq_None_not_Some.
  - intros k _. simpl. rewrite elem_of_difference, elem_of_list_to_set, Hin, elem_of_empty. tauto.
Qed.

Lemma holds_mark (c c' : Shared) i inc k keys e :
  k ∈ status_keys (V := V) (out_of c i) -> k ∉ keys -> out_of c' i = out_of c i ->
  entry_of c i k = Some e ->
  changes (data c) (data c') k i (Some (entry_mark_estimate e)) -> log c' = log c ->
  holds c i (marking c i inc (k :: keys)) -> holds c' i (marking c' i inc keys).
Proof.
  intros Hks Hk Hout He Hc Hlg Hh.
  assert (exists cl, cells inc (out_of c i) !! k = Some cl) as [cl Hcl].
  { by apply status_keys_cells. }
  assert (Hdone : lay_done (marking c i inc (k :: keys)) !! k = Some cl).
  { rewrite marking_lookup, decide_True; [done|]. left. }
  pose proof (matches_flag _ _ _ _ _ Hh He) as Hflag. rewrite Hdone in Hflag. subst e.
  apply (matches_ext (entry_of c' i) _ (log_of c i) _
    {| lay_done := delete k (lay_done (marking c i inc (k :: keys)));
       lay_stale := lay_stale (marking c i inc (k :: keys)) ∪ {[k]}; lay_inc := inc + 1 |}); try done.
  - intros k' n. unfold log_of. by rewrite Hlg.
  - intros k'. rewrite marking_lookup, Hout. cbn [lay_done]. destruct (decide (k' = k)) as [->|Hne].
    + by rewrite lookup_delete_eq, decide_False.
    + rewrite lookup_delete_ne, marking_lookup by done.
      destruct (decide (k' ∈ keys)); [by rewrite decide_True by (by right)|].
      rewrite decide_False; [done|]. by intros [|]%elem_of_cons.
  - intros k' _. simpl. rewrite Hout.
    rewrite elem_of_union, !elem_of_difference, elem_of_union, elem_of_singleton, elem_of_list_to_set.
    destruct (decide (k' = k)) as [->|]; naive_solver.
  - apply (matches_mark (entry_of c i) _ _ (marking c i inc (k :: keys)) k cl); try done.
    + destruct cl as [inc' v|]; simpl; [|done]. apply cells_inc in Hcl as ->. lia.
    + intros k'. unfold entry_of. rewrite Hc. destruct (decide (k' = k)) as [->|].
      * by rewrite decide_True.
      * rewrite decide_False; [done|]. by intros [? _].
Qed.

Lemma applying_target (c : Shared) i inc captured out ws ds prev outside j L :
  pc_layout c (applying hash_iter i inc captured out ws ds prev outside) = Some (j, L) -> j = i.
Proof.
  intros HL%pc_layout_target. unfold target in HL. rewrite role_applying in HL. congruence.
Qed.

Lemma exec_layout pc (c : Shared) pc' c' i L' :
  exec_step hash_iter pc c pc' c' -> pc_known c pc ->
  (forall L, pc_layout c pc = Some (i, L) -> holds c i L) ->
  pc_layout c' pc' = Some (i, L') -> holds c' i L'.
Proof.
  intros Ha Hkn Hpc HL.
  assert (Hsame : data c' = data c -> log c' = log c -> io c' = io c ->
    pc_layout c pc = pc_layout c pc' -> holds c' i L').
  { intros Hd Hlg Hio Heq. pose proof (agree_same c c' i Hd Hlg Hio) as Hag.
    eapply agree_holds; [done|]. apply Hpc. rewrite Heq. by eapply agree_pc_layout. }
  destruct Ha as [? ? ? ? ? ? ? ? ? Hread| | | |? ? ? ? ? ? ? ? Hwait| | | | | | | |];
    try (by apply Hsame); try (by apply read_step_same in Hread as (? & ? & ?); apply Hsame).
  - destruct Hwait; by apply Hsame.
  - pose proof (applying_target _ _ _ _ _ _ _ _ _ _ _ HL) as ->.
    eapply holds_applying; [|exact HL]. specialize (Hpc _ eq_refl).
    assert (Hout : out_of c i0 = o).
    { unfold out_of. by match goal with Ho : outputs _ !! _ = _ |- _ => rewrite Ho end. }
    rewrite Hout in Hpc. revert Hpc. apply matches_ext; simpl; try done.
    intros k. by rewrite made_none, lookup_empty.
  - pose proof (applying_target _ _ _ _ _ _ _ _ _ _ _ HL) as ->.
    eapply holds_applying; [|exact HL]. destruct Hkn as (Hr & Hs & _).
    destruct (suffix_ok _ _ _ _ _ _ _ k (EWrite inc v) Hr Hs) as [Hnd _]; [left|].
    eapply holds_update; [done|exact Hs|done|by apply add_write_changes| |by apply Hpc].
    intros k' inc' v'. unfold log_of. simpl.
    destruct (decide ((k, i0, inc) = (k', i0, inc'))) as [[= <- <-]|Hne]; [eauto|].
    rewrite lookup_insert_ne by done. auto.
  - pose proof (applying_target _ _ _ _ _ _ _ _ _ _ _ HL) as ->.
    eapply holds_applying; [|exact HL]. destruct Hkn as (Hr & Hs & _).
    destruct (suffix_ok _ _ _ _ _ _ _ k (EDelta d) Hr Hs) as [Hnd _]; [left|].
    eapply holds_update; [done|exact Hs|done|by apply add_delta_changes| |by apply Hpc]. auto.
  - injection HL as -> <-. destruct Hkn as (_ & Hnd & Hnone).
    apply NoDup_cons in Hnd as [Hk _].
    apply (holds_delete c _ i inc out k keys); [|done| |done|by apply Hpc].
    + apply Hnone. left.
    + by apply mv_delete_changes.
  - injection HL as -> <-. by apply Hpc.
  - injection HL as -> <-. by apply (Hpc _ eq_refl).
  - injection HL as -> <-. by apply (Hpc _ eq_refl).
Qed.

Lemma val_layout pc (c : Shared) pc' c' i L' :
  val_step hash_iter pc c pc' c' -> pc_known c pc ->
  (forall L, pc_layout c pc = Some (i, L) -> holds c i L) ->
  (forall L, status_layout c i = Some L -> holds c i L) ->
  pc_layout c' pc' = Some (i, L') -> holds c' i L'.
Proof.
  intros Ha Hkn Hpc Hst HL. destruct Ha; repeat case_match; try done.
  - injection HL as -> <-. unfold status_layout in Hst.
    match goal with Hs : status_at _ _ = _ |- _ => rewrite Hs in Hst end.
    specialize (Hst _ eq_refl).
    refine (matches_next (entry_of c i) (log_of c i) _ (inc + 1) _ Hst). simpl. lia.
  - injection HL as -> <-. assert (Hout : out_of c i = o).
    { unfold out_of. by match goal with Ho : outputs _ !! _ = _ |- _ => rewrite Ho end. }
    specialize (Hpc _ eq_refl). apply holds_mark_start in Hpc.
    rewrite Hout in Hpc. exact Hpc.
  - injection HL as -> <-. destruct Hkn as [Hnd Hin]. apply NoDup_cons in Hnd as [Hk _].
    match goal with Hm : mark_estimate _ _ _ = _ |- _ =>
      apply mark_estimate_changes in Hm as (e & He & Hm) end.
    apply (holds_mark c _ i inc k keys e); [apply Hin; left|done..|]. by apply Hpc.
Qed.

Lemma act_layout pc c pc' c' i L' :
  act pc c pc' c' -> pc_known c pc ->
  (forall L, pc_layout c pc = Some (i, L) -> holds c i L) ->
  (forall L, status_layout c i = Some L -> holds c i L) ->
  pc_layout c' pc' = Some (i, L') -> holds c' i L'.
Proof.
  intros Ha Hkn Hpc Hst HL.
  destruct Ha as [pc c|pc c _|pc c pc' c' Ha|pc c pc' c' Ha|pc c pc' c' Ha|pc c pc' c' Ha].
  - by apply Hpc.
  - done.
  - destruct Ha as [| | | | | | | | | | | | | |c i0 pc c' Hinc| | ]; try done.
    destruct Hinc as [c inc txn Hs Ht| |]; try done.
    injection HL as -> <-.
    apply Hst. unfold status_layout. by rewrite Hs.
  - by eapply exec_layout.
  - destruct Ha; try done.
  - by eapply val_layout.
Qed.

(** A transaction becomes executed at the end of an execution, and ready at the end of an
    abort. *)
Definition status_move (pc : PC) (i : TxnIndex) (st : TransactionStatus) : Prop :=
  match st with
  | Executed inc => exists captured out outside, pc = Stored i inc captured out outside
  | ReadyToExecute inc None => exists inc', pc = Mark i inc' [] /\ inc = inc' + 1
  | _ => True
  end.

Lemma act_status pc c pc' c' i :
  act pc c pc' c' ->
  status_at c' i = status_at c i \/ exists st, status_at c' i = Some st /\ status_move pc i st.
Proof.
  intros Ha. unfold status_at.
  assert (Hset : forall j st, txn_status (sch c') = <[j := st]> (txn_status (sch c)) ->
    (i = j -> status_move pc i st) ->
    txn_status (sch c') !! i = txn_status (sch c) !! i \/
    exists st, txn_status (sch c') !! i = Some st /\ status_move pc i st).
  { intros j st -> Hm. destruct (decide (i = j)) as [->|]; [|left; by apply list_lookup_insert_ne].
    destruct (decide (j < length (txn_status (sch c)))).
    - right. exists st. split; [by apply list_lookup_insert_eq|auto].
    - left. by rewrite list_insert_ge by lia. }
  revert Hset. act_cases Ha; unfold applying; repeat case_match; intros Hset; try (by left);
    try (by apply read_step_sch in Hread as ->; left);
    (eapply Hset; [reflexivity|]; intros ->; simpl; eauto).
Qed.

(** ** What the threads know *)

Lemma read_over_known (lg : Log) key acc :
  (forall d, acc = Some d -> delta_ok agg key d) -> sub_known lg (ReadDone key (read_over acc)).
Proof. intros Hacc. destruct acc; (split; [done|]); intros ? ? [= <- <-]; split; simpl; auto. Qed.

Lemma sub_known_reading (lg : Log) key iter acc :
  sub_known lg (Reading key iter acc) -> sub_known lg (reading key iter acc).
Proof. destruct iter; [intros [_ Hacc]; by apply read_over_known|done]. Qed.

Lemma read_entry_known (lg : Log) key j f cl acc :
  f = FLAG_DONE \/ f = FLAG_ESTIMATE -> cell_ok agg key cl ->
  logged (fun n => lg !! (key, j, n)) cl -> (forall d, acc = Some d -> delta_ok agg key d) ->
  match read_entry j {| flag := f; cell := cl |} acc with
  | inl r => sub_known lg (ReadDone key r)
  | inr acc' => forall d, acc' = Some d -> delta_ok agg key d
  end.
Proof.
  intros Hf Hok Hlg Hacc. unfold read_entry. simpl.
  case_bool_decide; [by split|]. case_bool_decide; simpl; [|by destruct Hf].
  assert (Hv : forall inc v, cl = EWrite inc v ->
    sub_known lg (ReadDone key (Return (RVersion (j, inc) v)))).
  { intros inc v ->. split; [done|]. intros w d [= <- <-]. unfold described. simpl in *. by rewrite Hlg. }
  destruct cl as [inc v|d], acc as [acc|]; [|by apply Hv| |].
  - destruct (Hacc acc eq_refl) as [Hag Hwf]. destruct (Hok ltac:(by rewrite Hag)) as [o Hfw].
    rewrite Hfw. simpl. destruct o as [z|]; [|by apply Hv].
    destruct (apply_to acc z) as [r|] eqn:Hr; simpl; (split; [done|]); intros ? ? [= <- <-];
      (split; [done|]); simpl; rewrite Hag; (split; [done|]); [|done].
    eapply apply_to_u128; [done|by eapply from_write_u128|done].
  - destruct (merge_onto acc d) as [m|] eqn:Hm; simpl.
    + intros d' [= <-]. by eapply delta_ok_merge; [apply Hacc| |].
    + split; [done|]. intros ? ? [= <- <-]. split; [done|]. simpl.
      split; [by eapply delta_ok_agg, Hok|done].
  - by intros d' [= <-].
Qed.

Lemma read_step_known i key sub (c : Shared) sub' (c' : Shared) :
  read_step i key sub c sub' c' ->
  (forall j k e, entry_of c j k = Some e -> entry_ok c j k e) ->
  sub_known (log c) sub -> sub_known (log c') sub'.
Proof.
  intros Hr Hold. destruct Hr as [c tree Ht|c j e iter acc e' acc' He Hn|c j e iter acc e' r He Hn].
  - intros _. apply sub_known_reading. split; [|done].
    intros j e Hin. apply range_back_elem in Hin as [_ Hj].
    apply (Hold j key e). unfold entry_of, tree_of. by rewrite Ht.
  - intros [Hit Hacc]. destruct (Hold j key e' He) as (Hf & _).
    destruct (Hit j e) as [Hok Hlg]; [left|].
    pose proof (read_entry_known _ _ _ _ _ _ Hf Hok Hlg Hacc) as Hk. rewrite Hn in Hk.
    apply sub_known_reading. split; [|done]. intros j' e'' Hin. apply Hit. by right.
  - intros [Hit Hacc]. destruct (Hold j key e' He) as (Hf & _).
    destruct (Hit j e) as [Hok Hlg]; [left|].
    pose proof (read_entry_known _ _ _ _ _ _ Hf Hok Hlg Hacc) as Hk. by rewrite Hn in Hk.
Qed.

Lemma known_applying (c : Shared) i inc captured (out : ExecutionStatus O E) ws ds prev outside :
  replays (log c) i captured (VMDone out) -> suffix_of inc out ws ds ->
  (forall k, k ∈ prev -> made inc out ws ds !! k = None) ->
  pc_known c (applying hash_iter i inc captured out ws ds prev outside).
Proof.
  intros Hr Hs Hp. unfold applying. destruct ws as [|w ws], ds as [|d ds]; try done.
  split; [done|]. split.
  - rewrite Hiter. apply NoDup_elements.
  - intros k Hk. rewrite Hiter, elem_of_elements in Hk. specialize (Hp k Hk).
    rewrite made_lookup, decide_False in Hp; [done|]. apply not_elem_of_nil.
Qed.

Lemma known_made (lg : Log) i inc captured (out : ExecutionStatus O E) ws ds ws' ds' (prev : gset K) k cl :
  replays lg i captured (VMDone out) -> suffix_of inc out ws ds ->
  updates inc ws ds = (k, cl) :: updates inc ws' ds' ->
  (forall k, k ∈ prev -> made inc out ws ds !! k = None) ->
  suffix_of inc out ws' ds' /\ forall k', k' ∈ prev ∖ {[k]} -> made inc out ws' ds' !! k' = None.
Proof.
  intros Hr Hs Hu Hp.
  destruct (suffix_ok _ _ _ _ _ _ _ k cl Hr Hs) as [Hnd _]; [rewrite Hu; left|].
  destruct (made_next _ _ _ _ _ _ _ _ Hnd Hs Hu) as (Hs' & _ & Hm). split; [done|].
  intros k' [Hk Hne]%elem_of_difference. rewrite elem_of_singleton in Hne.
  rewrite Hm, lookup_insert_ne by done. auto.
Qed.

Lemma replays_snoc lg i captured key cont (r : ReadOutput V) v d :
  replays lg i captured (VMRead key cont) -> view_result key r = Some (v, d) ->
  described lg d = Some v -> readable agg key v -> replays lg i (captured ++ [d]) (cont v).
Proof.
  intros [(txn & Ht & Hr) Hf] Hd%view_result_path Hv Hre. split.
  - exists txn. split; [done|]. by eapply replay_snoc.
  - apply Forall_app_2; [done|]. apply Forall_singleton. exists v. by rewrite Hd.
Qed.

Lemma out_of_lookup (c : Shared) i o : outputs (io c) !! i = Some o -> out_of c i = o.
Proof. unfold out_of. by intros ->. Qed.

Section Known.
Context (c : Shared) (pcs : list PC) (t : nat) (pc pc' : PC) (c' : Shared).
Context (Ho : owned block (c, pcs)) (Hv : versioned (c, pcs)) (Hl : pcs !! t = Some pc).

Lemma entries_ok j k e : entry_of c j k = Some e -> entry_ok c j k e.
Proof. apply (v_entry _ Hv). Qed.

Lemma pc_holds i L : pc_layout c pc = Some (i, L) -> holds c i L.
Proof. apply (v_pc _ Hv t pc i L Hl). Qed.

Lemma pc_lt i : target pc = Some i -> i < length block.
Proof.
  pose proof (owned_role _ _ _ _ _ Ho Hl) as Hr. unfold target.
  destruct (role pc) as [| |j inc h|j inc]; intros [= ->].
  - by eapply own_owner_lt.
  - eapply own_lt; [done|]. by apply (o_aborter _ _ _ Ho t).
Qed.

Lemma exec_known : exec_step hash_iter pc c pc' c' -> pc_known c' pc'.
Proof.
  intros Ha. pose proof (v_known _ Hv t pc Hl) as Hkn. simpl in Hkn.
  pose proof (proj1 (v_io _ Hv)) as Hin. pose proof (proj2 (v_io _ Hv)) as Hout. simpl in Hin, Hout.
  pose proof pc_lt as Hlt. pose proof pc_holds as Hholds. pose proof entries_ok as Hent.
  assert (Hlog : log c ⊆ log c') by (by eapply act_log; [by apply AExec|]). clear Hl.
  destruct Ha as [? ? ? ? ? ? ? ? ? Hread| | | |? ? ? ? ? ? ? ? Hwait| | | | | | | |].
  - destruct Hkn as [Hr Hs]. split; [by eapply replays_mono|]. by eapply read_step_known.
  - destruct Hkn as [Hr _]. split; [|done]. eapply replays_snoc; [done..| |];
    match goal with Hd : view_result _ _ = _ |- _ => by injection Hd as <- <- end.
  - destruct Hkn as [Hr [_ Hs]]. split; [|done]. eapply replays_snoc; [done..| |]; by eapply Hs.
  - destruct Hkn as [Hr _]. by split.
  - destruct Hkn as [Hr _]. destruct Hwait; by split.
  - destruct Hkn as [Hr _]. apply known_applying; [done| |].
    + by exists [].
    + intros k _. apply made_none.
  - destruct Hkn as (Hr & Hs & Hp).
    destruct (known_made _ _ _ _ _ _ _ ws ds _ k (EWrite inc v) Hr Hs eq_refl Hp) as [Hs' Hp'].
    apply known_applying; [by eapply replays_mono|done..].
  - destruct Hkn as (Hr & Hs & Hp).
    destruct (known_made _ _ _ _ _ _ _ [] ds _ k (EDelta d) Hr Hs eq_refl Hp) as [Hs' Hp'].
    apply known_applying; [by eapply replays_mono|done..].
  - destruct Hkn as (Hr & Hnd & Hn). apply NoDup_cons in Hnd as [_ Hnd].
    split_and!; [done..|]. intros k' Hk'. apply Hn. by right.
  - done.
  - destruct Hkn as (Hr & _). split; [done|]. apply list_lookup_insert_eq.
    specialize (Hlt i eq_refl). unfold io in Hin. lia.
  - destruct Hkn as (Hr & Hi). split_and!; [done..|]. apply list_lookup_insert_eq.
    specialize (Hlt i eq_refl). unfold io in Hout. lia.
  - destruct Hkn as (_ & Hi & _). by exists captured.
Qed.

Lemma val_known : val_step hash_iter pc c pc' c' -> pc_known c' pc'.
Proof.
  intros Ha. pose proof (v_known _ Hv t pc Hl) as Hkn. simpl in Hkn.
  pose proof entries_ok as Hent. clear Hl.
  destruct Ha as [|? ? ? ? ? ? ? ? Hread| | | | | | | | | | | | |]; repeat case_match; try done;
    try (by split; [apply Hkn|]); try (by apply Hkn).
  - split; [|by eapply read_step_known; [..|apply Hkn]].
    destruct Hread; apply Hkn.
  - match goal with Ho : outputs _ !! _ = _ |- _ => apply out_of_lookup in Ho as Hout end.
    simpl. rewrite Hiter. split; [apply NoDup_elements|]. intros k. by rewrite Hiter, elem_of_elements, Hout.
  - destruct Hkn as [Hnd Hin]. apply NoDup_cons in Hnd as [_ Hnd]. split; [done|].
    intros k' Hk'. apply Hin. by right.
Qed.

Lemma known_step : act pc c pc' c' -> pc_known c' pc'.
Proof.
  intros Ha. pose proof (v_known _ Hv t pc Hl) as Hkn. simpl in Hkn.
  pose proof exec_known as Hexec. pose proof val_known as Hval.
  pose proof (v_recorded _ Hv) as Hrec. simpl in Hrec.
  revert Hexec Hval. clear Hl.
  destruct Ha as [pc c|pc c _|pc c pc' c' Ha|pc c pc' c' Ha|pc c pc' c' Ha|pc c pc' c' Ha];
    intros Hexec Hval; [done|done| |by apply Hexec| |by apply Hval].
  - destruct Ha as [| | | | | | | | | | | |c i inc Hs| |c i pc c' Hinc| | ]; try done.
    + destruct (Hrec i inc Hs) as (captured & out & Hin & _). by exists captured.
    + destruct Hinc as [c inc txn Hs Ht| |]; try done. split; [|done]. split; [by exists txn|done].
  - destruct Ha; try done.
Qed.
End Known.

(** What another thread knows remains. *)
Lemma known_other (c c' : Shared) p :
  log c ⊆ log c' -> (forall i, has_input c i -> has_input c' i) ->
  (forall i, target p = Some i -> agree c c' i) -> pc_known c p -> pc_known c' p.
Proof.
  intros Hsub Hin Hag. pose proof (fun i captured r => replays_mono _ _ i captured r Hsub) as Hrep.
  pose proof (fun sub => sub_known_mono _ _ sub Hsub) as Hs.
  destruct p; simpl; try done; try (by apply Hin); try (by intros [? ?]; auto).
  - intros (? & ?). pose proof (Hag i eq_refl) as Ha. rewrite (a_inputs _ _ _ Ha). auto.
  - intros (? & ? & ?). pose proof (Hag i eq_refl) as Ha.
    rewrite (a_inputs _ _ _ Ha), (a_outputs _ _ _ Ha). auto.
  - intros [? Hk]. pose proof (Hag i eq_refl) as Ha. by rewrite (agree_out _ _ _ Ha).
Qed.

(** The last actions of an execution and of an abort change only the status. *)
Lemma act_last pc c pc' c' i :
  act pc c pc' c' ->
  (exists inc captured out outside, pc = Stored i inc captured out outside) \/
  (exists inc, pc = Mark i inc []) -> agree c c' i.
Proof.
  intros Ha [(inc & captured & out & outside & ->)|(inc & ->)]; inversion Ha; subst; try done;
    match goal with Hs : _ |- _ => inversion Hs; subst end; try done;
    match goal with Hs : incarnate_step _ _ _ _ _ _ |- _ => inversion Hs | _ => idtac end.
Qed.

Lemma status_layout_none c c' i :
  status_at c' i = status_at c i -> status_layout c i = None -> status_layout c' i = None.
Proof. unfold status_layout. intros ->. by repeat case_match. Qed.

Lemma status_layout_agree c c' i L :
  status_at c' i = status_at c i -> agree c c' i ->
  status_layout c' i = Some L -> status_layout c i = Some L.
Proof.
  unfold status_layout. intros -> Ha. rewrite (agree_out _ _ _ Ha). done.
Qed.

Section Step.
Context (c : Shared) (pcs : list PC) (t : nat) (pc pc' : PC) (c' : Shared).
Context (Ho : owned block (c, pcs)) (Hv : versioned (c, pcs)) (Hl : pcs !! t = Some pc).
Context (Ha : act pc c pc' c').

Lemma step_log : log c ⊆ log c'.
Proof. eapply act_log; [done|]. by apply (pc_holds c pcs t pc). Qed.

(** Other threads, and transactions that are not being executed or aborted, are not affected. *)
Lemma step_agree t' p i : t <> t' -> pcs !! t' = Some p -> target p = Some i -> agree c c' i.
Proof.
  intros Hne Hp Ht. eapply act_agree; [done|]. intros Ht'. apply Hne. by eapply target_unique.
Qed.

Lemma step_status_agree i : is_Some (status_layout c i) -> agree c c' i.
Proof.
  intros [L HL]. eapply act_agree; [done|]. intros Ht.
  by rewrite (target_status _ _ _ _ _ Ho Hl Ht) in HL.
Qed.

Lemma step_status i L : status_layout c' i = Some L -> holds c' i L.
Proof.
  intros HL. destruct (act_status _ _ _ _ i Ha) as [Hs|(st & Hs & Hm)].
  - assert (Hsome : is_Some (status_layout c i)).
    { destruct (status_layout c i) eqn:Hn; [done|].
      by rewrite (status_layout_none c c' i Hs Hn) in HL. }
    pose proof (step_status_agree i Hsome) as Hag. eapply agree_holds; [done|].
    apply (v_status _ Hv). by eapply status_layout_agree.
  - pose proof (act_last _ _ _ _ i Ha) as Hag. pose proof (v_known _ Hv t pc Hl) as Hkn.
    pose proof (pc_holds _ _ _ _ Hv Hl i) as Hh. unfold status_layout in HL. rewrite Hs in HL.
    destruct st as [inc [cv|]| | |inc|]; simpl in Hm; try done.
    + destruct Hm as (inc' & -> & ->). injection HL as <-.
      specialize (Hag ltac:(right; eauto)). rewrite (agree_out _ _ _ Hag).
      eapply agree_holds; [done|]. specialize (Hh _ eq_refl). revert Hh.
      apply matches_ext; try done.
      * intros k. pose proof (marking_lookup c i inc' [] k) as Hk. simpl in Hk |- *.
        by rewrite Hk, lookup_empty.
      * intros k _. simpl. rewrite elem_of_difference, elem_of_empty. tauto.
    + destruct Hm as (captured & out & outside & ->). injection HL as <-.
      specialize (Hag ltac:(left; eauto)). rewrite (agree_out _ _ _ Hag).
      eapply agree_holds; [done|]. destruct Hkn as (_ & _ & Hout). simpl in Hout.
      rewrite (out_of_lookup _ _ _ Hout). by apply Hh.
Qed.

Lemma step_recorded i inc : status_at c' i = Some (Executed inc) -> recorded_ok c' i.
Proof.
  intros Hst. pose proof step_log as Hsub.
  destruct (act_status _ _ _ _ i Ha) as [Hs|(st & Hs & Hm)].
  - rewrite Hs in Hst. destruct (v_recorded _ Hv i inc Hst) as (captured & out & Hin & Hout & Hr).
    assert (Hag : agree c c' i).
    { apply step_status_agree. unfold status_layout. rewrite Hst. done. }
    exists captured, out. rewrite (a_inputs _ _ _ Hag), (a_outputs _ _ _ Hag).
    eauto using replays_mono.
  - rewrite Hst in Hs. injection Hs as <-. destruct Hm as (captured & out & outside & ->).
    destruct (v_known _ Hv t _ Hl) as (Hr & Hin & Hout).
    pose proof (act_last _ _ _ _ i Ha ltac:(left; eauto)) as Hag.
    exists captured, out. rewrite (a_inputs _ _ _ Hag), (a_outputs _ _ _ Hag).
    eauto using replays_mono.
Qed.

Lemma versioned_step : versioned (c', <[t := pc']> pcs).
Proof.
  pose proof step_log as Hsub. constructor; simpl.
  - destruct (act_io_length _ _ _ _ Ha) as [-> ->]. apply Hv.
  - intros i k e He. eapply (act_entry_ok pc c); [done|done|by apply (v_known _ Hv t)| |done].
    apply (entries_ok _ _ Hv).
  - intros i k e He. destruct (decide (target pc = Some i)) as [Ht|Ht].
    + by apply (pc_lt c pcs t pc Ho Hl).
    + rewrite (a_entry _ _ _ (act_agree _ _ _ _ i Ha Ht)) in He. by apply (v_bound _ Hv i k e).
  - intros t' p i L Hp HL. apply list_lookup_insert_Some in Hp as [(<- & <- & _)|[Hne Hp]].
    + eapply act_layout; [done|by apply (v_known _ Hv t)| | |done].
      * apply (pc_holds _ _ _ _ Hv Hl).
      * apply (v_status _ Hv).
    + pose proof (step_agree t' p i Hne Hp (pc_layout_target _ _ _ _ HL)) as Hag.
      eapply agree_holds; [done|]. eapply (v_pc _ Hv t' p); [done|]. by eapply agree_pc_layout.
  - apply step_status.
  - intros t' p Hp. apply list_lookup_insert_Some in Hp as [(<- & <- & _)|[Hne Hp]].
    + by apply (known_step c pcs t pc pc' c').
    + apply (known_other c); [done| | |].
      * intros i. by eapply act_has_input.
      * intros i. by apply (step_agree t' p).
      * by apply (v_known _ Hv t').
  - apply step_recorded.
Qed.
End Step.

Lemma init_entry threads i k : entry_of (init block threads).1 i k = None.
Proof.
  unfold entry_of, tree_of, data. simpl. unfold mv_new. rewrite lookup_empty. simpl.
  by rewrite lookup_empty.
Qed.

Lemma versioned_init threads : versioned (init block threads).
Proof.
  constructor.
  - simpl. by rewrite !length_replicate.
  - intros i k e. by rewrite init_entry.
  - intros i k e. by rewrite init_entry.
  - intros t pc i L Hl. by apply lookup_replicate in Hl as [-> _].
  - intros i L HL k. rewrite init_entry. unfold log_of. simpl.
    split; [|intros inc v; by rewrite lookup_empty].
    assert (Hout : out_of (init block threads).1 i = None).
    { unfold out_of. simpl. destruct (_ !! i) as [o|] eqn:Hi; simpl; [|done].
      by apply lookup_replicate in Hi as [-> _]. }
    unfold status_layout in HL. rewrite Hout in HL.
    assert (Hs : L = {| lay_done := ∅; lay_stale := ∅; lay_inc := lay_inc L |}).
    { repeat case_match; by simplify_eq. }
    rewrite Hs. simpl. rewrite lookup_empty, decide_False; [done|]. apply not_elem_of_empty.
  - intros t pc Hl. by apply lookup_replicate in Hl as [-> _].
  - intros i inc Hs. unfold status_at in Hs. simpl in Hs. by apply lookup_replicate in Hs as [? _].
Qed.

Lemma versioned_reach threads x : reach threads x -> versioned x.
Proof.
  apply (reach_ind _ _ _ _ _ (owned block)).
  - apply owned_reach.
  - apply versioned_init.
  - intros c pcs t pc pc' c' Hl Ha Ho _ Hv. by apply (versioned_step c pcs t pc).
Qed.
End Versions.
