(* ===== verification/Validity.v ===== *)
(** * Every recorded read stays valid, or will be validated again

    An executed transaction needs no validation any more when its recorded reads would be made
    again with the same results.  This file proves that whenever this is not so, a thread is
    validating the transaction, or the validation index is low enough, or a thread is about to
    lower it.  When the block is done, all the recorded reads are valid. *)
From S2P Require Import Prelude Delta ChangeSetExt MVMap Conc Scheduler LastInputOutput Executor.
From S2P Require Import Protocol Ownership Quiescence Locks Versions.

#[local] Open Scope nat_scope.

(** ** Reads, step by step *)

Section Reads.
Context `{Bcs128} {K V : Type} `{Countable K} `{TransactionWrite V}.
Implicit Types (m : gmap K (gmap TxnIndex (Entry V))) (t : gmap TxnIndex (Entry V)).

(** The loop of [read] makes the steps of [read_entry]. *)
Lemma read_loop_entry j (e : Entry V) l acc :
  read_loop ((j, e) :: l) acc =
  match read_entry j e acc with inl r => r | inr acc' => read_loop l acc' end.
Proof.
  unfold read_entry. simpl. case_bool_decide; [done|]. case_bool_decide; simpl; [|done].
  destruct (cell e) as [inc v|d], acc as [acc|]; try done. by destruct (merge_onto acc d).
Qed.

Lemma read_loop_nil (acc : option DeltaOp) : read_loop ([] : list (TxnIndex * Entry V)) acc = read_over acc.
Proof. by destruct acc. Qed.

(** A read whose entries below the index are the same is the same. *)
Lemma read_same m m' key i :
  (forall j, j < i -> tree_of m' key !! j = tree_of m key !! j) -> read m' key i = read m key i.
Proof. intros Hs. apply read_ext. exact Hs. Qed.

(** An estimate that goes away is only seen by a read that depends on it. *)
Lemma read_estimate m m' key j e e' i :
  tree_of m key !! j = Some e -> flag e = FLAG_ESTIMATE -> changes m m' key j e' ->
  read m' key i = read m key i \/ read m key i = Throw (Dependency j).
Proof.
  intros Hj He Hc. rewrite !read_tree.
  destruct (read_loop_estimate (tree_of m key) (tree_of m' key) i j None e Hj He) as [Hd|Hs];
    [|by right|by left].
  intros j' Hne. rewrite Hc, decide_False; [done|]. by intros [_ ?].
Qed.
End Reads.

Section Validity.
Context `{Bcs128, !Bcs128Laws} {K V O E P T : Type} `{Countable K} `{Countable P}.
Context `{TransactionWrite V} `{TransactionOutput K V O} `{ModulePath K P}.
Context (hash_iter : gset K -> list K).
Context (execute_transaction : TxnIndex -> T -> VMRun K V O E).
Context (block : list T).
Context (agg : K -> option Z).
Context (Hiter : forall s, hash_iter s ≡ₚ elements s).
Context (Hvm : forall i txn, block !! i = Some txn -> run_ok agg (execute_transaction i txn)).

Abbreviation PC := (PC (K := K) (V := V) (O := O) (E := E)).
Abbreviation Sub := (Sub (K := K) (V := V)).
Abbreviation Shared := (Shared (K := K) (V := V) (O := O) (E := E) (P := P)).
Abbreviation act := (act (K := K) (V := V) (O := O) (E := E) (P := P) hash_iter execute_transaction block).
Abbreviation reach := (reach (K := K) (V := V) (O := O) (E := E) (P := P) hash_iter execute_transaction block).

(** A captured read that would be made again with the same result. *)
Definition valid (c : Shared) (i : TxnIndex) (d : ReadDescriptor K) : Prop :=
  validates d (read (data c) (access_path d) i) = true.

(** The threads that will lower the validation index to [i] at most, or that look at [i] next. *)
Definition owes (pc : PC) (i : TxnIndex) (inc : Incarnation) : Prop :=
  match pc with
  | Apply j _ _ _ _ _ _ true | Del j _ _ _ _ true | Store j _ _ _ true | Stored j _ _ _ true =>
      j < i
  | Fin j inc' outside _ => (j = i /\ inc' = inc) \/ (outside = true /\ j < i)
  | FinVal j _ => j <= i
  | Mark0 j _ | Mark j _ _ | FA1 j => j < i
  | ClaimV j => j = i
  | _ => False
  end.

(** A read of a validation that agrees so far with the map. *)
Definition sub_current (c : Shared) (i : TxnIndex) (sub : Sub) : Prop :=
  match sub with
  | Reading key iter acc =>
      exists b, b <= i /\ shape iter = shape (range_back (tree_of (data c) key) b) /\
        read_loop (range_back (tree_of (data c) key) b) acc = read (data c) key i
  | ReadDone key r => r = read (data c) key i
  | _ => True
  end.

(** A thread that validates this incarnation: what it found valid still is. *)
Definition validator (c : Shared) (pc : PC) (i : TxnIndex) (inc : Incarnation)
  (reads : list (ReadDescriptor K)) : Prop :=
  match pc with
  | Val0 j inc' | ValFail j inc' => j = i /\ inc' = inc
  | Val j inc' todo sub =>
      j = i /\ inc' = inc /\
      exists passed, reads = passed ++ todo /\ Forall (valid c i) passed /\ sub_current c i sub
  | _ => False
  end.

Definition covered (x : Shared * list PC) (i : TxnIndex) (inc : Incarnation) : Prop :=
  validation_idx (sch x.1) <= i \/
  (exists t pc, x.2 !! t = Some pc /\ owes pc i inc) \/
  exists reads, inputs (io x.1) !! i = Some (Some reads) /\
    (Forall (valid x.1 i) reads \/
     exists t pc, x.2 !! t = Some pc /\ validator x.1 pc i inc reads).

Definition validated (x : Shared * list PC) : Prop :=
  forall i inc, status_at x.1 i = Some (Executed inc) -> covered x i inc.

(** ** What an action does to the reads at an index *)

(** The reads at [i] of a key are not affected; or nobody reads the key, and they could only
    have been dependencies. *)
Definition unaffected (c c' : Shared) (i : TxnIndex) : Prop :=
  forall key,
    (forall j, j < i -> tree_of (data c') key !! j = tree_of (data c) key !! j) \/
    (readers (mvs c) key = 0 /\
     (read (data c') key i = read (data c) key i \/
      exists j, read (data c) key i = Throw (Dependency j))).

Lemma unaffected_same (c c' : Shared) i : data c' = data c -> unaffected c c' i.
Proof. intros Hd key. left. by rewrite Hd. Qed.

Lemma unaffected_above (c c' : Shared) i key j e :
  changes (data c) (data c') key j e -> i <= j -> unaffected c c' i.
Proof.
  intros Hc Hij key'. left. intros j' Hj. rewrite Hc, decide_False; [done|]. intros [_ ->]. lia.
Qed.

Lemma unaffected_estimate (c c' : Shared) i key j e e' :
  changes (data c) (data c') key j e' -> readers (mvs c) key = 0 ->
  entry_of c j key = Some e -> flag e = FLAG_ESTIMATE -> unaffected c c' i.
Proof.
  intros Hc Hr He Hf key'. destruct (decide (key' = key)) as [->|Hne].
  - right. split; [done|]. destruct (read_estimate _ _ _ _ _ _ i He Hf Hc); eauto.
  - left. intros j' _. rewrite Hc, decide_False; [done|]. by intros [? _].
Qed.

(** In a layout, a key that is stale has an estimate. *)
Lemma holds_stale (c : Shared) i L k :
  holds c i L -> lay_done L !! k = None -> k ∈ lay_stale L ->
  exists e, entry_of c i k = Some e /\ flag e = FLAG_ESTIMATE.
Proof.
  intros Hh Hd Hs. destruct (Hh k) as [H1' _]. rewrite Hd, decide_True in H1' by done.
  destruct H1' as (cl & He & _). eauto.
Qed.

Lemma owes_applying i inc captured out ws ds prev j inc' :
  i < j -> owes (applying hash_iter i inc captured out ws ds prev true) j inc'.
Proof. by destruct ws, ds. Qed.

(** An update of a key: of the previous write set, or with [outside] set. *)
Lemma update_unaffected (c c' : Shared) i j inc (out : ExecutionStatus O E) ws ds (prev : gset K)
  outside key e captured ws' ds' :
  (forall k, k ∈ prev -> made inc out ws ds !! k = None) ->
  holds c j {| lay_done := made inc out ws ds; lay_stale := prev; lay_inc := inc |} ->
  changes (data c) (data c') key j e -> readers (mvs c) key = 0 -> j < i ->
  (forall inc', owes (applying hash_iter j inc captured out ws' ds' (prev ∖ {[key]})
                 (outside || negb (bool_decide (key ∈ prev)))) i inc') \/ unaffected c c' i.
Proof.
  intros Hnone Hh Hc Hr Hj. destruct (decide (key ∈ prev)) as [Hin|Hin].
  - right. destruct (holds_stale _ _ _ key Hh) as (e' & He & Hf); [by apply Hnone|done|].
    by eapply unaffected_estimate.
  - left. intros inc'. rewrite bool_decide_false by done. simpl. rewrite orb_true_r.
    by apply owes_applying.
Qed.

Lemma act_unaffected pc c pc' c' i :
  act pc c pc' c' -> pc_known execute_transaction block agg c pc ->
  (forall j L, pc_layout c pc = Some (j, L) -> holds c j L) ->
  (forall inc, owes pc' i inc) \/ unaffected c c' i.
Proof.
  intros Ha Hkn Hh.
  assert (Habove : forall key j e, changes (data c) (data c') key j e -> i <= j ->
    (forall inc, owes pc' i inc) \/ unaffected c c' i).
  { intros key j e Hc Hij. right. by eapply unaffected_above. }
  revert Hkn Hh Habove. act_cases Ha; intros Hkn Hh Habove;
    try (right; by apply unaffected_same);
    try (by apply read_step_same in Hread as (? & _); right; apply unaffected_same);
    destruct (decide (i <= i0)) as [Hle|Hgt].
  - eapply Habove; [by apply add_write_changes|done].
  - destruct Hkn as (_ & _ & Hnone).
    eapply update_unaffected; [done|by apply Hh|by apply add_write_changes|done|lia].
  - eapply Habove; [by apply add_delta_changes|done].
  - destruct Hkn as (_ & _ & Hnone).
    eapply update_unaffected; [done|by apply Hh|by apply add_delta_changes|done|lia].
  - eapply Habove; [by apply mv_delete_changes|done].
  - right. destruct Hkn as (_ & _ & Hnone).
    destruct (holds_stale _ _ _ k (Hh _ _ eq_refl)) as (e & He & Hf).
    + apply Hnone. by left.
    + simpl. set_solver.
    + eapply unaffected_estimate; [by apply mv_delete_changes|done..].
  - match goal with Hm : mark_estimate _ _ _ = _ |- _ =>
      apply mark_estimate_changes in Hm as (e & _ & Hm) end. by eapply Habove.
  - left. intros inc'. simpl. lia.
Qed.

(** Reads that are not affected stay valid, and so does a read in progress. *)
Lemma unaffected_valid c c' i d : unaffected c c' i -> valid c i d -> valid c' i d.
Proof.
  unfold valid. intros Hu Hv. destruct (Hu (access_path d)) as [Hs|[_ [Hs|[j Hs]]]].
  - by rewrite (read_same (data c) (data c')).
  - by rewrite Hs.
  - by rewrite Hs in Hv.
Qed.

Lemma unaffected_current c c' i sub :
  unaffected c c' i -> (forall key, 0 < sub_reads key sub -> readers (mvs c) key <> 0) ->
  sub_current c i sub -> sub_current c' i sub.
Proof.
  intros Hu Hr.
  assert (Hsame : forall key, 0 < sub_reads key sub ->
    forall j, j < i -> tree_of (data c') key !! j = tree_of (data c) key !! j).
  { intros key Hk. destruct (Hu key) as [Hs|[Hz _]]; [done|]. by destruct (Hr key Hk). }
  destruct sub as [|key iter acc|key r| | | | | | | |]; simpl; try done.
  - specialize (Hsame key). simpl in Hsame. rewrite decide_True in Hsame by done.
    specialize (Hsame ltac:(lia)). intros (b & Hb & Hs & Hread). exists b. split; [done|].
    rewrite (range_back_ext (tree_of (data c') key) (tree_of (data c) key)) by (intros; apply Hsame; lia).
    split; [done|]. by rewrite (read_same (data c) (data c')).
  - specialize (Hsame key). simpl in Hsame. rewrite decide_True in Hsame by done.
    intros ->. symmetry. apply read_same. apply Hsame. lia.
Qed.

(** ** What an action does to the obligations *)

Lemma act_val_idx pc c pc' c' i :
  act pc c pc' c' -> validation_idx (sch c) <= i ->
  validation_idx (sch c') <= i \/ forall inc, owes pc' i inc.
Proof.
  intros Ha Hi. act_cases Ha; act_simpl; try (left; lia).
  destruct (decide (validation_idx (scheduler (blk c)) = i)); [by right|left; lia].
Qed.

Lemma act_owes pc c pc' c' i inc :
  act pc c pc' c' -> owes pc i inc -> status_at c' i = Some (Executed inc) ->
  owes pc' i inc \/ validation_idx (sch c') <= i \/ pc' = Val0 i inc.
Proof.
  intros Ha. act_cases Ha; unfold applying, status_at, sch in *; simpl; intros Hw Hs;
    repeat case_match; simpl in *; try done; try lia; try (by left); try (by right; left; lia); subst; simpl in *; auto.
  - right. right. congruence.
  - match goal with Hn : forall inc, _ <> _ |- _ => by destruct (Hn inc) end.
  - destruct Hw as [[-> ->]|[? _]]; [auto|done].
  - destruct Hw as [[-> ->]|[? _]]; [auto|done].
Qed.

Lemma read_entry_eta j (e : Entry V) f acc :
  f = flag e -> read_entry j {| flag := f; cell := cell e |} acc = read_entry j e acc.
Proof. by intros ->. Qed.

Lemma sub_current_reading c i b key iter acc :
  b <= i -> shape iter = shape (range_back (tree_of (data c) key) b) ->
  read_loop (range_back (tree_of (data c) key) b) acc = read (data c) key i ->
  sub_current c i (reading key iter acc).
Proof.
  intros Hb Hs Hr. destruct iter as [|x iter].
  - simpl. destruct (range_back (tree_of (data c) key) b); [|done].
    by rewrite read_loop_nil in Hr.
  - by exists b.
Qed.

Lemma read_step_current i key sub (c : Shared) sub' (c' : Shared) :
  read_step i key sub c sub' c' -> sub_current c i sub -> sub_current c' i sub'.
Proof.
  intros Hr. destruct Hr as [c tree Ht|c j e iter acc e' acc' He Hn|c j e iter acc e' r He Hn].
  - intros _. assert (Htree : tree_of (data c) key = tree) by (unfold tree_of; by rewrite Ht).
    apply (sub_current_reading _ _ i); [done| |].
    + change (data (upD (lock_key key) c)) with (data c). by rewrite Htree.
    + change (data (upD (lock_key key) c)) with (data c). by rewrite read_tree.
  - intros (b & Hb & Hs & Hread).
    destruct (range_back (tree_of (data c) key) b) as [|[j0 e0] l] eqn:Hrb; [done|].
    injection Hs as <- Hc Hs. apply range_back_tail in Hrb as (Hj & He0 & ->).
    assert (e0 = e') as -> by congruence.
    rewrite read_loop_entry in Hread. rewrite Hc in Hn. rewrite (read_entry_eta j e') in Hn by done.
    rewrite Hn in Hread. by apply (sub_current_reading _ _ j); [lia|..].
  - intros (b & Hb & Hs & Hread).
    destruct (range_back (tree_of (data c) key) b) as [|[j0 e0] l] eqn:Hrb; [done|].
    injection Hs as <- Hc Hs. apply range_back_tail in Hrb as (Hj & He0 & ->).
    assert (e0 = e') as -> by congruence.
    rewrite read_loop_entry in Hread. rewrite Hc in Hn. rewrite (read_entry_eta j e') in Hn by done.
    by rewrite Hn in Hread.
Qed.

Lemma valid_snoc c i passed d l :
  Forall (valid c i) passed -> valid c i d ->
  Forall (valid c i) (passed ++ [d]) /\ passed ++ d :: l = (passed ++ [d]) ++ l.
Proof.
  intros Hp Hd. split; [by apply Forall_app; split; [|constructor]|by rewrite <- app_assoc].
Qed.

(** A validator goes on, finds all the reads valid, or aborts the transaction. *)
Lemma act_validator pc c pc' c' i inc reads :
  act pc c pc' c' -> inputs (io c) !! i = Some (Some reads) ->
  status_at c' i = Some (Executed inc) -> validator c pc i inc reads ->
  validator c' pc' i inc reads \/ Forall (valid c' i) reads.
Proof.
  intros Ha Hin Hst. destruct Ha as [pc c|pc c Hpc|pc c pc' c' Ha|pc c pc' c' Ha|pc c pc' c' Ha|pc c pc' c' Ha].
  - by left.
  - intros Hv. by destruct pc.
  - intros Hv. by destruct Ha.
  - intros Hv. by destruct Ha.
  - intros Hv. by destruct Ha.
  - destruct Ha as [c j inc' reads' Hr|c c' j inc' d todo sub sub' Hr|c j inc' d todo Hn
      |c j inc' d todo r|c j inc'|c j inc' Hs|c j inc' Hs| | | | | | | |]; simpl; try done.
    + intros [-> ->]. left. split_and!; [done..|]. exists []. split_and!; [|constructor|done].
      simpl. congruence.
    + intros (-> & -> & passed & -> & Hp & Hc). left. split_and!; [done..|].
      exists passed. split; [done|]. split; [|by eapply read_step_current].
      apply read_step_same in Hr as (Hd & _). unfold valid in *. by rewrite Hd.
    + intros (-> & -> & passed & -> & Hp & _). left.
      destruct (validates d (Throw NotFound)) eqn:Hd; [|done]. split_and!; [done..|].
      assert (Hv : valid c i d) by (unfold valid, read; by rewrite Hn).
      destruct (valid_snoc _ _ _ _ todo Hp Hv) as [? ?]. by exists (passed ++ [d]).
    + intros (-> & -> & passed & -> & Hp & ->). left.
      destruct (validates d _) eqn:Hd; [|done]. split_and!; [done..|].
      destruct (valid_snoc _ _ _ _ todo Hp Hd) as [? ?]. by exists (passed ++ [d]).
    + intros (-> & -> & passed & -> & Hp & _). right. by rewrite app_nil_r.
    + intros [-> ->]. unfold status_at in Hst. simpl in Hst.
      by apply list_lookup_insert_Some in Hst as [(_ & ? & _)|[? _]].
    + by intros [-> ->].
Qed.

Lemma act_stored pc c pc' c' i inc captured out outside :
  act pc c pc' c' -> pc = Stored i inc captured out outside ->
  c' = c \/ pc' = Fin i inc outside FTake.
Proof.
  intros Ha ->. inversion Ha as [|? ? Hf|? ? ? ? Hs|? ? ? ? Hs|? ? ? ? Hs|? ? ? ? Hs]; subst;
    [by left|done|by inversion Hs| |by inversion Hs|by inversion Hs].
  inversion Hs; subst. by right.
Qed.

(** ** The invariant *)

Section Step.
Context (c : Shared) (pcs : list PC) (t : nat) (pc pc' : PC) (c' : Shared).
Context (Ho : owned block (c, pcs)) (Hk : locked (c, pcs)).
Context (Hv : versioned execute_transaction block agg (c, pcs)) (Hl : pcs !! t = Some pc).
Context (Hv' : versioned execute_transaction block agg (c', <[t := pc']> pcs)).
Context (Ha : act pc c pc' c').

(** A read in progress of another thread holds the lock of its key. *)
Lemma reading_locked t' p i sub key :
  pcs !! t' = Some p -> progress p = Some (i, sub) -> 0 < sub_reads key sub ->
  readers (mvs c) key <> 0.
Proof.
  intros Hp Hpr Hs Hz. pose proof (l_readers _ Hk key) as Hr. simpl in Hr. rewrite Hz in Hr.
  pose proof (total_zero _ _ _ _ (eq_sym Hr) Hp) as Hone. unfold reads in Hone.
  rewrite Hpr in Hone. lia.
Qed.

Lemma new_pc p : p = pc' -> exists t', <[t := pc']> pcs !! t' = Some p.
Proof.
  intros ->. exists t. apply list_lookup_insert_eq. by eapply lookup_lt_Some.
Qed.

Lemma covered_old i inc :
  unaffected c c' i -> inputs (io c') !! i = inputs (io c) !! i ->
  status_at c' i = Some (Executed inc) -> covered (c, pcs) i inc ->
  covered (c', <[t := pc']> pcs) i inc.
Proof.
  intros Hu Hin Hst [Hidx|[(t' & p & Hp & Hw)|(rs & Hrs & Hor)]]; simpl in *.
  - destruct (act_val_idx _ _ _ _ i Ha Hidx) as [|Hw]; [by left|].
    right. left. destruct (new_pc pc' eq_refl) as [t' ?]. by exists t', pc'.
  - destruct (decide (t = t')) as [<-|Hne].
    + assert (p = pc) as -> by congruence.
      destruct (act_owes _ _ _ _ _ _ Ha Hw Hst) as [Hw'|[|Hv0]]; [|by left|].
      * right. left. destruct (new_pc pc' eq_refl) as [t' ?]. by exists t', pc'.
      * destruct (v_recorded _ _ _ _ Hv' i inc Hst) as (rs & _ & Hrs & _).
        right. right. exists rs. split; [done|]. right.
        destruct (new_pc pc' eq_refl) as [t' ?]. exists t', pc'. split; [done|]. by rewrite Hv0.
    + right. left. exists t', p. split; [|done]. simpl. by rewrite list_lookup_insert_ne.
  - right. right. exists rs. simpl. split; [congruence|].
    destruct Hor as [Hall|(t' & p & Hp & Hval)].
    { left. eapply Forall_impl; [exact Hall|]. intros d. by apply unaffected_valid. }
    destruct (decide (t = t')) as [<-|Hne].
    + assert (p = pc) as -> by congruence.
      destruct (act_validator _ _ _ _ _ _ _ Ha Hrs Hst Hval); [|by left].
      right. destruct (new_pc pc' eq_refl) as [t' ?]. by exists t', pc'.
    + right. exists t', p. split; [by rewrite list_lookup_insert_ne|].
      destruct p; simpl in *; try done.
      destruct Hval as (-> & -> & passed & -> & Hp1 & Hp2). split_and!; [done..|].
      exists passed. split; [done|]. split.
      * eapply Forall_impl; [exact Hp1|]. intros d. by apply unaffected_valid.
      * eapply unaffected_current; [done| |done]. intros key. by eapply reading_locked.
Qed.

Lemma validated_step : validated (c, pcs) -> validated (c', <[t := pc']> pcs).
Proof.
  intros Hval i inc Hst. simpl in Hst.
  assert (Hnew : owes pc' i inc -> covered (c', <[t := pc']> pcs) i inc).
  { intros Hw. right. left. destruct (new_pc pc' eq_refl) as [t' ?]. by exists t', pc'. }
  destruct (act_status _ _ _ _ _ _ _ i Ha) as [Hs|(st & Hs & Hm)].
  - rewrite Hs in Hst. destruct (act_unaffected _ _ _ _ i Ha) as [Hw|Hu].
    + by apply (v_known _ _ _ _ Hv t).
    + intros j L. by apply (v_pc _ _ _ _ Hv t).
    + by apply Hnew.
    + apply covered_old; [done| |by rewrite Hs|by apply Hval].
      assert (Hag : agree c c' i); [|apply Hag].
      eapply step_status_agree; [done..|]. unfold status_layout. by rewrite Hst.
  - rewrite Hst in Hs. injection Hs as <-. destruct Hm as (captured & out & outside & Hpc).
    destruct (act_stored _ _ _ _ _ _ _ _ _ Ha Hpc) as [Hsame|Hfin].
    + destruct (owned_owner _ c pcs t pc i inc Ho Hl) as [Hs _]; [by rewrite Hpc|]. congruence.
    + apply Hnew. rewrite Hfin. by left.
Qed.
End Step.

Lemma validated_init threads : validated (init block threads).
Proof.
  intros i inc Hs. unfold status_at in Hs. simpl in Hs.
  by apply lookup_replicate in Hs as [? _].
Qed.

(** The invariants of the executor. *)
Record executor_inv (x : Shared * list PC) : Prop := {
  i_owned : owned block x;
  i_counted : counted block x;
  i_locked : locked x;
  i_versioned : versioned execute_transaction block agg x;
}.

Lemma executor_reach threads x : reach threads x -> executor_inv x.
Proof.
  intros Hx. split.
  - by eapply owned_reach.
  - by eapply counted_reach.
  - by eapply locked_reach.
  - by eapply versioned_reach.
Qed.

Lemma validated_reach threads x : reach threads x -> validated x.
Proof.
  apply (reach_ind _ _ _ _ _ executor_inv).
  - apply executor_reach.
  - apply validated_init.
  - intros c pcs t pc pc' c' Hl Ha [] [] Hval. by eapply validated_step.
Qed.

(** When all is quiet, the recorded reads are valid. *)
Lemma quiet_valid threads x i inc :
  reach threads x -> quiet block x -> status_at x.1 i = Some (Executed inc) ->
  exists reads, inputs (io x.1) !! i = Some (Some reads) /\ Forall (valid x.1 i) reads.
Proof.
  intros Hx (Hv & _ & Hcalm) Hs. pose proof (executor_reach _ _ Hx) as [Ho _ _ _].
  assert (Hi : i < length block) by (by eapply own_lt).
  destruct (validated_reach _ _ Hx i inc Hs) as [|[(t & pc & Hl & Hw)|(rs & Hrs & [|Hval])]].
  - lia.
  - pose proof (Forall_lookup_1 _ _ _ _ Hcalm Hl) as Hc. destruct pc; simpl in *; try done. lia.
  - by exists rs.
  - destruct Hval as (t & pc & Hl & Hval).
    pose proof (Forall_lookup_1 _ _ _ _ Hcalm Hl) as Hc. by destruct pc.
Qed.
End Validity.
