(* ===== verification/Variant.v ===== *)
(** * What every useful action makes smaller

    Speculation ends: an action either leaves everything that counts as it is (a thread that
    finds no task, looks at the indices, or gives its guard back), or makes a variant smaller.
    The variant orders the transactions by their index.  For each, it has what is left of its
    current incarnation, and whether the reads of the incarnation may be stale; an action
    on a transaction may set back the variants of those above it, and only theirs.  After the
    transactions come the indices, the validations, and the threads.

    That a transaction may have stale reads, or a dependency that is gone, is a ghost state that
    the actions on lower transactions set: an incarnation without is never aborted. *)
From stdpp Require Import relations.
From S2P Require Import Prelude Delta ChangeSetExt MVMap Conc Scheduler LastInputOutput Executor.
From S2P Require Import Protocol Ownership Quiescence Locks Versions Validity.

#[local] Open Scope nat_scope.

(** ** Lexicographic orders *)

(** Lexicographic, up to a relation that the first order respects. *)
Definition lex_up {A B} (E RA : A -> A -> Prop) (RB : B -> B -> Prop) (x y : A * B) : Prop :=
  RA x.1 y.1 \/ (E x.1 y.1 /\ RB x.2 y.2).
Abbreviation lex := (lex_up eq).

Lemma lex_up_wf {A B} (E RA : A -> A -> Prop) (RB : B -> B -> Prop) :
  PreOrder E -> (forall x y z, RA x y -> E y z -> RA x z) ->
  well_founded RA -> well_founded RB -> well_founded (lex_up E RA RB).
Proof.
  intros HE Hcompat HA HB.
  assert (Hacc : forall a, Acc RA a -> forall b, Acc RB b -> forall a0, E a0 a -> Acc (lex_up E RA RB) (a0, b)).
  { intros a Ha. induction Ha as [a _ IHa]. intros b Hb. induction Hb as [b _ IHb]. intros a0 Ha0.
    constructor. intros [a' b'] [Hlt|[Heq Hlt]]; simpl in *.
    - by apply (IHa a'); [eapply Hcompat|apply HB|].
    - apply (IHb b'); [done|]. by etrans. }
  intros [a b]. by apply (Hacc a (HA a) b (HB b)).
Qed.

Lemma lex_wf {A B} (RA : A -> A -> Prop) (RB : B -> B -> Prop) :
  well_founded RA -> well_founded RB -> well_founded (lex RA RB).
Proof. apply lex_up_wf; [apply _|]. by intros x y z Hr <-. Qed.

Lemma tc_wf {A} (R : A -> A -> Prop) : well_founded R -> well_founded (tc R).
Proof.
  intros HR x. induction (HR x) as [x _ IH]. constructor. intros y Hy.
  induction Hy as [y x Hr|y z x Hr _ IHt]; [by apply IH|].
  by apply (Acc_inv (IHt IH)), tc_once.
Qed.

(** The first [n] places of a sequence. *)
Section Below.
Context {A : Type} (R : A -> A -> Prop).

Definition same_below (n : nat) (f g : nat -> A) : Prop := forall i, i < n -> f i = g i.
Definition below (n : nat) (f g : nat -> A) : Prop :=
  exists i, i < n /\ R (f i) (g i) /\ same_below i f g.

#[export] Instance same_below_preorder n : PreOrder (same_below n).
Proof. split; [done|]. intros f g h Hfg Hgh i Hi. by rewrite Hfg, Hgh. Qed.

Lemma below_same n f g h : below n f g -> same_below n g h -> below n f h.
Proof.
  intros (i & Hi & Hr & Hs) Hgh. exists i. split; [done|]. split; [by rewrite <- Hgh|].
  intros j Hj. rewrite Hs by done. apply Hgh. lia.
Qed.

Lemma below_wf : well_founded R -> forall n, well_founded (below n).
Proof.
  intros HR n. induction n as [|n IH].
  { intros f. constructor. intros g (i & ? & _). lia. }
  apply (wf_projected (lex_up (same_below n) (below n) R) (fun f => (f, f n))).
  - intros f g (i & Hi & Hr & Hs). destruct (decide (i = n)) as [->|]; [by right|].
    left. exists i. split; [lia|done].
  - apply lex_up_wf; [apply _|apply below_same|done..].
Qed.
End Below.

Section Variant.
Context `{Bcs128, !Bcs128Laws} {K V O E P T : Type} `{Countable K} `{Countable P}.
Context `{TransactionWrite V} `{TransactionOutput K V O} `{ModulePath K P}.
Context (hash_iter : gset K -> list K).
Context (execute_transaction : TxnIndex -> T -> VMRun K V O E).
Context (block : list T).

Abbreviation PC := (PC (K := K) (V := V) (O := O) (E := E)).
Abbreviation Sub := (Sub (K := K) (V := V)).
Abbreviation Shared := (Shared (K := K) (V := V) (O := O) (E := E) (P := P)).
Abbreviation Run := (VMRun K V O E).
Abbreviation act := (act (K := K) (V := V) (O := O) (E := E) (P := P) hash_iter execute_transaction block).
Abbreviation reach := (reach (K := K) (V := V) (O := O) (E := E) (P := P) hash_iter execute_transaction block).

(** ** Runs of the VM *)

Definition run_next (r' r : Run) : Prop := exists key cont v, r = VMRead key cont /\ r' = cont v.

Lemma run_next_wf : well_founded run_next.
Proof.
  intros r. induction r as [out|key cont IH|]; constructor; intros r' (k & c & v & Hr & ->); [done| |done].
  injection Hr as -> ->. apply IH.
Qed.

(** ** Weights *)

(** How far a read of an execution is, and a wait for a dependency. *)
Definition sub_rank (sub : Sub) : nat :=
  match sub with
  | ToPush _ _ => 14 | Pushed _ _ => 13 | Waiting _ => 12 | Seen _ _ => 11
  | Plain => 10 | Reading _ _ _ => 9 | ReadDone _ _ => 8
  | Blocked _ => 7 | Fresh _ _ => 6 | Locked _ _ => 5 | Checked _ _ => 4
  end.
Definition sub_left (sub : Sub) : nat :=
  match sub with Reading _ iter _ => length iter | _ => 0 end.

(** What a thread has left to do for a transaction: the phase of its execution or abort, two
    counts in that phase, and two for what follows. *)
Record Left := { phase : nat; large : nat; small : nat; after : nat; listed : nat }.
Definition nothing : Left := {| phase := 0; large := 0; small := 0; after := 0; listed := 0 |}.
Definition in_phase (p l s : nat) : Left :=
  {| phase := p; large := l; small := s; after := 0; listed := 0 |}.
Definition ending (a l : nat) : Left :=
  {| phase := 0; large := 0; small := 0; after := a; listed := l |}.

Definition left_of (pc : PC) : option (TxnIndex * Left) :=
  match pc with
  | Exec i _ _ _ sub => Some (i, in_phase 8 (sub_rank sub) (sub_left sub))
  | Apply i _ _ _ ws ds _ _ => Some (i, in_phase 7 (length ws + length ds) 0)
  | Del i _ _ _ keys _ => Some (i, in_phase 6 (length keys) 0)
  | Store i _ _ _ _ => Some (i, in_phase 5 0 0)
  | Stored i _ _ _ _ => Some (i, in_phase 4 0 0)
  | Fin i _ _ FTake => Some (i, ending 7 0)
  | Fin i _ _ (FResume deps _) => Some (i, ending 6 (length deps))
  | Fin i _ _ FIncr => Some (i, ending 5 0)
  | Fin i _ _ FLoad => Some (i, ending 4 0)
  | FinVal i _ => Some (i, ending 3 0)
  | Mark0 i _ => Some (i, in_phase 2 0 0)
  | Mark i _ keys => Some (i, in_phase 1 (length keys) 0)
  | FA1 i => Some (i, ending 3 0)
  | FA2 i => Some (i, ending 2 0)
  | FA3 i => Some (i, ending 1 0)
  | _ => None
  end.
Definition share (f : Left -> nat) (i : TxnIndex) (pc : PC) : nat :=
  match left_of pc with Some (j, w) => if decide (j = i) then f w else 0 | None => 0 end.

(** The status of a transaction, in the phases and in the rank of its read. *)
Definition status_phase (st : option TransactionStatus) : nat :=
  match st with Some (ReadyToExecute _ None) => 10 | Some (Executed _) => 3 | _ => 0 end.
Definition status_rank (st : option TransactionStatus) : nat :=
  match st with Some (ReadyToExecute _ (Some _)) => 30 | Some (Executing _) => 20 | _ => 0 end.

(** What is left of the VM of a transaction. *)
Definition run_at (i : TxnIndex) (pc : PC) : option Run :=
  match pc with Exec j _ _ rest _ => if decide (j = i) then Some rest else None | _ => None end.
Definition run_of (i : TxnIndex) (pcs : list PC) : Run :=
  match omap (run_at i) pcs with r :: _ => r | [] => VMPanic end.

(** The claims and the validations of the threads. *)
Definition claims (pc : PC) : nat :=
  match pc with
  | ClaimV i => if i <? length block then 4 else 0
  | ClaimE i => if i <? length block then 1 else 0
  | Val0 _ _ => 3 | Val _ _ _ _ => 2 | ValFail _ _ => 1
  | Ticket _ | Incr => 1
  | _ => 0
  end.
Definition to_validate (pc : PC) : nat :=
  match pc with
  | Val _ _ todo sub => 2 * length todo + match sub with Plain => 1 | _ => 0 end
  | _ => 0
  end.
Definition to_read (pc : PC) : nat :=
  match pc with Val _ _ _ sub => sub_left sub | _ => 0 end.
Definition unfinished (pc : PC) : nat := match pc with Finished => 0 | _ => 1 end.

(** ** The ghost state *)

Record Ghost := { stale : TxnIndex -> bool; retry : TxnIndex -> bool }.

(** The variant of a transaction: how far its incarnations are, the VM, a dependency that may
    be gone, and the rest of its actions. *)
Abbreviation Rest := (nat * (nat * (nat * nat)))%type.
Abbreviation Share := (nat * (Run * (nat * Rest)))%type.
Definition share_of (c : Shared) (pcs : list PC) (g : Ghost) (i : TxnIndex) : Share :=
  (Nat.b2n (stale g i) * 20 + status_phase (status_at c i) + total (share phase i) pcs,
   (run_of i pcs, (Nat.b2n (retry g i),
   (status_rank (status_at c i) + total (share large i) pcs,
   (total (share small i) pcs, (total (share after i) pcs, total (share listed i) pcs)))))).
Definition share_lt : Share -> Share -> Prop :=
  lex lt (lex run_next (lex lt (lex lt (lex lt (lex lt lt))))).

(** ... and of the rest of the executor. *)
Abbreviation Pool := (nat * (nat * (nat * (nat * (nat * (nat * nat))))))%type.
Definition pool_of (c : Shared) (pcs : list PC) : Pool :=
  (length block - execution_idx (sch c), (length block - validation_idx (sch c),
   (total claims pcs, (total to_validate pcs, (total to_read pcs,
   (Nat.b2n (negb (done_marker (sch c))), total unfinished pcs)))))).
Definition pool_lt : Pool -> Pool -> Prop :=
  lex lt (lex lt (lex lt (lex lt (lex lt (lex lt lt))))).

Abbreviation World := (Shared * list PC * Ghost)%type.
Definition variant (w : World) : (TxnIndex -> Share) * Pool :=
  (share_of w.1.1 w.1.2 w.2, pool_of w.1.1 w.1.2).

(** The variant is lower, or the same; and then no lock is taken or given back, no thread is
    woken, no status changes, and no decrease of an index is counted. *)
Definition undisturbed (c' c : Shared) : Prop :=
  mv_readers (mvs c') = mv_readers (mvs c) /\ dep_locked (sch c') = dep_locked (sch c) /\
  condvars (sch c') = condvars (sch c) /\ txn_status (sch c') = txn_status (sch c) /\
  decrease_cnt (sch c') = decrease_cnt (sch c).
Definition lower (w' w : World) : Prop :=
  lex_up (same_below (length block)) (below share_lt (length block)) pool_lt (variant w') (variant w).
Definition level (w' w : World) : Prop :=
  same_below (length block) (variant w').1 (variant w).1 /\ (variant w').2 = (variant w).2 /\
  undisturbed w'.1.1 w.1.1.

Lemma lower_wf : well_founded lower.
Proof.
  apply (wf_projected (lex_up (same_below (length block)) (below share_lt (length block)) pool_lt) variant); [done|].
  pose proof Nat.lt_wf_0. pose proof run_next_wf.
  apply lex_up_wf; [apply _|apply below_same| |].
  - apply below_wf. by repeat apply lex_wf.
  - by repeat apply lex_wf.
Qed.

Lemma level_refl w : level w w.
Proof. done. Qed.

Lemma lower_level w1 w2 w3 : lower w1 w2 -> level w2 w3 -> lower w1 w3.
Proof.
  intros [Hb|[Hs Hp]] (Hs' & Hp' & _); [left; by eapply below_same|right].
  rewrite <- Hp'. split; [by etrans|done].
Qed.
Lemma level_lower w1 w2 w3 : level w1 w2 -> lower w2 w3 -> lower w1 w3.
Proof.
  intros (Hs & Hp & _) [(i & Hi & Hr & Hsi)|[Hs' Hp']].
  - left. exists i. split; [done|]. rewrite Hs by done. split; [done|].
    intros j Hj. rewrite Hs by lia. by apply Hsi.
  - right. rewrite Hp. split; [by etrans|done].
Qed.
Lemma level_trans w1 w2 w3 : level w1 w2 -> level w2 w3 -> level w1 w3.
Proof.
  intros (Hs & Hp & Hu) (Hs' & Hp' & Hu'). split_and!; [by etrans..|].
  unfold undisturbed in *. destruct Hu as (-> & -> & -> & -> & ->). exact Hu'.
Qed.

(** ** The actions, with the transaction that they move *)

Definition moved (pc pc' : PC) : option TxnIndex :=
  match pc, pc' with
  | ClaimE i, Exec _ _ _ _ _ | ClaimE i, Ticket _ | ValFail i _, Mark0 _ _ => Some i
  | Del _ _ _ _ [] _, Del _ _ _ _ _ _ => None
  | Exec i _ _ _ _, _ | Apply i _ _ _ _ _ _ _, _ | Del i _ _ _ _ _, _ | Store i _ _ _ _, _
  | Stored i _ _ _ _, _ | Fin i _ _ _, _ | FinVal i _, _ | Mark0 i _, _ | Mark i _ _, _
  | FA1 i, _ | FA2 i, _ | FA3 i, _ => Some i
  | _, _ => None
  end.

Inductive vact : PC -> Shared -> PC -> Shared -> option TxnIndex -> Prop :=
  | VStay pc c : vact pc c pc c None
  | VForget pc c :
      match pc with Check1 _ | Check2 _ | Check3 _ | Check4 _ | Check5 => True | _ => False end ->
      vact pc c Idle c None
  | VIdle pc c pc' c' :
      idle_step execute_transaction block pc c pc' c' -> vact pc c pc' c' (moved pc pc')
  | VExec pc c pc' c' : exec_step hash_iter pc c pc' c' -> vact pc c pc' c' (moved pc pc')
  | VFin pc c pc' c' : fin_step pc c pc' c' -> vact pc c pc' c' (moved pc pc')
  | VVal pc c pc' c' : val_step hash_iter pc c pc' c' -> vact pc c pc' c' (moved pc pc').

Lemma act_vact pc c pc' c' : act pc c pc' c' -> exists o, vact pc c pc' c' o.
Proof. destruct 1; eexists; by constructor. Qed.

Lemma vact_act pc c pc' c' o : vact pc c pc' c' o -> act pc c pc' c'.
Proof.
  destruct 1; [apply AStutter|by apply AForget|by apply AIdle|by apply AExec|by apply AFin|by apply AVal].
Qed.

(** An incarnation starts without stale reads, and a thread that has seen that its dependency
    is executed reads again. *)
Definition starts (pc pc' : PC) : bool :=
  match pc, pc' with ClaimE _, Exec _ _ _ _ _ | Mark _ _ _, FA1 _ => true | _, _ => false end.
Definition rereads (pc pc' : PC) : bool :=
  match pc, pc' with Exec _ _ _ _ (Locked _ _), Exec _ _ _ _ (Seen _ _) => true | _, _ => false end.
Definition flagged (f : TxnIndex -> bool) (i : TxnIndex) (reset : bool) (j : TxnIndex) : bool :=
  if j <? i then f j else if j =? i then f j && negb reset else true.
Definition next_ghost (pc pc' : PC) (o : option TxnIndex) (g : Ghost) : Ghost :=
  match o with
  | None => g
  | Some i => {| stale := flagged (stale g) i (starts pc pc'); retry := flagged (retry g) i (rereads pc pc') |}
  end.

Inductive vstep : World -> World -> Prop :=
  | VStep c pcs g t pc pc' c' o :
      pcs !! t = Some pc -> vact pc c pc' c' o ->
      vstep (c, pcs, g) (c', <[t := pc']> pcs, next_ghost pc pc' o g).

Definition ghost_init : Ghost := {| stale _ := true; retry _ := true |}.
Definition vreach (threads : nat) (w : World) : Prop := rtc vstep (init block threads, ghost_init) w.

Lemma vreach_reach threads w : vreach threads w -> reach threads w.1.
Proof.
  intros Hw. unfold vreach in Hw. remember (init block threads, ghost_init) as w0 eqn:Hw0.
  assert (Hr : reach threads w0.1) by (subst w0; constructor). clear Hw0.
  induction Hw as [w|w1 w2 w3 Hs _ IH]; [done|]. apply IH. eapply rtc_r; [exact Hr|].
  destruct Hs as [c pcs g t pc pc' c' o Hl Ha]. econstructor; [exact Hl|by eapply vact_act].
Qed.

Lemma vreach_ind threads (Inv : World -> Prop) :
  Inv (init block threads, ghost_init) ->
  (forall c pcs g t pc pc' c' o, pcs !! t = Some pc -> vact pc c pc' c' o ->
     reach threads (c, pcs) -> Inv (c, pcs, g) ->
     Inv (c', <[t := pc']> pcs, next_ghost pc pc' o g)) ->
  forall w, vreach threads w -> Inv w.
Proof.
  intros Hinit Hstep w Hw.
  enough (Hboth : reach threads w.1 /\ Inv w) by apply Hboth.
  unfold vreach in Hw. revert w Hw. apply (rtc_ind_r (fun w => reach threads w.1 /\ Inv w)).
  - split; [constructor|done].
  - intros y z Hy Hyz [Hr Hi]. destruct Hyz as [c pcs g t pc pc' c' o Hl Ha]. split.
    + eapply rtc_r; [exact Hr|]. econstructor; [exact Hl|by eapply vact_act].
    + by eapply Hstep.
Qed.
End Variant.

(** One goal per action, but for the steps of a read. *)
Ltac vact_cases Ha :=
  destruct Ha as [pc c|pc c Hpc|pc c pc' c' Ha|pc c pc' c' Ha|pc c pc' c' Ha|pc c pc' c' Ha];
  [ | destruct pc; try done
  | destruct Ha as [| | | | | | | | | | | | | |c0 i0 pc0 c0' Hinc| | ];
    [..|destruct Hinc| | ]
  | destruct Ha as [? ? ? ? ? ? ? ? ? Hread| | | |? ? ? ? ? ? ? ? Hwait| | | | | | | |];
    [..|destruct Hwait| | | | | | | |]
  | destruct Ha as [| | | | |? ? ? ? stage Hst ?|? ? ? stage Hst|? ? ? stage Hst| | ];
    try (destruct Hst; subst stage)
  | destruct Ha as [|? ? ? ? ? ? ? ? Hread| | | | | | | | | | | | |] ].

Section Actions.
Context `{Bcs128, !Bcs128Laws} {K V O E P T : Type} `{Countable K} `{Countable P}.
Context `{TransactionWrite V} `{TransactionOutput K V O} `{ModulePath K P}.
Context (hash_iter : gset K -> list K).
Context (execute_transaction : TxnIndex -> T -> VMRun K V O E).
Context (block : list T).

Abbreviation PC := (PC (K := K) (V := V) (O := O) (E := E)).
Abbreviation Shared := (Shared (K := K) (V := V) (O := O) (E := E) (P := P)).
Abbreviation vact := (vact (K := K) (V := V) (O := O) (E := E) (P := P) hash_iter execute_transaction block).
Abbreviation World := (Shared * list PC * Ghost)%type.

(** ** Actions that move no transaction *)

Lemma still_parts pc c pc' c' : vact pc c pc' c' None ->
  txn_status (sch c') = txn_status (sch c) /\ left_of pc' = left_of pc /\
  forall i, run_at i pc' = run_at i pc.
Proof.
  intros Ha. remember None as o eqn:Ho. revert Ho.
  vact_cases Ha; try done; unfold applying; repeat case_match; try done.
  intros _. by apply read_step_sch in Hread as ->.
Qed.

Ltac bounds := repeat match goal with
  | Hb : (_ <? _) = true |- _ => apply Nat.ltb_lt in Hb
  | Hb : (_ <? _) = false |- _ => apply Nat.ltb_ge in Hb
  | Hs : status_at _ _ = Some _ |- _ => apply lookup_lt_Some in Hs; unfold sch in Hs
  end.

(** Decide a comparison of tuples of sums, from the first place on. *)
Ltac lex_less := first [left; simpl; lia | right; simpl; split; [lia|]; lex_less | simpl; lia].
Ltac lex_same := repeat apply (f_equal2 pair); lia.

Lemma still_pool pc c pc' c' pcs t : vact pc c pc' c' None -> pcs !! t = Some pc ->
  length (txn_status (sch c)) = length block ->
  pool_lt (pool_of block c' (<[t := pc']> pcs)) (pool_of block c pcs) \/
  (pool_of block c' (<[t := pc']> pcs) = pool_of block c pcs /\ undisturbed c' c).
Proof.
  intros Ha Hl Hlen. unfold pool_of, pool_lt.
  pose proof (total_insert (claims block) pcs t pc pc' Hl) as Hc.
  pose proof (total_insert to_validate pcs t pc pc' Hl) as Hv.
  pose proof (total_insert to_read pcs t pc pc' Hl) as Hr.
  pose proof (total_insert unfinished pcs t pc pc' Hl) as Hu.
  remember None as o eqn:Ho. revert Ho.
  vact_cases Ha; try done; intros Ho; try (apply read_step_sch in Hread as Hsch; unfold sch in *);
    unfold applying in *; repeat case_match; simplify_eq/=;
    try (destruct Hread; simpl in *); unfold sch, reading in *; simpl in *; repeat case_match; simpl in *;
    bounds; try (by left; lex_less); try (by right; split; [lex_same|done]).
  destruct (done_marker _); simpl; [right; split; [lex_same|done]|left; lex_less].
Qed.

(** ** Actions on a transaction *)

(** A thread has work for one transaction, which an action does not change. *)
Lemma moved_left pc c pc' c' i : vact pc c pc' c' (Some i) ->
  (forall j w, left_of pc = Some (j, w) -> j = i) /\ (forall j w, left_of pc' = Some (j, w) -> j = i) /\
  (forall j r, run_at j pc = Some r -> j = i) /\ (forall j r, run_at j pc' = Some r -> j = i).
Proof.
  intros Ha. remember (Some i) as o eqn:Ho. revert Ho.
  vact_cases Ha; intros Ho; unfold applying in *; repeat case_match; simplify_eq/=;
    (split_and!; intros j w Hj; simpl in Hj; repeat case_match; by simplify_eq).
Qed.

(** The statuses that change: of that transaction, or of one that it resumes. *)
Lemma moved_status pc c pc' c' i j : vact pc c pc' c' (Some i) ->
  status_at c' j = status_at c j \/ j = i \/
  exists inc outside deps m, pc = Fin i inc outside (FResume (j :: deps) m).
Proof.
  intros Ha. remember (Some i) as o eqn:Ho. revert Ho. unfold status_at.
  assert (Hset : forall k st (l : list TransactionStatus), j = k \/ (<[k := st]> l) !! j = l !! j).
  { intros k st l. destruct (decide (j = k)); [by left|right; by apply list_lookup_insert_ne]. }
  vact_cases Ha; intros Ho; try (by left); try (apply read_step_sch in Hread as ->; by left);
    simplify_eq/=; unfold sch in *; simpl;
    match goal with |- context [<[?k := ?st]> ?l !! _] => destruct (Hset k st l) as [-> | ->] end;
    eauto 10.
Qed.

Lemma share_elsewhere f i j (pc : PC) : (forall k w, left_of pc = Some (k, w) -> k = i) -> j <> i ->
  share f j pc = 0.
Proof.
  intros Hk Hj. unfold share. destruct (left_of pc) as [[k w]|] eqn:Hl; [|done].
  rewrite decide_False; [done|]. by rewrite (Hk k w eq_refl).
Qed.

Lemma share_here f i (pc : PC) : (forall k w, left_of pc = Some (k, w) -> k = i) ->
  share f i pc = match left_of pc with Some (_, w) => f w | None => 0 end.
Proof.
  intros Hk. unfold share. destruct (left_of pc) as [[k w]|] eqn:Hl; [|done].
  by rewrite (Hk k w eq_refl), decide_True.
Qed.

Lemma run_of_same i (pcs : list PC) t pc pc' :
  pcs !! t = Some pc -> run_at i pc' = run_at i pc -> run_of i (<[t := pc']> pcs) = run_of i pcs.
Proof.
  intros Hl Hr. unfold run_of. enough (omap (run_at i) (<[t := pc']> pcs) = omap (run_at i) pcs) as -> by done.
  revert t Hl. induction pcs as [|p pcs IH]; intros [|t] Hl; simplify_eq/=; [by rewrite Hr|].
  by rewrite (IH t Hl).
Qed.

(** The VM of the thread that has the only one. *)
Lemma run_of_only i (pcs : list PC) t pc r :
  pcs !! t = Some pc -> run_at i pc = Some r ->
  (forall t' p, pcs !! t' = Some p -> is_Some (run_at i p) -> t' = t) -> run_of i pcs = r.
Proof.
  intros Hl Hr Honly. unfold run_of. revert t Hl Honly.
  induction pcs as [|p pcs IH]; intros [|t] Hl Honly; simplify_eq/=; [by rewrite Hr|].
  destruct (run_at i p) eqn:Hp; [by specialize (Honly 0 p eq_refl ltac:(rewrite Hp; eauto))|].
  apply (IH t Hl). intros t' q Hq Hs. specialize (Honly (S t') q Hq Hs). lia.
Qed.

Lemma share_kept (c c' : Shared) pcs t pc pc' g g' j :
  pcs !! t = Some pc -> status_at c' j = status_at c j -> stale g' j = stale g j ->
  retry g' j = retry g j -> (forall f, share f j pc' = share f j pc) -> run_at j pc' = run_at j pc ->
  share_of c' (<[t := pc']> pcs) g' j = share_of c pcs g j.
Proof.
  intros Hl Hs Hst Hre Hsh Hr. unfold share_of. rewrite Hs, Hst, Hre.
  rewrite (run_of_same _ _ _ _ _ Hl Hr).
  assert (Ht : forall f, total (share f j) (<[t := pc']> pcs) = total (share f j) pcs).
  { intros f. pose proof (total_insert (share f j) pcs t pc pc' Hl) as Ht. rewrite Hsh in Ht. lia. }
  by rewrite !Ht.
Qed.

Lemma flagged_here f i reset : flagged f i reset i = f i && negb reset.
Proof. unfold flagged. by rewrite Nat.ltb_irrefl, Nat.eqb_refl. Qed.
Lemma flagged_below f i reset j : j < i -> flagged f i reset j = f j.
Proof. intros Hj. unfold flagged. by rewrite (proj2 (Nat.ltb_lt _ _) Hj). Qed.

(** The transaction of an action gets less. *)
Lemma status_set (c : Shared) i st st' :
  status_at c i = Some st -> status_at (upS (set_status i st') c) i = Some st'.
Proof. intros Hs. apply list_lookup_insert_eq. by eapply lookup_lt_Some. Qed.

(** The first place that is lower: the phase, the VM, or a count after them. *)
Ltac lex_count := cbn [fst snd Nat.b2n Nat.mul status_phase status_rank]; lia.
Ltac count_less := first [left; lex_count | right; cbn [fst snd]; split; [lex_count|]; count_less | lex_count].
Ltac share_less Hl :=
  first [ left; lex_count
        | right; split; [lex_count|];
          right; split; [by apply (run_of_same _ _ _ _ _ Hl)|]; count_less ].

(** The VM of the thread that executes the transaction, and the next one. *)
Lemma exec_only (c : Shared) pcs t i inc captured rest sub :
  owned block (c, pcs) -> pcs !! t = Some (Exec i inc captured rest sub) ->
  forall t' p, pcs !! t' = Some p -> is_Some (run_at i p) -> t' = t.
Proof.
  intros Ho Hl t' p Hp [r Hr]. apply (target_unique block c pcs t' t p _ i Ho Hp Hl); [|done].
  destruct p; simpl in *; try done. case_decide; [by subst|done].
Qed.

Lemma run_of_exec (c : Shared) pcs t i inc captured rest sub :
  owned block (c, pcs) -> pcs !! t = Some (Exec i inc captured rest sub) -> run_of i pcs = rest.
Proof.
  intros Ho Hl. apply (run_of_only _ _ _ _ _ Hl); [simpl; by rewrite decide_True|by eapply exec_only].
Qed.
Lemma run_of_next (c : Shared) pcs t i inc captured rest sub captured' rest' sub' :
  owned block (c, pcs) -> pcs !! t = Some (Exec i inc captured rest sub) ->
  run_of i (<[t := Exec i inc captured' rest' sub']> pcs) = rest'.
Proof.
  intros Ho Hl. apply (run_of_only _ _ t (Exec i inc captured' rest' sub')).
  - apply list_lookup_insert_eq. by eapply lookup_lt_Some.
  - simpl. by rewrite decide_True.
  - intros t' p Hp Hr. apply list_lookup_insert_Some in Hp as [(<- & _)|[_ Hp]]; [done|].
    by eapply exec_only.
Qed.

Lemma share_drops c pcs g t pc c' pc' i :
  pcs !! t = Some pc -> vact pc c pc' c' (Some i) -> owned block (c, pcs) ->
  (forall inc, pc = Mark i inc [] -> stale g i = true) ->
  (rereads pc pc' = true -> retry g i = true) ->
  (forall inc outside deps m, pc = Fin i inc outside (FResume deps m) -> Forall (lt i) deps) ->
  share_lt (share_of c' (<[t := pc']> pcs) (next_ghost pc pc' (Some i) g) i) (share_of c pcs g i).
Proof.
  intros Hl Ha Ho Habort Hretry Habove. destruct (moved_left _ _ _ _ _ Ha) as (Hw & Hw' & _).
  assert (Ht : forall f, total (share f i) (<[t := pc']> pcs) + match left_of pc with Some (_, w) => f w | None => 0 end
    = total (share f i) pcs + match left_of pc' with Some (_, w) => f w | None => 0 end).
  { intros f. rewrite <- (share_here f i pc Hw), <- (share_here f i pc' Hw'). by apply total_insert. }
  pose proof (Ht phase) as Hphase. pose proof (Ht large) as Hlarge. pose proof (Ht small) as Hsmall.
  pose proof (Ht after) as Hafter. pose proof (Ht listed) as Hlisted. clear Ht Hw Hw'.
  unfold share_of, share_lt. cbn [next_ghost stale retry]. rewrite !flagged_here.
  remember (Some i) as o eqn:Hi. revert Hi.
  vact_cases Ha; intros Hi; unfold applying in *; repeat case_match; simpl in *; simplify_eq; simpl in *;
    rewrite ?andb_true_r, ?andb_false_r;
    try match goal with Hs : status_at _ _ = Some _ |- _ => rewrite ?(status_set _ _ _ _ Hs), ?Hs end;
    try match goal with Hs : status_at ?c ?n = Some _ |- _ => rewrite ?Hs end;
    repeat match goal with |- context [status_at ?x ?n] =>
      first [is_var x; fail 1 | change (status_at x n) with (status_at c n)] end;
    try (share_less Hl).
  - assert (Hs : status_at c' n = status_at c n) by (unfold status_at; by rewrite (read_step_sch _ _ _ _ _ _ Hread)).
    rewrite Hs. clear Hretry Hs. destruct Hread as [| |]; unfold reading in *; simpl; rewrite ?andb_true_r;
      try match goal with |- context [match ?it with [] => _ | _ => _ end] => destruct it end; simpl in *; share_less Hl.
  - right. split; [simpl; lia|]. left. exists key, cont, RNone. split; [by eapply run_of_exec|by eapply run_of_next].
  - right. split; [simpl; lia|]. left. exists key, cont, v. split; [by eapply run_of_exec|by eapply run_of_next].
  - rewrite (Hretry eq_refl). right. split; [simpl; lia|].
    right. split; [by apply (run_of_same _ _ _ _ _ Hl)|]. left. simpl. lia.
  - pose proof (Forall_inv (Habove _ _ _ _ eq_refl)) as Hdep.
    assert (Hs : status_at (upS (set_status dep (ReadyToExecute inc' (Some cv))) c) n = status_at c n).
    { apply list_lookup_insert_ne. lia. }
    rewrite Hs. share_less Hl.
  - rewrite (Habort _ eq_refl). left. simpl. lia.
Qed.
End Actions.
