(* ===== verification/Staleness.v ===== *)
(** * Which reads cannot be stale

    Three invariants of the threads, for the termination of the executor: a validation is of an
    incarnation that was executed; a transaction waits for a lower one; and as long as the
    ghost state of [Variant] does not say that a lower transaction has moved, the reads of an
    incarnation are valid and its dependency is not executed.  So an abort, and a second read of
    a key, always follow an action on a lower transaction. *)
From S2P Require Import Prelude Delta ChangeSetExt MVMap Conc Scheduler LastInputOutput Executor.
From S2P Require Import Protocol Ownership Quiescence Locks Versions Validity Variant.

#[local] Open Scope nat_scope.

Section Behind.
Context `{Bcs128, !Bcs128Laws} {K V O E P T : Type} `{Countable K} `{Countable P}.
Context `{TransactionWrite V} `{TransactionOutput K V O} `{ModulePath K P}.
Context (hash_iter : gset K -> list K).
Context (execute_transaction : TxnIndex -> T -> VMRun K V O E).
Context (block : list T).

Abbreviation PC := (PC (K := K) (V := V) (O := O) (E := E)).
Abbreviation Shared := (Shared (K := K) (V := V) (O := O) (E := E) (P := P)).
Abbreviation act := (act (K := K) (V := V) (O := O) (E := E) (P := P) hash_iter execute_transaction block).
Abbreviation reach := (reach (K := K) (V := V) (O := O) (E := E) (P := P) hash_iter execute_transaction block).

(** ** Statuses that an action makes *)

Lemma executed_before pc c pc' c' i inc :
  act pc c pc' c' -> status_at c' i = Some (Executed inc) ->
  status_at c i = Some (Executed inc) \/
  (status_at c i = Some (Executing inc) /\
   exists captured out outside, pc = Stored i inc captured out outside).
Proof.
  intros Ha Hs. act_cases Ha; act_simpl; auto;
    try (apply list_lookup_insert_Some in Hs as [(? & ? & ?)|[? Hs]]; simplify_eq); auto.
  right. split; [done|]. eauto.
Qed.

Lemma aborting_before pc c pc' c' i inc :
  act pc c pc' c' -> status_at c' i = Some (Aborting inc) ->
  status_at c i = Some (Aborting inc) \/
  (status_at c i = Some (Executed inc) /\ pc = ValFail i inc).
Proof.
  intros Ha Hs. act_cases Ha; act_simpl; auto;
    try (apply list_lookup_insert_Some in Hs as [(? & ? & ?)|[? Hs]]; simplify_eq); auto.
Qed.

(** ** An incarnation that was executed *)

Definition past (inc : Incarnation) (st : option TransactionStatus) : Prop :=
  match st with
  | Some (Executed n) | Some (Aborting n) => inc <= n
  | Some (ReadyToExecute n _) | Some (Executing n) | Some (Suspended n _) => inc < n
  | None => False
  end.

(** The incarnation that a thread has executed, validates or aborts. *)
Definition judges (pc : PC) : option (TxnIndex * Incarnation) :=
  match pc with
  | Fin i inc _ _ | FinVal i inc | Val0 i inc | Val i inc _ _ | ValFail i inc => Some (i, inc)
  | FA1 i | FA2 i | FA3 i => Some (i, 0)
  | _ => None
  end.
Definition behind (x : Shared * list PC) : Prop :=
  forall t pc i inc, x.2 !! t = Some pc -> judges pc = Some (i, inc) -> past inc (status_at x.1 i).

Lemma past_kept pc c pc' c' i inc :
  act pc c pc' c' -> past inc (status_at c i) -> past inc (status_at c' i).
Proof.
  intros Ha. assert (Hset : forall k st (l : list TransactionStatus), k = i \/ (<[k := st]> l) !! i = l !! i).
  { intros k st l. destruct (decide (k = i)); [by left|right; by apply list_lookup_insert_ne]. }
  unfold status_at. act_cases Ha; act_simpl; try done;
    match goal with |- context [<[?k := ?st]> ?l !! _] => destruct (Hset k st l) as [-> | ->] end;
    try done; match goal with Hs : txn_status _ !! _ = Some _ |- _ =>
      rewrite Hs, list_lookup_insert_eq by (by eapply lookup_lt_Some) end; simpl; lia.
Qed.

Lemma judges_new pc c pc' c' i inc :
  act pc c pc' c' -> judges pc' = Some (i, inc) ->
  judges pc = Some (i, inc) \/ past inc (status_at c' i).
Proof.
  intros Ha. act_cases Ha; unfold applying; repeat case_match; simpl; intros Hj; simplify_eq; auto.
  - right. match goal with Hs : status_at _ _ = _ |- _ => rewrite Hs end. simpl. lia.
  - right. erewrite status_set by done. simpl. lia.
  - right. erewrite status_set by done. simpl. lia.
Qed.

Lemma behind_reach threads x : reach threads x -> behind x.
Proof.
  apply (reach_ind _ _ _ _ _ (fun _ => True)); [done| |].
  - intros t pc i inc Hl. by apply lookup_replicate in Hl as [-> _].
  - intros c pcs t pc pc' c' Hl Ha _ _ Hb t' p i inc Hp Hj.
    apply list_lookup_insert_Some in Hp as [(<- & <- & _)|[_ Hp]].
    + destruct (judges_new _ _ _ _ _ _ Ha Hj) as [Hj'|]; [|done].
      eapply past_kept; [done|]. by apply (Hb t pc).
    + eapply past_kept; [done|]. by apply (Hb t' p).
Qed.

(** ** Transactions wait for lower ones *)

Record ordered (x : Shared * list PC) : Prop := {
  or_list j deps : txn_dependency (sch x.1) !! j = Some deps -> Forall (lt j) deps;
  or_resume t i inc outside deps m :
    x.2 !! t = Some (Fin i inc outside (FResume deps m)) -> Forall (lt i) deps;
}.

Lemma ordered_step c pcs t pc c' pc' :
  pcs !! t = Some pc -> act pc c pc' c' -> locked (c, pcs) -> ordered (c, pcs) ->
  ordered (c', <[t := pc']> pcs).
Proof.
  intros Hl Ha Hk Ho. pose proof (or_list _ Ho) as Hlist. pose proof (or_resume _ Ho t) as Hres.
  assert (Hdep : forall i inc captured rest cv dep,
    pc = Exec i inc captured rest (ToPush cv dep) -> dep < i).
  { intros i inc captured rest cv dep ->. by apply (l_sub _ Hk t _ i (ToPush cv dep) Hl). }
  constructor; simpl.
  - intros j deps. act_cases Ha; act_simpl; try (apply Hlist).
    + intros Hd. destruct (decide (dep = j)) as [->|Hne].
      * rewrite list_lookup_alter_eq in Hd. apply fmap_Some in Hd as (l & Hd & ->).
        apply Forall_app. split; [by apply Hlist|]. constructor; [by eapply Hdep|done].
      * rewrite list_lookup_alter_ne in Hd by done. by apply Hlist.
    + intros Hd. apply list_lookup_insert_Some in Hd as [(<- & <- & _)|[_ Hd]]; [done|by apply Hlist].
  - intros t' i inc outside deps m Hp.
    apply list_lookup_insert_Some in Hp as [(<- & Hp & _)|[_ Hp]]; [|by eapply or_resume].
    revert Hp Hl. act_cases Ha; act_simpl; intros Hp Hl; simplify_eq.
    + by eapply Hres.
    + by apply Hlist.
    + by eapply Forall_inv_tail, Hres.
Qed.

Lemma ordered_reach threads x : reach threads x -> ordered x.
Proof.
  apply (reach_ind _ _ _ _ _ locked).
  - apply locked_reach.
  - constructor; simpl.
    + intros j deps Hd. by apply lookup_replicate in Hd as [-> _].
    + intros t i inc outside deps m Hl. by apply lookup_replicate in Hl as [? _].
  - intros c pcs t pc pc' c' Hl Ha Hk _ Ho. by apply (ordered_step c pcs t pc).
Qed.
End Behind.

Section Fresh.
Context `{Bcs128, !Bcs128Laws} {K V O E P T : Type} `{Countable K} `{Countable P}.
Context `{TransactionWrite V} `{TransactionOutput K V O} `{ModulePath K P}.
Context (hash_iter : gset K -> list K).
Context (execute_transaction : TxnIndex -> T -> VMRun K V O E).
Context (block : list T).
Context (agg : K -> option Z).
Context (Hiter : forall s, hash_iter s ≡ₚ elements s).
Context (Hvm : forall i txn, block !! i = Some txn -> run_ok agg (execute_transaction i txn)).

Abbreviation PC := (PC (K := K) (V := V) (O := O) (E := E)).
Abbreviation Sub := (Sub (K := K) (V := V)).
Abbreviation Shared := (Shared (K := K) (V := V) (O := O) (E := E) (P := P)).
Abbreviation act := (act (K := K) (V := V) (O := O) (E := E) (P := P) hash_iter execute_transaction block).
Abbreviation vact := (vact (K := K) (V := V) (O := O) (E := E) (P := P) hash_iter execute_transaction block).
Abbreviation reach := (reach (K := K) (V := V) (O := O) (E := E) (P := P) hash_iter execute_transaction block).
Abbreviation vreach := (vreach (K := K) (V := V) (O := O) (E := E) (P := P) hash_iter execute_transaction block).
Abbreviation World := (Shared * list PC * Ghost)%type.

(** ** Reads below the transaction of an action *)

Lemma vact_agree pc c pc' c' o j : vact pc c pc' c' o -> o <> Some j -> agree c c' j.
Proof.
  intros Ha Ho. destruct (decide (target pc = Some j)) as [Ht|Ht].
  - unfold target in Ht. revert Ho Ht. vact_cases Ha; simpl; intros Ho Ht; simplify_eq;
      try (by apply agree_refl); try done.
    constructor; try done; unfold io in *; simpl; congruence.
  - eapply act_agree; [by eapply vact_act|done].
Qed.

Definition same_trees (c c' : Shared) (i : TxnIndex) : Prop :=
  forall key j, j < i -> tree_of (data c') key !! j = tree_of (data c) key !! j.

Lemma vact_trees pc c pc' c' o i :
  vact pc c pc' c' o -> (forall k, o = Some k -> i <= k) -> same_trees c c' i.
Proof.
  intros Ha Ho key j Hj. apply (a_entry _ _ _ (vact_agree _ _ _ _ _ j Ha ltac:(intros Hk; specialize (Ho j Hk); lia))).
Qed.

Lemma same_valid c c' i d : same_trees c c' i -> valid c i d -> valid c' i d.
Proof. unfold valid. intros Hs. by rewrite (read_same (data c) (data c')) by apply Hs. Qed.
Lemma same_valids c c' i l : same_trees c c' i -> Forall (valid c i) l -> Forall (valid c' i) l.
Proof. intros Hs Hl. eapply Forall_impl; [exact Hl|]. intros d. by apply same_valid. Qed.

Lemma same_current c c' i sub : same_trees c c' i -> sub_current c i sub -> sub_current c' i sub.
Proof.
  intros Hs. destruct sub as [|key iter acc|key r| | | | | | | |]; simpl; try done.
  - intros (b & Hb & Hsh & Hread). exists b. split; [done|].
    rewrite (range_back_ext (tree_of (data c') key) (tree_of (data c) key)) by (intros; apply Hs; lia).
    split; [done|]. by rewrite (read_same (data c) (data c')) by apply Hs.
  - intros ->. symmetry. apply read_same. apply Hs.
Qed.

(** A read that an execution captures is valid. *)
Lemma view_valid (c : Shared) i key (r : ReadOutput V) v d :
  view_result key r = Some (v, d) -> r = read (data c) key i -> valid c i d.
Proof.
  intros Hr ->. unfold valid, validates. rewrite (view_result_path _ _ _ _ Hr), Hr.
  by apply bool_decide_true.
Qed.

(** ** What a thread knows of a transaction whose reads are not stale *)

Definition fresh_pc (c : Shared) (i : TxnIndex) (pc : PC) : Prop :=
  match pc with
  | Exec j _ captured _ sub => j = i -> Forall (valid c i) captured /\ sub_current c i sub
  | Apply j _ captured _ _ _ _ _ | Del j _ captured _ _ _ | Store j _ captured _ _
  | Stored j _ captured _ _ => j = i -> Forall (valid c i) captured
  | Val j inc todo sub =>
      j = i -> status_at c i = Some (Executed inc) -> Forall (valid c i) todo /\ sub_current c i sub
  | ValFail j inc => j = i -> status_at c i <> Some (Executed inc)
  | _ => True
  end.
Definition fresh_reads (c : Shared) (i : TxnIndex) : Prop :=
  forall inc reads, status_at c i = Some (Executed inc) ->
    inputs (io c) !! i = Some (Some reads) -> Forall (valid c i) reads.

(** The transaction that a thread depends on, before it has looked at its status. *)
Definition awaits (sub : Sub) : option TxnIndex :=
  match sub with
  | ReadDone _ (Throw (Dependency dep)) | Blocked dep | Fresh _ dep | Locked _ dep => Some dep
  | _ => None
  end.

Record fresh (w : World) : Prop := {
  f_reads i : stale w.2 i = false -> fresh_reads w.1.1 i;
  f_pc t pc i : stale w.2 i = false -> w.1.2 !! t = Some pc -> fresh_pc w.1.1 i pc;
  f_aborting i inc : status_at w.1.1 i = Some (Aborting inc) -> stale w.2 i = true;
  f_dep t i inc captured rest sub dep n :
    retry w.2 i = false -> w.1.2 !! t = Some (Exec i inc captured rest sub) ->
    awaits sub = Some dep -> status_at w.1.1 dep <> Some (Executed n);
}.

Lemma flagged_false f k reset i : flagged f k reset i = false ->
  (f i = false /\ i <= k) \/ (i = k /\ reset = true).
Proof.
  unfold flagged. destruct (Nat.ltb_spec i k); [intros ->; left; split; [done|lia]|].
  destruct (Nat.eqb_spec i k) as [->|]; [|done].
  intros [Hf|Hr%negb_false_iff]%andb_false_iff; [left; split; [done|lia]|by right].
Qed.

Lemma stale_next (pc pc' : PC) o g i : stale (next_ghost pc pc' o g) i = false ->
  (stale g i = false /\ forall k, o = Some k -> i <= k) \/ (o = Some i /\ starts pc pc' = true).
Proof.
  destruct o as [k|]; simpl; [|intros Hs; left; by split].
  intros [[Hs Hi]|[-> Hr]]%flagged_false; [left; split; [done|by intros ? [= <-]]|by right].
Qed.
Lemma retry_next (pc pc' : PC) o g i : retry (next_ghost pc pc' o g) i = false ->
  (retry g i = false /\ forall k, o = Some k -> i <= k) \/ (o = Some i /\ rereads pc pc' = true).
Proof.
  destruct o as [k|]; simpl; [|intros Hs; left; by split].
  intros [[Hs Hi]|[-> Hr]]%flagged_false; [left; split; [done|by intros ? [= <-]]|by right].
Qed.

(** ** One action *)

Lemma fresh_kept pc c pc' c' o i p :
  vact pc c pc' c' o -> same_trees c c' i ->
  (forall inc, judges p = Some (i, inc) -> past inc (status_at c i)) ->
  fresh_pc c i p -> fresh_pc c' i p.
Proof.
  intros Ha Hs Hb. apply vact_act in Ha.
  assert (Hex : forall inc, judges p = Some (i, inc) -> status_at c' i = Some (Executed inc) ->
    status_at c i = Some (Executed inc)).
  { intros inc Hj Hst. destruct (executed_before _ _ _ _ _ _ _ _ _ Ha Hst) as [|[He _]]; [done|].
    specialize (Hb inc Hj). rewrite He in Hb. simpl in Hb. lia. }
  destruct p as [| | | | | | | | | | | | |? ? captured ? sub| | | | | | | |? ? todo sub| | | | | |]; simpl; try done;
    intros Hp Hi; subst.
  - destruct (Hp eq_refl). eauto using same_valids, same_current.
  - eauto using same_valids.
  - eauto using same_valids.
  - eauto using same_valids.
  - eauto using same_valids.
  - intros Hst. destruct (Hp eq_refl (Hex _ eq_refl Hst)). eauto using same_valids, same_current.
  - intros Hst. by apply (Hp eq_refl), Hex.
Qed.

Lemma fresh_applying (c : Shared) i j inc captured (out : ExecutionStatus O E) ws ds prev outside :
  (j = i -> Forall (valid c i) captured) ->
  fresh_pc c i (applying hash_iter j inc captured out ws ds prev outside).
Proof. by destruct ws, ds. Qed.

(** A thread that reads or validates again what is still in the map. *)
Lemma valids_snoc (c : Shared) i captured d :
  Forall (valid c i) captured -> valid c i d -> Forall (valid c i) (captured ++ [d]).
Proof. intros Hc Hd. apply Forall_app. by split; [|constructor]. Qed.

Lemma fresh_validated (c : Shared) i inc d todo :
  (status_at c i = Some (Executed inc) -> Forall (valid c i) (d :: todo) /\
     validates d (read (data c) (access_path d) i) = true) ->
  forall r, (status_at c i = Some (Executed inc) -> r = read (data c) (access_path d) i) ->
  fresh_pc c i (if validates d r then Val i inc todo Plain else ValFail i inc).
Proof.
  intros Hd r Hr. destruct (validates d r) eqn:Hv; simpl; intros _.
  - intros Hst. split; [|done]. by eapply Forall_inv_tail, Hd.
  - intros Hst. rewrite (Hr Hst) in Hv. destruct (Hd Hst) as [_ Ht]. congruence.
Qed.

Lemma fresh_next pc c pc' c' o i :
  vact pc c pc' c' o -> same_trees c c' i -> fresh_reads c i -> fresh_pc c i pc ->
  fresh_pc c' i pc'.
Proof.
  intros Ha Hs Hr.
  vact_cases Ha; try done; try (intros Hp; apply fresh_applying; intros Hj; first [by eapply same_valids, Hp|by apply Hp]).
  - intros Hp Hi. destruct (Hp Hi). subst. split; [by eapply same_valids|by eapply read_step_current].
  - intros Hp Hi. destruct (Hp Hi). subst. split; [|done]. apply valids_snoc; [done|].
    eapply view_valid; [done|]. unfold read. by match goal with Hn : data c !! _ = None |- _ => rewrite Hn end.
  - intros Hp Hi. destruct (Hp Hi) as [? Hc]. subst. split; [|done]. apply valids_snoc; [done|].
    by eapply view_valid.
  - intros Hp Hi. by destruct (Hp Hi).
  - intros Hp Hi. by eapply same_valids, Hp.
  - intros Hp Hi Hst. subst. split; [|done]. by eapply Hr.
  - intros Hp Hi Hst. subst. unfold status_at in *. rewrite (read_step_sch _ _ _ _ _ _ Hread) in Hst.
    destruct (Hp eq_refl Hst). split; [by eapply same_valids|by eapply read_step_current].
  - intros Hp. destruct (decide (i0 = i)) as [->|Hne]; [|destruct (validates _ _); by intros ?].
    apply fresh_validated; [|intros _; unfold read; by match goal with Hn : data c !! _ = None |- _ => rewrite Hn end].
    intros Hst. destruct (Hp eq_refl Hst) as [Hv _]. split; [done|]. by apply Forall_inv in Hv.
  - intros Hp. destruct (decide (i0 = i)) as [->|Hne]; [|destruct (validates _ _); by intros ?].
    apply fresh_validated; [|intros Hst; by destruct (Hp eq_refl Hst)].
    intros Hst. destruct (Hp eq_refl Hst) as [Hv _]. split; [done|]. by apply Forall_inv in Hv.
Qed.

(** An execution or an abort starts with nothing that could be stale. *)
Lemma fresh_start pc c pc' c' o i : vact pc c pc' c' o -> starts pc pc' = true -> fresh_pc c' i pc'.
Proof.
  intros Ha Hs. destruct pc, pc'; simpl in Hs; try done.
  inversion Ha as [| |? ? ? ? Hi|? ? ? ? Hi|? ? ? ? Hi|? ? ? ? Hi]; subst; [|by inversion Hi..].
  inversion Hi as [| | | | | | | | | | | | | |? ? ? ? Hc| |]; subst. inversion Hc; subst. by split; [constructor|].
Qed.

Lemma start_target pc c pc' c' i : vact pc c pc' c' (Some i) -> starts pc pc' = true ->
  target pc = Some i \/ target pc' = Some i.
Proof.
  intros Ha. remember (Some i) as o eqn:Hi. revert Hi.
  vact_cases Ha; try done; intros Hi Hst; simplify_eq/=; auto.
Qed.
Lemma start_status pc c pc' c' i inc : vact pc c pc' c' (Some i) -> starts pc pc' = true ->
  status_at c' i <> Some (Executed inc) /\ status_at c' i <> Some (Aborting inc).
Proof.
  intros Ha. remember (Some i) as o eqn:Hi. revert Hi.
  vact_cases Ha; try done; intros Hi Hst; simplify_eq/=; by erewrite status_set.
Qed.

Lemma rereads_target pc c pc' c' i : vact pc c pc' c' (Some i) -> rereads pc pc' = true -> target pc = Some i.
Proof.
  intros Ha. remember (Some i) as o eqn:Hi. revert Hi.
  vact_cases Ha; try done; intros Hi Hst; simplify_eq/=; auto.
Qed.
Lemma rereads_retry pc c pcs pc' c' g t i : vact pc c pc' c' (Some i) -> rereads pc pc' = true ->
  pcs !! t = Some pc -> fresh (c, pcs, g) -> retry g i = true.
Proof.
  intros Ha Hr Hl Hf. destruct (retry g i) eqn:Hg; [done|]. exfalso.
  remember (Some i) as o eqn:Hi. revert Hi Hr Hl.
  vact_cases Ha; try done; intros Hi Hr Hl; simplify_eq/=.
  - by destruct Hread.
  - by eapply (f_dep _ Hf t i _ _ _ _ dep).
Qed.
Lemma stored_moves i inc captured out outside c pc' c' o :
  vact (Stored i inc captured out outside) c pc' c' o -> c' = c \/ o = Some i.
Proof. intros Ha. inversion Ha; subst; auto. Qed.

Lemma awaits_dep (sub : Sub) dep : awaits sub = Some dep -> sub_dep sub = Some dep.
Proof. by destruct sub. Qed.

(** An executed transaction has no estimates. *)
Lemma executed_done (c : Shared) pcs i inc key e : versioned execute_transaction block agg (c, pcs) ->
  status_at c i = Some (Executed inc) -> tree_of (data c) key !! i = Some e -> flag e <> FLAG_ESTIMATE.
Proof.
  intros Hv Hs He. assert (Hh : holds c i {| lay_done := cells inc (out_of c i); lay_stale := ∅; lay_inc := inc |}).
  { apply (v_status _ _ _ _ Hv). unfold status_layout. simpl. by rewrite Hs. }
  pose proof (matches_flag _ _ _ _ _ Hh He) as Hf. simpl in Hf. destruct (cells _ _ !! key); [by subst|set_solver].
Qed.

Lemma read_entry_estimate j (e : Entry V) acc dep :
  read_entry j e acc = inl (Throw (Dependency dep)) -> flag e = FLAG_ESTIMATE.
Proof.
  intros He. pose proof (read_entry_dep _ _ _ _ He) as ->. revert He.
  unfold read_entry. case_bool_decide; [done|]. case_bool_decide; simpl; [|done].
  destruct (cell e) as [inc v|d], acc as [acc|]; try done.
  - unfold from_write. destruct (extract_raw_bytes v) as [b|]; simpl; [|done].
    destruct (deserialize b) as [z|]; simpl; [|done]. by destruct (apply_to acc z).
  - by destruct (merge_onto acc d).
Qed.

Lemma awaits_reading key iter acc : awaits (reading (V := V) key iter acc) = None.
Proof. by destruct iter, acc. Qed.

Lemma read_awaits i key sub (c : Shared) pcs sub' (c' : Shared) dep n :
  versioned execute_transaction block agg (c, pcs) -> read_step i key sub c sub' c' ->
  awaits sub' = Some dep -> status_at c dep <> Some (Executed n).
Proof.
  intros Hv Hr Hd Hn. destruct Hr as [c tree Ht|c j e iter acc e' acc' He Hr|c j e iter acc e' r He Hr].
  - by rewrite awaits_reading in Hd.
  - by rewrite awaits_reading in Hd.
  - simpl in Hd. destruct r as [|[| |dep'|]|]; simplify_eq.
    pose proof (read_entry_dep _ _ _ _ Hr) as ->. apply read_entry_estimate in Hr. simpl in Hr.
    by eapply executed_done.
Qed.

(** A thread that comes to depend on a transaction has seen an estimate of it. *)
Lemma await_next pc (c : Shared) pcs i inc captured rest sub c' o dep n :
  versioned execute_transaction block agg (c, pcs) ->
  vact pc c (Exec i inc captured rest sub) c' o -> awaits sub = Some dep ->
  status_at c' dep = Some (Executed n) ->
  exists captured' rest' sub', pc = Exec i inc captured' rest' sub' /\ awaits sub' = Some dep /\
    status_at c dep = Some (Executed n).
Proof.
  intros Hv Ha. remember (Exec i inc captured rest sub) as pc' eqn:Hpc'. revert Hpc'.
  vact_cases Ha; unfold applying; repeat case_match; intros Hpc' Hd Hn; simplify_eq/=; eauto 10.
  exfalso. unfold status_at in Hn. rewrite (read_step_sch _ _ _ _ _ _ Hread) in Hn. by eapply read_awaits.
Qed.

Section Step.
Context (c : Shared) (pcs : list PC) (g : Ghost) (t : nat) (pc pc' : PC) (c' : Shared) (o : option TxnIndex).
Context (Hl : pcs !! t = Some pc) (Ha : vact pc c pc' c' o).
Context (Ho : owned block (c, pcs)) (Ho' : owned block (c', <[t := pc']> pcs)).
Context (Hk : locked (c, pcs)) (Hb : behind (c, pcs)).
Context (Hv : versioned execute_transaction block agg (c, pcs)) (Hf : fresh (c, pcs, g)).

(** A transaction that starts has no other threads. *)
Lemma start_only i t' p : o = Some i -> starts pc pc' = true -> t' <> t -> pcs !! t' = Some p ->
  target p <> Some i.
Proof.
  intros Hi Hst Hne Hp Ht. apply Hne.
  subst o. destruct (start_target _ _ _ _ _ Ha Hst) as [Hpc|Hpc];
    [by apply (target_unique block c pcs t' t p pc i)|].
  apply (target_unique block c' (<[t := pc']> pcs) t' t p pc' i); [done| | |done|done].
  - by rewrite list_lookup_insert_ne.
  - apply list_lookup_insert_eq. by eapply lookup_lt_Some.
Qed.

Lemma step_reads i : stale (next_ghost pc pc' o g) i = false -> fresh_reads c' i.
Proof.
  intros Hg inc reads Hst Hin. destruct (stale_next _ _ _ _ _ Hg) as [[Hs Hi]|[Hi Hs]];
    [|subst o; by destruct (start_status _ _ _ _ i inc Ha Hs)].
  pose proof (vact_trees _ _ _ _ _ i Ha Hi) as Htr. eapply same_valids; [done|].
  destruct (executed_before _ _ _ _ _ _ _ _ _ (vact_act _ _ _ _ _ _ _ _ Ha) Hst)
    as [Hst'|(_ & captured & out & outside & Hpc)].
  - eapply (f_reads _ Hf i Hs inc); [done|]. rewrite <- Hin. symmetry. simpl.
    apply (step_status_agree hash_iter execute_transaction block c pcs t pc pc' c'); [done..|by eapply vact_act|].
    unfold status_layout. by rewrite Hst'.
  - pose proof (f_pc _ Hf t pc i Hs Hl) as Hp. pose proof (v_known _ _ _ _ Hv t pc Hl) as Hkn.
    rewrite Hpc in Hp, Hkn. destruct Hkn as (_ & Hin' & _). specialize (Hp eq_refl).
    assert (Hag : agree c c' i) by (eapply act_last; [by eapply vact_act|left; eauto]).
    pose proof (a_inputs _ _ _ Hag). simpl in *. congruence.
Qed.

Lemma step_pc t' p i : stale (next_ghost pc pc' o g) i = false -> <[t := pc']> pcs !! t' = Some p ->
  fresh_pc c' i p.
Proof.
  intros Hg Hp. destruct (stale_next _ _ _ _ _ Hg) as [[Hs Hi]|[Hi Hs]].
  - pose proof (vact_trees _ _ _ _ _ i Ha Hi) as Htr.
    apply list_lookup_insert_Some in Hp as [(<- & <- & _)|[_ Hp]].
    + eapply fresh_next; [done|done|by apply (f_reads _ Hf)|by apply (f_pc _ Hf t)].
    + eapply fresh_kept; [done|done| |by apply (f_pc _ Hf t')]. intros inc. by apply (Hb t').
  - apply list_lookup_insert_Some in Hp as [(<- & <- & _)|[Hne Hp]]; [by eapply fresh_start|].
    pose proof (start_only i t' p Hi Hs (not_eq_sym Hne) Hp) as Ht. unfold target in Ht.
    subst o. pose proof (fun inc => proj1 (start_status _ _ _ _ i inc Ha Hs)) as Hn.
    destruct p; simpl in *; try done; intros ->; try done; by intros ?%Hn.
Qed.

Lemma step_aborting i inc : status_at c' i = Some (Aborting inc) -> stale (next_ghost pc pc' o g) i = true.
Proof.
  intros Hst. destruct (stale (next_ghost pc pc' o g) i) eqn:Hg; [done|]. exfalso.
  destruct (stale_next _ _ _ _ _ Hg) as [[Hs Hi]|[Hi Hs]].
  - destruct (aborting_before _ _ _ _ _ _ _ _ _ (vact_act _ _ _ _ _ _ _ _ Ha) Hst) as [Hst'|[Hst' ->]].
    + pose proof (f_aborting _ Hf i inc Hst'). simpl in *. congruence.
    + by apply (f_pc _ Hf t _ i Hs Hl).
  - subst o. by destruct (start_status _ _ _ _ i inc Ha Hs).
Qed.

Lemma step_dep t' i inc captured rest sub dep n :
  retry (next_ghost pc pc' o g) i = false -> <[t := pc']> pcs !! t' = Some (Exec i inc captured rest sub) ->
  awaits sub = Some dep -> status_at c' dep <> Some (Executed n).
Proof.
  intros Hg Hp Hd Hn. destruct (retry_next _ _ _ _ _ Hg) as [[Hr Hi]|[-> Hr]].
  - apply list_lookup_insert_Some in Hp as [(<- & -> & _)|[_ Hp]].
    + destruct (await_next _ _ pcs _ _ _ _ _ _ _ dep n Hv Ha Hd Hn) as (cap & rest' & sub' & -> & Hd' & Hn').
      by apply (f_dep _ Hf t i inc cap rest' sub' dep n).
    + destruct (executed_before _ _ _ _ _ _ _ _ _ (vact_act _ _ _ _ _ _ _ _ Ha) Hn)
        as [Hn'|(_ & cap & out & outside & ->)]; [by apply (f_dep _ Hf t' i inc captured rest sub dep n)|].
      assert (Hlt : dep < i).
      { apply (l_sub _ Hk t' _ i sub Hp eq_refl). by apply awaits_dep. }
      apply stored_moves in Ha as [-> | ->].
      * by rewrite (proj1 (owned_owner block c pcs t _ dep n Ho Hl eq_refl)) in Hn.
      * specialize (Hi dep eq_refl). lia.
  - revert Hr. destruct (decide (t' = t)) as [->|Hne].
    + intros Hr. rewrite list_lookup_insert_eq in Hp by (by eapply lookup_lt_Some). injection Hp as ->.
      by destruct pc as [| | | | | | | | | | | | |? ? ? ? []| | | | | | | | | | | | | |], sub.
    + intros Hr. rewrite list_lookup_insert_ne in Hp by done.
      apply Hne. apply (target_unique block c pcs t' t (Exec i inc captured rest sub) pc i); try done.
      by eapply rereads_target.
Qed.

Lemma fresh_step : fresh (c', <[t := pc']> pcs, next_ghost pc pc' o g).
Proof.
  constructor; simpl; [apply step_reads|apply step_pc|apply step_aborting|apply step_dep].
Qed.
End Step.
Lemma fresh_init threads : fresh (init block threads, ghost_init).
Proof.
  constructor; simpl; try done.
Qed.

Lemma fresh_reach threads w : vreach threads w -> fresh w.
Proof.
  apply vreach_ind; [apply fresh_init|].
  intros c pcs g t pc pc' c' o Hl Ha Hx Hf.
  assert (Hx' : reach threads (c', <[t := pc']> pcs)).
  { eapply rtc_r; [exact Hx|]. econstructor; [exact Hl|by eapply vact_act]. }
  destruct (executor_reach _ _ _ agg Hiter Hvm _ _ Hx) as [Ho _ Hk Hv].
  eapply fresh_step; [done|done|done|by eapply owned_reach|done|by eapply behind_reach|done|done].
Qed.

(** ** Every action makes the variant lower, or leaves it *)

Lemma moved_lt pc c pc' c' pcs t i : vact pc c pc' c' (Some i) -> pcs !! t = Some pc ->
  owned block (c, pcs) -> behind (c, pcs) -> i < length block.
Proof.
  intros Ha Hl Ho Hb.
  assert (Hst : is_Some (status_at c i) -> i < length block).
  { intros [st Hs]. by eapply own_lt. }
  assert (Htg : target pc = Some i -> i < length block) by (by apply (pc_lt block c pcs t pc Ho Hl)).
  assert (Hj : forall inc, judges pc = Some (i, inc) -> i < length block).
  { intros inc Hj. pose proof (Hb t pc i inc Hl Hj) as Hp. simpl in Hp.
    apply Hst. by destruct (status_at c i). }
  unfold target in Htg. remember (Some i) as o eqn:Hi. revert Hi Hst Htg Hj. clear Hl.
  vact_cases Ha; intros Hi Hst Htg Hj; unfold applying in *; repeat case_match; simplify_eq/=; eauto.
Qed.

Lemma variant_step threads c pcs g t pc pc' c' o :
  vreach threads (c, pcs, g) -> pcs !! t = Some pc -> vact pc c pc' c' o ->
  let w' := (c', <[t := pc']> pcs, next_ghost pc pc' o g) in
  lower block w' (c, pcs, g) \/ (o = None /\ level block w' (c, pcs, g)).
Proof.
  intros Hw Hl Ha. pose proof (vreach_reach _ _ _ _ _ Hw) as Hx. pose proof (fresh_reach _ _ Hw) as Hf.
  destruct (executor_reach _ _ _ agg Hiter Hvm _ _ Hx) as [Ho _ Hk Hv].
  pose proof (behind_reach _ _ _ _ _ Hx) as Hb. pose proof (ordered_reach _ _ _ _ _ Hx) as Hor.
  destruct o as [i|]; simpl.
  - left. left. exists i. split; [by eapply moved_lt|].
    pose proof (moved_left _ _ _ _ _ _ _ _ Ha) as (Hw1 & Hw2 & Hr1 & Hr2).
    assert (Habove : forall inc outside deps m, pc = Fin i inc outside (FResume deps m) -> Forall (lt i) deps).
    { intros inc outside deps m ->. by eapply (or_resume _ Hor t). }
    split.
    + eapply share_drops; [done..| | |done].
      * intros inc ->. apply (f_aborting _ Hf i inc). by apply (owned_aborter block c pcs t _ i inc Ho Hl).
      * intros Hr. by eapply rereads_retry.
    + intros j Hj. eapply share_kept; [done| | | | |].
      * destruct (moved_status _ _ _ _ _ _ _ _ j Ha) as [|[->|(inc & outside & deps & m & ->)]]; [done|lia|].
        pose proof (Forall_inv (Habove _ _ _ _ eq_refl)). lia.
      * by apply flagged_below.
      * by apply flagged_below.
      * intros f. rewrite (share_elsewhere f i j pc Hw1), (share_elsewhere f i j pc' Hw2) by lia. done.
      * assert (Hn : forall p : PC, (forall k r, run_at k p = Some r -> k = i) -> run_at j p = None).
        { intros p Hp. destruct (run_at j p) as [r|] eqn:Hr; [|done]. specialize (Hp j r Hr). lia. }
        by rewrite (Hn pc Hr1), (Hn pc' Hr2).
  - destruct (still_parts _ _ _ _ _ _ _ Ha) as (Hst & Hlf & Hrun).
    assert (Hsame : same_below (length block) (share_of c' (<[t := pc']> pcs) g) (share_of c pcs g)).
    { intros j _. eapply share_kept; [done| |done|done| |by rewrite Hrun].
      - unfold status_at. by rewrite Hst.
      - intros f. unfold share. by rewrite Hlf. }
    destruct (still_pool _ _ _ _ _ _ _ pcs t Ha Hl) as [Hp|[Hp Hu]].
    + apply Ho.
    + left. by right.
    + right. by split_and!.
Qed.
End Fresh.
