(* ===== verification/Progress.v ===== *)
(** * The threads are never all blocked

    A thread may wait for the exclusive lock of a key, for the lock of a dependency list, or for
    a transaction its own depends on.  This file proves that a lock is held by a thread that
    can go on; that a transaction waits in the list of one with a lower index that is not
    executed; and that a transaction that is ready was not passed over by the execution index,
    unless some thread has a lower transaction or none.  So a deadlock would need an infinite
    descent in the indices. *)
From S2P Require Import Prelude Delta ChangeSetExt MVMap Conc Scheduler LastInputOutput Executor.
From S2P Require Import Protocol Ownership Quiescence Locks Versions Validity Variant Staleness.

#[local] Open Scope nat_scope.

Section Progress.
Context `{Bcs128, !Bcs128Laws} {K V O E P T : Type} `{Countable K} `{Countable P}.
Context `{TransactionWrite V} `{TransactionOutput K V O} `{ModulePath K P}.
Context (hash_iter : gset K -> list K).
Context (execute_transaction : TxnIndex -> T -> VMRun K V O E).
Context (block : list T).

Abbreviation PC := (PC (K := K) (V := V) (O := O) (E := E)).
Abbreviation Sub := (Sub (K := K) (V := V)).
Abbreviation Block := (Block (K := K) (V := V) (O := O) (E := E) (P := P)).
Abbreviation Shared := (Shared (K := K) (V := V) (O := O) (E := E) (P := P)).
Abbreviation act := (act (K := K) (V := V) (O := O) (E := E) (P := P) hash_iter execute_transaction block).
Abbreviation reach := (reach (K := K) (V := V) (O := O) (E := E) (P := P) hash_iter execute_transaction block).

(** Where a thread may have to wait: for the exclusive lock of a key, for the lock of a
    dependency list, or on a condition variable. *)
Definition waits (b : Block) (pc : PC) : Prop :=
  match pc with
  | Exec _ _ _ _ (Fresh _ dep) => dep_locked (scheduler b) !! dep = Some true
  | Exec _ _ _ _ (Waiting cv) => condvars (scheduler b) !! cv = Some false
  | Apply _ _ _ _ ((k, _) :: _) _ _ _ | Apply _ _ _ _ [] ((k, _) :: _) _ _
  | Del _ _ _ _ (k :: _) _ => 0 < readers (versioned_data_cache b) k
  | Fin i _ _ FTake => dep_locked (scheduler b) !! i = Some true
  | _ => False
  end.

(** Some thread satisfies [Good]. *)
Definition some_pc (Good : PC -> Prop) (pcs : list PC) : Prop :=
  exists t pc, pcs !! t = Some pc /\ Good pc.

Lemma some_pc_kept Good pcs t pc pc' :
  pcs !! t = Some pc -> (Good pc -> Good pc') -> some_pc Good pcs -> some_pc Good (<[t := pc']> pcs).
Proof.
  intros Hl Hg (t' & p & Hp & Hgood). destruct (decide (t' = t)) as [->|Hne].
  - exists t, pc'. assert (p = pc) as -> by congruence. split; [|auto].
    apply list_lookup_insert_eq. by eapply lookup_lt_Some.
  - exists t', p. by rewrite list_lookup_insert_ne.
Qed.

Lemma some_pc_new (Good : PC -> Prop) pcs t pc pc' :
  pcs !! t = Some pc -> Good pc' -> some_pc Good (<[t := pc']> pcs).
Proof.
  intros Hl Hg. exists t, pc'. split; [|done].
  apply list_lookup_insert_eq. by eapply lookup_lt_Some.
Qed.

(** ** The locks of the dependency lists *)

Definition locks (dep : TxnIndex) (pc : PC) : nat :=
  match pc with
  | Exec _ _ _ _ (Locked _ d) | Exec _ _ _ _ (Seen _ d) | Exec _ _ _ _ (Checked _ d)
  | Exec _ _ _ _ (ToPush _ d) | Exec _ _ _ _ (Pushed _ d) => same dep d
  | _ => 0
  end.
Definition lock_count (s : Scheduler) (dep : TxnIndex) : nat :=
  if decide (dep_locked s !! dep = Some true) then 1 else 0.

Lemma lock_count_insert s d b dep :
  d < length (dep_locked s) ->
  lock_count (set_dep_locked (<[d := b]> (dep_locked s)) s) dep
  = if decide (dep = d) then if b : bool then 1 else 0 else lock_count s dep.
Proof.
  intros Hd. unfold lock_count. simpl. destruct (decide (dep = d)) as [->|Hne].
  - rewrite list_lookup_insert_eq by done. destruct b; by case_decide.
  - by rewrite list_lookup_insert_ne.
Qed.

Lemma locks_reading dep i inc captured rest key iter acc :
  locks dep (Exec i inc captured rest (reading key iter acc)) = 0.
Proof. by destruct iter. Qed.

Lemma act_locks pc c pc' c' dep :
  act pc c pc' c' -> (forall d, locks d pc <= lock_count (sch c) d) ->
  lock_count (sch c') dep + locks dep pc = lock_count (sch c) dep + locks dep pc'.
Proof.
  intros Ha. assert (Hlt : forall d, 1 <= lock_count (sch c) d -> d < length (dep_locked (sch c))).
  { intros d. unfold lock_count. case_decide as Hd; [|lia]. intros _. by apply lookup_lt_Some in Hd. }
  revert Hlt. act_cases Ha; unfold applying; intros Hlt Hle; repeat case_match;
    try (apply (f_equal2 Nat.add); reflexivity).
  1, 5: by destruct Hread; rewrite ?locks_reading.
  all: change (sch (upS ?f ?c)) with (f (sch c)); cbv beta; rewrite lock_count_insert by
    first [by eapply lookup_lt_Some|apply Hlt; by specialize (Hle dep0); simpl in Hle; rewrite same_eq in Hle].
  all: unfold locks, same; specialize (Hle dep0); simpl in Hle; rewrite ?same_eq in Hle;
    destruct (decide (dep = dep0)) as [->|]; [|lia].
  2-3: unfold lock_count in *; case_decide; lia.
  unfold lock_count. rewrite decide_False; [lia|congruence].
Qed.

(** ** What holds of the threads that wait *)

(** The thread of an executed transaction has not taken its dependencies yet. *)
Definition untaken (j : TxnIndex) (pc : PC) : Prop :=
  match pc with Fin i _ _ FTake => i = j | _ => False end.
Definition pushing (j : TxnIndex) (pc : PC) : Prop :=
  match pc with
  | Exec _ _ _ _ (Checked _ dep) | Exec _ _ _ _ (ToPush _ dep) => dep = j
  | _ => False
  end.
Definition ticket (cv : DependencyCondvar) (pc : PC) : Prop :=
  match pc with Ticket cv' => cv' = cv | _ => False end.
(** The thread resumed a transaction, and will lower the execution index to [i] at most. *)
Definition lowers (i : TxnIndex) (pc : PC) : Prop :=
  match pc with Fin _ _ _ (FResume _ (Some m)) => m <= i | _ => False end.

(** The transaction a thread executes, or is about to. *)
Definition front (pc : PC) : option TxnIndex :=
  match pc with
  | ClaimE i | Exec i _ _ _ _ | Apply i _ _ _ _ _ _ _ | Del i _ _ _ _ _ | Store i _ _ _ _
  | Stored i _ _ _ _ => Some i
  | _ => None
  end.
Definition before (j : TxnIndex) (pc : PC) : Prop :=
  match front pc with Some i => i < j | None => True end.

Record progressing (x : Shared * list PC) : Prop := {
  p_lock dep : lock_count (sch x.1) dep = total (locks dep) x.2;
  p_taken j inc : status_at x.1 j = Some (Executed inc) ->
    some_pc (untaken j) x.2 \/
    (txn_dependency (sch x.1) !! j = Some [] /\ ~ some_pc (pushing j) x.2);
  p_ticket t i inc captured rest sub cv :
    x.2 !! t = Some (Exec i inc captured rest sub) -> hold sub = HWait cv ->
    status_at x.1 i = Some (Executing inc) -> condvars (sch x.1) !! cv = Some false ->
    some_pc (ticket cv) x.2;
  p_ready i inc cv : status_at x.1 i = Some (ReadyToExecute inc (Some cv)) ->
    execution_idx (sch x.1) <= i \/ 0 < total (wants i) x.2 \/ some_pc (lowers i) x.2;
  p_front j : execution_idx (sch x.1) <= j -> some_pc (before j) x.2;
}.

(** ** One action *)

Lemma act_dependency pc c pc' c' :
  act pc c pc' c' ->
  (txn_dependency (sch c') = txn_dependency (sch c) /\ forall j, untaken j pc -> untaken j pc') \/
  (exists i inc captured rest cv dep,
     pc = Exec i inc captured rest (ToPush cv dep) /\
     pc' = Exec i inc captured rest (Pushed cv dep) /\
     txn_dependency (sch c') = alter (fun l => l ++ [i]) dep (txn_dependency (sch c))) \/
  (exists i inc outside deps,
     pc = Fin i inc outside FTake /\ pc' = Fin i inc outside (FResume deps None) /\
     dep_locked (sch c) !! i = Some false /\ dep_locked (sch c') = dep_locked (sch c) /\
     txn_dependency (sch c') = <[i := []]> (txn_dependency (sch c))).
Proof.
  intros Ha. act_cases Ha; unfold applying; repeat case_match; try (by left);
    try (by left; split; [destruct Hread|]).
  - right. left. do 6 eexists. split_and!; reflexivity.
  - right. right. do 4 eexists. split_and!; first [reflexivity|done].
Qed.

Lemma act_executed pc c pc' c' j inc :
  act pc c pc' c' -> status_at c' j = Some (Executed inc) ->
  status_at c j = Some (Executed inc) \/ untaken j pc'.
Proof.
  intros Ha Hs. act_cases Ha; act_simpl; auto;
    try (apply list_lookup_insert_Some in Hs as [(? & ? & ?)|[? Hs]]; simplify_eq); auto.
Qed.

Lemma act_pushing pc c pc' c' j :
  act pc c pc' c' -> pushing j pc' ->
  pushing j pc \/ forall inc, status_at c j <> Some (Executed inc).
Proof.
  intros Ha. act_cases Ha; unfold applying; repeat case_match; simpl; try done; try (by left);
    intros Hp; subst; auto; destruct Hread; simpl in *; try done.
  all: unfold reading in Hp; repeat case_match; done.
Qed.

Lemma act_executing pc c pc' c' i inc :
  act pc c pc' c' -> status_at c' i = Some (Executing inc) ->
  status_at c i = Some (Executing inc) \/ status_at c i = Some (ReadyToExecute inc None) \/
  exists cv, status_at c i = Some (ReadyToExecute inc (Some cv)) /\ pc' = Ticket cv.
Proof.
  intros Ha Hs. act_cases Ha; act_simpl; auto;
    try (apply list_lookup_insert_Some in Hs as [(? & ? & ?)|[? Hs]]; simplify_eq); eauto.
Qed.

Lemma act_condvar pc c pc' c' cv :
  act pc c pc' c' -> cv < length (condvars (sch c)) -> condvars (sch c') !! cv = Some false ->
  condvars (sch c) !! cv = Some false /\ (ticket cv pc -> ticket cv pc').
Proof.
  intros Ha. act_cases Ha; act_simpl; try done.
  - intros Hlt Hc. destruct (decide (cv0 = cv)) as [->|Hne].
    + by rewrite list_lookup_insert_eq in Hc.
    + by rewrite list_lookup_insert_ne in Hc.
  - intros Hlt Hc. by rewrite lookup_app_l in Hc.
Qed.

Lemma act_hold pc c i inc captured rest sub c' cv :
  act pc c (Exec i inc captured rest sub) c' -> hold sub = HWait cv ->
  exists captured' rest' sub', pc = Exec i inc captured' rest' sub' /\
    (hold sub' = HWait cv \/ (hold sub' = HPush cv /\ txn_status (sch c') = txn_status (sch c))).
Proof.
  intros Ha Hh. remember (Exec i inc captured rest sub) as pc' eqn:Hpc'. revert Hpc'.
  act_cases Ha; unfold applying; repeat case_match; intros Hpc'; simplify_eq/=; eauto 10.
  apply read_step_role in Hread as (_ & _ & Hn). congruence.
Qed.

Lemma act_ready_cv pc c pc' c' i inc cv :
  act pc c pc' c' -> status_at c' i = Some (ReadyToExecute inc (Some cv)) ->
  (status_at c i = Some (ReadyToExecute inc (Some cv)) /\ wants i pc <= wants i pc' /\
   (execution_idx (sch c) <= i -> execution_idx (sch c') <= i) /\
   (lowers i pc -> lowers i pc' \/ execution_idx (sch c') <= i)) \/
  execution_idx (sch c') <= i \/ wants i pc' = 1 \/ lowers i pc'.
Proof.
  intros Ha Hs. act_cases Ha; act_simpl; unfold same in *;
    try (apply list_lookup_insert_Some in Hs as [(? & ? & ?)|[? Hs]]; simplify_eq);
    repeat case_decide; subst; try congruence; try lia;
    try (by left; split_and!; [done|lia|lia|auto; lia]);
    try (by right; right; right; simpl; lia).
  - right. right. right. destruct m; lia.
  - left. split_and!; [done|lia|lia|]. destruct m; [lia|done].
Qed.

Lemma act_front pc c pc' c' j :
  act pc c pc' c' -> execution_idx (sch c') <= j ->
  (execution_idx (sch c) <= j /\ (before j pc -> before j pc')) \/ before j pc'.
Proof.
  intros Ha He. unfold before. act_cases Ha; act_simpl; simplify_eq/=;
    first [by right|by left; split; [lia|]|right; lia].
Qed.

(** ** The invariant *)

Section Step.
Context (c : Shared) (pcs : list PC) (t : nat) (pc : PC) (c' : Shared) (pc' : PC).
Context (Hl : pcs !! t = Some pc) (Ha : act pc c pc' c').
Context (Ho : owned block (c, pcs)) (Hk : locked (c, pcs)) (Hp : progressing (c, pcs)).

Lemma step_lock dep : lock_count (sch c') dep = total (locks dep) (<[t := pc']> pcs).
Proof.
  pose proof (total_insert (locks dep) pcs t pc pc' Hl) as Ht. pose proof (p_lock _ Hp) as Hlock.
  simpl in Hlock. pose proof (Hlock dep) as Hd.
  enough (lock_count (sch c') dep + locks dep pc = lock_count (sch c) dep + locks dep pc') by lia.
  apply act_locks; [done|]. intros d. rewrite Hlock. by apply (total_one _ _ t).
Qed.

Lemma pushing_locks j p : pushing j p -> locks j p = 1.
Proof. destruct p as [| | | | | | | | | | | | |? ? ? ? []| | | | | | | | | | | | | |]; simpl; try done; intros ->; apply same_eq. Qed.

(** A list whose lock is free has nothing pushed to it. *)
Lemma unlocked_pushing (s : Scheduler) (ps : list PC) j :
  lock_count s j = total (locks j) ps -> dep_locked s !! j = Some false ->
  ~ some_pc (pushing j) ps.
Proof.
  intros Hlock Hf (t' & p & Hp' & Hpush%pushing_locks). pose proof (total_one (locks j) _ _ _ Hp').
  unfold lock_count in Hlock. rewrite decide_False in Hlock by congruence. lia.
Qed.

Lemma step_taken j inc :
  status_at c' j = Some (Executed inc) ->
  some_pc (untaken j) (<[t := pc']> pcs) \/
  (txn_dependency (sch c') !! j = Some [] /\ ~ some_pc (pushing j) (<[t := pc']> pcs)).
Proof.
  intros Hs. destruct (act_executed _ _ _ _ _ _ Ha Hs) as [Hs'|Hu]; [|left; by eapply some_pc_new].
  pose proof (step_lock j) as Hlock.
  destruct (act_dependency _ _ _ _ Ha) as
    [[Heq Hkeep]|[(i & inc' & captured & rest & cv & dep & -> & -> & Heq)|
          (i & inc' & outside & deps & -> & -> & Hfree & Hsame & Heq)]]; rewrite Heq;
    destruct (p_taken _ Hp j inc Hs') as [Hu|[Hd Hn]]; simpl in *.
  - left. by apply (some_pc_kept _ _ _ _ _ Hl (Hkeep j)).
  - right. split; [done|]. intros (t' & p & Hp' & Hpush).
    apply list_lookup_insert_Some in Hp' as [(<- & <- & _)|[_ Hp']]; [|apply Hn; by exists t', p].
    destruct (act_pushing _ _ _ _ _ Ha Hpush) as [Hpush'|Hne]; [|by destruct (Hne inc)].
    apply Hn. by exists t, pc.
  - left. by apply (some_pc_kept _ _ _ _ _ Hl).
  - right. destruct (decide (dep = j)) as [->|Hne].
    { destruct Hn. by exists t, (Exec i inc' captured rest (ToPush cv j)). }
    rewrite list_lookup_alter_ne by done. split; [done|]. intros (t' & p & Hp' & Hpush).
    apply list_lookup_insert_Some in Hp' as [(<- & <- & _)|[_ Hp']]; [done|]. apply Hn. by exists t', p.
  - destruct (decide (i = j)) as [->|Hne]; [|left; by apply (some_pc_kept _ _ _ _ _ Hl)].
    right. rewrite list_lookup_insert_eq.
    + split; [done|]. eapply unlocked_pushing; [done|]. by rewrite Hsame.
    + apply lookup_lt_Some in Hfree. destruct (o_len _ _ _ Ho) as (_ & ? & ? & _). simpl in *. lia.
  - right. split.
    + destruct (decide (i = j)) as [->|Hne]; [|by rewrite list_lookup_insert_ne].
      rewrite list_lookup_insert_eq; [done|]. by apply lookup_lt_Some in Hd.
    + intros (t' & p & Hp' & Hpush).
      apply list_lookup_insert_Some in Hp' as [(<- & <- & _)|[_ Hp']]; [done|]. apply Hn. by exists t', p.
Qed.

Lemma step_ready i inc cv :
  status_at c' i = Some (ReadyToExecute inc (Some cv)) ->
  execution_idx (sch c') <= i \/ 0 < total (wants i) (<[t := pc']> pcs) \/
  some_pc (lowers i) (<[t := pc']> pcs).
Proof.
  intros Hs. pose proof (total_insert (wants i) pcs t pc pc' Hl) as Ht.
  pose proof (total_one (wants i) pcs t pc Hl).
  destruct (act_ready_cv _ _ _ _ _ _ _ Ha Hs) as [(Hs' & Hw & He & Hlow)|[?|[?|Hlow]]].
  - destruct (p_ready _ Hp i inc cv Hs') as [?|[?|Hsome]]; simpl in *; [auto|right; left; lia|].
    destruct (decide (execution_idx (sch c') <= i)) as [|Hn]; [auto|].
    right. right. apply (some_pc_kept _ _ _ pc); [done| |done].
    intros Hpc. destruct (Hlow Hpc); [done|lia].
  - auto.
  - right. left. lia.
  - right. right. by eapply some_pc_new.
Qed.

Lemma step_front j : execution_idx (sch c') <= j -> some_pc (before j) (<[t := pc']> pcs).
Proof.
  intros He. destruct (act_front _ _ _ _ _ Ha He) as [[He' Hb]|Hb]; [|by eapply some_pc_new].
  apply (some_pc_kept _ _ _ pc); [done..|]. by apply (p_front _ Hp).
Qed.

(** A thread that waits on a condition variable that nobody notified or will notify has a
    suspended or resumed transaction. *)
Lemma waiter_ticket t' i inc captured rest sub cv :
  pcs !! t' = Some (Exec i inc captured rest sub) -> hold sub = HWait cv ->
  status_at c' i = Some (Executing inc) -> condvars (sch c') !! cv = Some false ->
  some_pc (ticket cv) (<[t := pc']> pcs).
Proof.
  intros Hl' Hh Hs Hc.
  pose proof (owned_role _ _ _ _ _ Ho Hl') as Hr. simpl in Hr. rewrite Hh in Hr.
  pose proof (o_owner _ _ _ Ho _ _ _ _ Hr) as Hsees. simpl in Hsees.
  assert (Hlt : cv < length (condvars (sch c))).
  { apply (own_cv_lt _ _ _ Ho t' _ cv Hr). simpl. apply same_eq. }
  destruct (act_executing _ _ _ _ _ _ Ha Hs) as [Hs'|[Hs'|(cv' & Hs' & ->)]].
  - destruct (act_condvar _ _ _ _ _ Ha Hlt Hc) as [Hc' Hkeep].
    apply (some_pc_kept _ _ _ _ _ Hl Hkeep).
    by apply (p_ticket _ Hp t' i inc captured rest sub).
  - unfold status_at in Hs'. destruct Hsees as [|[|]]; simpl in *; congruence.
  - unfold status_at in Hs'. eapply some_pc_new; [done|]. simpl.
    destruct Hsees as [|[|]]; simpl in *; congruence.
Qed.

Lemma step_ticket t' i inc captured rest sub cv :
  <[t := pc']> pcs !! t' = Some (Exec i inc captured rest sub) -> hold sub = HWait cv ->
  status_at c' i = Some (Executing inc) -> condvars (sch c') !! cv = Some false ->
  some_pc (ticket cv) (<[t := pc']> pcs).
Proof.
  intros Hl' Hh Hs Hc. apply list_lookup_insert_Some in Hl' as [(<- & Hpc' & _)|[_ Hl']];
    [|by eapply waiter_ticket].
  pose proof Ha as Ha'. rewrite Hpc' in Ha'.
  destruct (act_hold _ _ _ _ _ _ _ _ _ Ha' Hh) as (cap & rest' & sub' & Hpc & [Hh'|[Hh' Hsame]]).
  - eapply (waiter_ticket t); [by rewrite Hl, Hpc|done..].
  - assert (Hl' : pcs !! t = Some (Exec i inc cap rest' sub')) by (by rewrite Hl, Hpc).
    pose proof (owned_role _ _ _ _ _ Ho Hl') as Hr. simpl in Hr. rewrite Hh' in Hr.
    pose proof (o_owner _ _ _ Ho _ _ _ _ Hr) as Hsees. simpl in Hsees.
    unfold status_at in Hs. rewrite Hsame in Hs. congruence.
Qed.

Lemma progressing_step : progressing (c', <[t := pc']> pcs).
Proof.
  constructor; simpl.
  - apply step_lock.
  - apply step_taken.
  - apply step_ticket.
  - apply step_ready.
  - apply step_front.
Qed.
End Step.

Lemma progressing_init threads : 0 < threads -> progressing (init block threads).
Proof.
  intros Hth. constructor; simpl.
  - intros dep. rewrite total_replicate. simpl. unfold lock_count. simpl.
    rewrite decide_False; [lia|]. intros Hl. by apply lookup_replicate in Hl as [? _].
  - intros j inc Hs. unfold status_at in Hs. simpl in Hs. by apply lookup_replicate in Hs as [? _].
  - intros t i inc captured rest sub cv Hl. by apply lookup_replicate in Hl as [? _].
  - intros i inc cv Hs. unfold status_at in Hs. simpl in Hs. by apply lookup_replicate in Hs as [? _].
  - intros j _. exists 0, Idle. split; [|done]. by apply lookup_replicate.
Qed.

Lemma progressing_reach threads x : 0 < threads -> reach threads x -> progressing x.
Proof.
  intros Hth. apply (reach_ind _ _ _ _ _ (fun x => owned block x /\ locked x)).
  - intros y Hy. split; [by eapply owned_reach|by eapply locked_reach].
  - by apply progressing_init.
  - intros c pcs t pc pc' c' Hl Ha [Ho Hk] _ Hp. by apply (progressing_step c pcs t pc).
Qed.

(** ** No deadlock *)

(** A thread that looks for a task, or has returned. *)
Definition looks (pc : PC) : Prop :=
  match pc with
  | Idle | Finished | Check1 _ | Check2 _ | Check3 _ | Check4 _ | Check5 => True
  | _ => False
  end.

Section Blocked.
Context (c : Shared) (pcs : list PC).
Context (Ho : owned block (c, pcs)) (Hcount : counted block (c, pcs)) (Hk : locked (c, pcs)).
Context (Hor : ordered (c, pcs)) (Hp : progressing (c, pcs)).

(** Every thread waits; or looks for a task, when there is nothing left to execute. *)
Definition at_rest (pc : PC) : Prop := looks pc /\ length block <= execution_idx (sch c).
Context (Hblocked : forall t pc, pcs !! t = Some pc -> waits (blk c) pc \/ at_rest pc).

(** The threads that wait do so on a condition variable. *)
Definition parked (pc : PC) : Prop :=
  (exists i inc captured rest cv, pc = Exec i inc captured rest (Waiting cv) /\
    condvars (sch c) !! cv = Some false) \/ at_rest pc.

Lemma lock_free dep : dep_locked (sch c) !! dep <> Some true.
Proof.
  intros Hd. pose proof (p_lock _ Hp dep) as Hlock. unfold lock_count in Hlock. simpl in Hlock.
  rewrite decide_True in Hlock by done.
  destruct (total_pos (locks dep) pcs) as (t & p & Hl & Hpos); [lia|].
  destruct (Hblocked t p Hl) as [Hw|[Hw _]]; [|by destruct p; simpl in *; lia].
  destruct p as [| | | | | | | | | | | | |? ? ? ? []| | | | | | | | | | | | | |]; simpl in *; (lia || done).
Qed.

Lemma reader_free key : readers (mvs c) key = 0.
Proof.
  pose proof (l_readers _ Hk key) as Hr. simpl in Hr.
  destruct (decide (total (reads key) pcs = 0)) as [|Hne]; [lia|].
  destruct (total_pos (reads key) pcs) as (t & p & Hl & Hpos); [lia|]. unfold reads in Hpos.
  destruct (Hblocked t p Hl) as [Hw|[Hw _]]; [|by destruct p; simpl in *; lia].
  destruct p; simpl in *; try lia; try done. by destruct sub; simpl in *; try lia.
Qed.

Lemma all_parked t pc : pcs !! t = Some pc -> parked pc.
Proof.
  intros Hl. destruct (Hblocked t pc Hl) as [Hw|]; [left|by right]. pose proof lock_free as Hfree.
  assert (Hread : forall key, ~ 0 < readers (versioned_data_cache (blk c)) key).
  { intros key. pose proof (reader_free key) as Hr. unfold mvs in Hr. lia. }
  destruct pc; simpl in Hw; repeat case_match; simplify_eq; try done;
    try (by destruct (Hread _ Hw)); try (by destruct (Hfree _ Hw)).
  by do 5 eexists.
Qed.

Ltac by_parked :=
  intros pc [(i' & inc' & captured' & rest' & cv' & -> & _)|[Hlooks _]]; [|destruct pc; try done]; by try intros [].

Lemma none_some Good : (forall pc, parked pc -> ~ Good pc) -> ~ some_pc Good pcs.
Proof. intros Hn (t & pc & Hl & Hg). by apply (Hn pc (all_parked t pc Hl)). Qed.

Lemma none_total f : (forall pc, parked pc -> f pc = 0) -> total f pcs = 0.
Proof.
  intros Hn. destruct (decide (total f pcs = 0)) as [|Hne]; [done|].
  destruct (total_pos f pcs) as (t & pc & Hl & Hpos); [lia|].
  rewrite (Hn pc (all_parked t pc Hl)) in Hpos. lia.
Qed.

(** A thread is parked with transaction [j]. *)
Definition parked_at (j : TxnIndex) : Prop :=
  exists t inc captured rest cv, pcs !! t = Some (Exec j inc captured rest (Waiting cv)) /\
    condvars (sch c) !! cv = Some false.

Lemma owned_parked j : st_owned (status_at c j) = 1 -> parked_at j.
Proof.
  intros Hs. pose proof (o_own _ _ _ Ho j) as Hown. simpl in Hown.
  change (txn_status (sch c) !! j) with (status_at c j) in Hown. rewrite Hs, total_fmap in Hown.
  destruct (total_pos (owns j ∘ role) pcs) as (t & pc & Hl & Hpos); [lia|].
  destruct (all_parked t pc Hl) as [(j' & inc & captured & rest & cv & -> & Hc)|[Hlk _]];
    [|by destruct pc; simpl in *; lia]. simpl in Hpos.
  assert (j = j') as <-; [|by exists t, inc, captured, rest, cv].
  destruct (decide (j = j')); [done|]. rewrite same_ne in Hpos; [lia|done].
Qed.

(** A transaction that is ready below the execution index is next for someone lower. *)
Lemma front_parked j : j < length block -> execution_idx (sch c) <= j -> exists i, i < j /\ parked_at i.
Proof.
  intros Hj He. destruct (p_front _ Hp j He) as (t & pc & Hl & Hb).
  destruct (all_parked t pc Hl) as [(i & inc & captured & rest & cv & -> & Hc)|[_ Hn]]; [|lia].
  exists i. split; [exact Hb|]. by exists t, inc, captured, rest, cv.
Qed.

Lemma ready_parked j inc ocv :
  status_at c j = Some (ReadyToExecute inc ocv) -> exists i, i < j /\ parked_at i.
Proof.
  intros Hs. apply front_parked; [by apply (own_lt _ _ _ Ho _ _ Hs)|].
  assert (Hw : total (wants j) pcs = 0) by (apply none_total; by_parked).
  destruct ocv as [cv|].
  - destruct (p_ready _ Hp j inc cv Hs) as [|[Hpos|Hsome]]; simpl in *; [done|lia|].
    exfalso. revert Hsome. apply none_some. by_parked.
  - destruct (c_ready _ _ Hcount j inc Hs) as [|Hpos]; simpl in *; [done|lia].
Qed.

(** The transaction of a list of dependencies is not executed. *)
Lemma listed_parked i j deps :
  txn_dependency (sch c) !! j = Some deps -> i ∈ deps -> exists k, k < i /\ parked_at k.
Proof.
  intros Hd Hi. pose proof (proj1 (Forall_forall _ _) (or_list _ Hor j deps Hd) i Hi) as Hji.
  destruct (lookup_lt_is_Some_2 (txn_status (sch c)) j) as [st Hst].
  { apply lookup_lt_Some in Hd. destruct (o_len _ _ _ Ho) as (? & ? & _). simpl in *. lia. }
  assert (Hown : st_owned (Some st) = 1 -> exists k, k < i /\ parked_at k).
  { intros Hs. exists j. split; [done|]. apply owned_parked. unfold status_at. by rewrite Hst. }
  destruct st as [inc ocv|inc|inc cv|inc|inc]; try (by apply Hown).
  - destruct (ready_parked j inc ocv Hst) as (k & ? & ?). exists k. split; [lia|done].
  - exfalso. destruct (p_taken _ Hp j inc Hst) as [Hsome|[Hnil _]].
    + revert Hsome. apply none_some. by_parked.
    + simpl in Hnil. assert (deps = []) as -> by congruence. by apply not_elem_of_nil in Hi.
  - exfalso. pose proof (o_abort _ _ _ Ho j) as Hab. simpl in Hab. rewrite Hst, total_fmap in Hab.
    rewrite none_total in Hab; [done|]. by_parked.
Qed.

(** A parked thread needs another one, with a lower transaction. *)
Lemma parked_lower i : parked_at i -> exists j, j < i /\ parked_at j.
Proof.
  intros (t & inc & captured & rest & cv & Hl & Hc).
  pose proof (owned_role _ _ _ _ _ Ho Hl) as Hr.
  pose proof (o_owner _ _ _ Ho _ _ _ _ Hr) as Hsees. simpl in Hsees.
  destruct Hsees as [Hs|[Hs|Hs]].
  - pose proof (o_resume _ _ _ Ho i) as Hres. simpl in Hres. rewrite Hs, total_fmap in Hres.
    assert (Hz : total (resumes i ∘ role) pcs = 0) by (apply none_total; by_parked).
    rewrite Hz in Hres. simpl in Hres.
    destruct (total_pos (total (same i)) (txn_dependency (sch c))) as (j & deps & Hd & Hpos); [lia|].
    destruct (total_pos _ _ Hpos) as (n & i' & Hi & Hsame).
    assert (i = i') as <-; [|by eapply listed_parked, list_elem_of_lookup_2].
    destruct (decide (i = i')); [done|]. rewrite same_ne in Hsame; [lia|done].
  - by eapply ready_parked.
  - exfalso. assert (Hsome : some_pc (ticket cv) pcs) by (by apply (p_ticket _ Hp t i inc captured rest (Waiting cv))).
    revert Hsome. apply none_some. by_parked.
Qed.

(** So no thread is parked. *)
Lemma none_waits t pc : pcs !! t = Some pc -> at_rest pc.
Proof.
  assert (Hnone : forall i, ~ parked_at i).
  { intros i. induction (lt_wf i) as [i _ IH]. intros Hi.
    destruct (parked_lower i Hi) as (j & Hj & Hpj). by apply (IH j). }
  intros Hl. destruct (all_parked t pc Hl) as [(i & inc & captured & rest & cv & -> & Hc)|]; [|done].
  exfalso. apply (Hnone i). by exists t, inc, captured, rest, cv.
Qed.
End Blocked.

Definition is_finished (pc : PC) : bool := match pc with Finished => true | _ => false end.

Lemma calm_not_waits (c : Shared) (pc : PC) : calm block pc -> ~ waits (blk c) pc.
Proof. destruct pc; simpl; try done; by intros _ []. Qed.

(** If every thread waits or is finished, all are finished. *)
Lemma stuck_finished threads c pcs :
  0 < threads -> reach threads (c, pcs) ->
  (forall t pc, pcs !! t = Some pc -> waits (blk c) pc \/ pc = Finished) ->
  forall t pc, pcs !! t = Some pc -> pc = Finished.
Proof.
  intros Hth Hx Hstuck. pose proof (owned_reach _ _ _ _ _ Hx) as Ho.
  pose proof (counted_reach _ _ _ _ _ Hx) as Hcount. pose proof (locked_reach _ _ _ _ _ Hx) as Hk.
  pose proof (progressing_reach _ _ Hth Hx) as Hp.
  destruct (decide (Exists (fun pc => is_finished pc = true) pcs)) as [Hex|Hex].
  - apply Exists_exists in Hex as (p & (tp & Hlp)%list_elem_of_lookup & Hf).
    destruct p; try done. pose proof (c_knows _ _ Hcount tp _ Hlp) as Hd.
    destruct (c_done _ _ Hcount Hd) as (_ & _ & Hcalm). intros t pc Hl.
    destruct (Hstuck t pc Hl) as [Hw|]; [|done].
    by destruct (calm_not_waits c pc (Forall_lookup_1 _ _ _ _ Hcalm Hl)).
  - assert (Hno : forall t, pcs !! t <> Some Finished).
    { intros t Hl. destruct Hex. apply Exists_exists. exists Finished.
      split; [by eapply list_elem_of_lookup_2|done]. }
    intros t pc Hl. exfalso.
    destruct (none_waits c pcs Ho Hcount Hk (ordered_reach _ _ _ _ _ Hx) Hp) with t pc
      as [Hlk _]; [|done|].
    + intros t' p Hl'. destruct (Hstuck t' p Hl') as [| ->]; [by left|by destruct (Hno t')].
    + destruct (Hstuck t _ Hl) as [Hw| ->]; [by destruct pc|by destruct (Hno t)].
Qed.
End Progress.
