(* ===== verification/Simulation.v ===== *)
(** * The threads follow the protocol

    Every atomic action of [work_task_with_scope] is an action of [Protocol]: the program logic
    of [Conc], with the reachable configurations of the protocol as its invariant and the
    program counters as the ghost values of the threads; the configurations, with the ghost state
    of [Variant], are the worlds that its actions make less.  It follows that no thread ever
    panics, that the invariants hold of every state the threads reach, and that a thread that
    looks for a task finds one, or sees that there is none left, once nothing moves. *)
From stdpp Require Import relations.
From S2P Require Import Prelude Delta ChangeSetExt MVMap Conc Scheduler LastInputOutput Executor.
From S2P Require Import Protocol Ownership Quiescence Locks Versions Validity Variant Staleness.
From S2P Require Import Progress.

#[local] Open Scope nat_scope.
#[local] Open Scope prog_scope.

Section Simulation.
Context `{Bcs128, !Bcs128Laws} {K V O E P T : Type} `{Countable K} `{Countable P}.
Context `{TransactionWrite V} `{TransactionOutput K V O} `{ModulePath K P}.
Context (hash_iter : gset K -> list K).
Context (execute_transaction : TxnIndex -> T -> VMRun K V O E).
Context (block : list T).
Context (agg : K -> option Z).
Context (Hiter : forall s, hash_iter s ≡ₚ elements s).
Context (Hvm : forall i txn, block !! i = Some txn -> run_ok agg (execute_transaction i txn)).
Context (threads : nat).

Abbreviation PC := (PC (K := K) (V := V) (O := O) (E := E)).
Abbreviation Sub := (Sub (K := K) (V := V)).
Abbreviation Block := (Block (K := K) (V := V) (O := O) (E := E) (P := P)).
Abbreviation Shared := (Shared (K := K) (V := V) (O := O) (E := E) (P := P)).
Abbreviation act := (act (K := K) (V := V) (O := O) (E := E) (P := P) hash_iter execute_transaction block).
Abbreviation reach := (reach (K := K) (V := V) (O := O) (E := E) (P := P) hash_iter execute_transaction block).
Abbreviation executor_inv := (executor_inv (K := K) (V := V) (O := O) (E := E) (P := P) execute_transaction block agg).

Abbreviation vact := (vact (K := K) (V := V) (O := O) (E := E) (P := P) hash_iter execute_transaction block).
Abbreviation vreach := (vreach (K := K) (V := V) (O := O) (E := E) (P := P) hash_iter execute_transaction block).
Abbreviation World := (Shared * list PC * Ghost)%type.

(** The states of the protocol.  A thread also counts its actions that make the variant lower. *)
Abbreviation Counted := (PC * nat)%type.
Definition Inv (w : World) (b : Block) (ls : list Counted) : Prop :=
  blk w.1.1 = b /\ w.1.2 = ls.*1 /\ vreach threads w.

(** How an action changes the statuses. *)
Definition moves (b b' : Block) : Prop :=
  forall i, txn_status (scheduler b') !! i = txn_status (scheduler b) !! i \/
    exists st st', txn_status (scheduler b) !! i = Some st /\
      txn_status (scheduler b') !! i = Some st' /\ transition st st'.

Lemma act_moves pc c pc' c' : act pc c pc' c' -> moves (blk c) (blk c').
Proof.
  intros Ha i. change (txn_status (scheduler (blk ?c)) !! ?i) with (status_at c i).
  assert (Hset : forall j st st', status_at c j = Some st -> transition st st' ->
    txn_status (sch c') = <[j := st']> (txn_status (sch c)) ->
    status_at c' i = status_at c i \/ exists st st',
      status_at c i = Some st /\ status_at c' i = Some st' /\ transition st st').
  { intros j st st' Hst Ht Heq. unfold status_at in *. rewrite Heq.
    destruct (decide (j = i)) as [->|Hne]; [|left; by apply list_lookup_insert_ne].
    right. exists st, st'. split_and!; [done| |done].
    apply list_lookup_insert_eq. by eapply lookup_lt_Some. }
  revert Hset. act_cases Ha; unfold applying; repeat case_match; intros Hset; try (by left);
    try (by apply read_step_sch in Hread; left; unfold status_at; rewrite Hread);
    (eapply Hset; [eassumption|constructor|done]).
Qed.

(** ** The worlds *)

Definition World_less : World -> World -> Prop := tc (lower block).
Definition World_level : World -> World -> Prop := level block.

Lemma World_less_level w1 w2 w3 : World_less w1 w2 -> World_level w2 w3 -> World_less w1 w3.
Proof.
  intros Hl. revert w3. induction Hl as [w1 w2 Hl|w1 w2 w3 Hl _ IH]; intros w4 Hv.
  - apply tc_once. by eapply lower_level.
  - eapply tc_l; [exact Hl|]. by apply IH.
Qed.
Lemma World_level_less w1 w2 w3 : World_level w1 w2 -> World_less w2 w3 -> World_less w1 w3.
Proof.
  intros Hv Hl. destruct Hl as [w2 w3 Hl|w2 w2' w3 Hl Ht].
  - apply tc_once. by eapply level_lower.
  - eapply tc_l; [by eapply level_lower|exact Ht].
Qed.
Lemma World_less_trans w1 w2 w3 : World_less w1 w2 -> World_less w2 w3 -> World_less w1 w3.
Proof. apply tc_transitive. Qed.
Lemma World_less_wf w : Acc World_less w.
Proof. apply tc_wf, lower_wf. Qed.

Lemma World_level_sym w1 w2 : World_level w1 w2 -> World_level w2 w1.
Proof.
  intros (Hs & Hp & Hu). split_and!; [by intros i Hi; rewrite Hs|done|].
  unfold undisturbed in *. destruct Hu as (-> & -> & -> & -> & ->). by split_and!.
Qed.
Lemma World_less_not_level w1 w2 : World_less w1 w2 -> ~ World_level w1 w2.
Proof.
  intros Hl Hv. assert (Hc : World_less w1 w1) by (by eapply World_less_level, World_level_sym).
  clear Hl Hv. induction (World_less_wf w1) as [w _ IH]. by apply (IH w).
Qed.

Lemma waits_level w b ls w' b' ls' (pc : Counted) :
  Inv w b ls -> Inv w' b' ls' -> World_level w' w -> waits b pc.1 -> waits b' pc.1.
Proof.
  intros (<- & _) (<- & _) (_ & _ & Hm & Hd & Hc & _). unfold sch, mvs in *.
  destruct pc as [pc n]. simpl. unfold waits, readers. by rewrite Hm, Hd, Hc.
Qed.

(** A thread that waits stays where it is, and when no index is left to claim, one that looks for a
    task finds none. *)
Definition cold (c : Shared) : Prop :=
  length block <= execution_idx (sch c) /\ length block <= validation_idx (sch c).
Definition rests (w : World) (l : Counted) : Prop := cold w.1.1 -> looks l.1.

Lemma cold_level w w' : World_level w' w -> cold w'.1.1 -> cold w.1.1.
Proof. intros (_ & Hp & _) [He Hv]. unfold variant, pool_of in Hp. simpl in Hp. simplify_eq. split; lia. Qed.
Lemma rests_level w w' l : World_level w' w -> rests w l -> rests w' l.
Proof. intros Hl Hq Hc. apply Hq. by eapply cold_level. Qed.

Lemma vact_waits pc c pc' c' o : vact pc c pc' c' o -> waits (blk c) pc -> o = None -> pc' = pc.
Proof. intros Ha. vact_cases Ha; done. Qed.

Lemma vact_looks pc c pc' c' o : vact pc c pc' c' o ->
  num_txns (sch c) = length block -> cold c -> looks pc -> looks pc'.
Proof. intros Ha Hn [He Hv]. vact_cases Ha; try done; intros _; exfalso; lia. Qed.

(** An action keeps the invariant; the variant gets lower, or stays level. *)
Definition gains (pc pc' : PC) (o : option TxnIndex) : Prop :=
  is_Some o \/ claims block pc' < claims block pc \/ unfinished pc' < unfinished pc.

Lemma level_gains c pcs g t pc pc' c' o :
  pcs !! t = Some pc -> gains pc pc' o -> o = None ->
  World_level (c', <[t := pc']> pcs, next_ghost pc pc' o g) (c, pcs, g) -> False.
Proof.
  intros Hl Hg -> (_ & Hp & _). unfold variant, pool_of in Hp. simpl in Hp.
  pose proof (total_insert (claims block) pcs t pc pc' Hl) as Hc.
  pose proof (total_insert unfinished pcs t pc pc' Hl) as Hu. simplify_eq.
  destruct Hg as [[? ?]|[?|?]]; [done|lia|lia].
Qed.

Abbreviation advance := (advance (fun b l => waits b l.1) World_less World_level snd rests).

Lemma Inv_step w b ls t pc n c' pc' o :
  Inv w b ls -> ls !! t = Some (pc, n) -> vact pc w.1.1 pc' c' o ->
  exists w' n', w'.1 = (c', <[t := pc']> w.1.2) /\ Inv w' (blk c') (<[t := (pc', n')]> ls) /\ n <= n' /\
    (gains pc pc' o -> n < n' /\ ~ World_level w' w) /\ advance w b (pc, n) w' (blk c') (pc', n').
Proof.
  intros Hi0 Hl Ha. pose proof Hi0 as (Hb & Hpcs & Hw). destruct w as [[c pcs] g]. simpl in *. subst b pcs.
  assert (Hlt : ls.*1 !! t = Some pc) by (by rewrite list_lookup_fmap, Hl).
  pose proof (variant_step _ _ _ agg Hiter Hvm _ _ _ _ _ _ _ _ _ Hw Hlt Ha) as Hv. simpl in Hv.
  set (w' := (c', <[t := pc']> ls.*1, next_ghost pc pc' o g)) in *.
  assert (Hi : forall n', Inv w' (blk c') (<[t := (pc', n')]> ls)).
  { intros n'. split_and!; [done|by rewrite list_fmap_insert|].
    eapply rtc_r; [exact Hw|by econstructor]. }
  destruct Hv as [Hv|[Ho Hv]]; exists w'.
  - assert (Hless : World_less w' (c, ls.*1, g)) by (by apply tc_once).
    exists (S n). split_and!; [done|done|lia| |by left].
    intros _. split; [lia|by apply World_less_not_level].
  - exists n. split_and!; [done|done|lia| |right].
    { intros Hg. by destruct (level_gains _ _ _ _ _ _ _ _ Hlt Hg Ho Hv). }
    split_and!; [done|done| |].
    + simpl. intros Hwt. rewrite (vact_waits _ _ _ _ _ Ha Hwt Ho).
      by apply (waits_level _ _ _ _ _ _ (pc, n) Hi0 (Hi n) Hv).
    + intros Hq Hc. simpl. apply (cold_level _ _ Hv) in Hc as Hc0. simpl in Hc0.
      pose proof (executor_reach _ _ _ _ Hiter Hvm _ _ (vreach_reach _ _ _ _ _ Hw)) as Hx.
      pose proof (o_len _ _ _ (i_owned _ _ _ _ Hx)) as (_ & _ & _ & Hn).
      eapply vact_looks; [exact Ha|exact Hn|done|by apply Hq].
Qed.

(** ** Rules for the atomic actions *)

Abbreviation wpc := (wp Inv (fun b l => waits b l.1) moves World_less World_level snd rests).

(** A program from a program counter; the thread counts [X a] actions at least that make the
    variant lower, when it ends with [a]. *)
Definition wpg {A} (X : A -> nat) (p : prog Block A) (Q : A -> PC -> Prop) (pc : PC) : Prop :=
  forall n, wpc p (fun a l => X a + n <= l.2 /\ Q a l.1) (pc, n).
Abbreviation wpi p Q pc := (wpg (fun _ => 0) p Q pc).
Abbreviation wpx p Q pc := (wpg (fun _ => 1) p Q pc).

Lemma wpg_mono {A} (X X' : A -> nat) (p : prog Block A) (Q Q' : A -> PC -> Prop) pc :
  (forall a pc, Q a pc -> X' a <= X a /\ Q' a pc) -> wpg X p Q pc -> wpg X' p Q' pc.
Proof.
  intros HQ Hp n. eapply wp_mono; [|apply Hp]. intros a l [? Hq]. destruct (HQ _ _ Hq). split; [lia|done].
Qed.
Lemma wpi_mono {A} (p : prog Block A) (Q Q' : A -> PC -> Prop) pc :
  (forall a pc, Q a pc -> Q' a pc) -> wpi p Q pc -> wpi p Q' pc.
Proof. intros HQ. apply wpg_mono. auto. Qed.
Lemma wpg_wpi {A} (X : A -> nat) (p : prog Block A) (Q : A -> PC -> Prop) pc : wpg X p Q pc -> wpi p Q pc.
Proof. apply wpg_mono. auto with lia. Qed.

Lemma wpg_ret {A} (X : A -> nat) (a : A) (Q : A -> PC -> Prop) pc : X a = 0 -> Q a pc -> wpg X (Ret a) Q pc.
Proof. intros Hx HQ n. simpl. by rewrite Hx. Qed.
Lemma wp_ret {A} (a : A) (Q : A -> PC -> Prop) pc : Q a pc -> wpi (Ret a) Q pc.
Proof. by apply (wpg_ret (fun _ => 0)). Qed.
#[local] Hint Extern 0 (wpg _ _ _ _) => (solve [simple apply wp_ret; done]) : core.

Lemma wpg_bind {B A} (X : B -> nat) (Y : A -> nat) (p : prog Block B) (k : B -> prog Block A) R Q pc :
  wpg X p R pc -> (forall x pc, R x pc -> wpg (fun a => Y a - X x) (k x) Q pc) -> wpg Y (Bind p k) Q pc.
Proof.
  intros Hp Hk n. simpl. eapply wp_mono; [|apply Hp]. intros x [pc' n'] [Hn HR].
  eapply wp_mono; [|by apply Hk]. simpl in *. intros a l [? ?]. split; [lia|done].
Qed.
Lemma wp_bind {B A} (Y : A -> nat) (p : prog Block B) (k : B -> prog Block A) R Q pc :
  wpi p R pc -> (forall x pc, R x pc -> wpg Y (k x) Q pc) -> wpg Y (Bind p k) Q pc.
Proof.
  intros Hp Hk. apply (wpg_bind (fun _ => 0) Y _ _ R); [done|]. intros x pc' Hx.
  eapply wpg_mono; [|by apply Hk]. intros a pc2 HQ. split; [lia|done].
Qed.

(** An action counts as [X] asks for its result. *)
Definition counts {A} (X : A -> nat) (a : A) (pc pc' : PC) (o : option TxnIndex) : Prop :=
  X a = 0 \/ (X a = 1 /\ gains pc pc' o).

Lemma wpg_act {A} (X : A -> nat) (f : Block -> outcome Block A) (Q : A -> PC -> Prop) pc :
  (forall c pcs t, reach threads (c, pcs) -> executor_inv (c, pcs) -> pcs !! t = Some pc ->
     match f (blk c) with
     | Go a b => exists pc' c' o, vact pc c pc' c' o /\ counts X a pc pc' o /\
                   blk c' = b /\ Q a pc'
     | Wait => waits (blk c) pc
     | Crash => False
     end) ->
  wpg X (Atom f) Q pc.
Proof.
  intros Hf n w b ls t Hi Hl. pose proof Hi as (Hb & Hpcs & Hw).
  pose proof (vreach_reach _ _ _ _ _ Hw) as Hr.
  pose proof (executor_reach _ _ _ _ Hiter Hvm _ _ Hr) as Hx.
  assert (Hlt : w.1.2 !! t = Some pc) by (by rewrite Hpcs, list_lookup_fmap, Hl).
  specialize (Hf w.1.1 w.1.2 t). rewrite <- surjective_pairing in Hf.
  specialize (Hf Hr Hx Hlt). rewrite Hb in Hf. destruct (f b) as [a b'| |]; [|done..].
  destruct Hf as (pc' & c' & o & Ha & Hg & <- & HQ).
  split; [rewrite <- Hb; by eapply act_moves, vact_act|].
  destruct (Inv_step w b ls t pc n c' pc' o Hi Hl Ha) as (w' & n' & _ & Hi' & Hn & Hn' & Hadv).
  exists w', (pc', n'). split; [done|]. split; [exact Hadv|]. split; [|done].
  destruct Hg as [->|[-> Hg]]; simpl; [lia|]. destruct (Hn' Hg). lia.
Qed.

Lemma wp_act {A} (f : Block -> outcome Block A) (Q : A -> PC -> Prop) pc :
  (forall c pcs t, reach threads (c, pcs) -> executor_inv (c, pcs) -> pcs !! t = Some pc ->
     match f (blk c) with
     | Go a b => exists pc' c', act pc c pc' c' /\ blk c' = b /\ Q a pc'
     | Wait => waits (blk c) pc
     | Crash => False
     end) ->
  wpi (Atom f) Q pc.
Proof.
  intros Hf. apply (wpg_act (fun _ => 0)). intros c pcs t Hr Hi Hl. specialize (Hf c pcs t Hr Hi Hl).
  destruct (f (blk c)) as [a b| |]; [|done..]. destruct Hf as (pc' & c' & Ha & Hb & HQ).
  destruct (act_vact _ _ _ _ _ _ _ Ha) as [o Ho]. exists pc', c', o. split_and!; [done|by left|done..].
Qed.

(** The loops whose iterations count. *)
Definition goes_on {I A} (r : I + A) : nat := match r with inl _ => 1 | inr _ => 0 end.

Lemma wp_iter {I A} (body : I -> prog Block (I + A)) i (J : I -> PC -> Prop) (Q : A -> PC -> Prop) pc :
  J i pc ->
  (forall i pc, J i pc -> wpg goes_on (body i)
     (fun r pc => match r with inl i => J i pc | inr a => Q a pc end) pc) ->
  wpi (Iter body i) Q pc.
Proof.
  intros Hi Hb n. exists (fun i l => n <= l.2 /\ J i l.1). split; [done|]. left.
  intros i' [pc' n'] [Hn HJ]. eapply wp_mono; [|by apply Hb]. simpl in *.
  intros [i2|a] l [Hn' Hr]; (split; [split; [simpl in *; lia|done]|]); [simpl in *; lia|done].
Qed.

Lemma wpg_sbind {B A} (X : B -> nat) (Y : A -> nat) (p : prog Scheduler B) (k : B -> prog Scheduler A) R
  (Q : A -> PC -> Prop) pc :
  wpg X (on_scheduler p) R pc ->
  (forall x pc, R x pc -> wpg (fun a => Y a - X x) (on_scheduler (k x)) Q pc) ->
  wpg Y (on_scheduler (Bind p k)) Q pc.
Proof. apply (wpg_bind X Y (on_scheduler p) (fun x => on_scheduler (k x))). Qed.
Lemma wp_sbind {B A} (Y : A -> nat) (p : prog Scheduler B) (k : B -> prog Scheduler A) R
  (Q : A -> PC -> Prop) pc :
  wpi (on_scheduler p) R pc -> (forall x pc, R x pc -> wpg Y (on_scheduler (k x)) Q pc) ->
  wpg Y (on_scheduler (Bind p k)) Q pc.
Proof. apply (wp_bind Y (on_scheduler p) (fun x => on_scheduler (k x))). Qed.

(** A read of the scheduler's state, and a change of it. *)
Lemma wp_sload {A} (f : Scheduler -> A) Q pc :
  (forall c pcs t, executor_inv (c, pcs) -> pcs !! t = Some pc ->
     exists pc', act pc c pc' c /\ Q (f (sch c)) pc') ->
  wpi (on_scheduler (load f)) Q pc.
Proof.
  intros Hf. apply wp_act. intros c pcs t _ Hi Hl. simpl.
  destruct (Hf c pcs t Hi Hl) as (pc' & Ha & HQ). exists pc', c. split_and!; [done| |done].
  by destruct c as [[]].
Qed.

Lemma wp_sload_same {A} (f : Scheduler -> A) Q pc :
  (forall c pcs t, executor_inv (c, pcs) -> pcs !! t = Some pc -> Q (f (sch c)) pc) ->
  wpi (on_scheduler (load f)) Q pc.
Proof.
  intros Hf. apply wp_sload. intros c pcs t Hi Hl. exists pc. split; [apply AStutter|eauto].
Qed.

Lemma wp_smodify f Q pc pc' :
  (forall c pcs t, executor_inv (c, pcs) -> pcs !! t = Some pc -> act pc c pc' (upS f c)) ->
  Q tt pc' -> wpi (on_scheduler (modify f)) Q pc.
Proof.
  intros Hf HQ. apply wp_act. intros c pcs t _ Hi Hl. simpl. exists pc', (upS f c). eauto.
Qed.

(** A critical section on a status: the two outcomes, without and with a change. *)
Lemma wpg_section {A} (X : A -> nat) i (f : TransactionStatus -> option (A * TransactionStatus)) Q pc :
  (forall c pcs t, executor_inv (c, pcs) -> pcs !! t = Some pc -> i < length block) ->
  (forall c pcs t st, executor_inv (c, pcs) -> pcs !! t = Some pc -> status_at c i = Some st ->
     exists a st' pc' c' o, f st = Some (a, st') /\ vact pc c pc' c' o /\ counts X a pc pc' o /\ Q a pc' /\
       (c' = upS (set_status i st') c \/ (c' = c /\ st' = st))) ->
  wpg X (on_scheduler (status_section i f)) Q pc.
Proof.
  intros Hlt Hf. apply wpg_act. intros c pcs t _ Hi Hl. simpl.
  destruct (lookup_lt_is_Some_2 (txn_status (scheduler (blk c))) i) as [st Hst].
  { pose proof (proj1 (o_len _ _ _ (i_owned _ _ _ _ Hi))) as Hlen. simpl in Hlen. unfold sch in Hlen.
    rewrite Hlen. eauto. }
  rewrite Hst. destruct (Hf c pcs t st Hi Hl Hst) as (a & st' & pc' & c' & o & -> & Ha & Hg & HQ & Hc).
  exists pc', c', o. split_and!; [done|done| |done].
  destruct Hc as [-> | [-> ->]]; [done|]. rewrite list_insert_id by done.
  by destruct c as [[[]]].
Qed.

Lemma wp_section {A} i (f : TransactionStatus -> option (A * TransactionStatus)) Q pc :
  (forall c pcs t, executor_inv (c, pcs) -> pcs !! t = Some pc -> i < length block) ->
  (forall c pcs t st, executor_inv (c, pcs) -> pcs !! t = Some pc -> status_at c i = Some st ->
     exists a st' pc' c', f st = Some (a, st') /\ act pc c pc' c' /\ Q a pc' /\
       (c' = upS (set_status i st') c \/ (c' = c /\ st' = st))) ->
  wpi (on_scheduler (status_section i f)) Q pc.
Proof.
  intros Hlt Hf. apply wpg_section; [done|]. intros c pcs t st Hi Hl Hst.
  destruct (Hf c pcs t st Hi Hl Hst) as (a & st' & pc' & c' & ? & Ha & ? & ?).
  destruct (act_vact _ _ _ _ _ _ _ Ha) as [o Ho]. exists a, st', pc', c', o. split_and!; [done..|by left|done|done].
Qed.

(** ** The scheduler *)

Lemma wp_sret {A} (a : A) (Q : A -> PC -> Prop) pc : Q a pc -> wpi (on_scheduler (Ret a)) Q pc.
Proof. done. Qed.

Definition idle_after {A} (_ : A) (pc : PC) : Prop := pc = Idle.

(** The guards. *)
Lemma wp_guard_drop pc :
  pc = Held \/ (exists i inc, pc = Val i inc [] Plain) ->
  wpi (on_scheduler guard_drop) idle_after pc.
Proof.
  intros Hpc. apply wp_act. intros c pcs t _ Hi Hl. simpl.
  assert (Hg : 0 < num_active_tasks (sch c)).
  { pose proof (c_guards _ _ (i_counted _ _ _ _ Hi)) as Hg. simpl in Hg. rewrite Hg.
    pose proof (total_one guards _ _ _ Hl). destruct Hpc as [->|(? & ? & ->)]; simpl in *; lia. }
  unfold sch in Hg. apply Nat.ltb_lt in Hg as Hb. rewrite Hb.
  exists Idle. eexists. split_and!; [| |done].
  - destruct Hpc as [->|(i & inc & ->)]; [by apply AIdle, HeldDrop|by apply AVal, ValPass].
  - done.
Qed.

Lemma status_len c pcs :
  executor_inv (c, pcs) -> length (txn_status (sch c)) = length block.
Proof. intros Hi. by pose proof (proj1 (o_len _ _ _ (i_owned _ _ _ _ Hi))). Qed.

Lemma status_ge c pcs i : executor_inv (c, pcs) -> length block <= i -> status_at c i = None.
Proof. intros Hi Hge. apply lookup_ge_None. rewrite (status_len _ _ Hi). lia. Qed.

(** The bound check of [is_executed] and [try_incarnate]: an index out of bounds is given up. *)
Lemma wp_bound pc i :
  (forall c, status_at c i = None -> act pc c Held c) ->
  wpi (on_scheduler (load (fun s => length (txn_status s))))
    (fun len pc' => len = length block /\ pc' = if len <=? i then Held else pc) pc.
Proof.
  intros Hgive. apply wp_sload. intros c pcs t Hi _. rewrite (status_len _ _ Hi).
  destruct (Nat.leb_spec (length block) i).
  - exists Held. split; [|done]. apply Hgive. by eapply status_ge.
  - exists pc. split; [apply AStutter|done].
Qed.

(** [is_executed] of a claimed index. *)
Definition found {A} (r : option A) : nat := match r with Some _ => 1 | None => 0 end.

Lemma wp_is_executed_claim i :
  wpg found (on_scheduler (is_executed i))
    (fun r pc => pc = match r with Some inc => Val0 i inc | None => Held end) (ClaimV i).
Proof.
  eapply wp_sbind; [apply (wp_bound _ i)|].
  { intros c Hs. apply AIdle, ClaimVNone. intros inc. by rewrite Hs. }
  intros len pc [-> ->]. destruct (Nat.leb_spec (length block) i) as [|Hlt]; [by apply wpg_ret|].
  apply wpg_section; [done|]. intros c pcs t st Hi Hl Hst.
  destruct st as [inc cv|inc|inc cv|inc|inc].
  all: try (exists None; eexists _, Held, c, _; split_and!; [done| |by left|done|by right];
    apply VIdle, ClaimVNone; intros inc'; rewrite Hst; congruence).
  exists (Some inc). eexists _, (Val0 i inc), c, _. split_and!; [done| | |done|by right].
  - by apply VIdle, ClaimVTask.
  - right. split; [done|]. right. left. simpl. apply Nat.ltb_lt in Hlt as ->. lia.
Qed.

(** [try_incarnate], of a claimed index or after an abort. *)
Definition incarnated (i : TxnIndex) (r : option (Incarnation * option DependencyCondvar))
  (pc : PC) : Prop :=
  match r with
  | Some (inc, None) =>
      exists txn, block !! i = Some txn /\ pc = Exec i inc [] (execute_transaction i txn) Plain
  | Some (inc, Some cv) => pc = Ticket cv
  | None => pc = Held
  end.

Lemma wp_try_incarnate i : wpg found (on_scheduler (try_incarnate i)) (incarnated i) (ClaimE i).
Proof.
  eapply wp_sbind; [apply (wp_bound _ i)|].
  { intros c Hs. apply AIdle, ClaimETask, IncarnateNone. intros inc cv. by rewrite Hs. }
  intros len pc [-> ->]. destruct (Nat.leb_spec (length block) i) as [|Hlt]; [by apply wpg_ret|].
  apply wpg_section; [done|]. intros c pcs t st Hi Hl Hst.
  destruct (lookup_lt_is_Some_2 block i Hlt) as [txn Htxn].
  destruct st as [inc [cv|]|inc|inc cv|inc|inc].
  3-6: exists None; eexists _, Held, c, _; split_and!; [done| |by left|done|by right];
    apply VIdle, ClaimETask, IncarnateNone; intros inc' cv'; rewrite Hst; congruence.
  - exists (Some (inc, Some cv)). do 4 eexists. split_and!; [done| | |done|by left].
    + apply VIdle, ClaimETask. by eapply IncarnateTicket.
    + right. split; [done|by left].
  - exists (Some (inc, None)). do 4 eexists. split_and!; [done| | |by exists txn|by left].
    + apply VIdle, ClaimETask. by eapply IncarnateStart.
    + right. split; [done|by left].
Qed.

(** What a thread that has a task is. *)
Definition task_pc (task : SchedulerTask) (pc : PC) : Prop :=
  match task with
  | ValidationTask (i, inc) => pc = Val0 i inc
  | ExecutionTask (i, inc) cv => incarnated i (Some (inc, cv)) pc
  | NoTask => pc = Idle
  | Done => pc = Finished
  end.

Lemma wp_drop_ret {A} (X : A -> nat) (a : A) (Q : A -> PC -> Prop) :
  X a = 0 -> Q a Idle -> wpg X (on_scheduler (guard_drop ;; Ret a)) Q Held.
Proof.
  intros Hx HQ. eapply wp_sbind; [apply wp_guard_drop; by left|]. intros b pc ->. by apply wpg_ret.
Qed.

(** A claimed index: a task, or the guard is given back. *)
Definition claimed_validation (i : TxnIndex) : prog Scheduler (option Version) :=
  r <- is_executed i ;;
  match r with
  | Some incarnation => Ret (Some (i, incarnation))
  | None => guard_drop ;; Ret None
  end.
Definition claimed_execution (i : TxnIndex) : prog Scheduler (option (Version * option DependencyCondvar)) :=
  r <- try_incarnate i ;;
  match r with
  | Some (incarnation, maybe_condvar) => Ret (Some ((i, incarnation), maybe_condvar))
  | None => guard_drop ;; Ret None
  end.

Definition validation_pc (r : option Version) (pc : PC) : Prop :=
  match r with Some v => task_pc (ValidationTask v) pc | None => pc = Idle end.
Definition execution_pc (r : option (Version * option DependencyCondvar)) (pc : PC) : Prop :=
  match r with Some (v, cv) => task_pc (ExecutionTask v cv) pc | None => pc = Idle end.

Lemma wp_claimed_validation i : wpg found (on_scheduler (claimed_validation i)) validation_pc (ClaimV i).
Proof.
  eapply wpg_sbind; [apply wp_is_executed_claim|].
  intros [inc|] pc ->; [by apply wpg_ret|by apply wp_drop_ret].
Qed.
Lemma wp_claimed_execution i : wpg found (on_scheduler (claimed_execution i)) execution_pc (ClaimE i).
Proof.
  eapply wpg_sbind; [apply wp_try_incarnate|].
  intros [[inc cv]|] pc Hpc; [by apply wpg_ret|]. rewrite Hpc. by apply wp_drop_ret.
Qed.

(** ** A thread that looks for a task

    What an iteration of [next_task] finds, if nothing has moved since its start: the indices, the
    marks and the decreases are those of its start, and the other threads wait or look for a task
    too.  So it takes one, or sets the done marker. *)

Abbreviation wphc := (wph Inv (fun b l => waits b l.1) moves World_less World_level snd rests).
Abbreviation still := (unmoved (fun b l => waits b l.1) World_level rests).

Section Polling.
Context (w0 : World).

Definition wpk {A} (h : Prop) (X : A -> nat) (p : prog Block A) (Q : Prop -> A -> PC -> Prop) (pc : PC) : Prop :=
  forall n, wphc w0 p h (fun h a l => X a + n <= l.2 /\ Q h a l.1) (pc, n).

(** What is known of a state if nothing has moved. *)
Definition same_start (c : Shared) (pcs : list PC) : Prop :=
  pool_of block c pcs = pool_of block w0.1.1 w0.1.2 /\ undisturbed c w0.1.1 /\
  forall t pc, pcs !! t = Some pc -> waits (blk c) pc \/ (cold c -> looks pc).

Lemma still_start h w b ls w' : Inv w b ls -> still w0 h w b ls w' -> h /\ same_start w.1.1 w.1.2.
Proof.
  intros (Hb & Hpcs & _) (Hh & (_ & Hp & Hu) & Hr & _). split; [done|]. split_and!; [exact Hp|exact Hu|].
  intros t pc Hl. rewrite Hpcs in Hl. apply list_lookup_fmap_Some in Hl as (l & -> & Hl).
  destruct (Forall_lookup_1 _ _ _ _ Hr Hl) as [?|?]; [left; by rewrite Hb|by right].
Qed.

Lemma wpk_mono {A} (h : Prop) (X X' : A -> nat) (p : prog Block A) (Q Q' : Prop -> A -> PC -> Prop) pc :
  (forall h a pc, Q h a pc -> X' a <= X a /\ Q' h a pc) -> wpk h X p Q pc -> wpk h X' p Q' pc.
Proof.
  intros HQ Hp n. eapply wph_mono; [|apply Hp]. intros h' a l [? Hq]. destruct (HQ _ _ _ Hq). split; [lia|done].
Qed.

Lemma wpk_ret {A} (h : Prop) (X : A -> nat) (a : A) (Q : Prop -> A -> PC -> Prop) pc :
  X a = 0 -> Q h a pc -> wpk h X (Ret a) Q pc.
Proof. intros Hx HQ n. simpl. by rewrite Hx. Qed.

Lemma wpk_bind {B A} (h : Prop) (X : B -> nat) (Y : A -> nat) (p : prog Scheduler B) (k : B -> prog Scheduler A)
  R (Q : Prop -> A -> PC -> Prop) pc :
  wpk h X (on_scheduler p) R pc ->
  (forall h x pc, R h x pc -> wpk h (fun a => Y a - X x) (on_scheduler (k x)) Q pc) ->
  wpk h Y (on_scheduler (Bind p k)) Q pc.
Proof.
  intros Hp Hk n. simpl. eapply wph_mono; [|apply Hp]. intros h' x [pc' n'] [Hn HR].
  eapply wph_mono; [|by apply Hk]. simpl in *. intros h2 a l [? ?]. split; [lia|done].
Qed.

Lemma wpk_wpg {A} (h : Prop) (X : A -> nat) (p : prog Block A) (Q : A -> PC -> Prop) pc :
  loopless p -> wpg X p Q pc -> wpk h X p (fun h' a pc => (h' -> h) /\ Q a pc) pc.
Proof.
  intros Hd Hp n. eapply wph_mono; [|eapply wp_wph; [exact Hd|intros Hh; exact Hh|apply Hp]].
  intros h' a l (? & ? & ?). by split_and!.
Qed.

(** An action, with what is known before it; one that makes the variant lower moves something. *)
Lemma wpk_act {A} (h : Prop) (X : A -> nat) (f : Scheduler -> outcome Scheduler A)
  (Q : Prop -> A -> PC -> Prop) pc :
  (forall c pcs t, reach threads (c, pcs) -> executor_inv (c, pcs) -> pcs !! t = Some pc ->
     match f (sch c) with
     | Go a s => exists pc' c' o, vact pc c pc' c' o /\ counts X a pc pc' o /\
         blk c' = set_scheduler s (blk c) /\
         forall h' : Prop, (h' -> h /\ same_start c pcs /\ ~ gains pc pc' o /\
             pool_of block c' (<[t := pc']> pcs) = pool_of block c pcs) -> Q h' a pc'
     | Wait => waits (blk c) pc
     | Crash => False
     end) ->
  wpk h X (on_scheduler (Atom f)) Q pc.
Proof.
  intros Hf n w b ls t Hi Hl. pose proof Hi as (Hb & Hpcs & Hw).
  pose proof (vreach_reach _ _ _ _ _ Hw) as Hr.
  pose proof (executor_reach _ _ _ _ Hiter Hvm _ _ Hr) as Hx.
  assert (Hlt : w.1.2 !! t = Some pc) by (by rewrite Hpcs, list_lookup_fmap, Hl).
  specialize (Hf w.1.1 w.1.2 t). rewrite <- surjective_pairing in Hf.
  specialize (Hf Hr Hx Hlt). unfold sch in Hf. rewrite Hb in Hf.
  destruct (f (scheduler b)) as [a s| |]; [|done..].
  destruct Hf as (pc' & c' & o & Ha & Hg & Hbc & HQ). rewrite <- Hbc.
  split; [rewrite <- Hb; by eapply act_moves, vact_act|].
  destruct (Inv_step w b ls t pc n c' pc' o Hi Hl Ha) as (w' & n' & Hw' & Hi' & Hn & Hn' & Hadv).
  exists w', (pc', n'). split_and!; [exact Hi'|exact Hadv| |].
  - destruct Hg as [->|[-> Hg]]; simpl; [lia|]. destruct (Hn' Hg). lia.
  - apply HQ. intros Hst. destruct (still_start h w b ls w' Hi Hst) as [Hh Hs]. split_and!; [done|done| |].
    + intros Hg2. destruct (Hn' Hg2) as [_ Hno]. by apply Hno, Hst.
    + destruct Hst as (_ & _ & _ & _ & Hp & _). unfold variant in Hp. by rewrite Hw' in Hp.
Qed.

(** A read of the scheduler's state, and an update of it. *)
Lemma wpk_load {B A} (h : Prop) (X : A -> nat) (f : Scheduler -> B) (k : B -> prog Scheduler A)
  (Q : Prop -> A -> PC -> Prop) pc :
  (forall c pcs t, reach threads (c, pcs) -> executor_inv (c, pcs) -> pcs !! t = Some pc ->
     exists pc', vact pc c pc' c None /\
       forall h' : Prop, (h' -> h /\ same_start c pcs) -> wpk h' X (on_scheduler (k (f (sch c)))) Q pc') ->
  wpk h X (on_scheduler (Bind (load f) k)) Q pc.
Proof.
  intros Hf. apply (wpk_bind _ (fun _ => 0) _ _ _ (fun h x pc => wpk h X (on_scheduler (k x)) Q pc)).
  - apply wpk_act. intros c pcs t Hr Hx Hl. destruct (Hf c pcs t Hr Hx Hl) as (pc' & Ha & HQ).
    exists pc', c, None. split_and!; [done|by left|by destruct c as [[]]|].
    intros h' Hh. apply HQ. intros Hh'. by destruct (Hh Hh') as (? & ? & _).
  - intros h' x pc' Hk. eapply wpk_mono; [|exact Hk]. intros h2 a pc2 HQ. split; [lia|done].
Qed.

Lemma wpk_stay {B A} (h : Prop) (X : A -> nat) (f : Scheduler -> B) (k : B -> prog Scheduler A)
  (Q : Prop -> A -> PC -> Prop) pc :
  (forall c pcs (h' : Prop), executor_inv (c, pcs) -> (h' -> h /\ same_start c pcs) ->
     wpk h' X (on_scheduler (k (f (sch c)))) Q pc) ->
  wpk h X (on_scheduler (Bind (load f) k)) Q pc.
Proof.
  intros Hk. apply wpk_load. intros c pcs t _ Hx _. exists pc. split; [apply VStay|]. intros h' Hh. by eapply Hk.
Qed.

Lemma wpk_num_txns {A} (h : Prop) (X : A -> nat) (k : nat -> prog Scheduler A) Q pc :
  (forall h' : Prop, (h' -> h) -> wpk h' X (on_scheduler (k (length block))) Q pc) ->
  wpk h X (on_scheduler (Bind (load num_txns) k)) Q pc.
Proof.
  intros Hk. apply wpk_stay. intros c pcs h' Hx Hh.
  pose proof (o_len _ _ _ (i_owned _ _ _ _ Hx)) as (_ & _ & _ & Hn). simpl in Hn. rewrite Hn.
  apply Hk. intros Hh'. by apply Hh.
Qed.

(** What is the same as at the start. *)
Lemma start_indices c pcs : same_start c pcs ->
  length block - execution_idx (sch c) = length block - execution_idx (sch w0.1.1) /\
  length block - validation_idx (sch c) = length block - validation_idx (sch w0.1.1).
Proof. intros (Hp & _). unfold pool_of in Hp. by simplify_eq. Qed.
Lemma start_done c pcs : same_start c pcs -> done_marker (sch c) = done_marker (sch w0.1.1).
Proof.
  intros (Hp & _). unfold pool_of in Hp. simplify_eq.
  by destruct (done_marker (sch c)), (done_marker (sch w0.1.1)).
Qed.
Lemma start_decreases c pcs : same_start c pcs -> decrease_cnt (sch c) = decrease_cnt (sch w0.1.1).
Proof. intros (_ & Hu & _). apply Hu. Qed.

Lemma start_tasks c pcs t pc : reach threads (c, pcs) -> executor_inv (c, pcs) -> pcs !! t = Some pc ->
  same_start c pcs -> cold c -> num_active_tasks (sch c) = 0.
Proof.
  intros Hr Hx Hl (_ & _ & Hrest) Hc. assert (Hth : 0 < threads).
  { rewrite <- (reach_length _ _ _ _ _ Hr). simpl. apply lookup_lt_Some in Hl. lia. }
  pose proof (c_guards _ _ (i_counted _ _ _ _ Hx)) as Hg. simpl in Hg. rewrite Hg.
  assert (Hall : forall t' pc, pcs !! t' = Some pc -> at_rest block c pc).
  { apply (none_waits block c pcs (i_owned _ _ _ _ Hx) (i_counted _ _ _ _ Hx) (i_locked _ _ _ _ Hx)
      (ordered_reach _ _ _ _ _ Hr) (progressing_reach _ _ _ _ _ Hth Hr)).
    intros t' pc' Hp. destruct (Hrest t' pc' Hp) as [Hwt|Hlk]; [by left|right].
    split; [auto|apply Hc]. }
  destruct (decide (total guards pcs = 0)) as [|Hne]; [done|].
  destruct (total_pos guards pcs) as (t' & pc' & Hp & Hpos); [lia|].
  destruct (Hall t' pc' Hp) as [Hlk _]. destruct pc'; simpl in *; done || lia.
Qed.

(** [check_done]: when nothing is left to claim, it sets the done marker. *)
Definition in_vain {A} (h : Prop) (_ : A) (pc : PC) : Prop := ~ h /\ pc = Idle.

(** What follows from what is known so far. *)
Ltac known :=
  repeat match goal with
  | Hh : ?h, Hk : ?h -> _ |- _ => is_var h; specialize (Hk Hh)
  | Hk : ?h /\ _ |- _ => is_var h; destruct Hk
  end.

Lemma wpk_give_up (h : Prop) v e tasks (k : prog Scheduler bool) : (h -> False) ->
  min e v < length block \/ 0 < tasks ->
  wpk h (fun _ => 0) (on_scheduler (if (min e v <? length block) || (0 <? tasks) then Ret false else k)) in_vain Idle.
Proof.
  intros Hh Hc. replace (_ || _) with true; [by apply wpk_ret|].
  symmetry. apply orb_true_iff. rewrite !Nat.ltb_lt. exact Hc.
Qed.

Lemma wpk_set_done (h : Prop) : (h -> done_marker (sch w0.1.1) = false) ->
  wpk h (fun _ => 0) (on_scheduler (modify (set_done_marker true) ;; Ret true)) in_vain Check5.
Proof.
  intros Hd. apply (wpk_bind _ (fun _ => 0) _ _ _ in_vain); [|intros h' [] pc [? ->]; by apply wpk_ret].
  apply wpk_act. intros c pcs t _ _ _. eexists _, _, _.
  split_and!; [apply VIdle, CheckDone|by left|done|]. intros h' Hh. split; [|done]. intros Hh'.
  destruct (Hh Hh') as (Hh0 & Hs & _ & Hp). apply start_done in Hs. rewrite (Hd Hh0) in Hs.
  unfold pool_of, sch in *. simpl in Hp. rewrite Hs in Hp. by simplify_eq.
Qed.

Lemma wpk_check_done h :
  (h -> cold w0.1.1 /\ done_marker (sch w0.1.1) = false) ->
  wpk h (fun _ => 0) (on_scheduler check_done) in_vain Idle.
Proof.
  intros Hcold. assert (Hlen : forall c pcs, executor_inv (c, pcs) -> num_txns (sch c) = length block).
  { intros c pcs Hx. by pose proof (o_len _ _ _ (i_owned _ _ _ _ Hx)) as (_ & _ & _ & Hn). }
  assert (Hsame : forall c pcs, h -> same_start c pcs -> cold c).
  { intros c pcs Hh [? ?]%start_indices. destruct (Hcold Hh) as [[? ?] _]. split; lia. }
  apply wpk_load. intros c1 pcs1 t1 _ _ _. set (cnt := decrease_cnt (sch c1)).
  eexists. split; [apply (VIdle hash_iter execute_transaction block Idle c1), IdleCheck|]. intros h1 Hh1. fold cnt.
  apply wpk_load. intros c2 pcs2 t2 _ Hx2 _. set (v := validation_idx (sch c2)).
  destruct (Nat.le_gt_cases (length block) v) as [Hv|Hv].
  2: { exists Idle. split; [by apply VForget|]. intros h2 Hh2.
    apply wpk_stay. intros c3 pcs3 h3 _ Hh3. apply wpk_stay. intros c4 pcs4 h4 _ Hh4.
    apply wpk_num_txns. intros h5 Hh5. apply wpk_give_up; [|left; lia]. intros Hh. known.
    destruct (Hsame c2 pcs2) as [_ ?]; [done..|unfold v in Hv; lia]. }
  exists (Check2 cnt). split; [apply (VIdle hash_iter execute_transaction block (Check1 cnt) c2), CheckVal; by rewrite (Hlen _ _ Hx2)|].
  intros h2 Hh2. apply wpk_load. intros c3 pcs3 t3 _ Hx3 _. set (e := execution_idx (sch c3)).
  destruct (Nat.le_gt_cases (length block) e) as [He|He].
  2: { exists Idle. split; [by apply VForget|]. intros h3 Hh3. apply wpk_stay. intros c4 pcs4 h4 _ Hh4.
    apply wpk_num_txns. intros h5 Hh5. apply wpk_give_up; [|left; lia]. intros Hh. known.
    destruct (Hsame c3 pcs3) as [? _]; [done..|unfold e in He; lia]. }
  exists (Check3 cnt). split; [apply (VIdle hash_iter execute_transaction block (Check2 cnt) c3), CheckExec; by rewrite (Hlen _ _ Hx3)|].
  intros h3 Hh3. apply wpk_load. intros c4 pcs4 t4 Hr4 Hx4 Hl4. set (tasks := num_active_tasks (sch c4)).
  destruct (decide (tasks = 0)) as [Ht|Ht].
  2: { exists Idle. split; [by apply VForget|]. intros h4 Hh4.
    apply wpk_num_txns. intros h5 Hh5. apply wpk_give_up; [|right; lia]. intros Hh. known.
    apply Ht, (start_tasks c4 pcs4 t4 (Check3 cnt)); [done..|]. by apply (Hsame c4 pcs4). }
  exists (Check4 cnt). split; [by apply (VIdle hash_iter execute_transaction block (Check3 cnt) c4), CheckTasks|].
  intros h4 Hh4. apply wpk_num_txns. intros h5 Hh5. rewrite Ht.
  replace (min e v <? length block) with false by (symmetry; apply Nat.ltb_ge; lia). simpl.
  apply wpk_load. intros c5 pcs5 t5 _ _ _. destruct (Nat.eqb_spec cnt (decrease_cnt (sch c5))) as [Hc|Hc].
  - exists Check5. split; [by apply (VIdle hash_iter execute_transaction block (Check4 cnt) c5), CheckCnt|].
    intros h6 Hh6. apply wpk_set_done. intros Hh. known. tauto.
  - exists Idle. split; [by apply VForget|]. intros h6 Hh6. apply wpk_ret; [done|]. split; [|done].
    intros Hh. known. apply Hc. unfold cnt. by rewrite (start_decreases c1 pcs1), (start_decreases c5 pcs5).
Qed.

Lemma wpk_sbind {B A} (h : Prop) (Y : A -> nat) (p : prog Scheduler B) (k : B -> prog Scheduler A)
  R (Q : Prop -> A -> PC -> Prop) pc :
  wpk h (fun _ => 0) (on_scheduler p) R pc ->
  (forall h x pc, R h x pc -> wpk h Y (on_scheduler (k x)) Q pc) ->
  wpk h Y (on_scheduler (Bind p k)) Q pc.
Proof.
  intros Hp Hk. apply (wpk_bind _ (fun _ => 0) _ _ _ R); [done|]. intros h' x pc' HR.
  eapply wpk_mono; [|by apply Hk]. intros h2 a pc2 HQ. split; [lia|done].
Qed.

(** Claiming an index, if one is left; [idx] is one of the two indices. *)
Section Claim.
Context {A : Type} (idx : Scheduler -> nat) (put : nat -> Scheduler -> Scheduler) (mk : nat -> PC).
Context (claimed : nat -> prog Scheduler (option A)) (Q : option A -> PC -> Prop).
Context (claimed_loopless : forall i, loopless (claimed i)).
Context (wp_claimed : forall i, wpg found (on_scheduler (claimed i)) Q (mk i)) (Qnone : Q None Idle).
Context (claim_act : forall c : Shared, vact Held c (mk (idx (sch c))) (upS (fun s => put (idx s + 1) s) c) None).
Context (claim_moves : forall (c : Shared) pcs pcs', idx (sch c) < length block ->
  pool_of block (upS (fun s => put (idx s + 1) s) c) pcs' <> pool_of block c pcs).
Context (idx_start : forall c pcs, same_start c pcs ->
  length block - idx (sch c) = length block - idx (sch w0.1.1)).
Context (idx_aim : forall (c : Shared), idx (sch c) < num_txns (sch c) ->
  execution_idx (sch c) < num_txns (sch c) \/ validation_idx (sch c) < num_txns (sch c)).

Definition takes (h : Prop) (r : option A) (pc : PC) : Prop := ~ h /\ Q r pc.

Lemma wpk_claim (h : Prop) : (h -> idx (sch w0.1.1) < length block) ->
  wpk h found (on_scheduler
    (guard_new ;; i <- Atom (fun s => Go (idx s) (put (idx s + 1) s)) ;; claimed i)) takes Aim.
Proof.
  intros Hidx. apply (wpk_sbind _ _ _ _ (fun h' _ pc => (h' -> h) /\ pc = Held)).
  { apply wpk_act. intros c pcs t _ _ _. eexists _, _, _.
    split_and!; [apply VIdle, IdleGuard|by left|done|]. intros h' Hh. split; [|done]. intros Hh'. by apply Hh. }
  intros h1 [] pc [Hh1 ->]. apply (wpk_sbind _ _ _ _ (fun h' i pc => ~ h' /\ pc = mk i)).
  { apply wpk_act. intros c pcs t _ _ _. eexists _, _, _.
    split_and!; [apply claim_act|by left|done|]. intros h' Hh. split; [|done]. intros Hh'.
    destruct (Hh Hh') as (Hh0 & Hs & _ & Hp). apply claim_moves in Hp; [done|].
    specialize (Hidx (Hh1 Hh0)). apply idx_start in Hs. lia. }
  intros h2 i pc [Hh2 ->]. eapply wpk_mono; [|apply wpk_wpg; [apply loopless_zoom, claimed_loopless|apply wp_claimed]].
  intros h' r pc [Hh' HQ]. split; [done|]. split; [|done]. auto.
Qed.

Lemma wpk_try (h : Prop) :
  (h -> done_marker (sch w0.1.1) = false /\ (length block <= idx (sch w0.1.1) -> cold w0.1.1)) ->
  wpk h found (on_scheduler
    (i <- load idx ;; n <- load num_txns ;;
     if n <=? i then (check_done ;; Ret None)
     else guard_new ;; i <- Atom (fun s => Go (idx s) (put (idx s + 1) s)) ;; claimed i)) takes Idle.
Proof.
  intros Hh. apply wpk_load. intros c pcs t _ Hx _.
  pose proof (o_len _ _ _ (i_owned _ _ _ _ Hx)) as (_ & _ & _ & Hn). simpl in Hn.
  destruct (Nat.leb_spec (length block) (idx (sch c))) as [Hi|Hi].
  - exists Idle. split; [apply VStay|]. intros h1 Hh1. apply wpk_num_txns. intros h2 Hh2.
    replace (length block <=? idx (sch c)) with true by (symmetry; by apply Nat.leb_le).
    apply (wpk_sbind _ _ _ _ in_vain); [|intros h3 b pc [? ->]; by apply wpk_ret].
    apply wpk_check_done. intros Hk. known. destruct Hh as [Hd Hcold]. split; [|done]. apply Hcold.
    match goal with Hs : same_start c pcs |- _ => apply idx_start in Hs end. lia.
  - exists Aim. split; [apply (VIdle hash_iter execute_transaction block Idle c Aim c), IdleAim, idx_aim; lia|].
    intros h1 Hh1. apply wpk_num_txns. intros h2 Hh2.
    replace (length block <=? idx (sch c)) with false by (symmetry; by apply Nat.leb_gt).
    apply wpk_claim. intros Hk. known.
    match goal with Hs : same_start c pcs |- _ => apply idx_start in Hs end. lia.
Qed.
End Claim.

Lemma loopless_section {A} i (f : TransactionStatus -> option (option A * TransactionStatus)) :
  loopless (len <- load (fun s : Scheduler => length (txn_status s)) ;;
            if len <=? i then Ret None else status_section i f).
Proof. split; [done|]. intros len. by destruct (_ <=? _). Qed.

Lemma wpk_try_validate (h : Prop) :
  (h -> done_marker (sch w0.1.1) = false /\
        (length block <= validation_idx (sch w0.1.1) -> cold w0.1.1)) ->
  wpk h found (on_scheduler try_validate_next_version) (takes validation_pc) Idle.
Proof.
  apply (wpk_try validation_idx set_validation_idx ClaimV claimed_validation).
  - intros i. split; [apply loopless_section|]. by intros [inc|].
  - apply wp_claimed_validation.
  - done.
  - intros c. apply (VIdle _ _ _ _ _ _ _ (HeldClaimV _ _ c)).
  - intros c pcs pcs' Hlt Hp. unfold pool_of, sch in *. simpl in *. simplify_eq. lia.
  - intros c pcs Hs. apply (start_indices _ _ Hs).
  - auto.
Qed.

Lemma wpk_try_execute (h : Prop) :
  (h -> done_marker (sch w0.1.1) = false /\
        (length block <= execution_idx (sch w0.1.1) -> cold w0.1.1)) ->
  wpk h found (on_scheduler try_execute_next_version) (takes execution_pc) Idle.
Proof.
  apply (wpk_try execution_idx set_execution_idx ClaimE claimed_execution).
  - intros i. split; [apply loopless_section|]. by intros [[inc cv]|].
  - apply wp_claimed_execution.
  - done.
  - intros c. apply (VIdle _ _ _ _ _ _ _ (HeldClaimE _ _ c)).
  - intros c pcs pcs' Hlt Hp. unfold pool_of, sch in *. simpl in *. simplify_eq. lia.
  - intros c pcs Hs. apply (start_indices _ _ Hs).
  - auto.
Qed.

(** One iteration of [next_task]. *)
Definition next_task_body : prog Scheduler (unit + SchedulerTask) :=
  d <- done ;;
  if (d : bool) then Ret (inr Done)
  else
    idx_to_validate <- load validation_idx ;;
    idx_to_execute <- load execution_idx ;;
    if idx_to_validate <? idx_to_execute then
      r <- try_validate_next_version ;;
      match r with
      | Some version => Ret (inr (ValidationTask version))
      | None => Ret (inl tt)
      end
    else
      r <- try_execute_next_version ;;
      match r with
      | Some (version, maybe_condvar) => Ret (inr (ExecutionTask version maybe_condvar))
      | None => Ret (inl tt)
      end.

Definition exits {I A} (r : I + A) : nat := match r with inl _ => 0 | inr _ => 1 end.

Lemma wpk_next_task_body :
  wpk True exits (on_scheduler next_task_body) (fun h r pc =>
    ~ h /\ match r with inl _ => pc = Idle | inr task => task_pc task pc end) Idle.
Proof.
  apply (wpk_bind _ Nat.b2n _ _ _ (fun h (d : bool) pc =>
    if d then ~ h /\ pc = Finished else (h -> done_marker (sch w0.1.1) = false) /\ pc = Idle)).
  { apply wpk_act. intros c pcs t _ _ _. destruct (done_marker (sch c)) eqn:Hd.
    - assert (Hg : gains Idle Finished None) by (right; right; simpl; lia).
      exists Finished, c, None. split_and!; [by apply (VIdle _ _ _ _ _ _ _ (IdleFinish _ _ c Hd))|right; by split|by destruct c as [[]]|].
      intros h Hh. split; [|done]. intros Hk. by apply Hh in Hk as (_ & _ & Hn & _).
    - exists Idle, c, None. split_and!; [apply VStay|by left|by destruct c as [[]]|].
      intros h Hh. split; [|done]. intros Hk. apply Hh in Hk as (_ & Hs & _). by rewrite <- (start_done _ _ Hs). }
  intros h [] pc [Hh ->]; [by apply wpk_ret|].
  apply (wpk_mono _ exits _ _ _ _ _ (fun h a pc HQ => conj (Nat.le_sub_l _ _) HQ)).
  apply wpk_stay. intros c1 pcs1 h1 _ Hh1. set (v := validation_idx (sch c1)).
  apply wpk_stay. intros c2 pcs2 h2 _ Hh2. set (e := execution_idx (sch c2)).
  assert (Hi : h2 -> done_marker (sch w0.1.1) = false /\
    length block - e = length block - execution_idx (sch w0.1.1) /\
    length block - v = length block - validation_idx (sch w0.1.1)).
  { intros Hk. known. repeat match goal with Hs : same_start _ _ |- _ => apply start_indices in Hs end.
    unfold e, v. tauto. }
  destruct (Nat.ltb_spec v e) as [Hve|Hve].
  - eapply wpk_bind; [apply wpk_try_validate|].
    + intros Hk. destruct (Hi Hk) as (? & ? & ?). split; [done|]. intros ?. split; lia.
    + intros h3 [ver|] pc [? HQ]; by apply wpk_ret.
  - eapply wpk_bind; [apply wpk_try_execute|].
    + intros Hk. destruct (Hi Hk) as (? & ? & ?). split; [done|]. intros ?. split; lia.
    + intros h3 [[ver cv]|] pc [? HQ]; by apply wpk_ret.
Qed.
End Polling.

(** The loop that looks for a task: an iteration may not count, but is not in vain. *)
Lemma wp_poll {I A} (body : I -> prog Block (I + A)) i (J : I -> PC -> Prop) (Q : A -> PC -> Prop) pc :
  J i pc -> (forall i pc, J i pc -> looks pc) ->
  (forall w0 i pc, J i pc -> wpk w0 True exits (body i)
     (fun h r pc => ~ h /\ match r with inl i => J i pc | inr a => Q a pc end) pc) ->
  wpx (Iter body i) Q pc.
Proof.
  intros Hi HJ Hb n. exists (fun i l => n <= l.2 /\ J i l.1). split; [done|]. right.
  intros i' [pc' n'] w0 [Hn Hj]. eapply wph_mono; [|by apply Hb]. simpl in *.
  intros h [i2|a] l (Hn' & Hh & Hr); (split; [split; [simpl in *; lia|done]|]); [|done].
  split; [done|]. intros w _. by eapply HJ.
Qed.

Lemma wp_next_task : wpx (on_scheduler next_task) task_pc Idle.
Proof.
  apply (wp_poll (fun _ => on_scheduler next_task_body) tt (fun _ pc => pc = Idle)); [done|by intros _ pc ->|].
  intros w0 [] pc ->. apply wpk_next_task_body.
Qed.

(** ** Reads of the shared map *)

Lemma wp_dbind {X A} (p : prog (MVShared K V) X) (k : X -> prog (MVShared K V) A) R
  (Q : A -> PC -> Prop) pc :
  wpi (on_data p) R pc -> (forall x pc, R x pc -> wpi (on_data (k x)) Q pc) ->
  wpi (on_data (Bind p k)) Q pc.
Proof. apply (wp_bind _ (on_data p) (fun x => on_data (k x))). Qed.

(** A thread that reads: its program counter is a function of the progress of the read. *)
Section Reader.
Context (i : TxnIndex) (key : K) (mk : Sub -> PC).
Context (Hprogress : forall sub, progress (mk sub) = Some (i, sub)).
Context (Hmk : forall sub c sub' c', read_step i key sub c sub' c' -> act (mk sub) c (mk sub') c').

Lemma wp_load_flag j (e : Entry V) iter acc :
  wpi (on_data (load_flag key j))
    (fun f pc => match read_entry j {| flag := f; cell := cell e |} acc with
       | inl r => pc = mk (ReadDone key r)
       | inr acc' => pc = mk (reading key iter acc')
       end) (mk (Reading key ((j, e) :: iter) acc)).
Proof.
  apply wp_act. intros c pcs t _ Hi Hl. simpl.
  destruct (l_sub _ (i_locked _ _ _ _ Hi) t _ i _ Hl (Hprogress _)) as [(b & Hb & Hs) _].
  destruct (shape_cons _ _ _ _ _ (or_intror Hs)) as (Hj & e' & He & Hc & _).
  change (mv_data (versioned_data_cache (blk c))) with (data c). simpl in He.
  rewrite tree_of_lookup, He.
  exists (match read_entry j {| flag := flag e'; cell := cell e |} acc with
    | inl r => mk (ReadDone key r) | inr acc' => mk (reading key iter acc') end), c.
  split_and!; [| |by case_match].
  - destruct (read_entry _ _ _) as [r|acc'] eqn:Hr; apply Hmk; [by eapply ReadStop|by eapply ReadNext].
  - by destruct c as [[? []]].
Qed.

Lemma wp_shared_read_loop iter : forall acc,
  wpi (on_data (shared_read_loop key iter acc))
    (fun r pc => pc = mk (ReadDone key r)) (mk (reading key iter acc)).
Proof.
  induction iter as [|[j e] iter IH]; intros acc; [done|].
  apply (wp_dbind _ _ (fun f pc => match read_entry j {| flag := f; cell := cell e |} acc with
    | inl r => pc = mk (ReadDone key r) | inr acc' => pc = mk (reading key iter acc') end));
    [apply wp_load_flag|]. intros f pc.
  destruct (read_entry _ _ _) as [r|acc']; intros ->; [done|apply IH].
Qed.

Context (fin : ReadOutput V -> PC).
Context (Hknown : forall (c : Shared) sub, pc_known execute_transaction block agg c (mk sub) -> sub_known agg (log c) sub).
Context (Hend : forall (c : Shared) r, r <> Panic ->
  act (mk (ReadDone key r)) c (fin r) (upD (unlock_key key) c)).
Context (Hnone : forall c : Shared, data c !! key = None -> act (mk Plain) c (fin (Throw NotFound)) c).

Lemma wp_shared_read :
  wpi (on_data (shared_read key i)) (fun r pc => r <> Panic /\ pc = fin r) (mk Plain).
Proof.
  apply (wp_dbind _ _ (fun t pc => pc = match t with
    | Some tree => mk (reading key (range_back tree i) None) | None => fin (Throw NotFound) end)).
  { apply wp_act. intros c pcs t _ Hi Hl. simpl.
    change (mv_data (versioned_data_cache (blk c))) with (data c).
    destruct (data c !! key) as [tree|] eqn:Ht.
    - eexists _, (upD (lock_key key) c). split_and!; [apply Hmk; by apply ReadBegin|done|done].
    - exists (fin (Throw NotFound)), c. split_and!; [by apply Hnone| |done].
      by destruct c as [[? []]]. }
  intros [tree|] pc ->; [|by split].
  apply (wp_dbind _ _ (fun r pc => pc = mk (ReadDone key r))); [apply wp_shared_read_loop|].
  intros r pc ->.
  apply (wp_dbind _ _ (fun _ pc => r <> Panic /\ pc = fin r)); [|by intros [] pc Hpc].
  apply wp_act. intros c pcs t _ Hi Hl. simpl.
  assert (Hr : r <> Panic).
  { pose proof (Hknown _ _ (v_known _ _ _ _ (i_versioned _ _ _ _ Hi) t _ Hl)) as Hk. apply Hk. }
  exists (fin r), (upD (unlock_key key) c). split_and!; [by apply Hend|done..].
Qed.
End Reader.

(** A read of an execution, and one of a validation. *)
Definition exec_read_pc i inc captured key cont (r : ReadOutput V) : PC :=
  match view_result key r with
  | Some (v, d) => Exec i inc (captured ++ [d]) (cont v) Plain
  | None =>
      match r with
      | Throw (Dependency dep) => Exec i inc captured (VMRead key cont) (Blocked dep)
      | _ => Finished
      end
  end.

Lemma wp_exec_read i inc captured key cont :
  wpi (on_data (shared_read key i))
    (fun r pc => r <> Panic /\ pc = exec_read_pc i inc captured key cont r)
    (Exec i inc captured (VMRead key cont) Plain).
Proof.
  apply (wp_shared_read i key (fun sub => Exec i inc captured (VMRead key cont) sub)).
  - done.
  - intros sub c sub' c' Hr. by apply AExec, ExecRead.
  - by intros c sub [_ Hs].
  - intros c r Hr. apply AExec. unfold exec_read_pc. destruct (view_result key r) as [[v d]|] eqn:Hv.
    + by apply ExecReadEnd.
    + destruct r as [[|[? ?]]|[]|]; try done. apply ExecReadBlocked.
  - intros c Hn. apply AExec. by apply ExecReadNone.
Qed.

Lemma wp_val_read i inc d todo :
  wpi (on_data (shared_read (access_path d) i))
    (fun r pc => r <> Panic /\ pc = if validates d r then Val i inc todo Plain else ValFail i inc)
    (Val i inc (d :: todo) Plain).
Proof.
  apply (wp_shared_read i (access_path d) (fun sub => Val i inc (d :: todo) sub)) with
    (fin := fun r => if validates d r then Val i inc todo Plain else ValFail i inc).
  - done.
  - intros sub c sub' c' Hr. by apply AVal, ValRead.
  - by intros c sub [_ Hs].
  - intros c r _. apply AVal, ValReadEnd.
  - intros c Hn. by apply AVal, ValReadNone.
Qed.

(** ** Dependencies *)

(** What is left of a dependency: the execution of [i] at [sub]. *)
Section Waiting.
Context (i : TxnIndex) (inc : Incarnation) (captured : list (ReadDescriptor K)) (rest : VMRun K V O E).
Abbreviation at_sub := (Exec i inc captured rest).

Lemma wp_new_condvar (dep : nat) :
  wpx (on_scheduler new_condvar) (fun cv pc => pc = at_sub (Fresh cv dep)) (at_sub (Blocked dep)).
Proof.
  apply wpg_act. intros c pcs t _ _ _. simpl. eexists _, _, _.
  split_and!; [apply VExec, ExecWait, WaitNew|right; split; [done|by left]|done|done].
Qed.

Lemma waiting_lt c pcs t sub dep :
  executor_inv (c, pcs) -> pcs !! t = Some (at_sub sub) -> sub_dep sub = Some dep ->
  dep < i /\ i < length block.
Proof.
  intros Hi Hl Hd. split.
  - by apply (l_sub _ (i_locked _ _ _ _ Hi) t _ i sub Hl eq_refl).
  - by apply (pc_lt _ c pcs t (at_sub sub) (i_owned _ _ _ _ Hi) Hl).
Qed.

Lemma lengths c pcs :
  executor_inv (c, pcs) -> length (txn_dependency (sch c)) = length block /\
  length (dep_locked (sch c)) = length block.
Proof. intros Hi. by destruct (o_len _ _ _ (i_owned _ _ _ _ Hi)) as (_ & ? & ? & _). Qed.

Lemma wp_lock_dependency (cv dep : nat) :
  wpi (on_scheduler (lock_dependency dep)) (fun _ pc => pc = at_sub (Locked cv dep))
    (at_sub (Fresh cv dep)).
Proof.
  apply wp_act. intros c pcs t _ Hi Hl. simpl.
  destruct (waiting_lt _ _ _ _ dep Hi Hl eq_refl). destruct (lengths _ _ Hi) as [_ Hlen].
  destruct (lookup_lt_is_Some_2 (dep_locked (sch c)) dep) as [b Hb]; [lia|].
  unfold sch in Hb. rewrite Hb. destruct b; [done|]. eexists _, _.
  split_and!; [by apply AExec, ExecWait, WaitLock|done|done].
Qed.

(** [is_executed], under the lock of the dependency. *)
Lemma wp_check_dependency (cv dep : nat) :
  wpi (on_scheduler (is_executed dep))
    (fun r pc => pc = at_sub (match r with Some _ => Seen cv dep | None => Checked cv dep end))
    (at_sub (Locked cv dep)).
Proof.
  apply (wp_sbind _ _ _ (fun len pc' => (len = length block /\ dep < length block) /\
    pc' = at_sub (Locked cv dep))).
  { apply (wp_sload_same (fun s => length (txn_status s))). intros c pcs t Hi Hl.
    destruct (waiting_lt _ _ _ _ dep Hi Hl eq_refl). rewrite (status_len _ _ Hi). split; [lia|done]. }
  intros len pc' [[-> Hlt] ->]. destruct (Nat.leb_spec (length block) dep) as [|_]; [lia|].
  apply wp_section; [done|]. intros c pcs t st Hi Hl Hst.
  destruct st as [inc' cv'|inc'|inc' cv'|inc'|inc'].
  4: { eexists _, _, (at_sub (Seen cv dep)), c. split_and!; [done| |done|by right].
       by eapply AExec, ExecWait, WaitSeen. }
  all: eexists _, _, (at_sub (Checked cv dep)), c; split_and!; [done| |done|by right];
    apply AExec, ExecWait, WaitCheck; intros inc''; rewrite Hst; congruence.
Qed.

Lemma wp_suspend (cv dep : nat) :
  wpi (on_scheduler (suspend i cv)) (fun _ pc => pc = at_sub (ToPush cv dep))
    (at_sub (Checked cv dep)).
Proof.
  apply wp_section.
  { intros c pcs t Hi Hl. by destruct (waiting_lt _ _ _ _ dep Hi Hl eq_refl). }
  intros c pcs t st Hi Hl Hst.
  pose proof (owned_role _ _ _ _ _ (i_owned _ _ _ _ Hi) Hl) as Hr.
  pose proof (o_owner _ _ _ (i_owned _ _ _ _ Hi) _ _ _ _ Hr) as Hs. simpl in Hs.
  assert (st = Executing inc) as -> by (unfold status_at in Hst; simpl in *; congruence).
  do 4 eexists. split_and!; [done|apply AExec, ExecWait; by eapply WaitSuspend|done|by left].
Qed.

Lemma wp_wait_for_dependency (dep : nat) :
  wpx (on_scheduler (wait_for_dependency i dep))
    (fun r pc => match r with
       | Some cv => pc = at_sub (Waiting cv) | None => pc = at_sub Plain end)
    (at_sub (Blocked dep)).
Proof.
  eapply wpg_sbind; [apply (wp_new_condvar dep)|]. intros cv pc ->. simpl.
  eapply wp_sbind; [apply wp_lock_dependency|]. intros [] pc ->.
  eapply wp_sbind; [apply wp_check_dependency|]. intros [inc'|] pc ->.
  - apply (wp_sbind _ _ _ (fun _ pc => pc = at_sub Plain)); [|by intros [] pc ->].
    eapply wp_smodify; [|done]. intros c pcs t _ _. apply AExec, ExecWait, WaitRetry.
  - eapply wp_sbind; [apply wp_suspend|]. intros [] pc ->.
    apply (wp_sbind _ _ _ (fun _ pc => pc = at_sub (Pushed cv dep))).
    { eapply wp_smodify; [|done]. intros c pcs t Hi Hl. apply AExec, ExecWait, WaitPush.
      destruct (waiting_lt _ _ _ _ dep Hi Hl eq_refl). destruct (lengths _ _ Hi). lia. }
    intros [] pc ->.
    apply (wp_sbind _ _ _ (fun _ pc => pc = at_sub (Waiting cv))); [|by intros [] pc ->].
    eapply wp_smodify; [|done]. intros c pcs t _ _. apply AExec, ExecWait, WaitUnlock.
Qed.

Lemma wp_wait_condvar (cv : nat) :
  wpi (on_scheduler (wait_condvar cv)) (fun _ pc => pc = at_sub Plain) (at_sub (Waiting cv)).
Proof.
  apply wp_act. intros c pcs t _ Hi Hl. simpl.
  pose proof (owned_role _ _ _ _ _ (i_owned _ _ _ _ Hi) Hl) as Hr.
  assert (Hlt : cv < length (condvars (sch c))).
  { apply (own_cv_lt _ _ _ (i_owned _ _ _ _ Hi) t _ cv Hr). simpl. apply same_eq. }
  destruct (lookup_lt_is_Some_2 _ _ Hlt) as [b Hb]. unfold sch in Hb. rewrite Hb.
  destruct b; [|done]. exists (at_sub Plain), c. split_and!; [|by destruct c as [[]]|done].
  by apply AExec, ExecWait, WaitWake.
Qed.
End Waiting.

(** ** The virtual machine *)

Lemma wp_view_read i inc captured key cont :
  wpi (view_read i key captured) (fun v pc => pc = Exec i inc v.2 (cont v.1) Plain)
    (Exec i inc captured (VMRead key cont) Plain).
Proof.
  apply (wp_iter _ _ (fun _ pc => pc = Exec i inc captured (VMRead key cont) Plain)); [done|].
  intros [] pc ->. eapply wp_bind; [apply wp_exec_read|]. intros r pc [Hr ->].
  destruct r as [[z|[j n] v]|[|d|dep|]|]; try done; try (by apply wpg_ret). simpl exec_read_pc.
  eapply wpg_bind; [apply wp_wait_for_dependency|]. intros [cv|] pc ->; [|by apply wpg_ret].
  eapply wp_bind; [apply wp_wait_condvar|]. intros [] pc ->. by apply wpg_ret.
Qed.

Lemma wp_run_vm i inc r : forall captured,
  wpi (run_vm i r captured) (fun v pc => pc = Exec i inc v.2 (VMDone v.1) Plain)
    (Exec i inc captured r Plain).
Proof.
  induction r as [out|key cont IH|]; intros captured; [done| |].
  - eapply wp_bind; [apply wp_view_read|]. intros [v captured'] pc ->. apply IH.
  - apply wp_act. intros c pcs t _ Hi Hl. simpl.
    destruct (v_known _ _ _ _ (i_versioned _ _ _ _ Hi) t _ Hl) as [Hr _].
    by apply (replays_run_ok _ _ _ Hvm) in Hr.
Qed.

(** ** The updates of an execution *)

Lemma data_some (c : Shared) i k e : entry_of c i k = Some e -> is_Some (data c !! k).
Proof.
  unfold entry_of, tree_of. destruct (data c !! k); [done|]. simpl. by rewrite lookup_empty.
Qed.

Lemma wp_modified_keys i inc captured out :
  wpx (on_io (modified_keys i))
    (fun prev pc => pc = applying hash_iter i inc captured out (status_writes out)
       (status_deltas out) prev false)
    (Exec i inc captured (VMDone out) Plain).
Proof.
  apply wpg_act. intros c pcs t _ Hi Hl. simpl.
  change (outputs (last_input_output (blk c))) with (outputs (io c)).
  destruct (lookup_lt_is_Some_2 (outputs (io c)) i) as [o Ho].
  { pose proof (proj2 (v_io _ _ _ _ (i_versioned _ _ _ _ Hi))) as Hlen. simpl in Hlen.
    rewrite Hlen. by apply (pc_lt _ c pcs t _ (i_owned _ _ _ _ Hi) Hl). }
  rewrite Ho. eexists _, c, _.
  split_and!; [by apply VExec, ExecDone|right; split; [done|by left]|by destruct c as [[]]|done].
Qed.

(** An operation under the exclusive lock of a key. *)
Lemma wp_exclusive key f (Q : unit -> PC -> Prop) pc :
  (forall c pcs t, executor_inv (c, pcs) -> pcs !! t = Some pc -> readers (mvs c) key = 0 ->
     exists m pc' c', f (data c) = Some m /\ act pc c pc' c' /\ blk c' = blk (upM m c) /\
       Q tt pc') ->
  (forall b : Block, 0 < readers (versioned_data_cache b) key -> waits b pc) ->
  wpi (on_data (exclusive key f)) Q pc.
Proof.
  intros Hf Hw. apply wp_act. intros c pcs t _ Hi Hl. simpl.
  change (versioned_data_cache (blk c)) with (mvs c). change (mv_data (mvs c)) with (data c).
  destruct (Nat.eqb_spec (readers (mvs c) key) 0) as [Hz|]; [|apply Hw; unfold mvs in *; lia].
  destruct (Hf c pcs t Hi Hl Hz) as (m & pc' & c' & -> & Ha & Hb & HQ). eauto.
Qed.

(** The entry of a key that is left to write has an older incarnation. *)
Lemma add_write_ok (c : Shared) i inc L k v :
  holds c i L -> lay_inc L = inc -> lay_done L !! k = None ->
  is_Some (add_write (data c) k (i, inc) v).
Proof.
  intros Hh <- Hk. destruct (Hh k) as [He _]. rewrite Hk in He. unfold add_write.
  fold (entry_of c i k). change (tree_of (data c) k !! i) with (entry_of c i k).
  case_decide; [|by rewrite He]. destruct He as (cl & -> & Hold). simpl.
  destruct cl as [n w|d]; [|done]. simpl in Hold. by rewrite bool_decide_true.
Qed.

Lemma wp_add_write i inc captured out k v ws ds prev outside :
  wpi (on_data (shared_add_write k (i, inc) v))
    (fun _ pc => pc = applying hash_iter i inc captured out ws ds (prev ∖ {[k]})
       (outside || negb (bool_decide (k ∈ prev))))
    (applying hash_iter i inc captured out ((k, v) :: ws) ds prev outside).
Proof.
  apply wp_exclusive; [|done]. intros c pcs t Hi Hl Hz.
  pose proof (v_pc _ _ _ _ (i_versioned _ _ _ _ Hi) t _ i _ Hl eq_refl) as Hh. simpl in Hh.
  destruct (add_write_ok c i inc _ k v Hh) as [m Hm]; [done| |].
  { simpl. rewrite made_lookup, decide_True; [done|]. left. }
  do 3 eexists. split_and!; [exact Hm|by apply AExec, ApplyWrite|done|done].
Qed.

Lemma wp_add_delta i inc captured out k d ds prev outside :
  wpi (on_data (shared_add_delta k i d))
    (fun _ pc => pc = applying hash_iter i inc captured out [] ds (prev ∖ {[k]})
       (outside || negb (bool_decide (k ∈ prev))))
    (applying hash_iter i inc captured out [] ((k, d) :: ds) prev outside).
Proof.
  apply wp_exclusive; [|done]. intros c pcs t Hi Hl Hz.
  do 3 eexists. split_and!; [done|by apply AExec, ApplyDelta|done|done].
Qed.

Lemma wp_apply_writes i inc captured out ds ws : forall prev outside,
  wpi (apply_writes (i, inc) ws (prev, outside))
    (fun st pc => pc = applying hash_iter i inc captured out [] ds st.1 st.2)
    (applying hash_iter i inc captured out ws ds prev outside).
Proof.
  induction ws as [|[k v] ws IH]; intros prev outside; [done|].
  eapply wp_bind; [apply wp_add_write|]. intros [] pc ->. apply IH.
Qed.

Lemma wp_apply_deltas i inc captured out ds : forall prev outside,
  wpi (apply_deltas i ds (prev, outside))
    (fun st pc => pc = applying hash_iter i inc captured out [] [] st.1 st.2)
    (applying hash_iter i inc captured out [] ds prev outside).
Proof.
  induction ds as [|[k d] ds IH]; intros prev outside; [done|].
  eapply wp_bind; [apply wp_add_delta|]. intros [] pc ->. apply IH.
Qed.

Lemma wp_apply_updates i inc captured (out : ExecutionStatus O E) prev :
  wpi (match out with
       | Success output | SkipRest output => apply_updates (i, inc) output (prev, false)
       | Abort _ => Ret (prev, false)
       end)
    (fun st pc => pc = Del i inc captured out (hash_iter st.1) st.2)
    (applying hash_iter i inc captured out (status_writes out) (status_deltas out) prev false).
Proof.
  assert (Hupd : forall output,
    wpi (apply_updates (i, inc) output (prev, false))
      (fun st pc => pc = Del i inc captured out (hash_iter st.1) st.2)
      (applying hash_iter i inc captured out (get_writes output) (get_deltas output) prev false)).
  { intros output. eapply wp_bind; [apply wp_apply_writes|]. intros [prev' outside'] pc ->.
    apply wp_apply_deltas. }
  destruct out; [apply Hupd|done|apply Hupd].
Qed.

Lemma wp_delete i inc captured out k keys outside :
  wpi (on_data (shared_delete k i)) (fun _ pc => pc = Del i inc captured out keys outside)
    (Del i inc captured out (k :: keys) outside).
Proof.
  apply wp_exclusive; [|done]. intros c pcs t Hi Hl Hz.
  pose proof (v_pc _ _ _ _ (i_versioned _ _ _ _ Hi) t _ i _ Hl eq_refl k) as [He _].
  destruct (v_known _ _ _ _ (i_versioned _ _ _ _ Hi) t _ Hl) as (_ & _ & Hnone).
  simpl in He. rewrite Hnone in He by left. rewrite decide_True in He by set_solver.
  destruct He as (cl & He & _). destruct (data_some _ _ _ _ He) as [tree Ht].
  assert (Hm : mv_delete (data c) k i = Some (<[k := base.delete i tree]> (data c))).
  { unfold mv_delete. by rewrite Ht. }
  do 3 eexists. split_and!; [exact Hm|by apply AExec, DelKey|done|done].
Qed.

Lemma wp_delete_keys i inc captured out outside keys :
  wpi (delete_keys i keys) (fun _ pc => pc = Del i inc captured out [] outside)
    (Del i inc captured out keys outside).
Proof.
  induction keys as [|k keys IH]; [done|].
  eapply wp_bind; [apply wp_delete|]. by intros [] pc ->.
Qed.


(** ** The record *)

Lemma wp_iobind {X A} (p : prog (TxnLastInputOutput K O E P) X)
  (k : X -> prog (TxnLastInputOutput K O E P) A) R (Q : A -> PC -> Prop) pc :
  wpi (on_io p) R pc -> (forall x pc, R x pc -> wpi (on_io (k x)) Q pc) ->
  wpi (on_io (Bind p k)) Q pc.
Proof. apply (wp_bind _ (on_io p) (fun x => on_io (k x))). Qed.

Section Record.
Context (i : TxnIndex) (inc : Incarnation) (captured : list (ReadDescriptor K)).
Context (out : ExecutionStatus O E) (outside : bool).
Abbreviation deleted := (Del i inc captured out [] outside).

(** The sets of modules are not a part of the protocol. *)
Lemma wp_io_load {A} (f : TxnLastInputOutput K O E P -> A) pc :
  wpi (on_io (load f)) (fun _ pc' => pc' = pc) pc.
Proof.
  apply wp_act. intros c pcs t _ _ _. simpl. exists pc, c.
  split_and!; [apply AStutter|by destruct c as [[]]|done].
Qed.

Lemma wp_io_modify f :
  (forall x, inputs (f x) = inputs x) -> (forall x, outputs (f x) = outputs x) ->
  wpi (on_io (modify f)) (fun _ pc => pc = deleted) deleted.
Proof.
  intros Hin Hout. apply wp_act. intros c pcs t _ _ _. simpl. exists deleted, (upI f c).
  split_and!; [by apply AExec, DelModules|done|done].
Qed.

Lemma wp_append_and_check paths ins other :
  (forall p x, inputs (ins p x) = inputs x) -> (forall p x, outputs (ins p x) = outputs x) ->
  wpi (on_io (append_and_check paths ins other)) (fun _ pc => pc = deleted) deleted.
Proof.
  intros Hin Hout. induction paths as [|p paths IH]; [done|].
  eapply wp_iobind; [by apply wp_io_modify|]. intros [] pc ->.
  eapply wp_iobind; [apply wp_io_load|]. by intros [] pc ->.
Qed.

Lemma wp_record :
  wpi (on_io (record i captured (recorded out))) (fun _ pc => pc = Stored i inc captured out outside)
    deleted.
Proof.
  eapply wp_iobind; [apply wp_io_load|]. intros flag pc ->.
  apply (wp_iobind _ _ (fun _ pc => pc = deleted)).
  { destruct flag; [done|]. eapply wp_iobind; [by apply wp_append_and_check|]. intros a pc ->.
    apply (wp_iobind _ _ (fun _ pc => pc = deleted)).
    - destruct a; [done|]. by apply wp_append_and_check.
    - intros [] pc ->; [|done]. by apply wp_io_modify. }
  intros [] pc ->. apply (wp_iobind _ _ (fun _ pc => pc = Store i inc captured out outside)).
  - apply wp_act. intros c pcs t _ Hi Hl. simpl.
    pose proof (proj1 (v_io _ _ _ _ (i_versioned _ _ _ _ Hi))) as Hlen. simpl in Hlen.
    unfold io in Hlen. rewrite Hlen. destruct (Nat.ltb_spec i (length block)) as [|Hge].
    + eexists _, _. split_and!; [apply AExec, StoreInput|done|done].
    + pose proof (pc_lt _ c pcs t _ (i_owned _ _ _ _ Hi) Hl i eq_refl). lia.
  - intros [] pc ->. apply wp_act. intros c pcs t _ Hi Hl. simpl.
    pose proof (proj2 (v_io _ _ _ _ (i_versioned _ _ _ _ Hi))) as Hlen. simpl in Hlen.
    unfold io in Hlen. rewrite Hlen. destruct (Nat.ltb_spec i (length block)) as [|Hge].
    + eexists _, _. split_and!; [apply AExec, StoreOutput|done|done].
    + pose proof (pc_lt _ c pcs t _ (i_owned _ _ _ _ Hi) Hl i eq_refl). lia.
Qed.
End Record.

(** ** The end of an execution *)

Lemma status_eqb_refl st : status_eqb st st = true.
Proof. destruct st; apply Nat.eqb_refl. Qed.

Lemma status_eqb_executed st inc : status_eqb st (Executed inc) = true <-> st = Executed inc.
Proof.
  destruct st; simpl; rewrite ?Nat.eqb_eq; (split; [try done; by intros ->|by intros [= ->]]).
Qed.

Lemma wp_set_executed_status i inc captured out outside :
  wpi (on_scheduler (set_executed_status i inc)) (fun _ pc => pc = Fin i inc outside FTake)
    (Stored i inc captured out outside).
Proof.
  apply wp_section.
  { intros c pcs t Hi Hl. by apply (pc_lt _ c pcs t _ (i_owned _ _ _ _ Hi) Hl). }
  intros c pcs t st Hi Hl Hst.
  destruct (owned_owner _ _ _ _ _ i inc (i_owned _ _ _ _ Hi) Hl eq_refl) as [Hs _].
  assert (st = Executing inc) as -> by congruence. rewrite status_eqb_refl.
  do 4 eexists. split_and!; [done|by apply AExec, StoredExecuted|done|by left].
Qed.

Lemma has_input_lt c pcs i : executor_inv (c, pcs) -> has_input c i -> i < length block.
Proof.
  intros Hi [reads Hr]. apply lookup_lt_Some in Hr.
  pose proof (proj1 (v_io _ _ _ _ (i_versioned _ _ _ _ Hi))) as Hlen. simpl in Hlen. lia.
Qed.

Lemma wp_take_dependencies i inc outside :
  wpi (on_scheduler (take_dependencies i))
    (fun deps pc => pc = Fin i inc outside (FResume deps None)) (Fin i inc outside FTake).
Proof.
  apply wp_act. intros c pcs t _ Hi Hl. simpl.
  pose proof (has_input_lt _ _ _ Hi (v_known _ _ _ _ (i_versioned _ _ _ _ Hi) t _ Hl)) as Hlt.
  destruct (lengths _ _ Hi) as [Hd Hk]. unfold sch in Hd, Hk.
  destruct (lookup_lt_is_Some_2 (txn_dependency (scheduler (blk c))) i) as [deps Hdeps]; [lia|].
  destruct (lookup_lt_is_Some_2 (dep_locked (scheduler (blk c))) i) as [b Hb]; [lia|].
  rewrite Hdeps, Hb. destruct b; [done|]. eexists _, _.
  split_and!; [by apply AFin, FinTake|done|done].
Qed.

Lemma wp_resume i inc outside dep deps m :
  wpi (on_scheduler (resume dep)) 
    (fun _ pc => pc = Fin i inc outside (FResume deps (opt_min m dep)))
    (Fin i inc outside (FResume (dep :: deps) m)).
Proof.
  assert (Hs : forall c pcs t, executor_inv (c, pcs) ->
    pcs !! t = Some (Fin i inc outside (FResume (dep :: deps) m)) ->
    exists inc' cv, status_at c dep = Some (Suspended inc' cv)).
  { intros c pcs t Hi Hl. apply (own_suspended _ _ _ (i_owned _ _ _ _ Hi)). left. simpl.
    pose proof (total_one (resumes dep) _ _ _ (owned_role _ _ _ _ _ (i_owned _ _ _ _ Hi) Hl)) as Ht.
    simpl in Ht. rewrite total_cons, same_eq in Ht. lia. }
  apply wp_section.
  { intros c pcs t Hi Hl. destruct (Hs _ _ _ Hi Hl) as (inc' & cv & Hst).
    by apply (own_lt _ _ _ (i_owned _ _ _ _ Hi) _ _ Hst). }
  intros c pcs t st Hi Hl Hst. destruct (Hs _ _ _ Hi Hl) as (inc' & cv & Hst').
  assert (st = Suspended inc' cv) as -> by congruence.
  do 4 eexists. split_and!; [done|by apply AFin, FinResume|done|by left].
Qed.

Lemma wp_resume_all i inc outside deps : forall m,
  wpi (on_scheduler (resume_all deps m)) (fun m pc => pc = Fin i inc outside (FResume [] m))
    (Fin i inc outside (FResume deps m)).
Proof.
  induction deps as [|dep deps IH]; intros m; [done|].
  eapply wp_sbind; [apply wp_resume|]. by intros [] pc ->.
Qed.

Lemma wp_decrease_execution_idx i inc outside target :
  wpi (on_scheduler (decrease_execution_idx target)) (fun _ pc => pc = Fin i inc outside FLoad)
    (Fin i inc outside (FResume [] (Some target))).
Proof.
  apply (wp_sbind _ _ _ (fun prev pc =>
    pc = Fin i inc outside (if target <? prev then FIncr else FLoad))).
  - apply wp_act. intros c pcs t _ _ _. simpl. change (scheduler (blk c)) with (sch c).
    destruct (Nat.ltb_spec target (execution_idx (sch c))); (eexists _, _; split_and!;
      [first [by apply AFin, FinDecrease|by apply AFin, FinNoDecrease]|done|done]).
  - intros prev pc ->. destruct (target <? prev); [|done].
    eapply wp_smodify; [|done]. intros c pcs t _ _. apply AFin, FinIncr.
Qed.

Lemma wp_fin_load i inc (outside : bool) stage :
  stage = FResume [] None \/ stage = FLoad ->
  wpi (on_scheduler (load validation_idx))
    (fun v (pc : PC) => pc = if i <? v then if outside then FinVal i inc else Val0 i inc else Held)
    (Fin i inc outside stage).
Proof.
  intros Hstage. apply wp_sload. intros c pcs t _ _. eexists. split; [|done].
  destruct (Nat.ltb_spec i (validation_idx (sch c))); [destruct outside|].
  - by apply AFin, FinSuffix.
  - by apply AFin, FinTask.
  - by apply AFin, FinLower.
Qed.

Lemma wp_incr_decrease_cnt : wpi (on_scheduler incr_decrease_cnt) (fun _ pc => pc = Held) Incr.
Proof. eapply wp_smodify; [|done]. intros c pcs t _ _. apply AIdle, IncrCnt. Qed.

Lemma wp_decrease_validation_idx i inc :
  wpi (on_scheduler (decrease_validation_idx i)) (fun _ pc => pc = Held) (FinVal i inc).
Proof.
  apply (wp_sbind _ _ _ (fun prev (pc : PC) => pc = if i <? prev then Incr else Held)).
  - apply wp_act. intros c pcs t _ _ _. simpl. change (scheduler (blk c)) with (sch c).
    destruct (Nat.ltb_spec i (validation_idx (sch c))); (eexists _, _; split_and!;
      [first [by apply AFin, FinValDecrease|by apply AFin, FinValNoDecrease]|done|done]).
  - intros prev pc ->. destruct (i <? prev); [apply wp_incr_decrease_cnt|done].
Qed.

Lemma wp_finish_execution i inc captured out outside :
  wpi (on_scheduler (finish_execution i inc outside)) task_pc (Stored i inc captured out outside).
Proof.
  eapply wp_sbind; [apply wp_set_executed_status|]. intros [] pc ->.
  eapply wp_sbind; [apply wp_take_dependencies|]. intros deps pc ->.
  eapply wp_sbind; [apply wp_resume_all|]. intros m pc ->.
  apply (wp_sbind _ _ _ (fun _ pc => exists stage, (stage = FResume [] None \/ stage = FLoad) /\
    pc = Fin i inc outside stage)).
  { destruct m as [target|]; [|by apply wp_sret; eauto].
    eapply wpi_mono; [|apply wp_decrease_execution_idx]. eauto. }
  intros [] pc (stage & Hstage & ->).
  eapply wp_sbind; [by apply wp_fin_load|]. intros v pc ->.
  destruct (i <? v); [|by apply wp_drop_ret]. destruct outside; [|done].
  eapply wp_sbind; [apply wp_decrease_validation_idx|]. intros [] pc ->. by apply wp_drop_ret.
Qed.

(** [execute]: an incarnation, from its start. *)
Lemma wp_execute i inc txn :
  block !! i = Some txn ->
  wpx (execute hash_iter execute_transaction (i, inc) block) task_pc
    (Exec i inc [] (execute_transaction i txn) Plain).
Proof.
  intros Htxn. unfold execute. rewrite Htxn.
  apply (wp_bind _ _ _ (fun x pc => x = txn /\ pc = Exec i inc [] (execute_transaction i txn) Plain)); [done|].
  intros x pc [-> ->]. eapply wp_bind; [apply wp_run_vm|]. intros [out captured] pc ->. cbn [fst snd].
  eapply wpg_bind; [apply wp_modified_keys|]. intros prev pc ->. simpl.
  eapply wp_bind; [apply wp_apply_updates|]. intros [keys outside] pc ->. cbn [fst snd].
  eapply wp_bind; [apply wp_delete_keys|]. intros [] pc ->.
  eapply wp_bind; [apply wp_record|]. intros [] pc ->. apply wp_finish_execution.
Qed.

(** ** Validation *)

Lemma wp_read_set i inc :
  wpx (on_io (read_set i))
    (fun o pc => exists reads, o = Some reads /\ pc = Val i inc reads Plain) (Val0 i inc).
Proof.
  apply wpg_act. intros c pcs t _ Hi Hl. simpl.
  destruct (v_known _ _ _ _ (i_versioned _ _ _ _ Hi) t _ Hl) as [reads Hr]. simpl in Hr.
  pose proof Hr as Hr'. unfold io in Hr'. rewrite Hr'. eexists _, c, _.
  split_and!; [by apply VVal, ValStart| |by destruct c as [[]]|eauto].
  right. split; [done|]. right. left. simpl. lia.
Qed.

(** [validate_read] is the comparison of the descriptors. *)
Lemma validate_read_eq (d : ReadDescriptor K) (r : ReadOutput V) :
  r <> Panic ->
  validate_read (O := O) (E := E) (P := P) d r = Ret (validates d r).
Proof. by destruct r as [[z|[j n] v]|[]|]. Qed.

Lemma wp_validate_reads i inc todo :
  wpi (validate_reads i todo)
    (fun b pc => pc = if b : bool then Val i inc [] Plain else ValFail i inc)
    (Val i inc todo Plain).
Proof.
  induction todo as [|d todo IH]; [done|].
  eapply wp_bind; [apply wp_val_read|]. intros r pc [Hr ->]. rewrite validate_read_eq by done.
  eapply wp_bind with (R := fun b pc => b = validates d r /\
    pc = if validates d r then Val i inc todo Plain else ValFail i inc); [by split|].
  intros b pc [-> ->]. by destruct (validates d r).
Qed.

Lemma wp_try_abort i inc :
  wpi (on_scheduler (try_abort i inc)) (fun b (pc : PC) => pc = if b : bool then Mark0 i inc else Held)
    (ValFail i inc).
Proof.
  apply wp_section.
  { intros c pcs t Hi Hl. apply (has_input_lt _ _ _ Hi).
    by apply (v_known _ _ _ _ (i_versioned _ _ _ _ Hi) t _ Hl). }
  intros c pcs t st Hi Hl Hst. destruct (status_eqb st (Executed inc)) eqn:He.
  - apply status_eqb_executed in He as ->.
    do 4 eexists. split_and!; [done|by apply AVal, ValAbort|done|by left].
  - exists false. eexists _, Held, c. split_and!; [done| |done|by right].
    apply AVal, ValAborted. rewrite Hst. intros [= ->]. by rewrite status_eqb_refl in He.
Qed.

(** ** Aborts *)

Lemma wp_mark_keys i inc :
  wpi (on_io (modified_keys i)) (fun keys pc => pc = Mark i inc (hash_iter keys)) (Mark0 i inc).
Proof.
  apply wp_act. intros c pcs t _ Hi Hl. simpl.
  change (outputs (last_input_output (blk c))) with (outputs (io c)).
  destruct (lookup_lt_is_Some_2 (outputs (io c)) i) as [o Ho].
  { pose proof (proj2 (v_io _ _ _ _ (i_versioned _ _ _ _ Hi))) as Hlen. simpl in Hlen.
    rewrite Hlen. by apply (pc_lt _ c pcs t _ (i_owned _ _ _ _ Hi) Hl). }
  rewrite Ho. eexists _, c. split_and!; [by apply AVal, MarkStart|by destruct c as [[]]|done].
Qed.

Lemma wp_mark_estimate i inc k keys :
  wpi (on_data (shared_mark_estimate k i)) (fun _ pc => pc = Mark i inc keys)
    (Mark i inc (k :: keys)).
Proof.
  apply wp_act. intros c pcs t _ Hi Hl.
  pose proof (v_pc _ _ _ _ (i_versioned _ _ _ _ Hi) t _ i _ Hl eq_refl k) as [He _].
  destruct (v_known _ _ _ _ (i_versioned _ _ _ _ Hi) t _ Hl) as [_ Hks].
  assert (exists cl, cells inc (out_of c i) !! k = Some cl) as [cl Hcl].
  { apply status_keys_cells. apply (Hks k). left. }
  pose proof (marking_lookup c i inc (k :: keys) k) as Hm. simpl in Hm, He. rewrite Hm in He.
  rewrite decide_True, Hcl in He by left. unfold entry_of, tree_of in He.
  assert (Hmark : exists m, mark_estimate (data c) k i = Some m).
  { unfold mark_estimate. destruct (data c !! k) as [tree|]; simpl in *; [|by rewrite lookup_empty in He].
    rewrite He. simpl. eauto. }
  destruct Hmark as [m Hmark]. simpl.
  change (mv_data (versioned_data_cache (blk c))) with (data c). rewrite Hmark.
  eexists _, _. split_and!; [by apply AVal, MarkKey|done|done].
Qed.

Lemma wp_mark_estimates i inc keys :
  wpi (mark_estimates i keys) (fun _ pc => pc = Mark i inc []) (Mark i inc keys).
Proof.
  induction keys as [|k keys IH]; [done|].
  eapply wp_bind; [apply wp_mark_estimate|]. by intros [] pc ->.
Qed.

Lemma wp_set_aborted_status i inc :
  wpi (on_scheduler (set_aborted_status i inc)) (fun _ pc => pc = FA1 i) (Mark i inc []).
Proof.
  apply wp_section.
  { intros c pcs t Hi Hl. by apply (pc_lt _ c pcs t _ (i_owned _ _ _ _ Hi) Hl). }
  intros c pcs t st Hi Hl Hst.
  pose proof (owned_aborter _ _ _ _ _ i inc (i_owned _ _ _ _ Hi) Hl eq_refl) as Hs.
  assert (st = Aborting inc) as -> by congruence. rewrite status_eqb_refl.
  do 4 eexists. split_and!; [done|by apply AVal, MarkDone|done|by left].
Qed.

Lemma wp_decrease_after_abort i :
  wpi (on_scheduler (decrease_validation_idx (i + 1))) (fun _ pc => pc = FA3 i) (FA1 i).
Proof.
  apply (wp_sbind _ _ _ (fun prev (pc : PC) => pc = if i + 1 <? prev then FA2 i else FA3 i)).
  - apply wp_act. intros c pcs t _ _ _. simpl. change (scheduler (blk c)) with (sch c).
    destruct (Nat.ltb_spec (i + 1) (validation_idx (sch c))); (eexists _, _; split_and!;
      [first [by apply AVal, AbortDecrease|by apply AVal, AbortNoDecrease]|done|done]).
  - intros prev pc ->. destruct (i + 1 <? prev); [|done].
    eapply wp_smodify; [|done]. intros c pcs t _ _. apply AVal, AbortIncr.
Qed.

Lemma wp_finish_abort i inc :
  wpi (on_scheduler (finish_abort i inc)) task_pc (Mark i inc []).
Proof.
  eapply wp_sbind; [apply wp_set_aborted_status|]. intros [] pc ->.
  eapply wp_sbind; [apply wp_decrease_after_abort|]. intros [] pc ->.
  apply (wp_sbind _ _ _ (fun e (pc : PC) => pc = if i <? e then ClaimE i else Held)).
  { apply wp_sload. intros c pcs t _ _. destruct (Nat.ltb_spec i (execution_idx (sch c))).
    - eexists. split; [by apply AVal, AbortClaim|done].
    - eexists. split; [by apply AVal, AbortLeave|done]. }
  intros e pc ->. destruct (i <? e); [|by apply wp_drop_ret].
  eapply wp_sbind; [eapply wpg_wpi, wp_try_incarnate|].
  intros [[inc' cv]|] pc Hpc; [by apply wp_sret|]. rewrite Hpc. by apply wp_drop_ret.
Qed.

Lemma wp_validate i inc : wpx (validate hash_iter (i, inc)) task_pc (Val0 i inc).
Proof.
  eapply wpg_bind; [apply wp_read_set|]. intros o pc (reads & -> & ->). simpl.
  apply (wp_bind _ _ _ (fun x pc => x = reads /\ pc = Val i inc reads Plain)); [done|].
  intros x pc [-> ->]. eapply wp_bind; [apply wp_validate_reads|]. intros b pc ->.
  apply (wp_bind _ _ _ (fun a pc => if a : bool then pc = Mark0 i inc
    else pc = Held \/ exists i inc, pc = Val i inc [] Plain)).
  { destruct b; [apply wp_sret; eauto|]. eapply wpi_mono; [|apply wp_try_abort].
    intros [] pc ->; auto. }
  intros [] pc Hpc.
  - subst pc. eapply wp_bind; [apply wp_mark_keys|]. intros keys pc ->.
    eapply wp_bind; [apply wp_mark_estimates|]. intros [] pc ->. apply wp_finish_abort.
  - eapply wp_bind; [by apply wp_guard_drop|]. by intros [] pc' ->.
Qed.

(** ** The worker threads *)

Lemma wp_work_task task pc :
  task_pc task pc ->
  wpg goes_on (work_task hash_iter execute_transaction block task)
    (fun r pc => match r with inl task => task_pc task pc | inr _ => pc = Finished end) pc.
Proof.
  destruct task as [[i inc] [cv|]|[i inc]| |]; simpl task_pc.
  - intros ->. apply (wpg_bind (fun _ => 1) _ _ _ (fun _ pc => pc = Held)).
    { apply wpg_act. intros c pcs t _ _ _. simpl. eexists _, _, _.
      split_and!; [apply VIdle, TicketNotify| |done|done].
      right. split; [done|]. right. left. simpl. lia. }
    intros [] pc' ->. eapply wp_bind; [apply wp_guard_drop; by left|]. intros [] pc1 ->. by apply wpg_ret.
  - intros (txn & Htxn & ->). eapply wpg_bind; [by apply wp_execute|]. intros t pc' Ht. by apply wpg_ret.
  - intros ->. eapply wpg_bind; [apply wp_validate|]. intros t pc' Ht. by apply wpg_ret.
  - intros ->. eapply wpg_bind; [apply wp_next_task|]. intros t pc' Ht. by apply wpg_ret.
  - intros ->. by apply wpg_ret.
Qed.

Lemma wp_worker :
  wpi (work_task_with_scope hash_iter execute_transaction block) (fun _ pc => pc = Finished) Idle.
Proof.
  apply (wp_iter _ _ (fun task pc => task_pc task pc)); [done|]. apply wp_work_task.
Qed.

(** The pool of [spawn], and what holds after any interleaving of its threads. *)
Definition at_end (_ : unit) (l : Counted) : Prop := l.1 = Finished.
Abbreviation executor_ok :=
  (pool_ok Inv (fun b l => waits b l.1) moves World_less World_level snd rests at_end).

Lemma spawn_ok : executor_ok (spawn hash_iter execute_transaction threads block : pool Block * Block).
Proof.
  exists (init block threads, ghost_init), (replicate threads (Idle, 0)). split.
  - split_and!; [done| |apply rtc_refl]. simpl. by rewrite fmap_replicate.
  - simpl. apply Forall2_replicate. eapply wp_mono; [|apply (wp_worker 0)]. by intros a l [_ ?].
Qed.

Lemma pool_inv c :
  rtc pool_step (spawn hash_iter execute_transaction threads block : pool Block * Block) c -> executor_ok c.
Proof. apply pool_sound; [apply level_refl|apply spawn_ok]. Qed.

(** A configuration of the protocol for a pool; a thread that has returned has finished. *)
Lemma executor_config c : executor_ok c ->
  exists lg pcs, reach threads ({| blk := c.2; log := lg |}, pcs) /\
    Forall2 (fun p pc => p = Ret tt -> pc = Finished) c.1 pcs.
Proof.
  intros (w & ls & (Hb & Hpcs & Hw) & Hps). exists (log w.1.1), ls.*1.
  pose proof (vreach_reach _ _ _ _ _ Hw) as Hr. rewrite <- Hb. split.
  - destruct w as [[[b lg] pcs] g]. simpl in *. by subst pcs.
  - apply Forall2_fmap_r. eapply Forall2_impl; [exact Hps|]. by intros p l Hp ->.
Qed.

(** When all threads have returned, each has seen the done marker. *)
Lemma finished_pcs (ps : pool Block) (pcs : list PC) :
  Forall (fun p => p = Ret tt) ps -> Forall2 (fun p pc => p = Ret tt -> pc = Finished) ps pcs ->
  Forall (fun pc => pc = Finished) pcs.
Proof.
  intros Hf Hps. induction Hps as [|p pc ps pcs Hp _ IH]; [done|].
  apply Forall_cons in Hf as [-> Hf]. constructor; auto.
Qed.
(** If every thread waits or has returned, none waits. *)
Lemma not_all_wait w (b : Block) ls :
  0 < threads -> Inv w b ls -> Forall (fun l => at_end tt l \/ waits b l.1) ls -> Forall (fun l => ~ waits b l.1) ls.
Proof.
  intros Hth (Hb & Hpcs & Hw) Hall. pose proof (vreach_reach _ _ _ _ _ Hw) as Hr.
  destruct w as [[c pcs] g]. simpl in *. subst b pcs.
  assert (Hfin : forall t pc, ls.*1 !! t = Some pc -> pc = Finished).
  { apply (stuck_finished _ _ _ _ _ _ Hth Hr). intros t pc Hl.
    apply list_lookup_fmap_Some in Hl as (l & -> & Hl).
    destruct (Forall_lookup_1 _ _ _ _ Hall Hl) as [Hf|Hwt]; [by right|by left]. }
  apply Forall_lookup_2. intros t l Hl. rewrite (Hfin t l.1); [by intros []|].
  by rewrite list_lookup_fmap, Hl.
Qed.
End Simulation.
