(* ===== verification/Sequential.v ===== *)
(** * The sequential execution of a block

    The reference the parallel executor is compared with: the transactions run one after the
    other, and a read of a key finds what the last transactions that updated it left there.
    There is no shared map, no version, no estimate and no abort in it. *)
From S2P Require Import Prelude Delta ChangeSetExt MVMap Conc Scheduler LastInputOutput Executor.
From S2P Require Import Protocol Ownership Quiescence Locks Versions Validity.

#[local] Open Scope nat_scope.

Section Sequential.
Context `{Bcs128, !Bcs128Laws} {K V O E T : Type} `{Countable K}.
Context `{TransactionWrite V} `{TransactionOutput K V O}.
Context (execute_transaction : TxnIndex -> T -> VMRun K V O E).

Abbreviation Status := (ExecutionStatus O E).

(** What an execution does to a key: a write, a delta, or nothing. *)
Definition effect (out : Status) (key : K) : option (V + DeltaOp) :=
  match (list_to_map (status_writes out) : gmap K V) !! key with
  | Some v => Some (inl v)
  | None => inr <$> (list_to_map (status_deltas out) : gmap K DeltaOp) !! key
  end.

(** The number a write holds; a deletion holds none. *)
Definition number (v : V) : option Z := extract_raw_bytes v ≫= deserialize.

(** The value of a key after the executions [outs], the last one first: the deltas since the
    last write are merged and applied to it.  [acc] is the merge of the later deltas. *)
Fixpoint value_after (outs : list Status) (key : K) (acc : option DeltaOp) : ReadResult V :=
  match outs with
  | [] => match acc with Some d => RUnresolved d | None => RNone end
  | out :: outs =>
      match effect out key, acc with
      | None, _ => value_after outs key acc
      | Some (inl v), None => Value v
      | Some (inl v), Some d =>
          match number v with
          | Some z => match apply_to d z with Ok r => RU128 r | Err _ => RU128 0%Z end
          | None => Value v
          end
      | Some (inr d), None => value_after outs key (Some d)
      | Some (inr d), Some acc =>
          match merge_onto acc d with
          | Ok acc => value_after outs key (Some acc)
          | Err _ => RU128 0%Z
          end
      end
  end.

(** A transaction that reads through [view]; [None] is a panic. *)
Fixpoint run_on (view : K -> ReadResult V) (r : VMRun K V O E) : option Status :=
  match r with
  | VMDone out => Some out
  | VMRead key cont => run_on view (cont (view key))
  | VMPanic => None
  end.

(** The transactions from index [i] on, after the executions [before]. *)
Fixpoint run_from (i : TxnIndex) (txns : list T) (before : list Status) : option (list Status) :=
  match txns with
  | [] => Some []
  | txn :: txns =>
      out ← run_on (fun key => value_after before key None) (execute_transaction i txn);
      rest ← run_from (S i) txns (out :: before);
      Some (out :: rest)
  end.

Definition sequential_outputs (block : list T) : option (list Status) := run_from 0 block [].

(** The outputs of a block: up to the first transaction that asks to skip the rest, unless a
    transaction aborts before. *)
Fixpoint committed (outs : list Status) : result (Error E) (list O) :=
  match outs with
  | [] => Ok []
  | Success o :: outs =>
      match committed outs with Ok l => Ok (o :: l) | Err err => Err err end
  | SkipRest o :: _ => Ok [o]
  | Abort err :: _ => Err (UserError err)
  end.

Definition sequential_result (block : list T) : option (result (Error E) (list O)) :=
  outs ← sequential_outputs block;
  Some (match committed outs with
        | Ok l => Ok (resize_with (length block) l)
        | Err err => Err err
        end).

(** ** The runs, one by one *)

(** The outputs of a block are those of its transactions, each on what the outputs before it
    leave. *)
Lemma run_from_spec txns : forall i before outs,
  run_from i txns before = Some outs <->
  length outs = length txns /\ forall k txn out, txns !! k = Some txn -> outs !! k = Some out ->
    run_on (fun key => value_after (reverse (take k outs) ++ before) key None)
      (execute_transaction (i + k) txn) = Some out.
Proof.
  induction txns as [|txn txns IH]; intros i before outs; simpl.
  { split; [by intros [= <-]|]. intros [Hl _]. by destruct outs. }
  rewrite bind_Some. split.
  - intros (out & Ho & (rest & [Hl Hrest]%IH & [= <-])%bind_Some). simpl. split; [lia|].
    intros [|k] txn' out'; simpl.
    + intros [= <-] [= <-]. by rewrite Nat.add_0_r.
    + intros Ht Ho'. rewrite reverse_cons, <- app_assoc.
      replace (i + S k) with (S i + k) by lia. by apply Hrest.
  - destruct outs as [|out outs]; [by intros [? _]|]. intros [[= Hl] Hruns]. exists out. split.
    + specialize (Hruns 0 txn out eq_refl eq_refl). simpl in Hruns. by rewrite Nat.add_0_r in Hruns.
    + apply bind_Some. exists outs. split; [|done]. apply IH. split; [done|].
      intros k txn' out' Ht Ho. specialize (Hruns (S k) txn' out' Ht Ho). simpl in Hruns.
      rewrite reverse_cons, <- app_assoc in Hruns.
      by replace (S i + k) with (i + S k) by lia.
Qed.

Lemma sequential_spec block outs :
  sequential_outputs block = Some outs <->
  length outs = length block /\ forall i txn out, block !! i = Some txn -> outs !! i = Some out ->
    run_on (fun key => value_after (reverse (take i outs)) key None) (execute_transaction i txn)
      = Some out.
Proof.
  unfold sequential_outputs. rewrite run_from_spec. apply and_iff_compat_l.
  split; intros Hr i txn out Ht Ho; specialize (Hr i txn out Ht Ho); by rewrite app_nil_r in *.
Qed.

Lemma committed_lookup outs : forall l j o,
  committed outs = Ok l -> l !! j = Some o ->
  exists out, outs !! j = Some out /\ (out = Success o \/ out = SkipRest o).
Proof.
  induction outs as [|out outs IH]; intros l j o; simpl; [by intros [= <-]|].
  destruct out as [o'|err|o']; [|done|].
  - destruct (committed outs) as [l'|] eqn:Hc; [|done]. intros [= <-].
    destruct j as [|j]; simpl; [intros [= <-]; eauto|]. by apply IH.
  - intros [= <-]. destruct j as [|j]; simpl; [intros [= <-]; eauto|done].
Qed.

Lemma recorded_inj (out out' : Status) : recorded out = recorded out' -> out = out'.
Proof. destruct out, out'; simpl; congruence. Qed.

(** The loop over the final outputs stops where the block does. *)
Lemma collect_committed {P} `{Countable P} outs : forall k (io : TxnLastInputOutput K O E P) acc,
  (forall j out, outs !! j = Some out -> outputs io !! (k + j) = Some (Some (recorded out))) ->
  match committed outs with
  | Ok l => collect (seq k (length outs)) io acc = Some (acc ++ l, None)
  | Err err => exists l, collect (seq k (length outs)) io acc = Some (l, Some err)
  end.
Proof.
  induction outs as [|out outs IH]; intros k io acc Ho; simpl; [by rewrite app_nil_r|].
  pose proof (Ho 0 out eq_refl) as H0'. rewrite Nat.add_0_r in H0'.
  unfold take_output. rewrite H0'. destruct out as [o|err|o]; simpl; [|by eauto|done].
  specialize (IH (S k) (set_outputs (<[k := None]> (outputs io)) io) (acc ++ [o])).
  assert (Hrest : forall j out, outs !! j = Some out ->
    outputs (set_outputs (<[k := None]> (outputs io)) io) !! (S k + j) = Some (Some (recorded out))).
  { intros j out Hj. simpl. rewrite list_lookup_insert_ne by lia.
    replace (S (k + j)) with (k + S j) by lia. by apply Ho. }
  specialize (IH Hrest). destruct (committed outs) as [l|err]; [|done].
  by rewrite IH, <- app_assoc.
Qed.

(** ** The reads of a map that holds the executions *)

Definition cell_effect (cl : EntryCell V) : V + DeltaOp :=
  match cl with EWrite _ v => inl v | EDelta d => inr d end.

Lemma cells_effect inc (out : Status) k :
  cell_effect <$> cells inc (Some (recorded out)) !! k = effect out k.
Proof.
  rewrite cells_recorded. unfold updates, effect.
  rewrite list_to_map_app, !list_to_map_fmap, lookup_union, !lookup_fmap.
  destruct (list_to_map (status_writes out) !! k), (list_to_map (status_deltas out) !! k); done.
Qed.

(** A map that holds the effects of the executions, and nothing else. *)
Definition maps_effects (m : gmap K (gmap TxnIndex (Entry V))) (outs : list Status) : Prop :=
  forall key i,
    (fun e => (flag e, cell_effect (cell e))) <$> tree_of m key !! i =
    pair FLAG_DONE <$> (outs !! i ≫= fun out => effect out key).

(** The first [n] executions, in a tree whose entries are all final. *)
Definition holds_effects (agg : K -> option Z) (tree : gmap TxnIndex (Entry V)) (key : K)
  (outs : list Status) (n : nat) : Prop :=
  forall j, j < n ->
    (exists out, outs !! j = Some out /\ cell_effect ∘ cell <$> tree !! j = effect out key) /\
    (forall e, tree !! j = Some e -> flag e = FLAG_DONE /\ cell_ok agg key (cell e)).

Lemma from_write_number (v : V) o : from_write (E := MVHashMapError) v = Return o -> o = number v.
Proof.
  unfold from_write, number. destruct (extract_raw_bytes v) as [b|]; simpl; [|by intros [= <-]].
  destruct (deserialize b); simpl; [by intros [= <-]|done].
Qed.

Lemma read_effects agg tree key outs n : forall acc,
  holds_effects agg tree key outs n -> (forall d, acc = Some d -> delta_ok agg key d) ->
  exists d, view_result key (read_loop (range_back tree n) acc)
    = Some (value_after (reverse (take n outs)) key acc, d).
Proof.
  induction n as [|n IH]; intros acc Hh Hacc.
  { rewrite range_back_0. simpl. destruct acc; simpl; eauto. }
  assert (Hh' : holds_effects agg tree key outs n) by (intros j Hj; apply Hh; lia).
  destruct (Hh n ltac:(lia)) as [(out & Hout & He) Hok].
  rewrite range_back_S, (take_S_r _ _ _ Hout), reverse_snoc. cbn [value_after].
  rewrite <- He. destruct (tree !! n) as [[f cl]|]; cbn [app fmap option_fmap option_map];
    [|by apply IH].
  destruct (Hok _ eq_refl) as [Hf Hcl]. simpl in Hf, Hcl. subst f.
  rewrite read_loop_entry. unfold read_entry, compose. simpl.
  destruct cl as [inc v|d], acc as [acc|]; simpl.
  - destruct (Hcl (delta_ok_agg _ _ _ (Hacc acc eq_refl))) as [o Ho]. rewrite Ho. simpl.
    apply from_write_number in Ho as <-. destruct o as [z|]; simpl; [|eauto].
    destruct (apply_to acc z); simpl; eauto.
  - eauto.
  - destruct (merge_onto acc d) as [m|] eqn:Hm; simpl; [|eauto]. apply IH; [done|].
    intros d' [= <-]. by eapply delta_ok_merge; [apply Hacc| |].
  - apply IH; [done|]. by intros d' [= <-].
Qed.

(** A run on captured reads is the run on any view that gives the same values. *)
Lemma replay_run_on lg ds (view : K -> ReadResult V) : forall (r : VMRun K V O E) out,
  replay lg r ds = Some (VMDone out) ->
  (forall d v, d ∈ ds -> described lg d = Some v -> view (access_path d) = v) ->
  run_on view r = Some out.
Proof.
  induction ds as [|d ds IH]; intros r out Hr Hv.
  - simpl in Hr. by injection Hr as ->.
  - simpl in Hr. destruct r as [|key cont|]; [done| |done].
    case_decide as Hk; [|done]. subst key.
    destruct (described lg d) as [v|] eqn:Hd; simpl in Hr; [|done]. simpl.
    rewrite (Hv d v) by (done || left). apply IH; [done|]. intros d' v' Hd'. apply Hv. by right.
Qed.

(** A captured read that would be made again has the value that would be read. *)
Lemma valid_value (lg : gmap (K * TxnIndex * Incarnation) V) (d : ReadDescriptor K) v v' d'
  (r : ReadOutput V) :
  validates d r = true -> view_result (access_path d) r = Some (v', d') ->
  described lg d' = Some v' -> described lg d = Some v -> v' = v.
Proof.
  unfold validates. intros Hval Hr Hd' Hd. rewrite Hr in Hval. apply bool_decide_eq_true in Hval.
  pose proof (view_result_path _ _ _ _ Hr) as Hp.
  assert (d = d') as -> by (destruct d, d'; simpl in *; congruence). congruence.
Qed.

Lemma read_loop_known (agg : K -> option Z) (lg : gmap (K * TxnIndex * Incarnation) V) key iter : forall acc,
  (forall j e, (j, e) ∈ iter -> (flag e = FLAG_DONE \/ flag e = FLAG_ESTIMATE) /\
     cell_ok agg key (cell e) /\ logged (fun n => lg !! (key, j, n)) (cell e)) ->
  (forall d, acc = Some d -> delta_ok agg key d) ->
  sub_known agg lg (ReadDone key (read_loop iter acc)).
Proof.
  induction iter as [|[j [f cl]] iter IH]; intros acc Hit Hacc.
  { rewrite read_loop_nil. by apply read_over_known. }
  destruct (Hit j {| flag := f; cell := cl |}) as (Hf & Hok & Hlg); [left|]. simpl in Hf, Hok, Hlg.
  pose proof (read_entry_known agg lg key j f cl acc Hf Hok Hlg Hacc) as Hk.
  rewrite read_loop_entry. destruct (read_entry _ _ _) as [r|acc']; [done|].
  apply IH; [|done]. intros j' e' Hin. apply Hit. by right.
Qed.

End Sequential.
