(* ===== verification/Correctness.v ===== *)
(** * The parallel executor is correct

    What the invariants give for the pool of threads of [Executor]: no interleaving panics, and
    when the threads are done the outputs are those of the sequential execution. *)
From S2P Require Import Prelude Delta ChangeSetExt MVMap Conc Scheduler LastInputOutput Executor.
From S2P Require Import Protocol Ownership Quiescence Locks Versions Validity Variant Progress.
From S2P Require Import Simulation Sequential.

#[local] Open Scope nat_scope.

Section Correctness.
Context `{Bcs128, !Bcs128Laws} {K V O E P T : Type} `{Countable K} `{Countable P}.
Context `{TransactionWrite V} `{TransactionOutput K V O} `{ModulePath K P}.
Context (hash_iter : gset K -> list K).
Context (execute_transaction : TxnIndex -> T -> VMRun K V O E).
Context (block : list T).
Context (agg : K -> option Z).
Context (Hiter : forall s, hash_iter s ≡ₚ elements s).
Context (Hvm : forall i txn, block !! i = Some txn -> run_ok agg (execute_transaction i txn)).
Context (threads : nat).

Abbreviation PC := (PC (K := K) (V := V) (O := O) (E := E)).
Abbreviation Block := (Block (K := K) (V := V) (O := O) (E := E) (P := P)).
Abbreviation Shared := (Shared (K := K) (V := V) (O := O) (E := E) (P := P)).
Abbreviation reach := (reach (K := K) (V := V) (O := O) (E := E) (P := P) hash_iter execute_transaction block).

(** ** When all is quiet *)

(** The map holds what an executed transaction has output. *)
Lemma executed_effects (x : Shared * list PC) i inc out key :
  versioned execute_transaction block agg x ->
  status_at x.1 i = Some (Executed inc) -> outputs (io x.1) !! i = Some (Some (recorded out)) ->
  cell_effect ∘ cell <$> tree_of (data x.1) key !! i = effect out key /\
  (forall e, tree_of (data x.1) key !! i = Some e ->
     flag e = FLAG_DONE /\ cell_ok agg key (cell e)).
Proof.
  intros Hv Hs Ho. apply out_of_lookup in Ho as Hout.
  assert (Hh : holds x.1 i {| lay_done := cells inc (out_of x.1 i); lay_stale := ∅; lay_inc := inc |}).
  { apply (v_status _ _ _ _ Hv). unfold status_layout. by rewrite Hs. }
  destruct (Hh key) as [He _]. simpl in He. rewrite Hout in He. unfold entry_of in He.
  rewrite <- (cells_effect inc). destruct (cells inc (Some (recorded out)) !! key) as [cl|].
  - rewrite He. split; [done|]. intros e [= <-]. split; [done|].
    by apply (v_entry _ _ _ _ Hv i key {| flag := FLAG_DONE; cell := cl |}).
  - rewrite decide_False in He by apply not_elem_of_empty. by rewrite He.
Qed.

(** The outputs that are recorded when all is quiet. *)
Definition outcome (x : Shared * list PC) (outs : list (ExecutionStatus O E)) : Prop :=
  length outs = length block /\
  forall i out, outs !! i = Some out -> outputs (io x.1) !! i = Some (Some (recorded out)).

Lemma quiet_outcome x : reach threads x -> quiet block x -> exists outs, outcome x outs.
Proof.
  intros Hx Hq. pose proof (executor_reach _ _ _ _ Hiter Hvm _ _ Hx) as Hinv.
  apply list_choice. intros i Hi.
  destruct (quiet_executed _ x i (i_owned _ _ _ _ Hinv) (i_counted _ _ _ _ Hinv) Hq Hi) as [inc Hs].
  destruct (v_recorded _ _ _ _ (i_versioned _ _ _ _ Hinv) i inc Hs) as (reads & out & _ & Ho & _).
  by exists out.
Qed.

Lemma quiet_effects x outs i out key :
  reach threads x -> quiet block x -> outcome x outs -> outs !! i = Some out ->
  cell_effect ∘ cell <$> tree_of (data x.1) key !! i = effect out key /\
  (forall e, tree_of (data x.1) key !! i = Some e ->
     flag e = FLAG_DONE /\ cell_ok agg key (cell e)).
Proof.
  intros Hx Hq [Hlen Hout] Ho. pose proof (executor_reach _ _ _ _ Hiter Hvm _ _ Hx) as Hinv.
  assert (Hi : i < length block) by (rewrite <- Hlen; by eapply lookup_lt_Some).
  destruct (quiet_executed _ x i (i_owned _ _ _ _ Hinv) (i_counted _ _ _ _ Hinv) Hq Hi) as [inc Hs].
  eapply executed_effects; [by apply (i_versioned _ _ _ _ Hinv)|done|by apply Hout].
Qed.

(** They are the outputs of the sequential execution. *)
Lemma quiet_sequential x outs :
  reach threads x -> quiet block x -> outcome x outs ->
  sequential_outputs execute_transaction block = Some outs.
Proof.
  intros Hx Hq Hout. pose proof (executor_reach _ _ _ _ Hiter Hvm _ _ Hx) as Hinv.
  pose proof (i_versioned _ _ _ _ Hinv) as Hv. apply sequential_spec.
  split; [apply Hout|]. intros i txn out Htxn Ho.
  destruct (quiet_executed _ x i (i_owned _ _ _ _ Hinv) (i_counted _ _ _ _ Hinv) Hq) as [inc Hs];
    [by eapply lookup_lt_Some|].
  destruct (v_recorded _ _ _ _ Hv i inc Hs) as (captured & out' & Hin & Ho' & [(txn' & Htxn' & Hr) _]).
  assert (txn' = txn) as -> by congruence.
  assert (recorded out' = recorded out) as Hrec.
  { rewrite (proj2 Hout i out Ho) in Ho'. by injection Ho'. }
  apply recorded_inj in Hrec as ->.
  destruct (quiet_valid _ _ _ _ Hiter Hvm _ _ i inc Hx Hq Hs) as (reads & Hin' & Hvalid).
  assert (reads = captured) as -> by congruence.
  apply (replay_run_on _ _ _ _ _ Hr).
  intros d v Hd Hdv. rewrite Forall_forall in Hvalid. specialize (Hvalid d Hd).
  assert (Hh : holds_effects agg (tree_of (data x.1) (access_path d)) (access_path d) outs i).
  { intros j Hj. destruct (lookup_lt_is_Some_2 outs j) as [outj Hoj].
    { rewrite (proj1 Hout). apply lookup_lt_Some in Htxn. lia. }
    destruct (quiet_effects x outs j outj (access_path d) Hx Hq Hout Hoj) as [? ?].
    split; [by exists outj|done]. }
  destruct (read_effects agg _ _ _ i None Hh) as [d' Hd']; [done|].
  unfold valid in Hvalid. rewrite read_tree in Hvalid.
  eapply valid_value; [exact Hvalid|exact Hd'| |exact Hdv].
  apply (read_loop_known agg (log x.1) (access_path d)
    (range_back (tree_of (data x.1) (access_path d)) i) None); [|done|exact Hd'].
  intros j e Hje. apply range_back_elem in Hje as [_ Hje].
  by apply (v_entry _ _ _ _ Hv j (access_path d) e).
Qed.

(** ** The theorems *)

(** The outcome of the executor, for the outputs and the map of the sequential execution. *)
Definition sequential_map (m : gmap K (gmap TxnIndex (Entry V))) : Prop :=
  exists outs, sequential_outputs execute_transaction block = Some outs /\ maps_effects m outs.

Lemma finished_quiet (c : pool Block * Block) :
  0 < threads ->
  rtc pool_step (spawn hash_iter execute_transaction threads block : pool Block * Block) c ->
  finished c -> exists x, reach threads x /\ blk x.1 = c.2 /\ quiet block x.
Proof.
  intros Hth Hc Hf.
  destruct (executor_config _ _ _ _ _ (pool_inv _ _ _ _ Hiter Hvm _ _ Hc)) as (lg & pcs & Hr & Hps).
  exists ({| blk := c.2; log := lg |}, pcs). split_and!; [done|done|].
  pose proof (finished_pcs _ _ Hf Hps) as Hfin.
  pose proof (i_counted _ _ _ _ (executor_reach _ _ _ _ Hiter Hvm _ _ Hr)) as Hcount.
  apply (c_done _ _ Hcount).
  destruct (lookup_lt_is_Some_2 pcs 0) as [pc Hl].
  { by rewrite (reach_length _ _ _ _ _ Hr : length pcs = threads). }
  pose proof (c_knows _ _ Hcount 0 pc Hl) as Hk.
  by rewrite (Forall_lookup_1 _ _ _ _ Hfin Hl) in Hk.
Qed.

Lemma quiet_map x : reach threads x -> quiet block x -> sequential_map (data x.1).
Proof.
  intros Hx Hq. pose proof (executor_reach _ _ _ _ Hiter Hvm _ _ Hx) as Hinv.
  destruct (quiet_outcome x Hx Hq) as [outs Hout]. exists outs.
  split; [by apply (quiet_sequential x)|]. intros key i.
  destruct (outs !! i) as [out|] eqn:Ho; simpl.
  { destruct (quiet_effects x outs i out key Hx Hq Hout Ho) as [He Hf]. rewrite <- He.
    destruct (tree_of (data x.1) key !! i) as [e|]; simpl; [|done].
    by destruct (Hf e eq_refl) as [-> _]. }
  destruct (tree_of (data x.1) key !! i) as [e|] eqn:He; [|done].
  pose proof (v_bound _ _ _ _ (i_versioned _ _ _ _ Hinv) i key e He) as Hlt.
  apply lookup_ge_None in Ho. rewrite (proj1 Hout) in Ho. lia.
Qed.

(** What the executor returns, when the threads are done. *)
Lemma quiet_result x :
  reach threads x -> quiet block x ->
  exists r, block_result (blk x.1) = Some r /\
    match r with
    | Ok (results, m) =>
        sequential_result execute_transaction block = Some (Ok results) /\ sequential_map m
    | Err err =>
        (err = ModulePathReadWrite /\ module_publishing_may_race (io x.1) = true) \/
        sequential_result execute_transaction block = Some (Err err)
    end.
Proof.
  intros Hx Hq. pose proof (executor_reach _ _ _ _ Hiter Hvm _ _ Hx) as Hinv.
  destruct (o_len _ _ _ (i_owned _ _ _ _ Hinv)) as (_ & _ & _ & Hn). unfold sch in Hn.
  unfold block_result. rewrite Hn. change (last_input_output (blk x.1)) with (io x.1).
  destruct (module_publishing_may_race (io x.1)) eqn:Hrace.
  { exists (Err ModulePathReadWrite). split; [done|]. by left. }
  destruct (quiet_outcome x Hx Hq) as [outs Hout].
  pose proof (collect_committed outs 0 (io x.1) [] (proj2 Hout)) as Hcol.
  rewrite (proj1 Hout) in Hcol. unfold sequential_result.
  rewrite (quiet_sequential x outs Hx Hq Hout). simpl. destruct (committed outs) as [l|err].
  - rewrite Hcol. simpl. eexists. split; [done|]. split; [done|]. by apply quiet_map.
  - destruct Hcol as [l Hl]. rewrite Hl. exists (Err err). split; [done|by right].
Qed.

(** What holds of every state the threads reach. *)
Lemma reached (c : pool Block * Block) :
  rtc pool_step (spawn hash_iter execute_transaction threads block : pool Block * Block) c ->
  exists x, reach threads x /\ blk x.1 = c.2 /\ executor_inv execute_transaction block agg x.
Proof.
  intros Hc.
  destruct (executor_config _ _ _ _ _ (pool_inv _ _ _ _ Hiter Hvm _ _ Hc)) as (lg & pcs & Hr & _).
  exists ({| blk := c.2; log := lg |}, pcs). split_and!; [done..|].
  by eapply executor_reach.
Qed.

Lemma guards_bound (pcs : list PC) : total guards pcs <= length pcs.
Proof.
  induction pcs as [|pc pcs IH]; [done|]. rewrite total_cons. simpl.
  assert (guards pc <= 1) by (destruct pc; simpl; lia). lia.
Qed.
End Correctness.

(** ** The properties of the executor *)

Section Properties.
Context `{Bcs128, !Bcs128Laws} {K V O E P T : Type} `{Countable K} `{Countable P}.
Context `{TransactionWrite V} `{TransactionOutput K V O} `{ModulePath K P}.
Context (hash_iter : gset K -> list K).
Context (execute_transaction : TxnIndex -> T -> VMRun K V O E).
Context (block : list T).

Abbreviation Block := (Block (K := K) (V := V) (O := O) (E := E) (P := P)).
Abbreviation run c n :=
  (rtc pool_step (spawn hash_iter execute_transaction n block : pool Block * Block) c).

(** What [execute_transactions_parallel] returns is the error of a race on a module path, or
    what the sequential execution returns. *)
Lemma parallel_result (agg : K -> option Z) num_cpus concurrency_level r :
  (forall s, hash_iter s ≡ₚ elements s) ->
  (forall i txn, block !! i = Some txn -> run_ok agg (execute_transaction i txn)) ->
  valid_concurrency_level num_cpus concurrency_level = true ->
  execute_transactions_parallel (P := P) hash_iter execute_transaction concurrency_level block r ->
  match r with
  | Ok (results, m) =>
      sequential_result execute_transaction block = Some (Ok results) /\
      exists outs, sequential_outputs execute_transaction block = Some outs /\ maps_effects m outs
  | Err err =>
      err = ModulePathReadWrite \/ sequential_result execute_transaction block = Some (Err err)
  end.
Proof.
  intros Hiter Hvm Hlevel Hr. assert (Hth : 0 < concurrency_level).
  { apply andb_true_iff in Hlevel as [Hl%Nat.ltb_lt _]. lia. }
  destruct Hr as [-> |c r Hne Hc Hf Hr].
  - split; [done|]. exists []. split; [done|]. intros key i. unfold tree_of, mv_new.
    rewrite lookup_empty. simpl. by rewrite lookup_empty.
  - destruct (finished_quiet _ _ _ _ Hiter Hvm _ _ Hth Hc Hf) as (x & Hx & Hb & Hq).
    destruct (quiet_result _ _ _ _ Hiter Hvm _ _ Hx Hq) as (r' & Hr' & Hok).
    rewrite Hb, Hr in Hr'. injection Hr' as <-. destruct r as [[results m]|err]; [done|]. tauto.
Qed.

(** C5. No thread panics.  In every state that an interleaving reaches, no thread is about to
    fail an assertion, an [unwrap] or an [unreachable!()], or to index out of bounds: neither
    the version checks of the map, nor the status checks and the guard count of the scheduler,
    nor the paths that are deleted or marked, nor the read sets that are validated. *)
Theorem no_thread_panics (agg : K -> option Z) concurrency_level c :
  (forall s, hash_iter s ≡ₚ elements s) ->
  (forall i txn, block !! i = Some txn -> run_ok agg (execute_transaction i txn)) ->
  run c concurrency_level -> ~ crashing c.
Proof.
  intros Hiter Hvm Hc. pose proof (pool_inv _ _ _ agg Hiter Hvm _ _ Hc) as Hok.
  exact (pool_ok_no_crash _ _ _ _ _ _ _ (level_refl block) _ c Hok).
Qed.

(** The executor does not deadlock.  In every state that an interleaving reaches, every
    thread has returned, or some thread can take a step, whatever the locks that are held and
    the transactions that wait for others.  This is the claim that a comment in
    [MVHashMapView::read] argues for the condition variables, with all the locks. *)
Theorem no_deadlock (agg : K -> option Z) concurrency_level c :
  0 < concurrency_level ->
  (forall s, hash_iter s ≡ₚ elements s) ->
  (forall i txn, block !! i = Some txn -> run_ok agg (execute_transaction i txn)) ->
  run c concurrency_level -> finished c \/ exists c', pool_step c c'.
Proof.
  intros Hth Hiter Hvm Hc. destruct (pool_can_step c) as [|Hstuck]; [by right|left].
  pose proof (pool_inv _ _ _ agg Hiter Hvm _ _ Hc) as Hok.
  destruct (pool_stuck _ _ _ _ _ _ _ (level_refl block) _ c Hok Hstuck) as (w & ls & Hi & Hps).
  assert (Hno : Forall (fun l => ~ waits c.2 l.1) ls).
  { eapply not_all_wait; [exact Hth|exact Hi|]. apply Forall_lookup_2. intros t l Hl.
    destruct (Forall2_lookup_r _ _ _ _ _ Hps Hl) as (p & _ & [[_ ?]|?]); auto. }
  apply Forall_lookup_2. intros t p Hp. destruct (Forall2_lookup_l _ _ _ _ _ Hps Hp) as (l & Hl & Hpl).
  destruct Hpl as [[-> _]|Hw]; [done|]. by destruct (Forall_lookup_1 _ _ _ _ Hno Hl).
Qed.

(** C9. The done marker means that the block is executed.  Once it is set, every transaction is
    executed, and every read that its last incarnation recorded would be made again with the
    same result. *)
Theorem done_is_final (agg : K -> option Z) concurrency_level c i :
  (forall s, hash_iter s ≡ₚ elements s) ->
  (forall i txn, block !! i = Some txn -> run_ok agg (execute_transaction i txn)) ->
  run c concurrency_level -> done_marker (scheduler c.2) = true -> i < length block ->
  exists incarnation reads,
    txn_status (scheduler c.2) !! i = Some (Executed incarnation) /\
    inputs (last_input_output c.2) !! i = Some (Some reads) /\
    Forall (fun d => validates d (read (mv_data (versioned_data_cache c.2)) (access_path d) i) = true)
      reads.
Proof.
  intros Hiter Hvm Hc Hd Hi. destruct (reached _ _ _ _ Hiter Hvm _ _ Hc) as (x & Hx & Hb & Hinv).
  rewrite <- Hb in *. pose proof (c_done _ _ (i_counted _ _ _ _ Hinv) Hd) as Hq.
  destruct (quiet_executed _ x i (i_owned _ _ _ _ Hinv) (i_counted _ _ _ _ Hinv) Hq Hi) as [inc Hs].
  destruct (quiet_valid _ _ _ _ Hiter Hvm _ _ i inc Hx Hq Hs) as (reads & Hin & Hv).
  by exists inc, reads.
Qed.

(** When the threads are done, collecting the outputs does not
    panic: every transaction has an output, up to the last one that is taken. *)
Theorem finished_block_returns (agg : K -> option Z) concurrency_level c :
  0 < concurrency_level ->
  (forall s, hash_iter s ≡ₚ elements s) ->
  (forall i txn, block !! i = Some txn -> run_ok agg (execute_transaction i txn)) ->
  run c concurrency_level -> finished c -> is_Some (block_result c.2).
Proof.
  intros Hth Hiter Hvm Hc Hf.
  destruct (finished_quiet _ _ _ _ Hiter Hvm _ _ Hth Hc Hf) as (x & Hx & <- & Hq).
  destruct (quiet_result _ _ _ _ Hiter Hvm _ _ Hx Hq) as (r & -> & _). done.
Qed.

(** The count of active tasks never exceeds the number of threads, and is zero once the
    done marker is set and the threads have returned. *)
Theorem active_tasks_bounded (agg : K -> option Z) concurrency_level c :
  (forall s, hash_iter s ≡ₚ elements s) ->
  (forall i txn, block !! i = Some txn -> run_ok agg (execute_transaction i txn)) ->
  run c concurrency_level ->
  num_active_tasks (scheduler c.2) <= concurrency_level /\
  (finished c -> num_active_tasks (scheduler c.2) = 0).
Proof.
  intros Hiter Hvm Hc. destruct (executor_config _ _ _ _ _ (pool_inv _ _ _ _ Hiter Hvm _ _ Hc)) as (lg & pcs & Hr & Hps).
  pose proof (c_guards _ _ (counted_reach _ _ _ _ _ Hr)) as Hg. unfold sch in Hg. simpl in Hg.
  rewrite Hg. split.
  - pose proof (guards_bound pcs). pose proof (reach_length _ _ _ _ _ Hr). simpl in *. lia.
  - intros Hf. pose proof (finished_pcs _ _ Hf Hps) as Hfin.
    clear - Hfin. induction Hfin as [|pc pcs -> _ IH]; [done|]. by rewrite total_cons.
Qed.

(** C10. The statuses follow their diagram.  A step of any interleaving changes the status of a
    transaction only along the transitions that the scheduler documents: no incarnation is
    skipped, executed twice, or aborted without having been executed. *)
Theorem status_transitions (agg : K -> option Z) concurrency_level c c' i :
  (forall s, hash_iter s ≡ₚ elements s) ->
  (forall i txn, block !! i = Some txn -> run_ok agg (execute_transaction i txn)) ->
  run c concurrency_level -> pool_step c c' ->
  txn_status (scheduler c'.2) !! i = txn_status (scheduler c.2) !! i \/
  exists st st', txn_status (scheduler c.2) !! i = Some st /\
    txn_status (scheduler c'.2) !! i = Some st' /\ transition st st'.
Proof.
  intros Hiter Hvm Hc Hs. pose proof (pool_inv _ _ _ agg Hiter Hvm _ _ Hc) as Hok.
  destruct (pool_steps _ _ _ _ _ _ _ (level_refl block) _ _ _ Hok Hs) as [->|Hm]; [by left|]. apply Hm.
Qed.
End Properties.

(** ** A block of three transactions, with two threads *)

Section Example.
#[local] Existing Instance LittleEndian.le_bcs.
#[local] Existing Instance LittleEndian.le_bcs_laws.
#[local] Instance example_write : TransactionWrite (option bytes) := fun v => v.
#[local] Instance example_output :
  TransactionOutput nat (option bytes) (list (nat * option bytes) * list (nat * DeltaOp)) :=
  {| get_writes := fst; get_deltas := snd; skip_output := ([], []) |}.
#[local] Instance example_module : ModulePath nat nat := fun _ => None.

(** The first writes 5 to key 0, the second adds 2 to it, the others read it and copy it. *)
Definition example_vm (i : TxnIndex) (txn : nat)
  : VMRun nat (option bytes) (list (nat * option bytes) * list (nat * DeltaOp)) unit :=
  match txn with
  | 0 => VMDone (Success ([(0, bcs_to_bytes 5)], []))
  | 1 => VMDone (Success ([], [(0, delta_add 2 100)]))
  | _ => VMRead 0 (fun v => match v with
           | RU128 z => VMDone (Success ([(1, bcs_to_bytes z)], []))
           | _ => VMDone (Success ([(2, None)], []))
           end)
  end.
Definition example_agg (k : nat) : option Z := if k =? 0 then Some 100%Z else None.

Lemma example_ok (block : list nat) i txn :
  block !! i = Some txn -> run_ok example_agg (example_vm i txn).
Proof.
  assert (Hw : forall k v, k <> 0 -> output_ok (E := unit) (O := list (nat * option bytes) * list (nat * DeltaOp))
    example_agg (Success ([(k, v)], []))).
  { intros k v Hk. split; [by apply NoDup_singleton|]. intros inc k' cl Hin.
    apply list_elem_of_singleton in Hin as [= -> ->]. destruct k; [done|]. by intros []. }
  intros _. destruct txn as [|[|txn]]; simpl.
  - split; [by apply NoDup_singleton|]. intros inc k cl Hin.
    apply list_elem_of_singleton in Hin as [= -> ->]. intros _. by eexists.
  - split; [by apply NoDup_singleton|]. intros inc k cl Hin.
    apply list_elem_of_singleton in Hin as [= -> ->]. split; [done|]. vm_compute. intuition discriminate.
  - intros v _. destruct v; by apply Hw.
Qed.

Lemma example_order (s : gset nat) : elements s ≡ₚ elements s.
Proof. done. Qed.

(** The first thread stops after a few steps, while the second one executes the last
    transaction too early; it is aborted and executed again. *)
Definition example_spawn := spawn (P := nat) elements example_vm 2 [0; 1; 2].
Definition example_mid := play (replicate 18 0 ++ replicate 250 1) example_spawn.
Definition example_end :=
  play (replicate 18 0 ++ replicate 300 1 ++ concat (replicate 600 [1; 0])) example_spawn.

Lemma example_finished : finished example_end.
Proof. vm_compute. repeat constructor. Qed.

Example example_reexecuted :
  txn_status (scheduler example_end.2) = [Executed 0; Executed 0; Executed 1].
Proof. vm_compute. reflexivity. Qed.

Lemma no_thread_panics_witness : ~ crashing example_mid.
Proof.
  apply (no_thread_panics elements example_vm [0; 1; 2] example_agg 2 example_mid example_order
    (example_ok _)). apply play_reaches.
Defined.

Lemma no_deadlock_witness : finished example_mid \/ exists c', pool_step example_mid c'.
Proof.
  apply (no_deadlock elements example_vm [0; 1; 2] example_agg 2 example_mid ltac:(lia) example_order
    (example_ok _)). apply play_reaches.
Defined.

Lemma done_is_final_witness :
  exists incarnation reads,
    txn_status (scheduler example_end.2) !! 2 = Some (Executed incarnation) /\
    inputs (last_input_output example_end.2) !! 2 = Some (Some reads) /\
    Forall (fun d => validates d
      (read (mv_data (versioned_data_cache example_end.2)) (access_path d) 2) = true) reads.
Proof.
  apply (done_is_final elements example_vm [0; 1; 2] example_agg 2 example_end 2 example_order
    (example_ok _)); [apply play_reaches|vm_compute; reflexivity|simpl; lia].
Defined.

Lemma finished_block_returns_witness : is_Some (block_result example_end.2).
Proof.
  apply (finished_block_returns elements example_vm [0; 1; 2] example_agg 2 example_end ltac:(lia)
    example_order (example_ok _)); [apply play_reaches|apply example_finished].
Defined.

Lemma active_tasks_bounded_witness :
  num_active_tasks (scheduler example_mid.2) <= 2 /\
  num_active_tasks (scheduler example_end.2) = 0.
Proof.
  split.
  - apply (active_tasks_bounded elements example_vm [0; 1; 2] example_agg 2 example_mid example_order
      (example_ok _)). apply play_reaches.
  - apply (active_tasks_bounded elements example_vm [0; 1; 2] example_agg 2 example_end example_order
      (example_ok _)); [apply play_reaches|apply example_finished].
Defined.

Lemma status_transitions_witness :
  exists c', pool_step example_mid c' /\
    (txn_status (scheduler c'.2) !! 2 = txn_status (scheduler example_mid.2) !! 2 \/
     exists st st', txn_status (scheduler example_mid.2) !! 2 = Some st /\
       txn_status (scheduler c'.2) !! 2 = Some st' /\ transition st st').
Proof.
  assert (Hs : pool_step example_mid (play [0] example_mid)).
  { apply play_one. vm_compute. reflexivity. }
  exists (play [0] example_mid). split; [done|].
  apply (status_transitions elements example_vm [0; 1; 2] example_agg 2 example_mid _ 2 example_order
    (example_ok _)); [apply play_reaches|done].
Defined.
End Example.
