(* ===== verification/Termination.v ===== *)
(** * The parallel executor ends

    The variant of [Variant] makes the worlds of [Simulation] well founded, and the logic of
    [Fair] applies to them.  So no interleaving executes or aborts transactions forever, and
    every fair schedule of the threads comes to an end, from whatever state, however the locks,
    the indices and the statuses are left.  With [Correctness], the executor returns, and what it
    returns is right. *)
From stdpp Require Import relations.
From S2P Require Import Prelude Delta ChangeSetExt MVMap Conc Fair Scheduler LastInputOutput Executor.
From S2P Require Import Protocol Ownership Quiescence Locks Versions Validity Variant Staleness.
From S2P Require Import Progress Simulation Sequential Correctness.

#[local] Open Scope nat_scope.

Section Termination.
Context `{Bcs128, !Bcs128Laws} {K V O E P T : Type} `{Countable K} `{Countable P}.
Context `{TransactionWrite V} `{TransactionOutput K V O} `{ModulePath K P}.
Context (hash_iter : gset K -> list K).
Context (execute_transaction : TxnIndex -> T -> VMRun K V O E).
Context (block : list T).

Abbreviation Block := (Block (K := K) (V := V) (O := O) (E := E) (P := P)).
Abbreviation start n := (spawn hash_iter execute_transaction n block : pool Block * Block).

Section Logic.
Context (agg : K -> option Z) (threads : nat).
Context (Hiter : forall s, hash_iter s ≡ₚ elements s).
Context (Hvm : forall i txn, block !! i = Some txn -> run_ok agg (execute_transaction i txn)).

Abbreviation invariant := (Inv (P := P) hash_iter execute_transaction block threads).

(** A fair run from the start of a block ends, and the executor returns. *)
Lemma run_returns (run : nat -> pool Block * Block) n : 0 < threads -> fair_run run ->
  rtc pool_step (start threads) (run n) ->
  exists m, n <= m /\ finished (run m) /\ is_Some (block_result (run m).2).
Proof.
  intros Hth Hrun Hc. destruct (pool_inv _ _ _ agg Hiter Hvm _ _ Hc) as (w & ls & Hat).
  destruct (fair_run_ends invariant (fun b l => waits b l.1) moves (World_less block) (World_level block) snd
    (rests block) (level_refl block) (level_trans block) (World_less_level block)
    (waits_level hash_iter execute_transaction block threads) (rests_level block) run Hrun at_end)
    with (w := w) (n := n) (ls := ls) as (m & Hm & Hf).
  - intros l Hl w' _. by rewrite Hl.
  - intros w' b ls' Hi' Hall. by eapply not_all_wait.
  - apply World_less_wf.
  - done.
  - exists m. split_and!; [done..|].
    apply (finished_block_returns hash_iter execute_transaction block agg threads); [done..| |done].
    etrans; [exact Hc|]. by apply run_reaches.
Qed.

(** A pool that the threads reach can be brought to its end: they take turns. *)
Lemma completes (c : pool Block * Block) : 0 < threads -> rtc pool_step (start threads) c ->
  exists c', rtc pool_step c c' /\ finished c' /\ is_Some (block_result c'.2).
Proof.
  intros Hth Hc. pose proof (in_turn_fair (length c.1) c (le_n _)) as Hrun.
  destruct (run_returns (in_turn (length c.1) c) 0 Hth Hrun Hc) as (m & _ & Hf & Hr).
  exists (in_turn (length c.1) c m). split_and!; [|done..]. apply (run_reaches (in_turn (length c.1) c) 0 m); [done|lia].
Qed.
End Logic.

(** The executor returns, whatever the concurrency level. *)
Lemma executor_returns (agg : K -> option Z) num_cpus concurrency_level :
  (forall s, hash_iter s ≡ₚ elements s) ->
  (forall i txn, block !! i = Some txn -> run_ok agg (execute_transaction i txn)) ->
  valid_concurrency_level num_cpus concurrency_level = true ->
  exists r, execute_transactions_parallel (P := P) hash_iter execute_transaction concurrency_level block r.
Proof.
  intros Hiter Hvm [Hl%Nat.ltb_lt _]%andb_true_iff.
  destruct (decide (block = [])) as [->|Hne]; [by eexists; apply ExecuteEmpty|].
  destruct (completes agg concurrency_level Hiter Hvm (start concurrency_level)) as (c & Hc & Hf & r & Hr); [lia|done|].
  exists r. by apply ExecuteBlock with c.
Qed.

(** C1. The parallel executor refines the sequential one.  [execute_transactions_parallel] has
    an interleaving of its threads by which it returns, and whatever the interleaving, what it
    returns is either the error of a race on a module path, or what the sequential execution of
    the block returns: the same outputs, padded with skipped ones, or the same error of the
    first transaction that aborts.  With the outputs it returns a map that holds, for every key
    and transaction, exactly the write or delta of the sequential execution, none of them an
    estimate.  The set of the written keys is iterated over in any order, and the VM may be any
    function of what it reads that writes no key twice, makes deltas on aggregators only, and
    panics on nothing that a multi-version map may show it. *)
Theorem parallel_is_sequential (agg : K -> option Z) num_cpus concurrency_level :
  (forall s, hash_iter s ≡ₚ elements s) ->
  (forall i txn, block !! i = Some txn -> run_ok agg (execute_transaction i txn)) ->
  valid_concurrency_level num_cpus concurrency_level = true ->
  let executes := execute_transactions_parallel (P := P) hash_iter execute_transaction
                    concurrency_level block in
  (exists r, executes r) /\
  forall r, executes r ->
    match r with
    | Ok (results, m) =>
        sequential_result execute_transaction block = Some (Ok results) /\
        exists outs, sequential_outputs execute_transaction block = Some outs /\ maps_effects m outs
    | Err err =>
        err = ModulePathReadWrite \/ sequential_result execute_transaction block = Some (Err err)
    end.
Proof.
  intros Hiter Hvm Hlevel executes. split; [by eapply executor_returns|].
  intros r. by apply (parallel_result _ _ _ agg num_cpus).
Qed.

(** C6. The executor terminates.  Every fair run of the threads, one in which no thread is passed
    over forever while it can take a step, comes to a state in which they have all returned, and
    collecting the outputs then does not panic: [execute_transactions_parallel] returns.  There
    is no deadlock, no livelock between aborts and executions, no read that is tried again
    forever, and no thread that looks for tasks forever.  In particular every state that an
    interleaving reaches, with whatever transactions suspended, being aborted or executed again,
    can be brought to such an end. *)
Theorem fair_runs_return (agg : K -> option Z) concurrency_level :
  0 < concurrency_level ->
  (forall s, hash_iter s ≡ₚ elements s) ->
  (forall i txn, block !! i = Some txn -> run_ok agg (execute_transaction i txn)) ->
  (forall run : nat -> pool Block * Block, fair_run run -> run 0 = start concurrency_level ->
     exists n r, finished (run n) /\ block_result (run n).2 = Some r) /\
  (forall c, rtc pool_step (start concurrency_level) c ->
     exists c' r, rtc pool_step c c' /\ finished c' /\ block_result c'.2 = Some r).
Proof.
  intros Hth Hiter Hvm. split.
  - intros run Hrun Hstart. destruct (run_returns agg concurrency_level Hiter Hvm run 0 Hth Hrun) as (n & _ & Hf & r & Hr);
      [by rewrite Hstart|]. by exists n, r.
  - intros c Hc. destruct (completes agg _ Hiter Hvm c Hth Hc) as (c' & Hr & Hf & r & Hres). by exists c', r.
Qed.

(** C30. Speculation ends, in every interleaving.  The statuses of the transactions change only
    finitely often, whatever the schedule of the threads: the relation from a state to the ones
    after a later change of a status has no infinite chain from the start of a block.  So a
    transaction is executed, suspended, resumed and aborted finitely often, although there is
    no bound on how often the VM reads, and although an abort may undo the work of all the
    transactions above. *)
Theorem speculation_ends (agg : K -> option Z) concurrency_level :
  (forall s, hash_iter s ≡ₚ elements s) ->
  (forall i txn, block !! i = Some txn -> run_ok agg (execute_transaction i txn)) ->
  Acc (changes_part (fun b : Block => txn_status (scheduler b))) (start concurrency_level).
Proof.
  intros Hiter Hvm. destruct (spawn_ok hash_iter execute_transaction block agg Hiter Hvm concurrency_level)
    as (w & ls & Hi & Hps).
  eapply (changes_end (Inv (P := P) hash_iter execute_transaction block concurrency_level)
    (fun b l => waits b l.1) moves (World_less block) (World_level block) snd (rests block)
    (level_refl block) (level_trans block) (World_less_level block) (World_level_less block) (World_less_trans block) at_end).
  - intros w1 b1 ls1 w2 b2 ls2 (<- & _) (<- & _) (_ & _ & _ & _ & _ & Hs & _). exact Hs.
  - apply World_less_wf.
  - by split.
Qed.
End Termination.

(** ** Examples *)

Section Example.
#[local] Existing Instance LittleEndian.le_bcs.
#[local] Existing Instance LittleEndian.le_bcs_laws.
#[local] Existing Instances example_write example_output example_module.

Lemma parallel_is_sequential_witness :
  exists results m,
    execute_transactions_parallel (P := nat) elements example_vm 2 [0; 1; 2] (Ok (results, m)) /\
    sequential_result example_vm [0; 1; 2] = Some (Ok results).
Proof.
  assert (He : exists results m, block_result example_end.2 = Some (Ok (results, m))).
  { vm_compute. eauto. }
  destruct He as (results & m & He). exists results, m.
  assert (Hr : execute_transactions_parallel (P := nat) elements example_vm 2 [0; 1; 2] (Ok (results, m))).
  { apply ExecuteBlock with example_end; [done|apply play_reaches|apply example_finished|done]. }
  split; [done|].
  exact (proj1 (proj2 (parallel_is_sequential elements example_vm [0; 1; 2] example_agg 4 2
    example_order (example_ok _) eq_refl) _ Hr)).
Defined.

Lemma fair_runs_return_witness :
  (exists n r, finished (in_turn 2 example_spawn n) /\ block_result (in_turn 2 example_spawn n).2 = Some r) /\
  (exists c' r, rtc pool_step example_mid c' /\ finished c' /\ block_result c'.2 = Some r).
Proof.
  destruct (fair_runs_return elements example_vm [0; 1; 2] example_agg 2 ltac:(lia) example_order
    (example_ok _)) as [Hruns Hends]. split.
  - apply Hruns; [|done]. by apply in_turn_fair.
  - apply Hends, play_reaches.
Defined.

Lemma speculation_ends_witness :
  Acc (changes_part (fun b => txn_status (scheduler b))) example_spawn /\
  txn_status (scheduler example_end.2) = [Executed 0; Executed 0; Executed 1].
Proof.
  split.
  - apply (speculation_ends elements example_vm [0; 1; 2] example_agg 2 example_order (example_ok _)).
  - vm_compute. reflexivity.
Defined.
End Example.
