(* ===== verification/StateView.v ===== *)
(** * Views of the state ([aptos-vm/src/data_cache.rs], [aptos-vm/src/delta_state_view.rs])

    A [StateView] is what the VM reads.  [StateViewCache] lays the writes of the transactions
    that are executed over the state, [DeltaStateView] the writes of one session, and
    [StorageAdapter] shows a view to the Move VM.  Two views that answer alike are equivalent,
    and what runs on them is a tree of reads, [ViewProg]. *)
From S2P Require Import Prelude.

(** The trait [StateView] of [aptos-state-view]; its errors are of type [anyhow::Error]. *)
Record StateView (StateKey StateViewId Usage AnyError : Type) := {
  view_id : StateViewId;
  get_state_value : StateKey -> result AnyError (option bytes);
  is_genesis : bool;
  get_usage : result AnyError Usage;
}.
Arguments view_id {StateKey StateViewId Usage AnyError} _.
Arguments get_state_value {StateKey StateViewId Usage AnyError} _ _.
Arguments is_genesis {StateKey StateViewId Usage AnyError} _.
Arguments get_usage {StateKey StateViewId Usage AnyError} _.
Arguments Build_StateView {StateKey StateViewId Usage AnyError} _ _ _ _.

(** What a written operation leaves at its key. *)
Definition written_value (op : WriteOp) : option bytes :=
  match op with
  | Modification data | Creation data => Some data
  | Deletion => None
  end.

Section Views.
Context {StateKey StateViewId Usage AnyError : Type} `{Countable StateKey}.
(** [Ord] of [StateKey]: the order of [WriteSet::iter]. *)
Context (key_leb : StateKey -> StateKey -> Prop) `{!RelDecision key_leb}.
Abbreviation View := (StateView StateKey StateViewId Usage AnyError).
Abbreviation WriteSet := (gmap StateKey WriteOp).

(** ** The cache of a block *)

Record StateViewCache := { data_view : View; data_map : gmap StateKey (option bytes) }.

Definition StateViewCache_new (view : View) : StateViewCache :=
  {| data_view := view; data_map := ∅ |}.

(** One iteration of the loop of [push_write_set]. *)
Definition push_write_op (map : gmap StateKey (option bytes)) (x : StateKey * WriteOp)
  : gmap StateKey (option bytes) :=
  match x.2 with
  | Modification blob | Creation blob => <[x.1 := Some blob]> map
  | Deletion => <[x.1 := None]> (delete x.1 map)
  end.

(** Publishes a [WriteSet] computed at the end of a transaction. *)
Definition push_write_set (self : StateViewCache) (write_set : WriteSet) : StateViewCache :=
  {| data_view := data_view self;
     data_map := foldl push_write_op (data_map self) (btree_iter key_leb write_set) |}.

(** [impl StateView for StateViewCache] *)
Definition cache_view (self : StateViewCache) : View :=
  {| view_id := view_id (data_view self);
     get_state_value := fun state_key =>
       match data_map self !! state_key with
       | Some opt_data => Ok opt_data
       | None =>
           match get_state_value (data_view self) state_key with
           | Ok remote_data => Ok remote_data
           | Err e => Err e
           end
       end;
     is_genesis := is_genesis (data_view self);
     get_usage := get_usage (data_view self) |}.

(** ** The view of a session over a write set *)

Record DeltaStateView := { base : View; write_set : WriteSet }.

(** [impl StateView for DeltaStateView] *)
Definition delta_view (self : DeltaStateView) : View :=
  {| view_id := view_id (base self);
     get_state_value := fun state_key =>
       match write_set self !! state_key with
       | Some (Creation data | Modification data) => Ok (Some data)
       | Some Deletion => Ok None
       | None => get_state_value (base self) state_key
       end;
     is_genesis := is_genesis (base self);
     get_usage := get_usage (base self) |}.

(** ** The adapter to the Move VM *)

(** The constructors of [StateKey], the paths of modules and resources, and
    [PartialVMError::finish]. *)
Context {AccessPath ModuleId AccountAddress StructTag TableHandle VMError : Type}.
Context (StateKey_AccessPath : AccessPath -> StateKey).
Context (table_item : TableHandle -> bytes -> StateKey).
Context (AccessPath_from : ModuleId -> AccessPath).
Context (resource_access_path : AccountAddress -> StructTag -> AccessPath).
Context (finish : PartialVMError -> VMError).

(** [StorageAdapter] and [StorageAdapterOwned]: a borrowed or an owned view. *)
Record StorageAdapter := { adapted : View }.

Definition adapter_get (self : StorageAdapter) (access_path : AccessPath)
  : PartialVMResult (option bytes) :=
  map_err (fun _ => {| status := STORAGE_ERROR; sub_status := None |})
    (get_state_value (adapted self) (StateKey_AccessPath access_path)).

(** [create_access_path] of [lib.rs] *)
Definition create_access_path (address : AccountAddress) (tag : StructTag) : AccessPath :=
  resource_access_path address tag.

Definition get_module (self : StorageAdapter) (module_id : ModuleId)
  : result VMError (option bytes) :=
  let ap := AccessPath_from module_id in map_err finish (adapter_get self ap).

Definition get_resource (self : StorageAdapter) (address : AccountAddress)
  (struct_tag : StructTag) : result VMError (option bytes) :=
  let ap := create_access_path address struct_tag in map_err finish (adapter_get self ap).

Definition resolve_table_entry (self : StorageAdapter) (handle : TableHandle) (key : bytes)
  : result AnyError (option bytes) :=
  get_state_value (adapted self) (table_item handle key).

(** [self.get(&access_path).ok()?] *)
Definition fetch_config (self : StorageAdapter) (access_path : AccessPath) : option bytes :=
  o ← ok (adapter_get self access_path); o.

Definition get_state_storage_usage (self : StorageAdapter) : result AnyError Usage :=
  get_usage (adapted self).

Definition as_move_resolver (view : View) : StorageAdapter := {| adapted := view |}.
End Views.
Arguments StateViewCache StateKey StateViewId Usage AnyError {_ _}.
Arguments DeltaStateView StateKey StateViewId Usage AnyError {_ _}.

(** ** Views that answer alike *)

Section Equivalence.
Context {StateKey StateViewId Usage AnyError : Type}.
Abbreviation View := (StateView StateKey StateViewId Usage AnyError).

Record view_eq (v w : View) : Prop := {
  eq_id : view_id v = view_id w;
  eq_value key : get_state_value v key = get_state_value w key;
  eq_genesis : is_genesis v = is_genesis w;
  eq_usage : get_usage v = get_usage w;
}.

#[export] Instance view_equiv : Equiv View := view_eq.
#[export] Instance view_equivalence : Equivalence (≡@{View}).
Proof.
  split.
  - intros v. by split.
  - intros v w []. by split.
  - intros u v w [] []. split; congruence.
Qed.

#[export] Instance get_state_value_proper :
  Proper ((≡@{View}) ==> eq ==> eq) get_state_value.
Proof. intros v w Hv k _ <-. apply Hv. Qed.

Context `{Countable StateKey} (key_leb : StateKey -> StateKey -> Prop) `{!RelDecision key_leb}.

#[export] Instance delta_view_proper ws :
  Proper ((≡@{View}) ==> (≡)) (fun v => delta_view {| base := v; write_set := ws |}).
Proof.
  intros v w Hv. split; simpl; [apply Hv| |apply Hv..]. intros key.
  destruct (ws !! key) as [[]|]; [done..|]. apply Hv.
Qed.

(** ** What the cache shows *)

Lemma push_write_op_value (map : gmap StateKey (option bytes)) x :
  push_write_op map x = <[x.1 := written_value x.2]> map.
Proof. destruct x as [k []]; [done..|]. apply insert_delete_eq. Qed.

Lemma push_write_ops_lookup (l : list (StateKey * WriteOp)) : forall map key,
  NoDup l.*1 ->
  foldl push_write_op map l !! key =
  match (list_to_map l : gmap StateKey WriteOp) !! key with
  | Some op => Some (written_value op)
  | None => map !! key
  end.
Proof.
  induction l as [|[k op] l IH]; intros map key Hnd; simpl; [by rewrite lookup_empty|].
  apply NoDup_cons in Hnd as [Hk Hnd]. rewrite IH by done. rewrite push_write_op_value. simpl.
  destruct (decide (k = key)) as [<-|Hne].
  - rewrite lookup_insert_eq, lookup_insert_eq.
    by rewrite (proj1 (not_elem_of_list_to_map _ _) Hk).
  - by rewrite !lookup_insert_ne.
Qed.

Lemma push_write_set_lookup (self : StateViewCache StateKey StateViewId Usage AnyError) ws key :
  data_map (push_write_set key_leb self ws) !! key =
  match ws !! key with Some op => Some (written_value op) | None => data_map self !! key end.
Proof.
  unfold push_write_set. simpl. rewrite push_write_ops_lookup by apply btree_iter_NoDup.
  by rewrite (list_to_map_btree key_leb).
Qed.

Lemma push_write_set_value (self : StateViewCache StateKey StateViewId Usage AnyError) ws key :
  get_state_value (cache_view (push_write_set key_leb self ws)) key =
  match ws !! key with
  | Some op => Ok (written_value op)
  | None => get_state_value (cache_view self) key
  end.
Proof.
  unfold cache_view. cbn [get_state_value]. rewrite push_write_set_lookup.
  by destruct (ws !! key).
Qed.

Lemma new_cache_view (view : View) : cache_view (StateViewCache_new view) ≡ view.
Proof.
  split; simpl; try done. intros key. rewrite lookup_empty. by destruct (get_state_value view key).
Qed.
End Equivalence.

(** ** Computations that read a view *)

(** What runs on a view reads keys, one after the other, and ends with a result or panics.  It
    may also depend on the other answers of the view, which never change. *)
Inductive ViewProg (StateKey AnyError R : Type) : Type :=
  | PDone (r : R)
  | PRead (key : StateKey) (cont : result AnyError (option bytes) -> ViewProg StateKey AnyError R)
  | PPanic.
Arguments PDone {StateKey AnyError R} r.
Arguments PRead {StateKey AnyError R} key cont.
Arguments PPanic {StateKey AnyError R}.

Section Programs.
Context {StateKey StateViewId Usage AnyError : Type}.
Abbreviation View := (StateView StateKey StateViewId Usage AnyError).

#[export] Instance prog_ret : MRet (ViewProg StateKey AnyError) := fun A a => PDone a.
#[export] Instance prog_bind : MBind (ViewProg StateKey AnyError) :=
  fun A B f => fix bind p :=
  match p with
  | PDone a => f a
  | PRead key cont => PRead key (fun v => bind (cont v))
  | PPanic => PPanic
  end.

(** [None] is a panic. *)
Fixpoint run_prog {R} (view : View) (p : ViewProg StateKey AnyError R) : option R :=
  match p with
  | PDone r => Some r
  | PRead key cont => run_prog view (cont (get_state_value view key))
  | PPanic => None
  end.

#[export] Instance run_prog_proper {R} : Proper ((≡@{View}) ==> eq ==> eq) (run_prog (R := R)).
Proof.
  intros v w Hv p _ <-. induction p as [r|key cont IH|]; simpl; [done| |done].
  rewrite (get_state_value_proper v w Hv key key eq_refl). apply IH.
Qed.

Lemma run_prog_bind {A B} (view : View) (p : ViewProg StateKey AnyError A)
  (f : A -> ViewProg StateKey AnyError B) :
  run_prog view (p ≫= f) = (a ← run_prog view p; run_prog view (f a)).
Proof. induction p as [r|key cont IH|]; simpl; [done|apply IH|done]. Qed.
End Programs.

(** ** Properties *)

Section Properties.
Context {StateKey StateViewId Usage AnyError : Type} `{Countable StateKey}.
Context (key_leb : StateKey -> StateKey -> Prop) `{!RelDecision key_leb}.
Abbreviation View := (StateView StateKey StateViewId Usage AnyError).

(** C32. The view of a session over a write set is equivalent to the cache of a block in which
    the write set has been pushed: the epilogue of a transaction reads what the next
    transaction of the block would. *)
Theorem delta_view_is_pushed_cache (view : View) (ws : gmap StateKey WriteOp) :
  delta_view {| base := view; write_set := ws |} ≡
  cache_view (push_write_set key_leb (StateViewCache_new view) ws).
Proof.
  split; try done. intros key. rewrite push_write_set_value. simpl. rewrite lookup_empty.
  destruct (ws !! key) as [[]|]; [done..|]. by destruct (get_state_value view key).
Qed.

(** The cache of a block shows, at every key, what the last write set that was pushed with
    the key leaves there, and the state below where there is none; a deleted key is not
    looked up in the state below. *)
Theorem cache_shows_last_write (view : View) (pushed : list (gmap StateKey WriteOp)) key :
  get_state_value (cache_view (foldl (push_write_set key_leb) (StateViewCache_new view) pushed)) key =
  match last (omap (fun ws : gmap StateKey WriteOp => ws !! key) pushed) with
  | Some op => Ok (written_value op)
  | None => get_state_value view key
  end.
Proof.
  induction pushed as [|ws pushed IH] using rev_ind.
  { apply (new_cache_view view). }
  rewrite foldl_app, omap_app. cbn [foldl]. rewrite push_write_set_value, IH. simpl.
  destruct (ws !! key) as [op|]; simpl; [by rewrite last_snoc|by rewrite app_nil_r].
Qed.
End Properties.
