(* ===== verification/AdapterCommon.v ===== *)
(** * The sequential execution of a block by the VM ([aptos-vm/src/adapter_common.rs])

    [execute_block_impl] runs the transactions one after the other over a [StateViewCache]:
    deltas are materialised at once, the writes of a transaction are pushed unless it is
    discarded, and after a reconfiguration the rest of the block is to be retried.  The VM is
    what the trait [VMAdapter] shows of it.  A log context has no effect on results and is
    kept as the index of the transaction only. *)
From S2P Require Import Prelude Delta ChangeSetExt StateView.

(** [aptos_types::transaction::TransactionStatus] *)
Inductive TransactionStatus (ExecutionStatus : Type) : Type :=
  | Discard (code : StatusCode)
  | Keep (status : ExecutionStatus)
  | Retry.
Arguments Discard {ExecutionStatus} code.
Arguments Keep {ExecutionStatus} status.
Arguments Retry {ExecutionStatus}.

(** [aptos_types::transaction::Transaction] *)
Inductive Transaction (SignedTransaction WriteSetPayload BlockMetadata Hash : Type) : Type :=
  | TUserTransaction (txn : SignedTransaction)
  | TGenesisTransaction (ws : WriteSetPayload)
  | TBlockMetadata (b : BlockMetadata)
  | TStateCheckpoint (h : Hash).
Arguments TUserTransaction {SignedTransaction WriteSetPayload BlockMetadata Hash} txn.
Arguments TGenesisTransaction {SignedTransaction WriteSetPayload BlockMetadata Hash} ws.
Arguments TBlockMetadata {SignedTransaction WriteSetPayload BlockMetadata Hash} b.
Arguments TStateCheckpoint {SignedTransaction WriteSetPayload BlockMetadata Hash} h.

(** Transactions after signature checking. *)
Inductive PreprocessedTransaction (SignatureChecked WriteSetPayload BlockMetadata : Type) : Type :=
  | UserTransaction (txn : SignatureChecked)
  | WaypointWriteSet (ws : WriteSetPayload)
  | BlockMetadata_ (b : BlockMetadata)
  | InvalidSignature
  | StateCheckpoint.
Arguments UserTransaction {SignatureChecked WriteSetPayload BlockMetadata} txn.
Arguments WaypointWriteSet {SignatureChecked WriteSetPayload BlockMetadata} ws.
Arguments BlockMetadata_ {SignatureChecked WriteSetPayload BlockMetadata} b.
Arguments InvalidSignature {SignatureChecked WriteSetPayload BlockMetadata}.
Arguments StateCheckpoint {SignatureChecked WriteSetPayload BlockMetadata}.

Section Adapter.
Context `{Bcs128} {StateKey StateViewId Usage AnyError : Type} `{Countable StateKey}.
Context {SignedTransaction SignatureChecked WriteSetPayload BlockMetadata Hash : Type}.
Context {Event ExecutionStatus Session SessionId : Type}.
Abbreviation View := (StateView StateKey StateViewId Usage AnyError).
Abbreviation Cache := (StateViewCache StateKey StateViewId Usage AnyError).
Abbreviation Prog := (ViewProg StateKey AnyError).
Abbreviation Txn := (Transaction SignedTransaction WriteSetPayload BlockMetadata Hash).
Abbreviation Preprocessed := (PreprocessedTransaction SignatureChecked WriteSetPayload BlockMetadata).
Abbreviation Status := (TransactionStatus ExecutionStatus).
Abbreviation Output := (TransactionOutput (StateKey := StateKey) (Event := Event)
                          (TransactionStatus := Status)).
Abbreviation OutputExt := (TransactionOutputExt (StateKey := StateKey) (Event := Event)
                             (TransactionStatus := Status)).

(** The trait [VMAdapter]: what the functions of this file, and of the parallel executor, know
    of the VM; the part that validates transactions, and all of it.  The error of
    [check_signature] is never looked at. *)
Class VMPrologue (A : Type) := {
  new_session : A -> SessionId -> Session;
  check_signature : SignedTransaction -> option SignatureChecked;
  check_transaction_format : A -> SignatureChecked -> result VMStatus unit;
  run_prologue : A -> Session -> SignatureChecked -> Prog (result VMStatus unit * Session);
}.

Class VMAdapter (A : Type) := {
  vm_prologue :: VMPrologue A;
  should_restart_execution : Output -> bool;
  execute_single_transaction :
    A -> Preprocessed -> nat -> Prog (result VMStatus (VMStatus * OutputExt * option string));
}.

(** [VMStatus::status_code], [VMStatus::keep_or_discard] ([inr] is to discard). *)
Context (status_code : VMStatus -> StatusCode).
Context {KeptVMStatus : Type} (keep_or_discard : VMStatus -> KeptVMStatus + StatusCode).

Definition validate_signature_checked_transaction `{VMPrologue A} (adapter : A) (session : Session)
  (transaction : SignatureChecked) (allow_too_new : bool) : Prog (result VMStatus unit * Session) :=
  match check_transaction_format adapter transaction with
  | Err err => mret (Err err, session)
  | Ok _ =>
      '(prologue_status, session) ← run_prologue adapter session transaction;
      mret (match prologue_status with
            | Err err =>
                if negb allow_too_new || negb (bool_decide (status_code err = SEQUENCE_NUMBER_TOO_NEW))
                then Err err else Ok tt
            | Ok _ => Ok tt
            end, session)
  end.

Context `{VMAdapter A}.
Context (key_leb : StateKey -> StateKey -> Prop) `{!RelDecision key_leb}.
Context (into_vm_status : PartialVMError -> VMStatus).
Context (is_discarded : Status -> bool).
Context (ws_squash : gmap StateKey WriteOp -> list (StateKey * WriteOp) ->
                     option (gmap StateKey WriteOp)).
Context (freeze : gmap StateKey WriteOp -> option (gmap StateKey WriteOp)).
(** [SessionId::txn], [gas_unit_price] and [VMValidatorResult]. *)
Context (SessionId_txn : SignatureChecked -> SessionId).
Context (gas_unit_price : SignatureChecked -> Z).
Context {VMValidatorResult : Type} (VMValidatorResult_error : StatusCode -> VMValidatorResult).
Context (VMValidatorResult_new : option StatusCode -> Z -> VMValidatorResult).

(** Check the signature (if any) of a transaction. *)
Definition preprocess_transaction (txn : Txn) : Preprocessed :=
  match txn with
  | TBlockMetadata b => BlockMetadata_ b
  | TGenesisTransaction ws => WaypointWriteSet ws
  | TUserTransaction txn =>
      match check_signature txn with
      | Some checked_txn => UserTransaction checked_txn
      | None => InvalidSignature
      end
  | TStateCheckpoint _ => StateCheckpoint
  end.

(** [validate_signed_transaction], on the cache of a state view; [None] is a panic. *)
Definition validate_signed_transaction (adapter : A) (transaction : SignedTransaction)
  (state_view : View) : option VMValidatorResult :=
  match check_signature transaction with
  | None => Some (VMValidatorResult_error INVALID_SIGNATURE)
  | Some txn =>
      let remote_cache := StateViewCache_new state_view in
      let session := new_session adapter (SessionId_txn txn) in
      validation_result ←
        run_prog (cache_view remote_cache)
          (validate_signature_checked_transaction adapter session txn true);
      Some (match validation_result.1 with
            | Ok _ => VMValidatorResult_new None (gas_unit_price txn)
            | Err err => VMValidatorResult_new (Some (status_code err)) 0
            end)
  end.

(** [TransactionOutput::new(WriteSet::default(), vec![], 0, status)] *)
Definition empty_output (status : Status) : Output :=
  {| out_write_set := ∅; out_events := []; out_gas_used := 0; out_status := status |}.

Definition discard_error_output (err : StatusCode) : OutputExt :=
  from_output (empty_output (Discard err)).

(** [None] is the failure of the [debug_assert!]. *)
Definition discard_error_vm_status (err : VMStatus) : option (VMStatus * OutputExt) :=
  match keep_or_discard err with
  | inl _ => None
  | inr code => Some (err, discard_error_output code)
  end.

(** The output that [execute_block_impl] gives for one transaction, which reads [data_cache]. *)
Definition transaction_output (data_cache : Cache) (output_ext : OutputExt) : comp VMStatus Output :=
  into_transaction_output key_leb (fun key => ok (get_state_value (cache_view data_cache) key))
    into_vm_status is_discarded ws_squash freeze output_ext.

(** The cache after a transaction. *)
Definition push_output (data_cache : Cache) (output : Output) : Cache :=
  if is_discarded (out_status output) then data_cache
  else push_write_set key_leb data_cache (out_write_set output).

(** The loop of [execute_block_impl], from transaction [idx]. *)
Fixpoint execute_transactions (adapter : A) (idx : nat) (txns : list Preprocessed)
  (should_restart : bool) (data_cache : Cache) : comp VMStatus (list (VMStatus * Output)) :=
  match txns with
  | [] => Return []
  | txn :: txns =>
      if should_restart then
        rest ← execute_transactions adapter (S idx) txns should_restart data_cache;
        Return ((VMStatus_Error UNKNOWN_STATUS, empty_output Retry) :: rest)
      else
        r ← expect (run_prog (cache_view data_cache) (execute_single_transaction adapter txn idx));
        '(vm_status, output_ext, _) ← lift r;
        output ← transaction_output data_cache output_ext;
        rest ← execute_transactions adapter (S idx) txns (should_restart_execution output)
                 (push_output data_cache output);
        Return ((vm_status, output) :: rest)
  end.

Definition execute_block_impl (adapter : A) (transactions : list Txn) (data_cache : Cache)
  : comp VMStatus (list (VMStatus * Output)) :=
  let signature_verified_block := preprocess_transaction <$> transactions in
  execute_transactions adapter 0 signature_verified_block false data_cache.

(** [AptosVM::execute_block_and_keep_vm_status] of [aptos_vm.rs]; [vm_new] is [AptosVM::new],
    which reads the view it is given. *)
Definition execute_block_and_keep_vm_status (vm_new : Prog A) (transactions : list Txn)
  (state_view : View) : comp VMStatus (list (VMStatus * Output)) :=
  let state_view_cache := StateViewCache_new state_view in
  vm ← expect (run_prog (cache_view state_view_cache) vm_new);
  execute_block_impl vm transactions state_view_cache.

(** ** The outputs, transaction by transaction *)

(** The cache after some outputs, and whether one of them asks to restart. *)
Definition cache_after (data_cache : Cache) (outs : list Output) : Cache :=
  foldl push_output data_cache outs.
Definition restarted (outs : list Output) : bool := existsb should_restart_execution outs.

(** What the output of transaction [idx] is, after the outputs [before]. *)
Definition output_in_order (adapter : A) (data_cache : Cache) (idx : nat) (txn : Preprocessed)
  (should_restart : bool) (before : list Output) (out : VMStatus * Output) : Prop :=
  if should_restart || restarted before
  then out = (VMStatus_Error UNKNOWN_STATUS, empty_output Retry)
  else exists output_ext sender,
    run_prog (cache_view (cache_after data_cache before))
      (execute_single_transaction adapter txn idx) = Some (Ok (out.1, output_ext, sender)) /\
    transaction_output (cache_after data_cache before) output_ext = Return out.2.

Lemma execute_transactions_in_order adapter txns : forall idx should_restart data_cache res,
  execute_transactions adapter idx txns should_restart data_cache = Return res ->
  length res = length txns /\
  forall i txn out, txns !! i = Some txn -> res !! i = Some out ->
    output_in_order adapter data_cache (idx + i) txn should_restart (take i res).*2 out.
Proof.
  induction txns as [|txn txns IH]; intros idx restart cache res; simpl.
  { intros [= <-]. split; [done|]. by intros i. }
  destruct restart.
  - intros (rest & Hrest & [= <-])%comp_bind_Return. apply IH in Hrest as [Hlen Hrest].
    split; [simpl; lia|]. intros [|i] txn' out; simpl; [by intros _ [= <-]|]. apply Hrest.
  - intros (r & Hr & Hres)%comp_bind_Return.
    destruct (run_prog _ _) as [r'|] eqn:Hrun; [|done]. injection Hr as ->.
    apply comp_bind_Return in Hres as ([[status ext] sender] & Hr & Hres).
    destruct r as [r|]; [|done]. injection Hr as ->.
    apply comp_bind_Return in Hres as (output & Ho & (rest & Hrest & [= <-])%comp_bind_Return).
    apply IH in Hrest as [Hlen Hrest]. split; [simpl; lia|].
    intros [|i] txn' out; simpl.
    + intros [= <-] [= <-]. rewrite Nat.add_0_r. by exists ext, sender.
    + intros Ht Hout. specialize (Hrest i txn' out Ht Hout).
      by replace (idx + S i)%nat with (S idx + i)%nat by lia.
Qed.

(** ** What a block is to give, in terms of the state *)

(** The value of a key after some outputs: what the last of them that is not discarded and writes
    the key writes there, and the value before them if none does. *)
Fixpoint kept_value (before : result AnyError (option bytes)) (outs : list Output) (key : StateKey)
  : result AnyError (option bytes) :=
  match outs with
  | [] => before
  | out :: outs =>
      kept_value
        (match is_discarded (out_status out), out_write_set out !! key with
         | false, Some (Creation data) | false, Some (Modification data) => Ok (Some data)
         | false, Some Deletion => Ok None
         | _, _ => before
         end) outs key
  end.

Definition kept_state (view : View) (outs : list Output) : View :=
  {| view_id := view_id view;
     get_state_value := fun key => kept_value (get_state_value view key) outs key;
     StateView.is_genesis := StateView.is_genesis view; get_usage := get_usage view |}.

(** A transaction after its signature is checked. *)
Inductive checks_to : Txn -> Preprocessed -> Prop :=
  | checked_user t t' : check_signature t = Some t' -> checks_to (TUserTransaction t) (UserTransaction t')
  | checked_invalid t : check_signature t = None -> checks_to (TUserTransaction t) InvalidSignature
  | checked_genesis ws : checks_to (TGenesisTransaction ws) (WaypointWriteSet ws)
  | checked_metadata b : checks_to (TBlockMetadata b) (BlockMetadata_ b)
  | checked_checkpoint h : checks_to (TStateCheckpoint h) StateCheckpoint.

(** The output of a transaction on a state: as the VM gives it when it is discarded or has no
    deltas; else with the writes of its deltas, each the value of the state with the delta applied. *)
Definition finished_output (view : View) (ext : OutputExt) (out : Output) : Prop :=
  (is_discarded (out_status (output ext)) = true \/ out_deltas ext = ∅) /\ out = output ext \/
  is_discarded (out_status (output ext)) = false /\ out_deltas ext <> ∅ /\
  exists writes ws frozen,
    Forall2 (fun kd kw => kw.1 = kd.1 /\
               materialized (fun key => ok (get_state_value view key)) kd.1 kd.2 kw.2)
      (btree_iter key_leb (out_deltas ext)) writes /\
    ws_squash (out_write_set (output ext)) writes = Some ws /\ freeze ws = Some frozen /\
    out = {| out_write_set := frozen; out_events := out_events (output ext);
             out_gas_used := out_gas_used (output ext); out_status := out_status (output ext) |}.

(** The result of transaction [idx] of a block, after the outputs [before]: it is to be retried, with
    an empty output, if one of them asks to restart; else it is what the VM makes of it on the
    state after them. *)
Definition result_in_order (adapter : A) (view : View) (idx : nat) (txn : Txn) (before : list Output)
  (result : VMStatus * Output) : Prop :=
  Exists (fun o => should_restart_execution o = true) before /\
    result = (VMStatus_Error UNKNOWN_STATUS,
              {| out_write_set := ∅; out_events := []; out_gas_used := 0; out_status := Retry |}) \/
  Forall (fun o => should_restart_execution o = false) before /\
    exists checked_txn ext sender, checks_to txn checked_txn /\
      run_prog (kept_state view before) (execute_single_transaction adapter checked_txn idx)
        = Some (Ok (result.1, ext, sender)) /\
      finished_output (kept_state view before) ext result.2.

Lemma preprocess_checked txn : checks_to txn (preprocess_transaction txn).
Proof. destruct txn as [t| | |]; simpl; [destruct (check_signature t) eqn:Ht|..]; by constructor. Qed.

Lemma cache_after_state outs : forall data_cache,
  cache_view (cache_after data_cache outs) ≡ kept_state (cache_view data_cache) outs.
Proof.
  unfold cache_after. assert (Hvalue : forall key data_cache,
    get_state_value (cache_view (foldl push_output data_cache outs)) key
    = kept_value (get_state_value (cache_view data_cache) key) outs key).
  { intros key. induction outs as [|out outs IH]; intros cache; [done|].
    cbn [foldl kept_value]. rewrite IH. f_equal.
    unfold push_output. destruct (is_discarded (out_status out)); [done|].
    rewrite push_write_set_value. by destruct (out_write_set out !! key) as [[]|]. }
  assert (Hview : forall data_cache, data_view (foldl push_output data_cache outs) = data_view data_cache).
  { clear Hvalue. induction outs as [|out outs IH]; intros cache; [done|]. cbn [foldl]. rewrite IH.
    unfold push_output. by destruct (is_discarded (out_status out)). }
  intros cache. split; [simpl; by rewrite Hview|intros key; apply Hvalue|simpl; by rewrite Hview..].
Qed.

Lemma transaction_output_finished data_cache (view : View) ext out :
  cache_view data_cache ≡ view -> transaction_output data_cache ext = Return out ->
  finished_output view ext out.
Proof.
  intros Hview. unfold transaction_output, into_transaction_output, finished_output, dcs_is_empty.
  destruct (is_discarded (out_status (output ext))); cbn [orb]; [intros [= <-]; left; by split; [left|]|].
  case_bool_decide as Hd; [intros [= <-]; left; by split; [right|]|].
  intros (writes & Hw & Hm)%comp_bind_Return. right. split; [done|]. split; [done|].
  unfold merge_delta_writes in Hm.
  apply comp_bind_Return in Hm as (ws & Hws & (frozen & Hf & [= <-])%comp_bind_Return).
  destruct (ws_squash _ writes) as [ws'|] eqn:Hs; [|done]. injection Hws as ->.
  destruct (freeze ws) as [frozen'|] eqn:Hz; [|done]. injection Hf as ->.
  exists writes, ws, frozen. split; [|done].
  destruct (try_into_write_set_mut _ _ _ _) as [l|e|] eqn:Hl; [|done..]. injection Hw as ->.
  apply materialize_Return in Hl. eapply Forall2_impl; [exact Hl|].
  intros [k d] [k' op] [Hk (b & base & r & o & Hb & Hrest)]. split; [done|]. exists b, base, r, o.
  split; [|done]. cbn [fst snd] in Hb |- *. by rewrite <- (get_state_value_proper _ _ Hview k k eq_refl).
Qed.

Lemma result_from_order adapter data_cache idx txn before result :
  output_in_order adapter data_cache idx (preprocess_transaction txn) false before result ->
  result_in_order adapter (cache_view data_cache) idx txn before result.
Proof.
  unfold output_in_order, result_in_order, restarted. cbn [orb].
  destruct (existsb should_restart_execution before) eqn:Hr.
  - intros ->. left. split; [|done]. apply existsb_exists in Hr as (o & Hin & Ho).
    apply Exists_exists. exists o. by split; [apply list_elem_of_In|].
  - intros (ext & sender & Hrun & Hout). right. split.
    { apply Forall_forall. intros o Hin. apply not_true_is_false. intros Ho.
      apply not_true_iff_false in Hr. apply Hr, existsb_exists. exists o. by split; [apply list_elem_of_In|]. }
    pose proof (cache_after_state before data_cache) as Hs.
    exists (preprocess_transaction txn), ext, sender. split; [apply preprocess_checked|].
    split; [by rewrite <- (run_prog_proper _ _ Hs _ _ eq_refl)|by eapply transaction_output_finished].
Qed.
End Adapter.

(** ** Properties *)

Section Properties.
Context `{Bcs128} {StateKey StateViewId Usage AnyError : Type} `{Countable StateKey}.
Context {SignedTransaction SignatureChecked WriteSetPayload BlockMetadata Hash : Type}.
Context {Event ExecutionStatus Session SessionId : Type}.
Context `{!VMAdapter (StateKey := StateKey) (AnyError := AnyError)
            (SignedTransaction := SignedTransaction) (SignatureChecked := SignatureChecked)
            (WriteSetPayload := WriteSetPayload) (BlockMetadata := BlockMetadata)
            (Event := Event) (ExecutionStatus := ExecutionStatus) (Session := Session)
            (SessionId := SessionId) A}.
Context (key_leb : StateKey -> StateKey -> Prop) `{!RelDecision key_leb}.
Context (into_vm_status : PartialVMError -> VMStatus).
Context (is_discarded : TransactionStatus ExecutionStatus -> bool).
Context (ws_squash : gmap StateKey WriteOp -> list (StateKey * WriteOp) ->
                     option (gmap StateKey WriteOp)).
Context (freeze : gmap StateKey WriteOp -> option (gmap StateKey WriteOp)).
Context (status_code : VMStatus -> StatusCode).

(** C31. The outputs of a block come in the order of its transactions, one for each.  After an
    output that asks to restart, the transactions are not run and are to be retried, with nothing
    written and no gas.  Any other transaction, its signature checked, reads the state under the
    writes of the outputs before it that are not discarded, and its output is what the VM makes
    of that; unless it is discarded, its deltas become writes of the values that they make of the
    same state. *)
Theorem block_outputs_in_order (adapter : A)
  (transactions : list (Transaction SignedTransaction WriteSetPayload BlockMetadata Hash))
  (data_cache : StateViewCache StateKey StateViewId Usage AnyError) res :
  execute_block_impl key_leb into_vm_status is_discarded ws_squash freeze adapter transactions
    data_cache = Return res ->
  length res = length transactions /\
  forall i txn out, transactions !! i = Some txn -> res !! i = Some out ->
    result_in_order key_leb is_discarded ws_squash freeze adapter (cache_view data_cache) i
      txn (take i res).*2 out.
Proof.
  unfold execute_block_impl. intros [Hlen Hres]%execute_transactions_in_order.
  rewrite length_fmap in Hlen. split; [done|]. intros i txn out Ht Ho.
  eapply result_from_order, (Hres i); [|done]. by rewrite list_lookup_fmap, Ht.
Qed.

(** Validating a transaction for the mempool is validating it for its execution, where a
    sequence number that is too new is let pass: once the format is right, the same reads are
    made, every other error is the same, and it is accepted in both cases or only there. *)
Theorem validation_lets_pass_too_new (adapter : A) (session session' : Session)
  (transaction : SignatureChecked) (view : StateView StateKey StateViewId Usage AnyError) r :
  check_transaction_format adapter transaction = Ok tt ->
  run_prog view (validate_signature_checked_transaction status_code adapter session transaction false)
    = Some (r, session') ->
  run_prog view (validate_signature_checked_transaction status_code adapter session transaction true)
    = Some (match r with
            | Ok _ => Ok tt
            | Err err =>
                if bool_decide (status_code err = SEQUENCE_NUMBER_TOO_NEW) then Ok tt else Err err
            end, session').
Proof.
  unfold validate_signature_checked_transaction. intros ->. rewrite !run_prog_bind.
  destruct (run_prog view (run_prologue adapter session transaction)) as [[[u|err] s]|];
    simpl; [|intros [= <- <-]..|done].
  - by intros [= <- <-].
  - by case_bool_decide.
Qed.
End Properties.

(** ** A block with a delta and a reconfiguration *)

Module BlockExample.
#[local] Open Scope nat_scope.

Abbreviation ExampleExt := (TransactionOutputExt (StateKey := nat) (Event := bool)
                              (TransactionStatus := TransactionStatus unit)).
Definition example_ext (ws : gmap nat WriteOp) (ds : gmap nat DeltaOp) (restart : bool) : ExampleExt :=
  {| out_deltas := ds;
     output := {| out_write_set := ws; out_events := [restart]; out_gas_used := 0;
                  out_status := Keep () |} |}.

(** Transaction 0 writes 5 to the aggregator 0, whose limit is 8; 1 adds 2 to it; 2 copies it
    to key 1 and ends the epoch; 3 would delete key 2, and the others add 2 to the aggregator. *)
Definition example_prog (txn : nat)
  : ViewProg nat unit (result VMStatus (VMStatus * ExampleExt * option string)) :=
  match txn with
  | 0 => PDone (Ok (VMStatus_Executed,
           example_ext {[0 := Creation (LittleEndian.encode 16 5)]} ∅ false, None))
  | 1 => PDone (Ok (VMStatus_Executed, example_ext ∅ {[0 := delta_add 2 8]} false, None))
  | 2 => PRead 0 (fun v => match v with
           | Ok (Some b) => PDone (Ok (VMStatus_Executed, example_ext {[1 := Creation b]} ∅ true, None))
           | _ => PDone (Err (VMStatus_Error STORAGE_ERROR))
           end)
  | 3 => PDone (Ok (VMStatus_Executed, example_ext {[2 := Deletion]} ∅ false, None))
  | _ => PDone (Ok (VMStatus_Executed, example_ext ∅ {[0 := delta_add 2 8]} false, None))
  end.

#[export] Instance example_adapter : VMAdapter (StateKey := nat) (AnyError := unit)
  (SignedTransaction := nat) (SignatureChecked := nat) (WriteSetPayload := unit)
  (BlockMetadata := unit) (Event := bool) (ExecutionStatus := unit) (Session := unit)
  (SessionId := unit) unit := {|
  vm_prologue := {|
    new_session _ _ := ();
    check_signature txn := Some txn;
    check_transaction_format _ _ := Ok ();
    run_prologue _ session txn :=
      PDone (if txn =? 9 then Err (VMStatus_Error SEQUENCE_NUMBER_TOO_NEW) else Ok (), session);
  |};
  should_restart_execution o := match out_events o with [true] => true | _ => false end;
  execute_single_transaction _ txn _ :=
    match txn with
    | UserTransaction txn => example_prog txn
    | _ => PDone (Ok (VMStatus_Executed, example_ext ∅ ∅ false, None))
    end;
|}.

Definition example_status (e : PartialVMError) : VMStatus := VMStatus_Error (status e).
Definition example_discarded (s : TransactionStatus unit) : bool :=
  match s with Keep _ => false | _ => true end.
Definition example_squash (ws : gmap nat WriteOp) (l : list (nat * WriteOp))
  : option (gmap nat WriteOp) := Some (list_to_map l ∪ ws).
Definition example_view : StateView nat unit unit unit :=
  {| view_id := (); get_state_value := fun _ => Ok None; is_genesis := false; get_usage := Ok () |}.
Definition example_block : list (Transaction nat unit unit unit) := TUserTransaction <$> [0; 1; 2; 3].
End BlockExample.

Section Example.
Import BlockExample.
#[local] Existing Instance LittleEndian.le_bcs.

Abbreviation example_run := (execute_block_impl (StateViewId := unit) (Usage := unit)
  (SessionId := unit) (Session := unit) Nat.le example_status example_discarded example_squash Some ()
  example_block (StateViewCache_new example_view)).

Lemma block_outputs_in_order_witness :
  exists res, example_run = Return res /\ length res = 4%nat /\
    forall i txn out, example_block !! i = Some txn -> res !! i = Some out ->
      result_in_order (A := unit) Nat.le example_discarded example_squash Some () example_view i txn
        (take i res).*2 out.
Proof.
  assert (Hrun : exists res, example_run = Return res) by (vm_compute; eauto).
  destruct Hrun as [res Hrun]. exists res. split; [exact Hrun|].
  destruct (block_outputs_in_order Nat.le example_status example_discarded example_squash Some ()
    example_block (StateViewCache_new example_view) res Hrun) as [Hlen Hres].
  split; [exact Hlen|]. exact Hres.
Defined.

Definition example_code (s : VMStatus) : StatusCode :=
  match s with VMStatus_Error code => code | _ => UNKNOWN_STATUS end.

Lemma validation_lets_pass_too_new_witness :
  run_prog example_view
    (validate_signature_checked_transaction (A := unit) example_code () () 9%nat true)
  = Some (Ok (), ()).
Proof.
  exact (validation_lets_pass_too_new example_code () () () 9%nat example_view
    (Err (VMStatus_Error SEQUENCE_NUMBER_TOO_NEW)) eq_refl eq_refl).
Defined.
End Example.
