(* ===== verification/ParallelVM.v ===== *)
(** * The parallel execution of a block by the VM ([aptos-vm/src/parallel_executor])

    The instance of the parallel executor that runs the Aptos VM: the view of a transaction
    over the multi-version map ([storage_wrapper.rs]), the task that executes one transaction
    ([vm_wrapper.rs]), and [ParallelAptosVM::execute_block] ([mod.rs]), which materialises the
    deltas of the outputs, or falls back on the sequential execution when module accesses may
    have raced.  [AptosVM::execute_block] of [aptos_vm.rs] chooses between the two. *)
From S2P Require Import Prelude Delta ChangeSetExt MVMap Resolver.
From S2P Require Import LastInputOutput Executor StateView AdapterCommon.

(** [TransactionWrite] for [WriteOp], in [aptos-types]: the bytes that are written. *)
Class WriteOpBytes `{TransactionWrite WriteOp} : Prop :=
  extract_raw_bytes_op op : extract_raw_bytes op = written_value op.

Section Wrapper.
Context `{Bcs128} {StateKey StateViewId Usage AnyError : Type} `{Countable StateKey}.
Context {SignedTransaction SignatureChecked WriteSetPayload BlockMetadata Hash : Type}.
Context {Event ExecStatus Session SessionId P : Type} `{Countable P} `{ModulePath StateKey P}.
Context `{TransactionWrite WriteOp}.
Abbreviation View := (StateView StateKey StateViewId Usage AnyError).
Abbreviation Prog := (ViewProg StateKey AnyError).
Abbreviation Txn := (Transaction SignedTransaction WriteSetPayload BlockMetadata Hash).
Abbreviation Preprocessed := (PreprocessedTransaction SignatureChecked WriteSetPayload BlockMetadata).
Abbreviation Status := (TransactionStatus ExecStatus).
Abbreviation Output := (ChangeSetExt.TransactionOutput (StateKey := StateKey) (Event := Event)
                          (TransactionStatus := Status)).
Abbreviation OutputExt := (TransactionOutputExt (StateKey := StateKey) (Event := Event)
                             (TransactionStatus := Status)).
Abbreviation Run := (VMRun StateKey WriteOp OutputExt VMStatus).

Context `{!VMAdapter (StateKey := StateKey) (AnyError := AnyError)
            (SignedTransaction := SignedTransaction) (SignatureChecked := SignatureChecked)
            (WriteSetPayload := WriteSetPayload) (BlockMetadata := BlockMetadata)
            (Event := Event) (ExecutionStatus := ExecStatus) (Session := Session)
            (SessionId := SessionId) A}.
Context (key_leb : StateKey -> StateKey -> Prop) `{!RelDecision key_leb}.
Context (into_vm_status : PartialVMError -> VMStatus).
(** The conversion of a [VMStatus] into [anyhow::Error], for the [?] of [get_state_value]. *)
Context (any_of_status : VMStatus -> AnyError).
Context (is_discarded : Status -> bool).
Context (ws_squash : gmap StateKey WriteOp -> list (StateKey * WriteOp) ->
                     option (gmap StateKey WriteOp)).
Context (freeze : gmap StateKey WriteOp -> option (gmap StateKey WriteOp)).
(** The orders in which a [HashSet] and a [HashMap] are iterated. *)
Context (hash_iter : gset StateKey -> list StateKey).
Context (hash_map_iter : gmap StateKey (option (option bytes)) ->
                         list (StateKey * option (option bytes))).

(** [AptosTransactionOutput] as an output of the parallel executor. *)
#[export] Instance AptosTransactionOutput : TransactionOutput StateKey WriteOp OutputExt := {|
  get_writes output := btree_iter key_leb (out_write_set (ChangeSetExt.output output));
  get_deltas output := btree_iter key_leb (out_deltas output);
  skip_output := from_output (empty_output Retry);
|}.

(** [VersionedView::get_state_value], given what the multi-version map answers. *)
Definition versioned_value (base_view : View) (state_key : StateKey) (r : ReadResult WriteOp)
  : comp AnyError (option bytes) :=
  match r with
  | Value v =>
      Return (match v with Modification w | Creation w => Some w | Deletion => None end)
  | RU128 v => b ← expect (serialize v); Return (Some b)
  | RUnresolved delta =>
      stored ← lift (get_state_value base_view state_key);
      from_storage ← match stored with
                     | Some bytes => expect (deserialize bytes)
                     | None => Throw (any_of_status (VMStatus_Error STORAGE_ERROR))
                     end;
      result ← lift (map_err (fun pe => any_of_status (into_vm_status pe))
                       (apply_to delta from_storage));
      b ← expect (serialize result);
      Return (Some b)
  | RNone => lift (get_state_value base_view state_key)
  end.

(** What runs on a [VersionedView], as a run that reads the multi-version map. *)
Fixpoint versioned {R} (base_view : View) (p : Prog R) (k : R -> Run) : Run :=
  match p with
  | PDone r => k r
  | PRead key cont =>
      VMRead key (fun v => match versioned_value base_view key v with
                           | Return b => versioned base_view (cont (Ok b)) k
                           | Throw e => versioned base_view (cont (Err e)) k
                           | Panic => VMPanic
                           end)
  | PPanic => VMPanic
  end.

(** How [AptosVMWrapper::execute_transaction] ends. *)
Definition execution_status (r : result VMStatus (VMStatus * OutputExt * option string))
  : LastInputOutput.ExecutionStatus OutputExt VMStatus :=
  match r with
  | Ok (_, output_ext, _) =>
      if should_restart_execution (ChangeSetExt.output output_ext) then SkipRest output_ext
      else Success output_ext
  | Err err => Abort err
  end.

(** [AptosVMWrapper::execute_transaction], by a VM that [init] makes from the base view. *)
Definition execute_transaction (vm_new : Prog A) (base_view : View) (idx : TxnIndex)
  (txn : Preprocessed) : Run :=
  match run_prog base_view vm_new with
  | Some vm =>
      versioned base_view (execute_single_transaction vm txn idx)
        (fun r => VMDone (execution_status r))
  | None => VMPanic
  end.

(** The keys of the deltas of the outputs, with their values in the base view. *)
Definition insert_delta_keys (base_view : View)
  (keys : gmap StateKey (option (option bytes))) (res : OutputExt)
  : gmap StateKey (option (option bytes)) :=
  foldl (fun keys x => match keys !! x.1 with
                       | Some _ => keys
                       | None => <[x.1 := ok (get_state_value base_view x.1)]> keys
                       end)
    keys (btree_iter key_leb (out_deltas res)).

(** [results.into_iter().zip(materialized_deltas.into_iter()).map(..).collect()] *)
Fixpoint zip_outputs (results : list OutputExt) (deltas : list (list (StateKey * WriteOp)))
  : comp VMStatus (list Output) :=
  match results, deltas with
  | res :: results, delta_writes :: deltas =>
      output ← output_with_delta_writes is_discarded ws_squash freeze res delta_writes;
      rest ← zip_outputs results deltas;
      Return (output :: rest)
  | _, _ => Return []
  end.

(** A computation that throws nothing, among others. *)
Definition no_throw {E R} (m : comp Empty_set R) : comp E R :=
  match m with Return r => Return r | Throw e => match e with end | Panic => Panic end.

(** The arms of the [match] of [ParallelAptosVM::execute_block] on what the executor returns. *)
Definition block_outputs (vm_new : Prog A) (transactions : list Txn) (state_view : View)
  (r : result (Error VMStatus) (list OutputExt * gmap StateKey (gmap TxnIndex (Entry WriteOp))))
  : comp VMStatus (list Output * option (Error VMStatus)) :=
  match r with
  | Ok (results, delta_resolver) =>
      let aggregator_keys := foldl (insert_delta_keys state_view) ∅ results in
      materialized_deltas ←
        no_throw (resolve delta_resolver (hash_map_iter aggregator_keys) (length results));
      outputs ← zip_outputs results materialized_deltas;
      Return (outputs, None)
  | Err ModulePathReadWrite =>
      output ← execute_block_and_keep_vm_status key_leb into_vm_status is_discarded ws_squash freeze
                 vm_new transactions state_view;
      Return (output.*2, Some ModulePathReadWrite)
  | Err InvariantViolation => Throw (VMStatus_Error UNKNOWN_INVARIANT_VIOLATION_ERROR)
  | Err (UserError err) => Throw err
  end.

(** The results [ParallelAptosVM::execute_block] may return. *)
Definition parallel_execute_block (vm_new : Prog A) (transactions : list Txn)
  (state_view : View) (concurrency_level : nat)
  (res : comp VMStatus (list Output * option (Error VMStatus))) : Prop :=
  exists r,
    execute_transactions_parallel (P := P) hash_iter (execute_transaction vm_new state_view)
      concurrency_level (preprocess_transaction <$> transactions) r /\
    res = block_outputs vm_new transactions state_view r.

(** [AptosVM::execute_block], for the concurrency level that is set. *)
Inductive execute_block (vm_new : Prog A) (transactions : list Txn) (state_view : View)
  (concurrency_level : nat) : comp VMStatus (list Output) -> Prop :=
  | BlockParallel res :
      (1 < concurrency_level)%nat ->
      parallel_execute_block vm_new transactions state_view concurrency_level res ->
      execute_block vm_new transactions state_view concurrency_level
        ('(result, _) ← res; Return result)
  | BlockSequential :
      (concurrency_level <= 1)%nat ->
      execute_block vm_new transactions state_view concurrency_level
        (output ← execute_block_and_keep_vm_status key_leb into_vm_status is_discarded ws_squash
                    freeze vm_new transactions state_view;
         Return output.*2).
End Wrapper.
