(* ===== verification/BlockEquivalence.v ===== *)
(** * The parallel and the sequential execution of a block by the VM agree

    [ParallelAptosVM::execute_block] returns what [AptosVM::execute_block_and_keep_vm_status]
    returns.  The proof goes through the reference semantics of [Sequential]: a transaction
    that reads the multi-version map through [VersionedView] sees what the cache of the block
    shows, and the resolver writes what the cache materialises. *)
From stdpp Require Import relations.
From S2P Require Import Prelude Delta ChangeSetExt MVMap Resolver Conc Scheduler LastInputOutput.
From S2P Require Import Executor Protocol Versions Sequential Correctness.
From S2P Require Import StateView AdapterCommon ParallelVM.

#[local] Open Scope nat_scope.

Section Equivalence.
Context `{Bcs128, !Bcs128Laws} {StateKey StateViewId Usage AnyError : Type} `{Countable StateKey}.
Context {SignedTransaction SignatureChecked WriteSetPayload BlockMetadata Hash : Type}.
Context {Event ExecStatus Session SessionId P : Type} `{Countable P} `{ModulePath StateKey P}.
Context `{TransactionWrite WriteOp, !WriteOpBytes}.
Abbreviation View := (StateView StateKey StateViewId Usage AnyError).
Abbreviation Cache := (StateViewCache StateKey StateViewId Usage AnyError).
Abbreviation Prog := (ViewProg StateKey AnyError).
Abbreviation Txn := (Transaction SignedTransaction WriteSetPayload BlockMetadata Hash).
Abbreviation Preprocessed := (PreprocessedTransaction SignatureChecked WriteSetPayload BlockMetadata).
Abbreviation Status := (TransactionStatus ExecStatus).
Abbreviation Output := (ChangeSetExt.TransactionOutput (StateKey := StateKey) (Event := Event)
                          (TransactionStatus := Status)).
Abbreviation OutputExt := (TransactionOutputExt (StateKey := StateKey) (Event := Event)
                             (TransactionStatus := Status)).
Abbreviation Run := (VMRun StateKey WriteOp OutputExt VMStatus).
Abbreviation Outcome := (LastInputOutput.ExecutionStatus OutputExt VMStatus).
Abbreviation VMResult := (result VMStatus (VMStatus * OutputExt * option string)).

Context `{!VMAdapter (StateKey := StateKey) (AnyError := AnyError)
            (SignedTransaction := SignedTransaction) (SignatureChecked := SignatureChecked)
            (WriteSetPayload := WriteSetPayload) (BlockMetadata := BlockMetadata)
            (Event := Event) (ExecutionStatus := ExecStatus) (Session := Session)
            (SessionId := SessionId) A}.
Context (key_leb : StateKey -> StateKey -> Prop) `{!RelDecision key_leb}.
Context (into_vm_status : PartialVMError -> VMStatus) (any_of_status : VMStatus -> AnyError).
Context (is_discarded : Status -> bool).
Context (ws_squash : gmap StateKey WriteOp -> list (StateKey * WriteOp) ->
                     option (gmap StateKey WriteOp)).
Context (freeze : gmap StateKey WriteOp -> option (gmap StateKey WriteOp)).

#[local] Instance aptos_output : TransactionOutput StateKey WriteOp OutputExt :=
  AptosTransactionOutput key_leb.

(** ** What is assumed of the VM and of the state *)

(** The limits of the aggregators, by their keys. *)
Context (agg : StateKey -> option Z).

(** What is stored for an aggregator is the encoding of a [u128]. *)
Definition value_ok (key : StateKey) (r : result AnyError (option bytes)) : Prop :=
  is_Some (agg key) -> forall b, r = Ok (Some b) -> is_Some (bcs_from_bytes b).

(** A transaction writes a key or makes a delta of it, makes well-formed deltas, of
    aggregators only, and nothing when it is discarded. *)
Record output_ext_ok (out : OutputExt) : Prop := {
  ok_disjoint k : out_write_set (output out) !! k = None \/ out_deltas out !! k = None;
  ok_writes k op : out_write_set (output out) !! k = Some op -> value_ok k (Ok (written_value op));
  ok_deltas k d : out_deltas out !! k = Some d -> delta_ok agg k d;
  ok_discarded : is_discarded (out_status (output out)) = true ->
    out_write_set (output out) = ∅ /\ out_deltas out = ∅;
}.

(** The VM does not panic, whatever values it reads, and its outputs are as above. *)
Fixpoint prog_ok (p : Prog VMResult) : Prop :=
  match p with
  | PDone (Ok (_, out, _)) => output_ext_ok out
  | PDone (Err _) => True
  | PRead key cont => forall r, value_ok key r -> prog_ok (cont r)
  | PPanic => False
  end.

(** [WriteSetMut::squash] of sets with no key in common is their union; [freeze] keeps the
    operations; whether the execution is to be restarted depends on the events only. *)
Class WriteSetLaws : Prop := {
  squash_disjoint ws l :
    NoDup l.*1 -> (forall k, k ∈ l.*1 -> ws !! k = None) ->
    ws_squash ws l = Some (list_to_map l ∪ ws);
  freeze_same ws ws' : freeze ws = Some ws' -> ws' = ws;
  restart_by_events (o o' : Output) :
    out_events o = out_events o' -> should_restart_execution o = should_restart_execution o';
}.
Context `{!WriteSetLaws}.

Context (vm_new : Prog A) (vm : A) (state_view : View) (block : list Preprocessed).
Context (Hnew : run_prog state_view vm_new = Some vm).
Context (Hstate : forall key, value_ok key (get_state_value state_view key)).
Context (Hprog : forall idx txn, block !! idx = Some txn -> prog_ok (execute_single_transaction vm txn idx)).

Abbreviation exec := (execute_transaction into_vm_status any_of_status vm_new state_view).
Abbreviation shown := (versioned_value into_vm_status any_of_status state_view).
Abbreviation materialised := (transaction_output key_leb into_vm_status is_discarded ws_squash freeze).
Abbreviation pushed := (push_output key_leb is_discarded).

(** ** The runs on a versioned view *)

Lemma exec_run i txn :
  exec i txn = versioned into_vm_status any_of_status state_view
    (execute_single_transaction vm txn i) (fun r => VMDone (execution_status r)).
Proof. unfold execute_transaction. by rewrite Hnew. Qed.

Lemma from_write_value (op : WriteOp) key :
  write_ok agg key op <-> value_ok key (Ok (written_value op)).
Proof.
  unfold write_ok, value_ok, from_write, deserialize. rewrite extract_raw_bytes_op.
  destruct (written_value op) as [b|]; [|split; [done|by eauto]].
  split; intros Hw Hag.
  - intros b' [= <-]. destruct (Hw Hag) as [o Ho].
    destruct (bcs_from_bytes b); simpl in Ho; [done|discriminate].
  - destruct (Hw Hag b eq_refl) as [v ->]. simpl. by eexists.
Qed.

(** What a view shows of a readable answer. *)
Lemma shown_ok key v :
  readable agg key v ->
  match shown key v with
  | Return b => value_ok key (Ok b)
  | Throw e => True
  | Panic => False
  end.
Proof.
  assert (Hser : forall z, is_u128 z ->
    exists b, serialize z = Some b /\ value_ok key (Ok (Some b))).
  { intros z Hz. destruct (bcs_roundtrip z Hz) as (b & Hb & Hz'). exists b.
    split; [done|]. intros _ b' [= <-]. by rewrite Hz'. }
  destruct v as [op|z|d|]; simpl.
  - intros Hw. apply from_write_value in Hw. by destruct op.
  - intros [_ Hz]. destruct (Hser z Hz) as (b & -> & Hb). done.
  - intros [Hag Hwf]. pose proof (Hstate key ltac:(by rewrite Hag)) as Hs.
    destruct (get_state_value state_view key) as [[b|]|e]; simpl; [|done..].
    destruct (Hs b eq_refl) as [base Hb]. unfold deserialize. rewrite Hb. simpl.
    destruct (apply_to d base) as [r|] eqn:Hr; simpl; [|done].
    destruct (Hser r) as (b' & -> & Hb'); [|done].
    eapply apply_to_u128; [done| |done]. by eapply bcs_from_bytes_range.
  - intros _. pose proof (Hstate key) as Hs. by destruct (get_state_value state_view key).
Qed.

Lemma execution_status_ok out st sender :
  output_ext_ok out -> output_ok (V := WriteOp) agg (execution_status (Ok (st, out, sender))).
Proof.
  intros Hok. set (outcome := execution_status _).
  assert (Hw : status_writes (V := WriteOp) outcome = btree_iter key_leb (out_write_set (output out))).
  { unfold outcome, execution_status. by destruct (should_restart_execution _). }
  assert (Hd : status_deltas (V := WriteOp) outcome = btree_iter key_leb (out_deltas out)).
  { unfold outcome, execution_status. by destruct (should_restart_execution _). }
  unfold output_ok, left_keys, updates. rewrite Hw, Hd. split.
  - apply NoDup_app. split; [apply btree_iter_NoDup|]. split; [|apply btree_iter_NoDup].
    intros k [[k' op] [-> Hop%btree_iter_elem]]%list_elem_of_fmap [[k'' d] [Hk Hdel%btree_iter_elem]]%list_elem_of_fmap.
    simpl in *. subst k''. destruct (ok_disjoint _ Hok k'); congruence.
  - intros inc k cl [Hin|Hin]%elem_of_app;
      apply list_elem_of_fmap in Hin as ([k' x] & [= -> ->] & Hin%btree_iter_elem); simpl.
    + apply from_write_value. by apply (ok_writes _ Hok).
    + by apply (ok_deltas _ Hok).
Qed.

Lemma versioned_ok (p : Prog VMResult) :
  prog_ok p -> run_ok agg (versioned into_vm_status any_of_status state_view p
                             (fun r => VMDone (execution_status r))).
Proof.
  induction p as [[[[st out] sender]|err]|key cont IH|]; simpl;
    [apply (execution_status_ok out st sender)| | |done].
  - intros _. split; [apply NoDup_nil_2|]. intros inc k cl Hin. by apply elem_of_nil in Hin.
  - intros Hp v Hv%shown_ok. destruct (shown key v) as [b|e|]; [|by apply IH, Hp|done].
    by apply IH, Hp.
Qed.

Lemma exec_ok i txn : block !! i = Some txn -> run_ok agg (exec i txn).
Proof. intros Ht. rewrite exec_run. by apply versioned_ok, Hprog. Qed.

(** ** The cache of the block after each transaction *)

Definition run_single (cache : Cache) (i : nat) (txn : Preprocessed) : option VMResult :=
  run_prog (cache_view cache) (execute_single_transaction vm txn i).

Definition next_cache (i : nat) (txn : Preprocessed) (cache : Cache) : Cache :=
  match run_single cache i txn with
  | Some (Ok (_, ext, _)) =>
      match materialised cache ext with Return o => pushed cache o | _ => cache end
  | _ => cache
  end.

Fixpoint cache_at (n : nat) : Cache :=
  match n with
  | O => StateViewCache_new state_view
  | S n => match block !! n with
           | Some txn => next_cache n txn (cache_at n)
           | None => cache_at n
           end
  end.

(** Every delta of every transaction of the block applies to the value it is made on, also
    after a transaction that asks to restart. *)
Definition deltas_apply : Prop :=
  forall i txn st ext sender, block !! i = Some txn ->
    run_single (cache_at i) i txn = Some (Ok (st, ext, sender)) ->
    exists o, materialised (cache_at i) ext = Return o.

(** The same, computed. *)
Definition deltas_apply_at (i : nat) : bool :=
  match block !! i with
  | Some txn =>
      match run_single (cache_at i) i txn with
      | Some (Ok (_, ext, _)) => match materialised (cache_at i) ext with Return _ => true | _ => false end
      | _ => true
      end
  | None => true
  end.

Lemma deltas_applied : forallb deltas_apply_at (seq 0 (length block)) = true -> deltas_apply.
Proof.
  rewrite forallb_forall. intros Hall i txn st ext sender Hi Hr.
  pose proof (Hall i (proj2 (in_seq _ _ _) (conj (Nat.le_0_l i) (lookup_lt_Some _ _ _ Hi)))) as Hat.
  unfold deltas_apply_at in Hat. rewrite Hi, Hr in Hat.
  destruct (materialised (cache_at i) ext) as [o| |]; [by exists o|done..].
Qed.

Abbreviation stored cache := (fun key => ok (get_state_value (cache_view cache) key)).

(** The writes of the deltas of an output. *)
Lemma materialize_writes (cache : Cache) (ds : gmap StateKey DeltaOp) l :
  try_into_write_set_mut key_leb (stored cache) into_vm_status ds = Return l ->
  NoDup l.*1 /\ length l = size ds /\ (forall k, k ∈ l.*1 <-> is_Some (ds !! k)) /\
  forall k op, (k, op) ∈ l <-> exists d, ds !! k = Some d /\ materialized (stored cache) k d op.
Proof.
  unfold try_into_write_set_mut. intros Hl%materialize_Return.
  assert (Hkeys : l.*1 = (btree_iter key_leb ds).*1).
  { revert Hl. generalize (btree_iter key_leb ds). intros l0 Hl.
    induction Hl as [|x y xs ys [Hxy _] _ IH]; [done|]. by rewrite !fmap_cons, Hxy, IH. }
  split; [rewrite Hkeys; apply btree_iter_NoDup|]. split.
  - rewrite <- (Forall2_length _ _ _ Hl). rewrite (btree_iter_perm key_leb ds).
    apply length_map_to_list.
  - split.
    { intros k. rewrite Hkeys, list_elem_of_fmap. split.
      - intros ([k' d] & -> & Hin%btree_iter_elem). by exists d.
      - intros [d Hd]. exists (k, d). by rewrite btree_iter_elem. }
    intros k op. split.
    + intros [i Hi]%list_elem_of_lookup. destruct (Forall2_lookup_r _ _ _ _ _ Hl Hi) as ([k' d] & Hd & Hk & Hm).
      simpl in *. subst k'. exists d. split; [|done].
      apply (btree_iter_elem key_leb). by eapply list_elem_of_lookup_2.
    + intros (d & Hd & Hm). apply (btree_iter_elem key_leb) in Hd.
      apply list_elem_of_lookup in Hd as [i Hi].
      destruct (Forall2_lookup_l _ _ _ _ _ Hl Hi) as ([k' op'] & Hop & Hk & Hm').
      simpl in *. subst k'. assert (op' = op) as -> by (by eapply materialized_unique).
      by eapply list_elem_of_lookup_2.
Qed.

(** What the next transaction sees of an output. *)
Definition sees (cache : Cache) (ext : OutputExt) (after : Cache) : Prop :=
  forall key,
    match out_write_set (output ext) !! key, out_deltas ext !! key with
    | Some op, _ => get_state_value (cache_view after) key = Ok (written_value op)
    | None, Some d =>
        exists op, materialized (stored cache) key d op /\
          get_state_value (cache_view after) key = Ok (written_value op)
    | None, None => get_state_value (cache_view after) key = get_state_value (cache_view cache) key
    end.

Lemma materialised_sees cache ext o :
  output_ext_ok ext -> materialised cache ext = Return o ->
  out_events o = out_events (output ext) /\ sees cache ext (pushed cache o).
Proof.
  intros Hok. unfold transaction_output, into_transaction_output, push_output, sees.
  destruct (is_discarded (out_status (output ext))) eqn:Hd; cbn [orb].
  { intros [= <-]. rewrite Hd. split; [done|]. intros key.
    destruct (ok_discarded _ Hok Hd) as [-> ->]. by rewrite !lookup_empty. }
  unfold dcs_is_empty. case_bool_decide as He.
  { intros [= <-]. rewrite Hd. split; [done|]. intros key.
    rewrite He, lookup_empty, push_write_set_value. by destruct (out_write_set (output ext) !! key). }
  intros (l & Hl & Hm)%comp_bind_Return. unfold expect_writes in Hl.
  destruct (try_into_write_set_mut _ _ _ _) as [l'| |] eqn:Hw; [|done..]. injection Hl as ->.
  apply materialize_writes in Hw as (Hnd & _ & Hks & Hw).
  unfold merge_delta_writes in Hm. rewrite squash_disjoint in Hm; [|done|].
  2: { intros k [d Hdk]%Hks. destruct (ok_disjoint _ Hok k); congruence. }
  simpl in Hm. destruct (freeze _) as [frozen|] eqn:Hf; simpl in Hm; [|done].
  injection Hm as <-. cbn [out_events out_status out_write_set]. rewrite Hd. split; [done|]. intros key.
  apply freeze_same in Hf as ->. rewrite push_write_set_value, lookup_union.
  destruct (out_write_set (output ext) !! key) as [op|] eqn:Hop.
  - destruct (ok_disjoint _ Hok key) as [|Hnone]; [congruence|].
    rewrite (not_elem_of_list_to_map_1 l key); [done|]. intros [d Hdk]%Hks. congruence.
  - destruct (list_to_map l !! key) as [op|] eqn:Hlk; simpl.
    + apply elem_of_list_to_map_2, Hw in Hlk as (d & -> & Hm). eauto.
    + destruct (out_deltas ext !! key) as [d|] eqn:Hdk; [|done]. exfalso.
      apply not_elem_of_list_to_map_2 in Hlk. apply Hlk, Hks. by rewrite Hdk.
Qed.

(** ** A versioned view shows what the cache shows *)

(** The reads after the executions [outs], and after them and a delta. *)
Definition agree (outs : list Outcome) (cache : Cache) : Prop :=
  forall key,
    shown key (value_after outs key None) = lift (get_state_value (cache_view cache) key) /\
    forall d b v r, delta_ok agg key d ->
      get_state_value (cache_view cache) key = Ok (Some b) -> bcs_from_bytes b = Some v ->
      apply_to d v = Ok r ->
      exists b', bcs_to_bytes r = Some b' /\
        shown key (value_after outs key (Some d)) = Return (Some b').

Lemma agree_new : agree [] (StateViewCache_new state_view).
Proof.
  intros key. rewrite (get_state_value_proper _ _ (new_cache_view state_view) key key eq_refl).
  split; [done|]. intros d b v r Hd Hs Hb Hr. simpl. rewrite Hs. simpl. unfold deserialize.
  rewrite Hb. simpl. rewrite Hr. simpl. destruct (bcs_roundtrip r) as (b' & Hb' & _).
  { destruct Hd as [_ Hwf]. eapply apply_to_u128; [done| |done]. by eapply bcs_from_bytes_range. }
  exists b'. split; [done|]. unfold serialize. by rewrite Hb'.
Qed.

(** The effect of an outcome. *)
Lemma effect_success ext (status : VMResult) st sender key :
  status = Ok (st, ext, sender) ->
  effect (execution_status status) key =
  match out_write_set (output ext) !! key with
  | Some op => Some (inl op)
  | None => inr <$> out_deltas ext !! key
  end.
Proof.
  intros ->. unfold effect, execution_status, status_writes, status_deltas.
  destruct (should_restart_execution (output ext)); simpl;
    by rewrite !(list_to_map_btree key_leb).
Qed.

Lemma number_bytes op b : written_value op = Some b -> number op = bcs_from_bytes b.
Proof. unfold number. rewrite extract_raw_bytes_op. by intros ->. Qed.

Lemma agree_next outs cache after ext (status : VMResult) st sender :
  status = Ok (st, ext, sender) -> output_ext_ok ext ->
  agree outs cache -> sees cache ext after -> agree (execution_status status :: outs) after.
Proof.
  intros Hst Hok Hag Hsees key. specialize (Hag key) as [Hnone Hdelta]. specialize (Hsees key).
  cbn [value_after]. rewrite (effect_success ext status st sender key Hst).
  destruct (out_write_set (output ext) !! key) as [op|].
  - rewrite Hsees. split; [by destruct op|]. intros d b v r Hd [= Hb] Hv Hr.
    rewrite (number_bytes op b Hb), Hv, Hr. simpl.
    destruct (bcs_roundtrip r) as (b' & Hb' & _).
    { destruct Hd as [_ Hwf]. eapply apply_to_u128; [done| |done]. by eapply bcs_from_bytes_range. }
    exists b'. split; [done|]. unfold serialize. by rewrite Hb'.
  - destruct (out_deltas ext !! key) as [d0|] eqn:Hd0; cbn [fmap option_fmap option_map].
    2: { rewrite Hsees. by split. }
    destruct Hsees as (op & (b0 & v0 & r0 & b1 & Hb0 & Hv0 & Hr0 & Hb1 & ->) & ->).
    apply ok_Some in Hb0. pose proof (ok_deltas _ Hok _ _ Hd0) as Hd0ok.
    destruct (Hdelta d0 b0 v0 r0 Hd0ok Hb0 Hv0 Hr0) as (b1' & Hb1' & Hshown).
    assert (b1' = b1) as -> by congruence. split; [by rewrite Hshown|].
    intros d b v r Hd [= <-] Hv Hr.
    assert (Hu : is_u128 v0) by (by eapply bcs_from_bytes_range).
    assert (Hr0u : is_u128 r0) by (eapply apply_to_u128; [apply Hd0ok|done|done]).
    assert (v = r0) as ->.
    { destruct (bcs_roundtrip r0 Hr0u) as (b2 & Hb2 & Hb2'). congruence. }
    assert (Hm : ok (m ← merge_onto d d0; apply_to m v0) = Some r).
    { destruct Hd as [Hl Hwf], Hd0ok as [Hl0 Hwf0]. rewrite merge_compose; [|done..|congruence|done].
      apply ok_Some, result_bind_Ok. eauto. }
    apply ok_Some, result_bind_Ok in Hm as (m & Hm & Hmr). rewrite Hm.
    by eapply Hdelta; [eapply delta_ok_merge; [exact Hd|exact Hd0ok|exact Hm]|..].
Qed.

Lemma agree_abort outs cache err :
  agree outs cache -> agree (execution_status (Err err) :: outs) cache.
Proof. done. Qed.

(** So the transactions run alike. *)
Lemma versioned_run {R} outs cache (p : Prog R) (k : R -> Run) :
  agree outs cache ->
  run_on (fun key => value_after outs key None)
    (versioned into_vm_status any_of_status state_view p k) =
  (r ← run_prog (cache_view cache) p; run_on (fun key => value_after outs key None) (k r)).
Proof.
  intros Hag. induction p as [r|key cont IH|]; [done| |done].
  cbn [versioned run_on run_prog]. destruct (Hag key) as [Hs _]. rewrite Hs.
  destruct (get_state_value (cache_view cache) key) as [b|e]; apply IH.
Qed.

Lemma exec_on outs cache i txn :
  agree outs cache ->
  run_on (fun key => value_after outs key None) (exec i txn) =
  execution_status <$> run_single cache i txn.
Proof.
  intros Hag. rewrite exec_run, (versioned_run _ _ _ _ Hag). unfold run_single.
  by destruct (run_prog _ _).
Qed.

(** ** The block, transaction by transaction *)

Section Block.
Context (outs : list Outcome).
Context (Houts : sequential_outputs exec block = Some outs) (Hdeltas : deltas_apply).

Lemma outs_length : length outs = length block.
Proof. by apply sequential_spec in Houts as [? _]. Qed.

Lemma single_ok cache i txn st ext sender :
  block !! i = Some txn ->
  (forall key, value_ok key (get_state_value (cache_view cache) key)) ->
  run_single cache i txn = Some (Ok (st, ext, sender)) -> output_ext_ok ext.
Proof.
  intros Ht Hc. unfold run_single. generalize (Hprog i txn Ht).
  induction (execute_single_transaction vm txn i) as [r|key cont IH|]; simpl; [|by eauto|done].
  by intros Hr [= ->].
Qed.

(** What the view of a transaction shows is what its cache shows, and its outcome is that of
    the cache. *)
Record stage (i : nat) : Prop := {
  stage_agree : agree (reverse (take i outs)) (cache_at i);
  stage_values key : value_ok key (get_state_value (cache_view (cache_at i)) key);
}.

Lemma stage_outcome i txn out :
  stage i -> block !! i = Some txn -> outs !! i = Some out ->
  exists r, run_single (cache_at i) i txn = Some r /\ out = execution_status r.
Proof.
  intros Hs Ht Ho. apply sequential_spec in Houts as [_ Hrun].
  specialize (Hrun i txn out Ht Ho). rewrite (exec_on _ _ _ _ (stage_agree _ Hs)) in Hrun.
  apply fmap_Some in Hrun as (r & Hr & ->). eauto.
Qed.

(** The cache moves with the outcome. *)
Lemma stage_next i txn r :
  stage i -> block !! i = Some txn -> run_single (cache_at i) i txn = Some r ->
  match r with
  | Ok (_, ext, _) =>
      output_ext_ok ext /\ sees (cache_at i) ext (cache_at (S i)) /\
      exists o, materialised (cache_at i) ext = Return o /\ out_events o = out_events (output ext) /\
        cache_at (S i) = pushed (cache_at i) o
  | Err _ => cache_at (S i) = cache_at i
  end.
Proof.
  intros Hs Ht Hr. cbn [cache_at]. rewrite Ht. unfold next_cache. rewrite Hr.
  destruct r as [[[st ext] sender]|err]; [|done].
  pose proof (single_ok _ _ _ _ _ _ Ht (stage_values _ Hs) Hr) as Hok.
  destruct (Hdeltas _ _ _ _ _ Ht Hr) as [o Ho]. rewrite Ho.
  destruct (materialised_sees _ _ _ Hok Ho) as [He Hsee]. eauto 10.
Qed.

Lemma sees_values cache ext after :
  output_ext_ok ext -> sees cache ext after ->
  (forall key, value_ok key (get_state_value (cache_view cache) key)) ->
  forall key, value_ok key (get_state_value (cache_view after) key).
Proof.
  intros Hok Hsee Hc key. specialize (Hsee key). specialize (Hc key).
  destruct (out_write_set (output ext) !! key) as [op|] eqn:Hop.
  - rewrite Hsee. by apply (ok_writes _ Hok).
  - destruct (out_deltas ext !! key) as [d|] eqn:Hd; [|by rewrite Hsee].
    destruct Hsee as (op & (b0 & v0 & r0 & b1 & Hb0 & Hv0 & Hr0 & Hb1 & ->) & ->).
    intros _ b [= <-]. destruct (bcs_roundtrip r0) as (b2 & Hb2 & Hr2).
    { eapply apply_to_u128; [apply (ok_deltas _ Hok _ _ Hd)| |done].
      by eapply bcs_from_bytes_range. }
    assert (b2 = b1) as -> by congruence. by rewrite Hr2.
Qed.

Lemma stage_at i : i <= length block -> stage i.
Proof.
  induction i as [|i IH]; intros Hi.
  { split; [apply agree_new|]. intros key.
    rewrite (get_state_value_proper _ _ (new_cache_view state_view) key key eq_refl). apply Hstate. }
  pose proof (IH ltac:(lia)) as Hs.
  destruct (lookup_lt_is_Some_2 block i) as [txn Ht]; [lia|].
  destruct (lookup_lt_is_Some_2 outs i) as [out Ho]; [rewrite outs_length; lia|].
  destruct (stage_outcome i txn out Hs Ht Ho) as (r & Hr & ->).
  pose proof (stage_next i txn r Hs Ht Hr) as Hn.
  destruct r as [[[st ext] sender]|err].
  - destruct Hn as (Hok & Hsee & _). split.
    + rewrite (take_S_r _ _ _ Ho), reverse_snoc. by eapply agree_next; [|exact Hok|apply Hs|].
    + by eapply sees_values; [|exact Hsee|apply Hs].
  - split; rewrite Hn; [|apply Hs]. rewrite (take_S_r _ _ _ Ho), reverse_snoc. apply agree_abort, Hs.
Qed.

Lemma stage_lookup i txn :
  block !! i = Some txn ->
  exists r, outs !! i = Some (execution_status r) /\ run_single (cache_at i) i txn = Some r /\
    stage i.
Proof.
  intros Ht. pose proof (lookup_lt_Some _ _ _ Ht) as Hi.
  destruct (lookup_lt_is_Some_2 outs i) as [out Ho]; [by rewrite outs_length|].
  pose proof (stage_at i ltac:(lia)) as Hs.
  destruct (stage_outcome i txn out Hs Ht Ho) as (r & Hr & ->). eauto.
Qed.

(** ** The sequential execution *)

Abbreviation execute_from :=
  (execute_transactions (StateViewId := StateViewId) (Usage := Usage) key_leb into_vm_status
     is_discarded ws_squash freeze vm).

Lemma restart_rest txns : forall i cache,
  execute_from i txns true cache =
  Return (replicate (length txns) (VMStatus_Error UNKNOWN_STATUS, empty_output Retry)).
Proof. induction txns as [|txn txns IH]; intros i cache; simpl; [done|]. by rewrite IH. Qed.

(** The outputs [os] are those of [l] from transaction [i] on, with their deltas applied. *)
Definition materialises (i : nat) (l : list OutputExt) (os : list Output) : Prop :=
  length os = length l /\
  forall j ext o, l !! j = Some ext -> os !! j = Some o ->
    materialised (cache_at (i + j)) ext = Return o.

Lemma materialises_cons i ext o l os :
  materialised (cache_at i) ext = Return o -> materialises (S i) l os ->
  materialises i (ext :: l) (o :: os).
Proof.
  intros Ho [Hl Hos]. split; [simpl; lia|]. intros [|j] ext' o'; simpl.
  - intros [= <-] [= <-]. by rewrite Nat.add_0_r.
  - intros He Ho'. replace (i + S j) with (S i + j) by lia. by apply Hos.
Qed.

Lemma execute_from_spec txns : forall i,
  drop i block = txns ->
  match committed (drop i outs) with
  | Ok l =>
      exists res os, execute_from i txns false (cache_at i) = Return res /\
        materialises i l os /\ length l <= length txns /\
        res.*2 = os ++ replicate (length txns - length l) (empty_output Retry)
  | Err (UserError err) => execute_from i txns false (cache_at i) = Throw err
  | Err _ => False
  end.
Proof.
  induction txns as [|txn txns IH]; intros i Hdrop.
  { rewrite (drop_ge outs i).
    - simpl. exists [], []. split_and!; [done| |done..]. split; [done|]. by intros j.
    - rewrite outs_length. apply (f_equal length) in Hdrop. rewrite length_drop in Hdrop.
      simpl in Hdrop. lia. }
  assert (Ht : block !! i = Some txn).
  { pose proof (lookup_drop block i 0) as Hl. by rewrite Hdrop, Nat.add_0_r in Hl. }
  assert (Hdrop' : drop (S i) block = txns).
  { erewrite drop_S in Hdrop by done. by injection Hdrop. }
  destruct (stage_lookup i txn Ht) as (r & Ho & Hr & Hs).
  rewrite (drop_S _ _ _ Ho). cbn [execute_transactions]. unfold run_single in Hr. rewrite Hr.
  pose proof (stage_next i txn r Hs Ht Hr) as Hn. specialize (IH (S i) Hdrop').
  destruct r as [[[st ext] sender]|err]; simpl; [|done].
  destruct Hn as (_ & _ & o & Hm & Hev & Hc). rewrite Hm. simpl.
  rewrite (restart_by_events o (output ext) Hev).
  destruct (should_restart_execution (output ext)); simpl.
  - rewrite restart_rest. simpl. eexists _, [o]. split; [done|]. split.
    + apply materialises_cons; [done|]. split; [done|]. by intros j.
    + split; [simpl; lia|]. simpl. rewrite Nat.sub_0_r. by rewrite fmap_replicate.
  - rewrite <- Hc. destruct (committed (drop (S i) outs)) as [l|[| |err]]; [|done|done|].
    + destruct IH as (res & os & -> & Hos & Hlen & Hres). simpl. eexists _, (o :: os).
      split; [done|]. split; [by apply materialises_cons|]. split; [simpl; lia|].
      by rewrite fmap_cons, Hres.
    + by rewrite IH.
Qed.

(** ** The resolver *)

Section Resolving.
Context (m : gmap StateKey (gmap TxnIndex (Entry WriteOp))) (Hm : maps_effects m outs).

(** The number a cache shows. *)
Definition shown_number (cache : Cache) (key : StateKey) : option Z :=
  match get_state_value (cache_view cache) key with
  | Ok (Some b) => bcs_from_bytes b
  | _ => None
  end.
Abbreviation storage key := (shown_number (cache_at 0) key).

(** The entry of a transaction for a key. *)
Lemma entry_at i txn r key :
  block !! i = Some txn -> outs !! i = Some (execution_status r) ->
  (fun e => (flag e, cell_effect (cell e))) <$> tree_of m key !! i =
  pair FLAG_DONE <$> effect (execution_status r) key.
Proof. intros _ Ho. rewrite Hm, Ho. done. Qed.

Lemma entry_above i key : length block <= i -> tree_of m key !! i = None.
Proof.
  intros Hi. pose proof (Hm key i) as He. rewrite lookup_ge_None_2 in He by (rewrite outs_length; lia).
  simpl in He. by destruct (tree_of m key !! i).
Qed.

(** What a transaction does to a key, for its entry and for the cache. *)
Lemma key_step i txn key :
  block !! i = Some txn ->
  match tree_of m key !! i with
  | None => get_state_value (cache_view (cache_at (S i))) key
            = get_state_value (cache_view (cache_at i)) key
  | Some {| flag := f; cell := EWrite _ op |} =>
      f = FLAG_DONE /\ value_ok key (Ok (written_value op)) /\
      get_state_value (cache_view (cache_at (S i))) key = Ok (written_value op)
  | Some {| flag := f; cell := EDelta d |} =>
      f = FLAG_DONE /\ delta_ok agg key d /\
      exists op, materialized (stored (cache_at i)) key d op /\
        get_state_value (cache_view (cache_at (S i))) key = Ok (written_value op)
  end.
Proof.
  intros Ht. destruct (stage_lookup i txn Ht) as (r & Ho & Hr & Hs).
  pose proof (entry_at i txn r key Ht Ho) as He. pose proof (stage_next i txn r Hs Ht Hr) as Hn.
  destruct r as [[[st ext] sender]|err].
  - destruct Hn as (Hok & Hsee & _). specialize (Hsee key).
    rewrite (effect_success ext _ st sender key eq_refl) in He.
    destruct (out_write_set (output ext) !! key) as [op|] eqn:Hop;
      [|destruct (out_deltas ext !! key) as [d|] eqn:Hd]; simpl in He;
      destruct (tree_of m key !! i) as [[f [inc v|d']]|]; simplify_eq/=; try done.
    + split_and!; [done| |done]. by apply (ok_writes _ Hok).
    + split_and!; [done| |done]. by apply (ok_deltas _ Hok).
  - simpl in He. rewrite Hn. by destruct (tree_of m key !! i).
Qed.

Lemma materialized_number cache key d op :
  delta_ok agg key d -> materialized (stored cache) key d op ->
  exists v r out, shown_number cache key = Some v /\ apply_to d v = Ok r /\
    serialize r = Some out /\ bcs_from_bytes out = Some r /\ op = Modification out.
Proof.
  intros [_ Hwf] (b & v & r & out & Hb%ok_Some & Hv & Hr & Hout & ->). exists v, r, out.
  unfold shown_number. rewrite Hb. split_and!; try done.
  destruct (bcs_roundtrip r) as (out' & Hout' & Hr').
  { eapply apply_to_u128; [done| |done]. by eapply bcs_from_bytes_range. }
  congruence.
Qed.

(** The forward pass over the entries of a key follows the caches. *)
Lemma forward_at key i :
  is_Some (agg key) -> i <= length block ->
  forward (tree_of m key) (storage key) i = Return (shown_number (cache_at i) key).
Proof.
  intros Hag. induction i as [|i IH]; intros Hi; [done|]. cbn [forward]. rewrite IH by lia.
  destruct (lookup_lt_is_Some_2 block i) as [txn Ht]; [lia|].
  pose proof (key_step i txn key Ht) as Hk. cbn [mbind comp_bind].
  destruct (tree_of m key !! i) as [[f [inc op|d]]|].
  - destruct Hk as (_ & Hok & Hg). unfold shown_number at 2. rewrite Hg.
    unfold forward_entry, from_write, deserialize. cbn [cell]. rewrite extract_raw_bytes_op.
    destruct (written_value op) as [b|]; [|done]. destruct (Hok Hag b eq_refl) as [v ->]. done.
  - destruct Hk as (_ & Hd & op & Hmat & Hg).
    destruct (materialized_number _ _ _ _ Hd Hmat) as (v & r & out & Hv & Hr & _ & Hfrom & ->).
    unfold forward_entry. cbn [cell]. rewrite Hv. cbn [expect mbind comp_bind]. rewrite Hr.
    unfold shown_number. rewrite Hg. simpl. by rewrite Hfrom.
  - unfold shown_number. by rewrite Hk.
Qed.

(** The keys that are given to the resolver. *)
Abbreviation value_of key := (ok (get_state_value state_view key)).

Definition base_values (keys : gmap StateKey (option (option bytes))) : Prop :=
  forall k v, keys !! k = Some v -> v = value_of k.

Lemma base_values_insert keys k : base_values keys -> base_values (<[k := value_of k]> keys).
Proof.
  intros Hk k' v. destruct (decide (k' = k)) as [->|Hne].
  - rewrite lookup_insert_eq. by intros [= <-].
  - rewrite lookup_insert_ne by done. apply Hk.
Qed.

(** The inner loop: a key is looked up in the state once. *)
Lemma insert_keys_lookup (l : list (StateKey * DeltaOp)) key : forall keys,
  base_values keys ->
  let keys' := foldl (fun keys x => match keys !! x.1 with
                                    | Some _ => keys
                                    | None => <[x.1 := value_of x.1]> keys
                                    end) keys l in
  base_values keys' /\ (is_Some (keys' !! key) <-> key ∈ l.*1 \/ is_Some (keys !! key)).
Proof.
  induction l as [|[k d] l IH]; intros keys Hkeys; simpl.
  { split; [done|]. rewrite elem_of_nil. tauto. }
  rewrite elem_of_cons. destruct (keys !! k) as [v|] eqn:Hk.
  - destruct (IH keys Hkeys) as [? ->]. split; [done|].
    assert (key = k -> is_Some (keys !! key)) by (intros ->; rewrite Hk; done). tauto.
  - destruct (IH _ (base_values_insert keys k Hkeys)) as [? ->]. split; [done|].
    destruct (decide (key = k)) as [->|Hne].
    + rewrite lookup_insert_eq. split; [by left; left|by right; eexists].
    + rewrite lookup_insert_ne by done. tauto.
Qed.

Lemma delta_keys_lookup (results : list OutputExt) key : forall keys,
  base_values keys ->
  let keys' := foldl (insert_delta_keys key_leb state_view) keys results in
  base_values keys' /\
  (is_Some (keys' !! key) <->
   (exists res, res ∈ results /\ is_Some (out_deltas res !! key)) \/ is_Some (keys !! key)).
Proof.
  induction results as [|res results IH]; intros keys Hkeys; cbn [foldl].
  { split; [done|]. split; [by right|]. intros [(res & Hin & _)|]; [|done].
    by apply elem_of_nil in Hin. }
  destruct (insert_keys_lookup (btree_iter key_leb (out_deltas res)) key keys Hkeys) as [Hb Hin].
  destruct (IH _ Hb) as [Hb' Hin']. split; [done|]. rewrite Hin'.
  change (foldl _ keys (btree_iter key_leb (out_deltas res)))
    with (insert_delta_keys key_leb state_view keys res) in Hin. rewrite Hin. clear.
  assert (Hk : key ∈ (btree_iter key_leb (out_deltas res)).*1 <-> is_Some (out_deltas res !! key)).
  { rewrite list_elem_of_fmap. split.
    - intros ([k d] & -> & Hd%btree_iter_elem). by exists d.
    - intros [d Hd]. exists (key, d). by rewrite btree_iter_elem. }
  rewrite Hk. setoid_rewrite elem_of_cons. naive_solver.
Qed.

(** The writes of the deltas of an output, in any order. *)
Definition delta_writes_of (cache : Cache) (ext : OutputExt) (l : list (StateKey * WriteOp)) : Prop :=
  NoDup l.*1 /\
  forall k op, (k, op) ∈ l <->
    exists d, out_deltas ext !! k = Some d /\ materialized (stored cache) k d op.

Lemma output_same cache ext o l :
  output_ext_ok ext -> materialised cache ext = Return o -> delta_writes_of cache ext l ->
  output_with_delta_writes is_discarded ws_squash freeze ext l = Return o.
Proof.
  intros Hok Ho [Hnd Hl]. unfold transaction_output, into_transaction_output in Ho.
  unfold output_with_delta_writes.
  destruct (is_discarded (out_status (output ext)) || dcs_is_empty (out_deltas ext)); [done|].
  apply comp_bind_Return in Ho as (l0 & Hl0 & Ho). unfold expect_writes in Hl0.
  destruct (try_into_write_set_mut _ _ _ _) as [l'| |] eqn:Hw; [|done..]. injection Hl0 as ->.
  apply materialize_writes in Hw as (Hnd0 & Hlen & Hks & Hin).
  assert (Hperm : l ≡ₚ l0).
  { apply NoDup_Permutation; [by apply (NoDup_fmap_1 fst)..|].
    intros [k op]. by rewrite Hl, Hin. }
  assert (Hdis : forall k, k ∈ l0.*1 -> out_write_set (output ext) !! k = None).
  { intros k [d Hd]%Hks. destruct (ok_disjoint _ Hok k); congruence. }
  rewrite bool_decide_true by (by rewrite Hperm, Hlen). rewrite <- Ho.
  unfold merge_delta_writes. rewrite !squash_disjoint; [|done|done|done|by setoid_rewrite Hperm].
  by rewrite (list_to_map_proper l l0 Hnd Hperm).
Qed.

(** A key with a delta is ready to be resolved. *)
Lemma storage_initial key :
  is_Some (agg key) -> initial_value (value_of key) = Return (storage key).
Proof.
  intros Hag. pose proof (Hstate key Hag) as Hok. cbn [cache_at]. unfold shown_number.
  rewrite (get_state_value_proper _ _ (new_cache_view state_view) key key eq_refl).
  destruct (get_state_value state_view key) as [[b|]|e]; simpl; [|done..].
  destruct (Hok b eq_refl) as [v Hv]. unfold deserialize. by rewrite Hv.
Qed.

Lemma delta_ready key j lim :
  agg key = Some lim -> is_Some (tree_of m key !! j) ->
  key_ready m (length block) key (value_of key) (storage key).
Proof.
  intros Hag Hj. exists (tree_of m key), lim, (shown_number (cache_at (length block)) key).
  assert (Hag' : is_Some (agg key)) by (by rewrite Hag). split_and!.
  - unfold tree_of in *. destruct (m !! key); [done|]. destruct Hj as [e Hj]. simpl in Hj.
    by rewrite lookup_empty in Hj.
  - intros i Hi. destruct (decide (i < length block)); [done|].
    rewrite entry_above in Hi by lia. by destruct Hi.
  - by apply storage_initial.
  - intros i e Hi He. destruct (lookup_lt_is_Some_2 block i Hi) as [txn Ht].
    pose proof (key_step i txn key Ht) as Hk. rewrite He in Hk.
    destruct e as [f [inc op|d]]; [by destruct Hk|]. destruct Hk as (-> & [Hl Hwf] & _).
    split; [done|]. split; [done|]. congruence.
  - by apply forward_at.
Qed.

(** What is pushed for a key is the write of the delta. *)
Lemma pushed_key_at key i txn k op :
  is_Some (agg key) -> block !! i = Some txn ->
  (k, op) ∈ pushed_key m (key, value_of key) i <->
  k = key /\ exists f d, tree_of m key !! i = Some {| flag := f; cell := EDelta d |} /\
    materialized (stored (cache_at i)) key d op.
Proof.
  intros Hag Ht. unfold pushed_key. simpl. rewrite (storage_initial key Hag). unfold pushed_at.
  pose proof (key_step i txn key Ht) as Hk. pose proof (lookup_lt_Some _ _ _ Ht) as Hi.
  destruct (tree_of m key !! i) as [[f [inc v|d]]|].
  - rewrite elem_of_nil. split; [done|]. by intros (_ & ? & ? & ? & _).
  - rewrite (forward_at key (S i) Hag ltac:(lia)). destruct Hk as (_ & Hd & op' & Hmat & Hg).
    destruct (materialized_number _ _ _ _ Hd Hmat) as (v & r & out & Hv & Hr & Hout & Hfrom & ->).
    unfold shown_number. rewrite Hg. cbn [written_value]. rewrite Hfrom, Hout, list_elem_of_singleton. split.
    + intros [= -> ->]. split; [done|]. by exists f, d.
    + intros [-> (f' & d' & [= <- <-] & Hmat')]. f_equal. by eapply materialized_unique.
  - rewrite elem_of_nil. split; [done|]. by intros (_ & ? & ? & ? & _).
Qed.

(** The deltas of an output are the delta entries of its transaction. *)
Lemma delta_entry j txn st ext sender key d :
  block !! j = Some txn -> run_single (cache_at j) j txn = Some (Ok (st, ext, sender)) ->
  (exists f, tree_of m key !! j = Some {| flag := f; cell := EDelta d |}) <->
  out_deltas ext !! key = Some d.
Proof.
  intros Ht Hr. destruct (stage_lookup j txn Ht) as (r & Ho & Hr' & Hs).
  assert (r = Ok (st, ext, sender)) as -> by congruence.
  pose proof (entry_at j txn _ key Ht Ho) as He.
  pose proof (stage_next j txn _ Hs Ht Hr) as (Hok & _).
  rewrite (effect_success ext _ st sender key eq_refl) in He.
  destruct (ok_disjoint _ Hok key) as [Hn|Hn]; rewrite Hn in *.
  - destruct (tree_of m key !! j) as [[f [inc v|d']]|], (out_deltas ext !! key) as [d0|];
      simplify_eq/=; (split; [intros [f' Hf]; congruence|]); intros Hd; simplify_eq; by eexists.
  - destruct (out_write_set (output ext) !! key) as [op|], (tree_of m key !! j) as [[f [inc v|d']]|];
      simplify_eq/=; (split; [intros [f' Hf]; congruence|done]).
Qed.

(** The outputs of the executor: those of the block, and skipped ones. *)
Definition result_at (results : list OutputExt) (j : nat) (ext : OutputExt) : Prop :=
  results !! j = Some ext -> ext = skip_output \/
    exists txn st sender, block !! j = Some txn /\
      run_single (cache_at j) j txn = Some (Ok (st, ext, sender)).

Context (hash_map_iter : gmap StateKey (option (option bytes)) ->
                         list (StateKey * option (option bytes))).
Context (Hiter : forall keys, hash_map_iter keys ≡ₚ map_to_list keys).

(** Each key pushes one write at most, so the writes of an output have distinct keys. *)
Lemma pushed_NoDup (keys : list (StateKey * option (option bytes))) j :
  NoDup keys.*1 -> NoDup (keys ≫= fun x => pushed_key m x j).*1.
Proof.
  assert (Hone : forall x, pushed_key m x j = [] \/ exists op, pushed_key m x j = [(x.1, op)]).
  { intros [k v]. unfold pushed_key, pushed_at. simpl. repeat case_match; eauto. }
  induction keys as [|x l IH]; intros Hnd; [apply NoDup_nil_2|].
  apply NoDup_cons in Hnd as [Hx Hnd]. specialize (IH Hnd). rewrite bind_cons, fmap_app.
  destruct (Hone x) as [->|[op ->]]; [done|]. simpl. apply NoDup_cons. split; [|done].
  intros [[k' op'] [Hk' [y [Hy Hyl]]%list_elem_of_bind]]%list_elem_of_fmap. simpl in Hk'. subst k'.
  apply Hx, list_elem_of_fmap. exists y. split; [|done].
  destruct (Hone y) as [Hn|[op2 Hn]]; rewrite Hn in Hy.
  - by apply elem_of_nil in Hy.
  - apply list_elem_of_singleton in Hy. by injection Hy as -> _.
Qed.

Section Keys.
Context (results : list OutputExt) (Hres : forall j ext, result_at results j ext).
Abbreviation keys := (foldl (insert_delta_keys key_leb state_view) ∅ results).

Lemma keys_lookup key v :
  (key, v) ∈ hash_map_iter keys <->
  v = value_of key /\ exists res, res ∈ results /\ is_Some (out_deltas res !! key).
Proof.
  rewrite Hiter, elem_of_map_to_list.
  destruct (delta_keys_lookup results key ∅) as [Hb Hin]; [by intros ??|].
  rewrite lookup_empty in Hin. split.
  - intros Hv. split; [by apply Hb|]. by destruct (proj1 Hin ltac:(by eexists)) as [|[]].
  - intros [-> Hex]. destruct (proj2 Hin ltac:(by left)) as [v Hv]. by rewrite (Hb _ _ Hv) in Hv.
Qed.

Lemma keys_ready key v :
  (key, v) ∈ hash_map_iter keys ->
  v = value_of key /\ is_Some (agg key) /\ exists j, is_Some (tree_of m key !! j).
Proof.
  intros (-> & ext & [j Hj]%list_elem_of_lookup & [d Hd])%keys_lookup. split; [done|].
  destruct (Hres j ext Hj) as [->|(txn & st & sender & Ht & Hr)].
  { simpl in Hd. by rewrite lookup_empty in Hd. }
  destruct (stage_lookup j txn Ht) as (r & _ & Hr' & Hs).
  assert (r = Ok (st, ext, sender)) as -> by congruence.
  pose proof (stage_next j txn _ Hs Ht Hr) as (Hok & _). split.
  - by eapply delta_ok_agg, ok_deltas.
  - apply (delta_entry j txn st ext sender key d Ht Hr) in Hd as [f Hf]. exists j. by rewrite Hf.
Qed.

Lemma resolved :
  exists ret, resolve m (hash_map_iter keys) (length block) = Return ret /\
    length ret = length block /\
    forall j txn st ext sender, results !! j = Some ext -> block !! j = Some txn ->
      run_single (cache_at j) j txn = Some (Ok (st, ext, sender)) ->
      exists l, ret !! j = Some l /\ delta_writes_of (cache_at j) ext l.
Proof.
  assert (Hnd : NoDup (hash_map_iter keys).*1) by (rewrite Hiter; apply NoDup_fst_map_to_list).
  destruct (resolve_spec m (hash_map_iter keys) (length block) Hnd) as (ret & Hret & Hlen & Hat).
  { intros key v (-> & [lim Hag] & j & Hj)%keys_ready. exists (storage key). by eapply delta_ready. }
  exists ret. split; [done|]. split; [done|]. intros j txn st ext sender Hj Ht Hr.
  rewrite (Hat j (lookup_lt_Some _ _ _ Ht)). eexists. split; [done|].
  split; [by apply pushed_NoDup|]. intros k op. rewrite list_elem_of_bind. split.
  - intros ([key v] & Hp & (-> & Hag & _)%keys_ready).
    apply (pushed_key_at key j txn k op Hag Ht) in Hp as (-> & f & d & Hf & Hmat).
    exists d. split; [|done]. apply (delta_entry j txn st ext sender key d Ht Hr). by exists f.
  - intros (d & Hd & Hmat). exists (k, value_of k).
    assert (Hk : (k, value_of k) ∈ hash_map_iter keys).
    { apply keys_lookup. split; [done|]. exists ext. split; [by eapply list_elem_of_lookup_2|by exists d]. }
    split; [|done]. destruct (keys_ready _ _ Hk) as (_ & Hag & _).
    apply (pushed_key_at k j txn k op Hag Ht). split; [done|].
    apply (delta_entry j txn st ext sender k d Ht Hr) in Hd as [f Hf]. by exists f, d.
Qed.
End Keys.

(** ** The outputs of the parallel execution *)

Lemma zip_outputs_spec (results : list OutputExt) : forall deltas (os : list Output),
  length deltas = length results -> length os = length results ->
  (forall j res d o, results !! j = Some res -> deltas !! j = Some d -> os !! j = Some o ->
     output_with_delta_writes is_discarded ws_squash freeze res d = Return o) ->
  zip_outputs is_discarded ws_squash freeze results deltas = Return os.
Proof.
  induction results as [|res results IH]; intros [|d deltas] [|o os] Hd Ho Hall; simplify_eq/=; [done|].
  rewrite (Hall 0 res d o) by done. simpl. rewrite (IH deltas os); [done|done|done|].
  intros j res' d' o'. apply (Hall (S j)).
Qed.

(** The committed outputs are those of the first transactions. *)
Lemma committed_at l j ext :
  committed outs = Ok l -> l !! j = Some ext ->
  exists txn st sender, block !! j = Some txn /\
    run_single (cache_at j) j txn = Some (Ok (st, ext, sender)).
Proof.
  intros Hc Hj. destruct (committed_lookup outs l j ext Hc Hj) as (out & Ho & Hout).
  destruct (lookup_lt_is_Some_2 block j) as [txn Ht].
  { rewrite <- outs_length. by eapply lookup_lt_Some. }
  destruct (stage_lookup j txn Ht) as (r & Ho' & Hr & _).
  assert (out = execution_status r) as -> by congruence.
  destruct r as [[[st ext'] sender]|err]; simpl in Hout; [|by destruct Hout].
  exists txn, st, sender. split; [done|].
  destruct (should_restart_execution (output ext')); destruct Hout; simplify_eq; done.
Qed.

(** What the parallel execution makes of the outputs that the executor collects. *)
Lemma parallel_outputs l :
  committed outs = Ok l ->
  exists res ret os,
    execute_from 0 block false (cache_at 0) = Return res /\
    resolve m (hash_map_iter (foldl (insert_delta_keys key_leb state_view) ∅
                                (resize_with (length block) l))) (length block) = Return ret /\
    zip_outputs is_discarded ws_squash freeze (resize_with (length block) l) ret = Return os /\
    res.*2 = os.
Proof.
  intros Hc. pose proof (execute_from_spec block 0 (drop_0 block)) as Hseq.
  rewrite drop_0, Hc in Hseq. destruct Hseq as (res & os & Hrun & [Hlen Hos] & Hle & Hres).
  assert (Hl : resize_with (length block) l = l ++ replicate (length block - length l) skip_output).
  { unfold resize_with. by apply resize_ge. }
  assert (Hat : forall j ext, result_at (resize_with (length block) l) j ext).
  { intros j ext. rewrite Hl. intros [Hj|[_ [-> _]%lookup_replicate]]%lookup_app_Some; [right|by left].
    by eapply committed_at. }
  destruct (resolved _ Hat) as (ret & Hret & Hretlen & Hdel).
  exists res, ret, (os ++ replicate (length block - length l) (empty_output Retry)).
  split_and!; [done..| |done].
  apply zip_outputs_spec.
  - rewrite Hl, length_app, length_replicate. lia.
  - rewrite Hl, !length_app, !length_replicate. lia.
  - intros j ext d o Hj Hd Ho. rewrite Hl in Hj.
    apply lookup_app_Some in Hj as [Hj|[Hge [-> Hj]%lookup_replicate]].
    + destruct (committed_at l j ext Hc Hj) as (txn & st & sender & Ht & Hr).
      destruct (stage_lookup j txn Ht) as (r & _ & Hr' & Hs).
      assert (r = Ok (st, ext, sender)) as -> by congruence.
      pose proof (stage_next j txn _ Hs Ht Hr) as (Hok & _).
      destruct (Hdel j txn st ext sender) as (d' & Hd' & Hw); [|done..|].
      { rewrite Hl. by apply lookup_app_l_Some. }
      assert (d' = d) as -> by congruence. eapply output_same; [done| |done].
      apply (Hos j ext o Hj). rewrite lookup_app_l in Ho; [done|].
      rewrite Hlen. by eapply lookup_lt_Some.
    + rewrite lookup_app_r in Ho by lia. apply lookup_replicate in Ho as [-> _].
      unfold output_with_delta_writes. simpl. unfold dcs_is_empty.
      rewrite bool_decide_true by done. by rewrite orb_true_r.
Qed.
End Resolving.
End Block.

(** The error of the transaction that aborts. *)
Lemma sequential_error outs err :
  sequential_outputs exec block = Some outs -> deltas_apply ->
  committed outs = Err err ->
  exists e, err = UserError e /\
    execute_transactions key_leb into_vm_status is_discarded ws_squash freeze vm 0 block false
      (cache_at 0) = Throw e.
Proof.
  intros Ho Hd Hc. pose proof (execute_from_spec outs Ho Hd block 0 (drop_0 block)) as Hseq.
  rewrite drop_0, Hc in Hseq. destruct err as [| |e]; [done..|]. eauto.
Qed.
End Equivalence.
