(* ===== verification/BlockExecution.v ===== *)
(** * [AptosVM::execute_block] is the sequential execution, at any concurrency level

    The theorem on the execution of a block by the VM, an example of it, and a block that shows
    that its hypothesis on the deltas is needed. *)
From stdpp Require Import relations.
From S2P Require Import Prelude Delta ChangeSetExt MVMap Resolver Conc Scheduler LastInputOutput.
From S2P Require Import Executor Protocol Versions Sequential Correctness Termination.
From S2P Require Import StateView AdapterCommon ParallelVM BlockEquivalence.

#[local] Open Scope nat_scope.

Section Properties.
Context `{Bcs128, !Bcs128Laws} {StateKey StateViewId Usage AnyError : Type} `{Countable StateKey}.
Context {SignedTransaction SignatureChecked WriteSetPayload BlockMetadata Hash : Type}.
Context {Event ExecStatus Session SessionId P : Type} `{Countable P} `{ModulePath StateKey P}.
Context `{TransactionWrite WriteOp, !WriteOpBytes}.
Context `{!VMAdapter (StateKey := StateKey) (AnyError := AnyError)
            (SignedTransaction := SignedTransaction) (SignatureChecked := SignatureChecked)
            (WriteSetPayload := WriteSetPayload) (BlockMetadata := BlockMetadata)
            (Event := Event) (ExecutionStatus := ExecStatus) (Session := Session)
            (SessionId := SessionId) A}.
Context (key_leb : StateKey -> StateKey -> Prop) `{!RelDecision key_leb}.
Context (into_vm_status : PartialVMError -> VMStatus) (any_of_status : VMStatus -> AnyError).
Context (is_discarded : TransactionStatus ExecStatus -> bool).
Context (ws_squash : gmap StateKey WriteOp -> list (StateKey * WriteOp) ->
                     option (gmap StateKey WriteOp)).
Context (freeze : gmap StateKey WriteOp -> option (gmap StateKey WriteOp)).
Context (hash_iter : gset StateKey -> list StateKey).
Context (hash_map_iter : gmap StateKey (option (option bytes)) ->
                         list (StateKey * option (option bytes))).
Context (vm_new : ViewProg StateKey AnyError A).
Context (transactions : list (Transaction SignedTransaction WriteSetPayload BlockMetadata Hash)).
Context (state_view : StateView StateKey StateViewId Usage AnyError).

Lemma block_sequential (agg : StateKey -> option Z) (vm : A) concurrency_level res :
  (forall s, hash_iter s ≡ₚ elements s) ->
  (forall keys, hash_map_iter keys ≡ₚ map_to_list keys) ->
  WriteSetLaws ws_squash freeze ->
  run_prog state_view vm_new = Some vm ->
  (forall key, value_ok agg key (get_state_value state_view key)) ->
  (forall idx txn, (preprocess_transaction <$> transactions) !! idx = Some txn ->
     prog_ok is_discarded agg (execute_single_transaction vm txn idx)) ->
  deltas_apply key_leb into_vm_status is_discarded ws_squash freeze vm state_view
    (preprocess_transaction <$> transactions) ->
  execute_block (P := P) key_leb into_vm_status any_of_status is_discarded ws_squash freeze
    hash_iter hash_map_iter vm_new transactions state_view concurrency_level res ->
  res = (output ← execute_block_and_keep_vm_status key_leb into_vm_status is_discarded ws_squash
                    freeze vm_new transactions state_view;
         Return output.*2).
Proof.
  intros Hiter Hmap Hlaws Hnew Hstate Hprog Hdeltas [res' Hlevel (r & Hr & ->)|]; [|done].
  assert (Hseq : execute_block_and_keep_vm_status key_leb into_vm_status is_discarded ws_squash
                   freeze vm_new transactions state_view
                 = execute_transactions key_leb into_vm_status is_discarded ws_squash freeze vm 0
                     (preprocess_transaction <$> transactions) false (StateViewCache_new state_view)).
  { unfold execute_block_and_keep_vm_status.
    rewrite (run_prog_proper _ _ (new_cache_view state_view) _ _ eq_refl), Hnew. done. }
  assert (Hpar : valid_concurrency_level concurrency_level concurrency_level = true).
  { apply andb_true_intro. split; [by apply Nat.ltb_lt|by apply Nat.leb_le]. }
  eapply (parallel_result _ _ _ agg) in Hr; [|done|by eapply exec_ok|exact Hpar].
  destruct r as [[results m]|err].
  - destruct Hr as (Hres & outs & Houts & Hm). unfold sequential_result in Hres.
    rewrite Houts in Hres. simpl in Hres.
    destruct (committed outs) as [l|] eqn:Hc; [|done]. injection Hres as <-.
    destruct (parallel_outputs key_leb into_vm_status any_of_status is_discarded ws_squash freeze agg
      vm_new vm state_view _ Hnew Hstate Hprog outs Houts Hdeltas m Hm hash_map_iter Hmap l Hc)
      as (out & ret & os & Hrun & Hret & Hzip & <-).
    rewrite Hseq. cbn [cache_at] in Hrun. rewrite Hrun. cbn [block_outputs].
    unfold resize_with, aptos_output in *. rewrite length_resize, Hret.
    cbn [no_throw mbind comp_bind]. by rewrite Hzip.
  - destruct Hr as [->|Hr].
    + simpl. by destruct (execute_block_and_keep_vm_status _ _ _ _ _ _ _ _).
    + unfold sequential_result in Hr.
      destruct (sequential_outputs _ _) as [outs|] eqn:Houts; simpl in Hr; [|done].
      destruct (committed outs) as [l|err'] eqn:Hc; [done|]. injection Hr as ->.
      destruct (sequential_error key_leb into_vm_status any_of_status is_discarded ws_squash freeze agg
        vm_new vm state_view _ Hnew Hstate Hprog outs err Houts Hdeltas Hc) as (e & -> & Hrun).
      rewrite Hseq. cbn [cache_at] in Hrun. by rewrite Hrun.
Qed.

(** [execute_block] returns, by some interleaving of the threads. *)
Lemma block_returns (agg : StateKey -> option Z) (vm : A) concurrency_level :
  (forall s, hash_iter s ≡ₚ elements s) ->
  run_prog state_view vm_new = Some vm ->
  (forall key, value_ok agg key (get_state_value state_view key)) ->
  (forall idx txn, (preprocess_transaction <$> transactions) !! idx = Some txn ->
     prog_ok is_discarded agg (execute_single_transaction vm txn idx)) ->
  exists res, execute_block (P := P) key_leb into_vm_status any_of_status is_discarded ws_squash freeze
    hash_iter hash_map_iter vm_new transactions state_view concurrency_level res.
Proof.
  intros Hiter Hnew Hstate Hprog.
  destruct (decide (concurrency_level <= 1)) as [Hle|Hgt]; [by eexists; apply BlockSequential|].
  set (output := AptosTransactionOutput (Event := Event) (ExecStatus := ExecStatus) key_leb).
  edestruct (executor_returns (P := P) hash_iter
    (execute_transaction into_vm_status any_of_status vm_new state_view)
    (preprocess_transaction <$> transactions) agg concurrency_level concurrency_level Hiter) as [r Hr];
    [by eapply exec_ok| |].
  { apply andb_true_intro. split; [apply Nat.ltb_lt; lia|by apply Nat.leb_le]. }
  eexists. apply BlockParallel; [lia|]. by exists r.
Qed.

Lemma block_any_level (agg : StateKey -> option Z) (vm : A) concurrency_level res :
  (forall s, hash_iter s ≡ₚ elements s) ->
  (forall keys, hash_map_iter keys ≡ₚ map_to_list keys) ->
  WriteSetLaws ws_squash freeze ->
  run_prog state_view vm_new = Some vm ->
  (forall key, value_ok agg key (get_state_value state_view key)) ->
  (forall idx txn, (preprocess_transaction <$> transactions) !! idx = Some txn ->
     prog_ok is_discarded agg (execute_single_transaction vm txn idx)) ->
  deltas_apply key_leb into_vm_status is_discarded ws_squash freeze vm state_view
    (preprocess_transaction <$> transactions) ->
  execute_block (P := P) key_leb into_vm_status any_of_status is_discarded ws_squash freeze
    hash_iter hash_map_iter vm_new transactions state_view concurrency_level res <->
  res = (output ← execute_block_and_keep_vm_status key_leb into_vm_status is_discarded ws_squash
                    freeze vm_new transactions state_view;
         Return output.*2).
Proof.
  intros Hiter Hmap Hlaws Hnew Hstate Hprog Hdeltas. split; [by eapply block_sequential|].
  intros ->. destruct (block_returns agg vm concurrency_level Hiter Hnew Hstate Hprog) as [res' Hres'].
  pose proof (block_sequential agg vm _ _ Hiter Hmap Hlaws Hnew Hstate Hprog Hdeltas Hres') as Heq.
  by rewrite <- Heq.
Qed.

(** C2. [AptosVM::execute_block] does not depend on the concurrency level.  Executed in
    parallel, a block gives exactly the outputs, or the error, of its sequential execution by
    [execute_block_impl]: an interleaving of the threads returns them, and none returns
    anything else: the same write sets with the deltas
    materialised, events, gas and statuses, and the same transactions to retry after a
    reconfiguration; also when a race on module paths makes the executor fall back.  The VM is
    any program that, for the transactions of the block, reads the state through its view, does
    not panic on the values of aggregators and writes nothing when it discards one; the deltas of the block must
    all apply, those of the transactions after a reconfiguration included. *)
Theorem execute_block_any_level (agg : StateKey -> option Z) (vm : A) concurrency_level res :
  (forall s, hash_iter s ≡ₚ elements s) ->
  (forall keys, hash_map_iter keys ≡ₚ map_to_list keys) ->
  WriteSetLaws ws_squash freeze ->
  run_prog state_view vm_new = Some vm ->
  (forall key, value_ok agg key (get_state_value state_view key)) ->
  (forall idx txn, (preprocess_transaction <$> transactions) !! idx = Some txn ->
     prog_ok is_discarded agg (execute_single_transaction vm txn idx)) ->
  deltas_apply key_leb into_vm_status is_discarded ws_squash freeze vm state_view
    (preprocess_transaction <$> transactions) ->
  execute_block (P := P) key_leb into_vm_status any_of_status is_discarded ws_squash freeze
    hash_iter hash_map_iter vm_new transactions state_view concurrency_level res <->
  res = (output ← execute_block_and_keep_vm_status key_leb into_vm_status is_discarded ws_squash
                    freeze vm_new transactions state_view;
         Return output.*2).
Proof. apply block_any_level. Qed.
End Properties.

(** ** A block with a delta and a reconfiguration, on two threads *)

Section Example.
#[local] Existing Instance LittleEndian.le_bcs.
#[local] Existing Instance LittleEndian.le_bcs_laws.
#[local] Instance example_write : TransactionWrite WriteOp := written_value.
#[local] Instance example_bytes : WriteOpBytes := fun op => eq_refl.
#[local] Instance example_module : ModulePath nat nat := fun _ => None.

Import BlockExample.

Definition example_agg (k : nat) : option Z := if k =? 0 then Some 8%Z else None.
#[local] Instance example_laws : WriteSetLaws example_squash Some.
Proof. split; [done|by intros ws ws' [= ->]|]. intros o o' He. simpl. by rewrite He. Qed.

Lemma example_ext_ok ws ds restart :
  (forall k, ws !! k = None \/ ds !! k = None) ->
  (forall k op, ws !! k = Some op -> value_ok (AnyError := unit) example_agg k (Ok (written_value op))) ->
  (forall k d, ds !! k = Some d -> delta_ok example_agg k d) ->
  output_ext_ok (AnyError := unit) example_discarded example_agg (example_ext ws ds restart).
Proof. intros. by split. Qed.

Lemma block_example_ok txn idx :
  prog_ok example_discarded example_agg (execute_single_transaction () txn idx).
Proof.
  assert (Hone : forall k op restart,
    value_ok (AnyError := unit) example_agg k (Ok (written_value op)) ->
    output_ext_ok (AnyError := unit) example_discarded example_agg
      (example_ext {[k := op]} ∅ restart)).
  { intros k op restart Hop. apply example_ext_ok; [by right| |done].
    intros k' op' [<- <-]%lookup_singleton_Some. done. }
  assert (Hnone : output_ext_ok (AnyError := unit) example_discarded example_agg
    (example_ext ∅ ∅ false)) by (apply example_ext_ok; [by left|done..]).
  assert (Hdelta : output_ext_ok (AnyError := unit) example_discarded example_agg
    (example_ext ∅ {[0 := delta_add 2 8]} false)).
  { apply example_ext_ok; [by left|done|]. intros k d [<- <-]%lookup_singleton_Some.
    split; [done|]. vm_compute. intuition discriminate. }
  destruct txn as [[|[|[|[|txn]]]]| | | |]; simpl; try done.
  - apply Hone. intros _ b [= <-]. vm_compute. eauto.
  - intros [[b|]|e] Hv; simpl; [|done..]. apply Hone. by intros [].
  - apply Hone. by intros [].
Qed.

#[local] Instance example_outputs : TransactionOutput nat WriteOp ExampleExt :=
  AptosTransactionOutput Nat.le.
Definition example_run : TxnIndex -> PreprocessedTransaction nat unit unit ->
  VMRun nat WriteOp ExampleExt VMStatus :=
  execute_transaction (SignedTransaction := nat) (SessionId := unit) (Session := unit)
    example_status (fun _ => ()) (PDone ()) example_view.
Definition preprocessed (block : list (Transaction nat unit unit unit))
  : list (PreprocessedTransaction nat unit unit) :=
  preprocess_transaction (StateKey := nat) (AnyError := unit) (Event := bool)
    (ExecutionStatus := unit) (Session := unit) (SessionId := unit) (A := unit) <$> block.
Abbreviation example_txns := (preprocessed example_block).
Definition example_end block :=
  play (replicate 18 0 ++ replicate 300 1 ++ concat (replicate 600 [1; 0]))
    (spawn (P := nat) elements example_run 2 (preprocessed block)).

Abbreviation example_execute_block := (execute_block (P := nat) (SessionId := unit) (Session := unit)
  Nat.le example_status (fun _ => ()) example_discarded example_squash Some elements map_to_list
  (PDone ())).
Abbreviation example_outcome := (block_outputs (SessionId := unit) (Session := unit) Nat.le
  example_status example_discarded example_squash Some map_to_list (PDone ())).
Abbreviation example_sequential block := (output ←
  execute_block_and_keep_vm_status (Session := unit) (SessionId := unit) Nat.le example_status
    example_discarded example_squash Some (PDone ()) block example_view;
  Return output.*2).

Lemma example_reaches block :
  rtc pool_step (spawn (P := nat) elements example_run 2 (preprocessed block)) (example_end block).
Proof. unfold example_end. apply play_reaches. Qed.

(** The block, run by two threads. *)
Lemma example_parallel block r :
  block <> [] -> finished (example_end block) -> block_result (example_end block).2 = Some r ->
  example_execute_block block example_view 2
    ('(result, _) ← example_outcome block example_view r; Return result).
Proof.
  intros Hne Hf Hr. apply BlockParallel; [lia|]. exists r. split; [|reflexivity].
  assert (Hne' : preprocessed block <> []) by (clear - Hne; by destruct block).
  exact (ExecuteBlock (P := nat) elements example_run 2 (preprocessed block) (example_end block) r
    Hne' (example_reaches block) Hf Hr).
Qed.

Lemma example_deltas :
  deltas_apply Nat.le example_status example_discarded example_squash Some () example_view
    example_txns.
Proof. apply deltas_applied. by vm_compute. Qed.

Lemma example_result :
  exists o0 o1 o2 o3,
    example_sequential example_block = Return [o0; o1; o2; o3] /\
    out_write_set o1 = {[0 := Modification (LittleEndian.encode 16 7)]} /\
    out_write_set o2 = {[1 := Creation (LittleEndian.encode 16 7)]} /\
    out_status o3 = Retry.
Proof. vm_compute. do 4 eexists. split_and!; reflexivity. Qed.

Lemma execute_block_any_level_witness :
  exists res o0 o1 o2 o3,
    example_execute_block example_block example_view 2 res /\
    res = Return [o0; o1; o2; o3] /\
    out_write_set o1 = {[0 := Modification (LittleEndian.encode 16 7)]} /\
    out_write_set o2 = {[1 := Creation (LittleEndian.encode 16 7)]} /\
    out_status o3 = Retry.
Proof.
  assert (Hend : exists r, block_result (example_end example_block).2 = Some r).
  { vm_compute. eauto. }
  destruct Hend as [r Hend].
  pose proof (example_parallel example_block r ltac:(done) ltac:(vm_compute; repeat constructor) Hend)
    as Hblock.
  pose proof (fun res => execute_block_any_level (P := nat) (SessionId := unit) (Session := unit) Nat.le
    example_status (fun _ => ()) example_discarded example_squash Some elements map_to_list (PDone ())
    example_block example_view example_agg () 2 res (fun s => reflexivity _) (fun s => reflexivity _)
    example_laws eq_refl (fun key _ b Hb => ltac:(discriminate Hb)) (fun idx txn _ => block_example_ok txn idx) example_deltas)
    as Hlevel. pose proof (proj1 (Hlevel _) Hblock) as Heq.
  destruct example_result as (o0 & o1 & o2 & o3 & Hres & Hrest). rewrite Hres in Heq.
  eexists _, o0, o1, o2, o3. split; [exact Hblock|]. split; [exact Heq|exact Hrest].
Defined.

(** That the deltas of the transactions after a reconfiguration apply is needed: in a block
    whose third transaction ends the epoch, the sequential execution does not run the fourth
    one and returns the four outputs, while [ParallelAptosVM::execute_block] runs it, gives its
    delta to the resolver, and panics as the delta does not apply. *)
Theorem skipped_delta_panics :
  let block := TUserTransaction <$> [0; 1; 2; 4] : list (Transaction nat unit unit unit) in
  (exists outputs, example_sequential block = Return outputs /\ length outputs = 4) /\
  example_execute_block block example_view 2 Panic.
Proof.
  intros block. split.
  { exists (match example_sequential block with Return l => l | _ => [] end).
    vm_compute. by split. }
  assert (Hend : match block_result (example_end block).2 with
                 | Some r => example_outcome block example_view r
                 | None => Return ([], None)
                 end = Panic) by (vm_compute; reflexivity).
  destruct (block_result (example_end block).2) as [r|] eqn:Hr; [|done].
  pose proof (example_parallel block r ltac:(done) ltac:(vm_compute; repeat constructor) Hr) as Hb.
  by rewrite Hend in Hb.
Qed.
End Example.
