(* ===== verification/GasSchedule.v ===== *)
(** * Gas parameters and the on-chain gas schedule
    ([aptos-gas/src/{params,natives,instr,misc,transaction,move_stdlib,aptos_framework,table,
    gas_meter}.rs])

    The macros [define_gas_parameters!] and [define_gas_parameters_for_natives!] turn a table
    of entries into a struct of parameters with its conversions from and to the on-chain
    schedule.  Here a table is a list, a struct is a function from its fields, and the
    conversions are generic in the table.  A field of a native struct is named by its path. *)
From S2P Require Import Prelude.

#[local] Open Scope string_scope.
#[local] Open Scope Z_scope.

(** ** The macros *)

(** An entry of a table: field, flags, key on chain and initial value. *)
Record ParamEntry (F : Type) := {
  p_field : F;
  p_optional : bool;
  p_test_only : bool;
  p_key : string;
  p_initial : Z;
}.
Arguments p_field {F} _.
Arguments p_optional {F} _.
Arguments p_test_only {F} _.
Arguments p_key {F} _.
Arguments p_initial {F} _.

Definition param {F} (name : F) (key : string) (initial : Z) : ParamEntry F :=
  {| p_field := name; p_optional := false; p_test_only := false; p_key := key;
     p_initial := initial |}.
Definition optional_param {F} (name : F) (key : string) (initial : Z) : ParamEntry F :=
  {| p_field := name; p_optional := true; p_test_only := false; p_key := key;
     p_initial := initial |}.
Definition test_only_param {F} (name : F) (key : string) (initial : Z) : ParamEntry F :=
  {| p_field := name; p_optional := false; p_test_only := true; p_key := key;
     p_initial := initial |}.

Abbreviation GasSchedule := (gmap string Z).

Section Macro.
Context {F : Type} `{EqDecision F}.

(** The struct the macro defines: the value of each field. *)
Abbreviation params := (F -> Z).

Definition zeros : params := fun _ => 0.
Definition set_param (name : F) (v : Z) (p : params) : params :=
  fun f => if decide (f = name) then v else p f.

(** [format!("{}.{}", $prefix, $key)] *)
Definition full_key (prefix : string) (e : ParamEntry F) : string :=
  prefix ++ "." ++ p_key e.

(** [expand_get_for_gas_parameters!] *)
Definition expand_get (prefix : string) (gas_schedule : GasSchedule) (e : ParamEntry F)
  (p : params) : option params :=
  match gas_schedule !! full_key prefix e with
  | Some val => Some (set_param (p_field e) val p)
  | None => if p_optional e then Some p else None
  end.

Fixpoint expand_gets (prefix : string) (gas_schedule : GasSchedule)
  (table : list (ParamEntry F)) (p : params) : option params :=
  match table with
  | [] => Some p
  | e :: table => p ← expand_get prefix gas_schedule e p; expand_gets prefix gas_schedule table p
  end.

Definition from_entries (prefix : string) (table : list (ParamEntry F))
  (gas_schedule : GasSchedule) : option params :=
  expand_gets prefix gas_schedule table zeros.

Definition to_entries (prefix : string) (table : list (ParamEntry F)) (p : params)
  : list (string * Z) :=
  map (fun e => (full_key prefix e, p (p_field e))) table.

Definition initial_params (table : list (ParamEntry F)) : params :=
  foldl (fun p e => set_param (p_field e) (p_initial e) p) zeros table.

(** The entries that are compiled in: [test_only] ones need the feature "testing". *)
Definition compiled (testing : bool) (table : list (ParamEntry F)) : list (ParamEntry F) :=
  filter (fun e => testing || negb (p_test_only e)) table.
End Macro.

(** ** The tables *)

Definition EXECUTION_GAS_MULTIPLIER : Z := 20.
Abbreviation MUL := EXECUTION_GAS_MULTIPLIER.
Definition LATEST_GAS_FEATURE_VERSION : Z := 3.

(** [InstructionGasParameters] *)
Module Instr.

Inductive field :=
  | nop | ret | abort | br_true | br_false | branch | pop | ld_u8 | ld_u64 | ld_u128 | ld_true
  | ld_false | ld_const_base | ld_const_per_byte | imm_borrow_loc | mut_borrow_loc
  | imm_borrow_field | mut_borrow_field | imm_borrow_field_generic | mut_borrow_field_generic
  | copy_loc_base | copy_loc_per_abs_val_unit | move_loc_base | st_loc_base | call_base
  | call_per_arg | call_per_local | call_generic_base | call_generic_per_ty_arg
  | call_generic_per_arg | call_generic_per_local | pack_base | pack_per_field
  | pack_generic_base | pack_generic_per_field | unpack_base | unpack_per_field
  | unpack_generic_base | unpack_generic_per_field | read_ref_base | read_ref_per_abs_val_unit
  | write_ref_base | freeze_ref | cast_u8 | cast_u64 | cast_u128 | add | sub | mul | mod_ | div
  | bit_or | bit_and | xor | shl | shr | or | and | not | lt | gt | le | ge | eq_base
  | eq_per_abs_val_unit | neq_base | neq_per_abs_val_unit | imm_borrow_global_base
  | imm_borrow_global_generic_base | mut_borrow_global_base | mut_borrow_global_generic_base
  | exists_base | exists_generic_base | move_from_base | move_from_generic_base | move_to_base
  | move_to_generic_base | vec_len_base | vec_imm_borrow_base | vec_mut_borrow_base
  | vec_push_back_base | vec_pop_back_base | vec_swap_base | vec_pack_base | vec_pack_per_elem
  | vec_unpack_base | vec_unpack_per_expected_elem.

#[global] Instance field_eq_dec : EqDecision field.
Proof. solve_decision. Defined.

Definition table : list (ParamEntry field) := [
  param nop "nop" (10 * MUL);
  param ret "ret" (60 * MUL);
  param abort "abort" (60 * MUL);
  param br_true "br_true" (120 * MUL);
  param br_false "br_false" (120 * MUL);
  param branch "branch" (80 * MUL);
  param pop "pop" (40 * MUL);
  param ld_u8 "ld_u8" (60 * MUL);
  param ld_u64 "ld_u64" (60 * MUL);
  param ld_u128 "ld_u128" (80 * MUL);
  param ld_true "ld_true" (60 * MUL);
  param ld_false "ld_false" (60 * MUL);
  param ld_const_base "ld_const.base" (650 * MUL);
  param ld_const_per_byte "ld_const.per_byte" (35 * MUL);
  param imm_borrow_loc "imm_borrow_loc" (60 * MUL);
  param mut_borrow_loc "mut_borrow_loc" (60 * MUL);
  param imm_borrow_field "imm_borrow_field" (200 * MUL);
  param mut_borrow_field "mut_borrow_field" (200 * MUL);
  param imm_borrow_field_generic "imm_borrow_field_generic" (200 * MUL);
  param mut_borrow_field_generic "mut_borrow_field_generic" (200 * MUL);
  param copy_loc_base "copy_loc.base" (80 * MUL);
  param copy_loc_per_abs_val_unit "copy_loc.per_abs_val_unit" (4 * MUL);
  param move_loc_base "move_loc.base" (120 * MUL);
  param st_loc_base "st_loc.base" (120 * MUL);
  param call_base "call.base" (1000 * MUL);
  param call_per_arg "call.per_arg" (100 * MUL);
  optional_param call_per_local "call.per_local" (100 * MUL);
  param call_generic_base "call_generic.base" (1000 * MUL);
  param call_generic_per_ty_arg "call_generic.per_ty_arg" (100 * MUL);
  param call_generic_per_arg "call_generic.per_arg" (100 * MUL);
  optional_param call_generic_per_local "call_generic.per_local" (100 * MUL);
  param pack_base "pack.base" (220 * MUL);
  param pack_per_field "pack.per_field" (40 * MUL);
  param pack_generic_base "pack_generic.base" (220 * MUL);
  param pack_generic_per_field "pack_generic.per_field" (40 * MUL);
  param unpack_base "unpack.base" (220 * MUL);
  param unpack_per_field "unpack.per_field" (40 * MUL);
  param unpack_generic_base "unpack_generic.base" (220 * MUL);
  param unpack_generic_per_field "unpack_generic.per_field" (40 * MUL);
  param read_ref_base "read_ref.base" (200 * MUL);
  param read_ref_per_abs_val_unit "read_ref.per_abs_val_unit" (4 * MUL);
  param write_ref_base "write_ref.base" (200 * MUL);
  param freeze_ref "freeze_ref" (10 * MUL);
  param cast_u8 "cast_u8" (120 * MUL);
  param cast_u64 "cast_u64" (120 * MUL);
  param cast_u128 "cast_u128" (120 * MUL);
  param add "add" (160 * MUL);
  param sub "sub" (160 * MUL);
  param mul "mul" (160 * MUL);
  param mod_ "mod" (160 * MUL);
  param div "div" (160 * MUL);
  param bit_or "bit_or" (160 * MUL);
  param bit_and "bit_and" (160 * MUL);
  param xor "bit_xor" (160 * MUL);
  param shl "bit_shl" (160 * MUL);
  param shr "bit_shr" (160 * MUL);
  param or "or" (160 * MUL);
  param and "and" (160 * MUL);
  param not "not" (160 * MUL);
  param lt "lt" (160 * MUL);
  param gt "gt" (160 * MUL);
  param le "le" (160 * MUL);
  param ge "ge" (160 * MUL);
  param eq_base "eq.base" (100 * MUL);
  param eq_per_abs_val_unit "eq.per_abs_val_unit" (4 * MUL);
  param neq_base "neq.base" (100 * MUL);
  param neq_per_abs_val_unit "neq.per_abs_val_unit" (4 * MUL);
  param imm_borrow_global_base "imm_borrow_global.base" (500 * MUL);
  param imm_borrow_global_generic_base "imm_borrow_global_generic.base" (500 * MUL);
  param mut_borrow_global_base "mut_borrow_global.base" (500 * MUL);
  param mut_borrow_global_generic_base "mut_borrow_global_generic.base" (500 * MUL);
  param exists_base "exists.base" (250 * MUL);
  param exists_generic_base "exists_generic.base" (250 * MUL);
  param move_from_base "move_from.base" (350 * MUL);
  param move_from_generic_base "move_from_generic.base" (350 * MUL);
  param move_to_base "move_to.base" (500 * MUL);
  param move_to_generic_base "move_to_generic.base" (500 * MUL);
  param vec_len_base "vec_len.base" (220 * MUL);
  param vec_imm_borrow_base "vec_imm_borrow.base" (330 * MUL);
  param vec_mut_borrow_base "vec_mut_borrow.base" (330 * MUL);
  param vec_push_back_base "vec_push_back.base" (380 * MUL);
  param vec_pop_back_base "vec_pop_back.base" (260 * MUL);
  param vec_swap_base "vec_swap.base" (300 * MUL);
  param vec_pack_base "vec_pack.base" (600 * MUL);
  param vec_pack_per_elem "vec_pack.per_elem" (40 * MUL);
  param vec_unpack_base "vec_unpack.base" (500 * MUL);
  param vec_unpack_per_expected_elem "vec_unpack.per_expected_elem" (40 * MUL)
].

End Instr.

(** [AbstractValueSizeGasParameters] *)
Module AbsVal.

Inductive field :=
  | u8 | u64 | u128 | bool | address | struct_ | vector | reference | per_u8_packed
  | per_u64_packed | per_u128_packed | per_bool_packed | per_address_packed.

#[global] Instance field_eq_dec : EqDecision field.
Proof. solve_decision. Defined.

Definition table : list (ParamEntry field) := [
  param u8 "u8" 40;
  param u64 "u64" 40;
  param u128 "u128" 40;
  param bool "bool" 40;
  param address "address" 40;
  param struct_ "struct" 40;
  param vector "vector" 40;
  param reference "reference" 40;
  param per_u8_packed "per_u8_packed" 1;
  param per_u64_packed "per_u64_packed" 8;
  param per_u128_packed "per_u128_packed" 16;
  param per_bool_packed "per_bool_packed" 1;
  param per_address_packed "per_address_packed" 32
].

End AbsVal.

(** [TransactionGasParameters] *)
Module Txn.

Inductive field :=
  | min_transaction_gas_units | large_transaction_cutoff | intrinsic_gas_per_byte
  | maximum_number_of_gas_units | min_price_per_gas_unit | max_price_per_gas_unit
  | max_transaction_size_in_bytes | gas_unit_scaling_factor | load_data_base
  | load_data_per_byte | load_data_failure | write_data_per_op | write_data_per_new_item
  | write_data_per_byte_in_key | write_data_per_byte_in_val | memory_quota.

#[global] Instance field_eq_dec : EqDecision field.
Proof. solve_decision. Defined.

(** [aptos_global_constants::GAS_UNIT_PRICE] is defined outside. *)
Definition table (GAS_UNIT_PRICE : Z) : list (ParamEntry field) := [
  param min_transaction_gas_units "min_transaction_gas_units" 1500000;
  param large_transaction_cutoff "large_transaction_cutoff" 600;
  param intrinsic_gas_per_byte "intrinsic_gas_per_byte" 2000;
  param maximum_number_of_gas_units "maximum_number_of_gas_units" 2000000;
  param min_price_per_gas_unit "min_price_per_gas_unit" GAS_UNIT_PRICE;
  param max_price_per_gas_unit "max_price_per_gas_unit" 10000000000;
  param max_transaction_size_in_bytes "max_transaction_size_in_bytes" (64 * 1024);
  param gas_unit_scaling_factor "gas_unit_scaling_factor" 10000;
  param load_data_base "load_data.base" 16000;
  param load_data_per_byte "load_data.per_byte" 1000;
  param load_data_failure "load_data.failure" 0;
  param write_data_per_op "write_data.per_op" 160000;
  param write_data_per_new_item "write_data.new_item" 1280000;
  param write_data_per_byte_in_key "write_data.per_byte_in_key" 10000;
  param write_data_per_byte_in_val "write_data.per_byte_in_val" 10000;
  optional_param memory_quota "memory_quota" 10000000
].

End Txn.

(** The natives of [move_stdlib] *)
Definition move_stdlib_table : list (ParamEntry string) := [
  param "bcs.to_bytes.per_byte_serialized" "bcs.to_bytes.per_byte_serialized" (10 * MUL);
  param "bcs.to_bytes.failure" "bcs.to_bytes.failure" (1000 * MUL);
  param "hash.sha2_256.base" "hash.sha2_256.base" (3000 * MUL);
  param "hash.sha2_256.per_byte" "hash.sha2_256.per_byte" (50 * MUL);
  param "hash.sha3_256.base" "hash.sha3_256.base" (4000 * MUL);
  param "hash.sha3_256.per_byte" "hash.sha3_256.per_byte" (45 * MUL);
  param "signer.borrow_address.base" "signer.borrow_address.base" (200 * MUL);
  param "string.check_utf8.base" "string.check_utf8.base" (300 * MUL);
  param "string.check_utf8.per_byte" "string.check_utf8.per_byte" (8 * MUL);
  param "string.is_char_boundary.base" "string.is_char_boundary.base" (300 * MUL);
  param "string.sub_string.base" "string.sub_string.base" (400 * MUL);
  param "string.sub_string.per_byte" "string.sub_string.per_byte" (3 * MUL);
  param "string.index_of.base" "string.index_of.base" (400 * MUL);
  param "string.index_of.per_byte_pattern" "string.index_of.per_byte_pattern" (20 * MUL);
  param "string.index_of.per_byte_searched" "string.index_of.per_byte_searched" (10 * MUL);
  test_only_param "unit_test.create_signers_for_testing.base_cost" "unit_test.create_signers_for_testing.base" 1;
  test_only_param "unit_test.create_signers_for_testing.unit_cost" "unit_test.create_signers_for_testing.unit" 1
].

(** The natives of the framework *)
Definition aptos_framework_table : list (ParamEntry string) := [
  param "account.create_address.base" "account.create_address.base" (300 * MUL);
  param "account.create_signer.base" "account.create_signer.base" (300 * MUL);
  param "bls12381.base" "bls12381.base" (150 * MUL);
  param "bls12381.per_pubkey_deserialize" "bls12381.per_pubkey_deserialize" (109000 * MUL);
  param "bls12381.per_pubkey_aggregate" "bls12381.per_pubkey_aggregate" (4200 * MUL);
  param "bls12381.per_pubkey_subgroup_check" "bls12381.per_pubkey_subgroup_check" (370000 * MUL);
  param "bls12381.per_sig_deserialize" "bls12381.per_sig_deserialize" (222000 * MUL);
  param "bls12381.per_sig_aggregate" "bls12381.per_sig_aggregate" (11650 * MUL);
  param "bls12381.per_sig_subgroup_check" "bls12381.per_sig_subgroup_check" (460500 * MUL);
  param "bls12381.per_sig_verify" "bls12381.per_sig_verify" (8485000 * MUL);
  param "bls12381.per_pop_verify" "bls12381.per_pop_verify" (10300000 * MUL);
  param "bls12381.per_pairing" "bls12381.per_pairing" (4013000 * MUL);
  param "bls12381.per_msg_hashing" "bls12381.per_msg_hashing" (1540000 * MUL);
  param "bls12381.per_byte_hashing" "bls12381.per_byte_hashing" (50 * MUL);
  param "ed25519.base" "signature.base" (150 * MUL);
  param "ed25519.per_pubkey_deserialize" "signature.per_pubkey_deserialize" (38000 * MUL);
  param "ed25519.per_pubkey_small_order_check" "signature.per_pubkey_small_order_check" (6350 * MUL);
  param "ed25519.per_sig_deserialize" "signature.per_sig_deserialize" (375 * MUL);
  param "ed25519.per_sig_strict_verify" "signature.per_sig_strict_verify" (267000 * MUL);
  param "ed25519.per_msg_hashing_base" "signature.per_msg_hashing_base" (3240 * MUL);
  param "ed25519.per_msg_byte_hashing" "signature.per_msg_byte_hashing" (60 * MUL);
  param "secp256k1.base" "secp256k1.base" (150 * MUL);
  param "secp256k1.ecdsa_recover" "secp256k1.ecdsa_recover" (1610000 * MUL);
  param "ristretto255.basepoint_mul" "ristretto255.basepoint_mul" (128000 * MUL);
  param "ristretto255.basepoint_double_mul" "ristretto255.basepoint_double_mul" (440000 * MUL);
  param "ristretto255.point_add" "ristretto255.point_add" (2135 * MUL);
  param "ristretto255.point_compress" "ristretto255.point_compress" (40000 * MUL);
  param "ristretto255.point_decompress" "ristretto255.point_decompress" (40500 * MUL);
  param "ristretto255.point_equals" "ristretto255.point_equals" (2300 * MUL);
  param "ristretto255.point_from_64_uniform_bytes" "ristretto255.point_from_64_uniform_bytes" (81500 * MUL);
  param "ristretto255.point_identity" "ristretto255.point_identity" (150 * MUL);
  param "ristretto255.point_mul" "ristretto255.point_mul" (471000 * MUL);
  param "ristretto255.point_neg" "ristretto255.point_neg" (360 * MUL);
  param "ristretto255.point_sub" "ristretto255.point_sub" (2130 * MUL);
  param "ristretto255.point_parse_arg" "ristretto255.point_parse_arg" (150 * MUL);
  param "ristretto255.sha512_per_byte" "ristretto255.scalar_sha512_per_byte" (60 * MUL);
  param "ristretto255.sha512_per_hash" "ristretto255.scalar_sha512_per_hash" (3240 * MUL);
  param "ristretto255.scalar_add" "ristretto255.scalar_add" (770 * MUL);
  param "ristretto255.scalar_reduced_from_32_bytes" "ristretto255.scalar_reduced_from_32_bytes" (710 * MUL);
  param "ristretto255.scalar_uniform_from_64_bytes" "ristretto255.scalar_uniform_from_64_bytes" (1245 * MUL);
  param "ristretto255.scalar_from_u128" "ristretto255.scalar_from_u128" (175 * MUL);
  param "ristretto255.scalar_from_u64" "ristretto255.scalar_from_u64" (175 * MUL);
  param "ristretto255.scalar_invert" "ristretto255.scalar_invert" (110000 * MUL);
  param "ristretto255.scalar_is_canonical" "ristretto255.scalar_is_canonical" (1150 * MUL);
  param "ristretto255.scalar_mul" "ristretto255.scalar_mul" (1065 * MUL);
  param "ristretto255.scalar_neg" "ristretto255.scalar_neg" (725 * MUL);
  param "ristretto255.scalar_sub" "ristretto255.scalar_sub" (1060 * MUL);
  param "ristretto255.scalar_parse_arg" "ristretto255.scalar_parse_arg" (150 * MUL);
  param "hash.sip_hash.base" "hash.sip_hash.base" (1000 * MUL);
  param "hash.sip_hash.per_byte" "hash.sip_hash.per_byte" (20 * MUL);
  optional_param "hash.keccak256.base" "hash.keccak256.base" (4000 * MUL);
  optional_param "hash.keccak256.per_byte" "hash.keccak256.per_byte" (45 * MUL);
  param "type_info.type_of.base" "type_info.type_of.base" (300 * MUL);
  param "type_info.type_of.per_byte_in_str" "type_info.type_of.per_abstract_memory_unit" (5 * MUL);
  param "type_info.type_name.base" "type_info.type_name.base" (300 * MUL);
  param "type_info.type_name.per_byte_in_str" "type_info.type_name.per_abstract_memory_unit" (5 * MUL);
  param "util.from_bytes.base" "util.from_bytes.base" (300 * MUL);
  param "util.from_bytes.per_byte" "util.from_bytes.per_byte" (5 * MUL);
  param "transaction_context.get_script_hash.base" "transaction_context.get_script_hash.base" (200 * MUL);
  param "code.request_publish.base" "code.request_publish.base" (500 * MUL);
  param "code.request_publish.per_byte" "code.request_publish.per_byte" (2 * MUL);
  param "event.write_to_event_store.base" "event.write_to_event_store.base" 500000;
  param "event.write_to_event_store.per_abstract_value_unit" "event.write_to_event_store.per_abstract_memory_unit" 5000;
  param "state_storage.get_usage.base_cost" "state_storage.get_usage.base" (500 * MUL);
  param "aggregator.add.base" "aggregator.add.base" (300 * MUL);
  param "aggregator.read.base" "aggregator.read.base" (300 * MUL);
  param "aggregator.sub.base" "aggregator.sub.base" (300 * MUL);
  param "aggregator.destroy.base" "aggregator.destroy.base" (500 * MUL);
  param "aggregator_factory.new_aggregator.base" "aggregator_factory.new_aggregator.base" (500 * MUL)
].

(** The table extension *)
Definition table_extension_table : list (ParamEntry string) := [
  param "common.load_base" "common.load.base" 8000;
  param "common.load_per_byte" "common.load.per_byte" 1000;
  param "common.load_failure" "common.load.failure" 0;
  param "new_table_handle.base" "new_table_handle.base" (1000 * MUL);
  param "add_box.base" "add_box.base" (1200 * MUL);
  param "add_box.per_byte_serialized" "add_box.per_byte_serialized" (10 * MUL);
  param "borrow_box.base" "borrow_box.base" (1200 * MUL);
  param "borrow_box.per_byte_serialized" "borrow_box.per_byte_serialized" (10 * MUL);
  param "contains_box.base" "contains_box.base" (1200 * MUL);
  param "contains_box.per_byte_serialized" "contains_box.per_byte_serialized" (10 * MUL);
  param "remove_box.base" "remove_box.base" (1200 * MUL);
  param "remove_box.per_byte_serialized" "remove_box.per_byte_serialized" (10 * MUL);
  param "destroy_empty_box.base" "destroy_empty_box.base" (1200 * MUL);
  param "drop_unchecked_box.base" "drop_unchecked_box.base" (100 * MUL)
].

(** ** The structs and their conversions *)

(** The traits [FromOnChainGasSchedule], [ToOnChainGasSchedule] and [InitialGasSchedule]. *)
Class OnChainGasSchedule (P : Type) := {
  from_on_chain_gas_schedule : GasSchedule -> option P;
  to_on_chain_gas_schedule : P -> list (string * Z);
  initial : P;
}.

Definition InstructionGasParameters : Type := Instr.field -> Z.
Definition AbstractValueSizeGasParameters : Type := AbsVal.field -> Z.
Definition TransactionGasParameters : Type := Txn.field -> Z.

#[export] Instance instr_schedule : OnChainGasSchedule InstructionGasParameters := {
  from_on_chain_gas_schedule := from_entries "instr" Instr.table;
  to_on_chain_gas_schedule := to_entries "instr" Instr.table;
  initial := initial_params Instr.table;
}.
#[export] Instance abs_val_schedule : OnChainGasSchedule AbstractValueSizeGasParameters := {
  from_on_chain_gas_schedule := from_entries "misc.abs_val" AbsVal.table;
  to_on_chain_gas_schedule := to_entries "misc.abs_val" AbsVal.table;
  initial := initial_params AbsVal.table;
}.

Record MiscGasParameters := { abs_val : AbstractValueSizeGasParameters }.

#[export] Instance misc_schedule : OnChainGasSchedule MiscGasParameters := {
  from_on_chain_gas_schedule gas_schedule :=
    abs_val ← from_on_chain_gas_schedule gas_schedule; Some {| abs_val := abs_val |};
  to_on_chain_gas_schedule p := to_on_chain_gas_schedule (abs_val p);
  initial := {| abs_val := initial |};
}.

(** The native structs, with the fields their tables map. *)
Record NativeGasParameters := {
  move_stdlib : string -> Z;
  aptos_framework : string -> Z;
  table : string -> Z;
}.

Record AptosGasParameters := {
  misc : MiscGasParameters;
  instr : InstructionGasParameters;
  txn : TransactionGasParameters;
  natives : NativeGasParameters;
}.

Section Structs.
Context (GAS_UNIT_PRICE : Z) (testing : bool).

#[export] Instance txn_schedule : OnChainGasSchedule TransactionGasParameters := {
  from_on_chain_gas_schedule := from_entries "txn" (Txn.table GAS_UNIT_PRICE);
  to_on_chain_gas_schedule := to_entries "txn" (Txn.table GAS_UNIT_PRICE);
  initial := initial_params (Txn.table GAS_UNIT_PRICE);
}.

#[export] Instance natives_schedule : OnChainGasSchedule NativeGasParameters := {
  from_on_chain_gas_schedule gas_schedule :=
    move_stdlib ← from_entries "move_stdlib" (compiled testing move_stdlib_table) gas_schedule;
    aptos_framework ←
      from_entries "aptos_framework" (compiled testing aptos_framework_table) gas_schedule;
    table ← from_entries "table" (compiled testing table_extension_table) gas_schedule;
    Some {| move_stdlib := move_stdlib; aptos_framework := aptos_framework; table := table |};
  to_on_chain_gas_schedule p :=
    (to_entries "move_stdlib" (compiled testing move_stdlib_table) (move_stdlib p)
     ++ to_entries "aptos_framework" (compiled testing aptos_framework_table) (aptos_framework p)
     ++ to_entries "table" (compiled testing table_extension_table) (table p))%list;
  initial := {| move_stdlib := initial_params (compiled testing move_stdlib_table);
                aptos_framework := initial_params (compiled testing aptos_framework_table);
                table := initial_params (compiled testing table_extension_table) |};
}.

#[export] Instance aptos_schedule : OnChainGasSchedule AptosGasParameters := {
  from_on_chain_gas_schedule gas_schedule :=
    misc ← from_on_chain_gas_schedule gas_schedule;
    instr ← from_on_chain_gas_schedule gas_schedule;
    txn ← from_on_chain_gas_schedule gas_schedule;
    natives ← from_on_chain_gas_schedule gas_schedule;
    Some {| misc := misc; instr := instr; txn := txn; natives := natives |};
  to_on_chain_gas_schedule p :=
    (to_on_chain_gas_schedule (instr p) ++ to_on_chain_gas_schedule (txn p)
     ++ to_on_chain_gas_schedule (natives p) ++ to_on_chain_gas_schedule (misc p))%list;
  initial := {| misc := initial; instr := initial; txn := initial; natives := initial |};
}.
End Structs.

(** ** Lemmas on the macros *)

Section MacroLemmas.
Context {F : Type} `{EqDecision F}.
Implicit Types (t : list (ParamEntry F)) (p q : F -> Z) (m : GasSchedule).

Definition present prefix m (e : ParamEntry F) : Prop :=
  p_optional e = true \/ is_Some (m !! full_key prefix e).

(** What a table reads: it fails exactly when a required key is missing, and each of its
    fields gets the value on chain, or keeps its value when that is missing. *)
Lemma expand_gets_spec prefix m t : forall p,
  NoDup (p_field <$> t) ->
  match expand_gets prefix m t p with
  | Some q =>
      (forall e, e ∈ t -> present prefix m e) /\
      (forall e, e ∈ t -> q (p_field e) = default (p (p_field e)) (m !! full_key prefix e)) /\
      (forall f, f ∉ p_field <$> t -> q f = p f)
  | None => exists e, e ∈ t /\ ~ present prefix m e
  end.
Proof.
  induction t as [|e t IH]; intros p Hnd.
  { simpl. split; [|split]; [by intros e []%elem_of_nil|by intros e []%elem_of_nil|done]. }
  rewrite fmap_cons in Hnd. apply NoDup_cons in Hnd as [Hni Hnd].
  cbn [expand_gets]. unfold expand_get, present in *.
  destruct (m !! full_key prefix e) as [v|] eqn:He; [|destruct (p_optional e) eqn:Ho].
  - cbn [mbind option_bind]. specialize (IH (set_param (p_field e) v p) Hnd).
    destruct (expand_gets prefix m t (set_param (p_field e) v p)) as [q|].
    2: { destruct IH as (e' & Hin & Hp). exists e'. split; [by right|done]. }
    destruct IH as (Hpre & Hval & Hout). split; [|split].
    + intros e' [->|Hin]%elem_of_cons; [right; by rewrite He|auto].
    + intros e' [->|Hin]%elem_of_cons.
      * rewrite Hout by done. rewrite He. simpl. unfold set_param. by rewrite decide_True.
      * rewrite (Hval _ Hin). f_equal. unfold set_param. rewrite decide_False; [done|].
        intros Heq. apply Hni. rewrite <- Heq. by apply list_elem_of_fmap_2.
    + intros f Hf. rewrite fmap_cons in Hf. apply not_elem_of_cons in Hf as [Hne Hf].
      rewrite Hout by done. unfold set_param. by rewrite decide_False.
  - cbn [mbind option_bind]. specialize (IH p Hnd).
    destruct (expand_gets prefix m t p) as [q|].
    2: { destruct IH as (e' & Hin & Hp). exists e'. split; [by right|done]. }
    destruct IH as (Hpre & Hval & Hout). split; [|split].
    + intros e' [->|Hin]%elem_of_cons; auto.
    + intros e' [->|Hin]%elem_of_cons; [|auto]. rewrite Hout by done. by rewrite He.
    + intros f Hf. rewrite fmap_cons in Hf. apply not_elem_of_cons in Hf as [_ Hf]. auto.
  - exists e. split; [left|]. rewrite Ho, He. intros [?|[? ?]]; done.
Qed.

(** A schedule that carries the entries of a struct is read back as that struct. *)
Definition carries m (l : list (string * Z)) : Prop := forall k v, (k, v) ∈ l -> m !! k = Some v.

Definition same_on t p q : Prop := forall e, e ∈ t -> q (p_field e) = p (p_field e).

Lemma from_to_entries prefix t p m :
  NoDup (p_field <$> t) -> carries m (to_entries prefix t p) ->
  exists q, from_entries prefix t m = Some q /\ same_on t p q.
Proof.
  intros Hnd Hc. pose proof (expand_gets_spec prefix m t zeros Hnd) as Hs.
  assert (Hk : forall e, e ∈ t -> m !! full_key prefix e = Some (p (p_field e))).
  { intros e He. apply Hc. apply list_elem_of_fmap. by exists e. }
  unfold from_entries. destruct (expand_gets prefix m t zeros) as [q|].
  - exists q. split; [done|]. intros e He. destruct Hs as (_ & Hv & _).
    rewrite (Hv e He), (Hk e He). done.
  - destruct Hs as (e & He & Hp). exfalso. apply Hp. right. rewrite (Hk e He). done.
Qed.

Lemma to_entries_keys prefix t p : (to_entries prefix t p).*1 = full_key prefix <$> t.
Proof. unfold to_entries. rewrite <- list_fmap_compose. done. Qed.
End MacroLemmas.

Lemma carries_list_to_map (l : list (string * Z)) :
  NoDup l.*1 -> carries (list_to_map l) l.
Proof. intros Hnd k v Hin. by apply elem_of_list_to_map_1. Qed.

Lemma carries_app (m : GasSchedule) l1 l2 : carries m (l1 ++ l2)%list <-> carries m l1 /\ carries m l2.
Proof.
  unfold carries. split.
  - intros Hc. split; intros k v Hin; apply Hc, elem_of_app; auto.
  - intros [Hc1 Hc2] k v [Hin|Hin]%elem_of_app; auto.
Qed.

(** The fields of each table, and all the keys, are distinct. *)
Ltac distinct := apply (bool_decide_unpack _); vm_compute; reflexivity.

Lemma instr_fields_NoDup : NoDup (p_field <$> Instr.table).
Proof. distinct. Qed.
Lemma abs_val_fields_NoDup : NoDup (p_field <$> AbsVal.table).
Proof. distinct. Qed.
Lemma txn_fields_NoDup price : NoDup (p_field <$> Txn.table price).
Proof. distinct. Qed.
Lemma native_fields_NoDup testing :
  NoDup (p_field <$> compiled testing move_stdlib_table) /\
  NoDup (p_field <$> compiled testing aptos_framework_table) /\
  NoDup (p_field <$> compiled testing table_extension_table).
Proof. destruct testing; (split; [distinct|split; distinct]). Qed.

Definition all_keys (price : Z) (testing : bool) : list string :=
  ((full_key "instr" <$> Instr.table) ++ (full_key "txn" <$> Txn.table price)
   ++ ((full_key "move_stdlib" <$> compiled testing move_stdlib_table)
       ++ (full_key "aptos_framework" <$> compiled testing aptos_framework_table)
       ++ (full_key "table" <$> compiled testing table_extension_table))
   ++ (full_key "misc.abs_val" <$> AbsVal.table))%list.

Lemma all_keys_NoDup price testing : NoDup (all_keys price testing).
Proof. destruct testing; distinct. Qed.

Lemma aptos_keys price testing (p : AptosGasParameters) :
  (to_on_chain_gas_schedule (OnChainGasSchedule := aptos_schedule price testing) p).*1
  = all_keys price testing.
Proof.
  unfold all_keys. cbn [to_on_chain_gas_schedule aptos_schedule instr_schedule txn_schedule
    natives_schedule misc_schedule abs_val_schedule].
  rewrite !fmap_app, !to_entries_keys. done.
Qed.

(** Two structs with the same value in every mapped field. *)
Definition same_parameters (price : Z) (testing : bool) (p q : AptosGasParameters) : Prop :=
  same_on Instr.table (instr p) (instr q) /\ same_on (Txn.table price) (txn p) (txn q) /\
  same_on AbsVal.table (abs_val (misc p)) (abs_val (misc q)) /\
  same_on (compiled testing move_stdlib_table)
    (move_stdlib (natives p)) (move_stdlib (natives q)) /\
  same_on (compiled testing aptos_framework_table)
    (aptos_framework (natives p)) (aptos_framework (natives q)) /\
  same_on (compiled testing table_extension_table) (table (natives p)) (table (natives q)).

Lemma aptos_roundtrip price testing (p : AptosGasParameters) (m : GasSchedule) :
  carries m (to_on_chain_gas_schedule (OnChainGasSchedule := aptos_schedule price testing) p) ->
  exists q, from_on_chain_gas_schedule (OnChainGasSchedule := aptos_schedule price testing) m = Some q
    /\ same_parameters price testing p q.
Proof.
  cbn [to_on_chain_gas_schedule from_on_chain_gas_schedule aptos_schedule instr_schedule
    txn_schedule natives_schedule misc_schedule abs_val_schedule].
  rewrite !carries_app. intros (Hi & Ht & (Hs & Hf & Hx) & Ha).
  destruct (native_fields_NoDup testing) as (Hns & Hnf & Hnx).
  destruct (from_to_entries _ _ _ _ abs_val_fields_NoDup Ha) as (qa & -> & ?).
  destruct (from_to_entries _ _ _ _ instr_fields_NoDup Hi) as (qi & -> & ?).
  destruct (from_to_entries _ _ _ _ (txn_fields_NoDup price) Ht) as (qt & -> & ?).
  destruct (from_to_entries _ _ _ _ Hns Hs) as (qs & -> & ?).
  destruct (from_to_entries _ _ _ _ Hnf Hf) as (qf & -> & ?).
  destruct (from_to_entries _ _ _ _ Hnx Hx) as (qx & -> & ?).
  cbn [mbind option_bind]. eexists. split; [reflexivity|].
  unfold same_parameters; cbn [misc instr txn natives abs_val move_stdlib aptos_framework table].
  tauto.
Qed.

(** ** Properties *)

(** C35. The gas schedule round-trips: the parameters written to the chain are read back with
    the same value in every mapped field, whatever else the schedule on chain holds, so long
    as it holds what was written; in particular the list that is written has no repeated key,
    so collecting it in a map loses nothing. *)
Theorem gas_schedule_roundtrip (price : Z) (testing : bool) (p : AptosGasParameters)
  (extra : GasSchedule) :
  let written := to_on_chain_gas_schedule (OnChainGasSchedule := aptos_schedule price testing) p in
  NoDup written.*1 /\
  exists q, from_on_chain_gas_schedule (OnChainGasSchedule := aptos_schedule price testing)
              (list_to_map written ∪ extra) = Some q
    /\ same_parameters price testing p q.
Proof.
  cbv zeta. rewrite aptos_keys. split; [apply all_keys_NoDup|].
  apply aptos_roundtrip. intros k v Hin. apply lookup_union_Some_l.
  apply carries_list_to_map; [|done]. rewrite aptos_keys. apply all_keys_NoDup.
Qed.

(** Reading the transaction parameters fails exactly when a required key is missing, and
    otherwise gives each field the value on chain; the one optional field, the memory quota,
    is zero when it is missing. *)
Theorem transaction_parameters_exact (price : Z) (m : GasSchedule) :
  match from_on_chain_gas_schedule (OnChainGasSchedule := txn_schedule price) m with
  | Some q =>
      (forall e, e ∈ Txn.table price ->
         q (p_field e) = default 0 (m !! ("txn." ++ p_key e)%string)) /\
      (forall e, e ∈ Txn.table price -> p_field e <> Txn.memory_quota ->
         is_Some (m !! ("txn." ++ p_key e)%string))
  | None =>
      exists e, e ∈ Txn.table price /\ p_field e <> Txn.memory_quota /\
        m !! ("txn." ++ p_key e)%string = None
  end.
Proof.
  pose proof (expand_gets_spec "txn" m (Txn.table price) zeros (txn_fields_NoDup price)) as Hs.
  assert (Hopt : forall e, e ∈ Txn.table price -> p_optional e = true <-> p_field e = Txn.memory_quota).
  { intros e He. unfold Txn.table in He.
    repeat (apply elem_of_cons in He as [->|He]; [split; done|]). by apply elem_of_nil in He. }
  cbn [from_on_chain_gas_schedule txn_schedule]. unfold from_entries.
  destruct (expand_gets "txn" m (Txn.table price) zeros) as [q|].
  - destruct Hs as (Hp & Hv & _). split; [exact Hv|]. intros e He Hne.
    destruct (Hp e He) as [Ho|?]; [|done]. by apply Hopt in Ho.
  - destruct Hs as (e & He & Hp). exists e. split; [done|]. unfold present in Hp. split.
    + intros Hf. apply Hp. left. by apply Hopt.
    + destruct (m !! ("txn." ++ p_key e)%string) eqn:Hm; [|done].
      exfalso. apply Hp. right. unfold full_key. exists z. exact Hm.
Qed.
