(* ===== verification/GasSize.v ===== *)
(** * Abstract value sizes ([aptos-gas/src/misc.rs], [algebra.rs])

    The memory footprint of a value, computed by visitors.  Gas quantities are [u64]s whose
    operations come from [move_core_types::gas_algebra], outside of this repository: they are
    the class [GasAlgebra], whose laws are the documented saturation.  So is the traversal of a
    value by [ValueView::visit]: the class [ValueView], whose law is that the visitor is driven
    over some tree of the kinds of nodes it has methods for. *)
From S2P Require Import Prelude GasSchedule.

#[local] Open Scope Z_scope.

(** ** Gas quantities *)

(** [Add], [AddAssign] and [Mul] of [GasQuantity], and its conversions. *)
Class GasAlgebra := {
  gas_add : Z -> Z -> Z;
  gas_mul : Z -> Z -> Z;
  checked_sub : Z -> Z -> option Z;
  to_unit : Z -> Z -> Z;
  to_unit_round_down : Z -> Z * Z -> Z;
  to_unit_round_up : Z -> Z * Z -> Z;
}.

Definition U64_MAX : Z := U64 - 1.

(** Saturation: an operation gives the exact result, or the largest [u64]. *)
Class GasAlgebraLaws `{GasAlgebra} : Prop := {
  gas_add_spec a b : is_u64 a -> is_u64 b -> gas_add a b = Z.min (a + b) U64_MAX;
  gas_mul_spec a b : is_u64 a -> is_u64 b -> gas_mul a b = Z.min (a * b) U64_MAX;
  checked_sub_spec a b : is_u64 a -> is_u64 b ->
    checked_sub a b = if bool_decide (b <= a) then Some (a - b) else None;
  to_unit_spec a multiplier : is_u64 a -> is_u64 multiplier ->
    to_unit a multiplier = Z.min (a * multiplier) U64_MAX;
  to_unit_round_down_spec a nominator denominator :
    is_u64 a -> is_u64 nominator -> is_u64 denominator -> 0 < denominator ->
    to_unit_round_down a (nominator, denominator) = Z.min (a * nominator / denominator) U64_MAX;
  to_unit_round_up_spec a nominator denominator :
    is_u64 a -> is_u64 nominator -> is_u64 denominator -> 0 < denominator ->
    to_unit_round_up a (nominator, denominator) =
      Z.min ((a * nominator + denominator - 1) / denominator) U64_MAX;
}.

Declare Scope gas_scope.
Delimit Scope gas_scope with gas.
Arguments gas_add {_} (_ _)%_gas_scope.
Arguments gas_mul {_} (_ _)%_gas_scope.
Notation "a + b" := (gas_add a b) : gas_scope.
Notation "a * b" := (gas_mul a b) : gas_scope.

Module Saturating.
Definition sat (z : Z) : Z := Z.min z U64_MAX.

#[export] Instance saturating : GasAlgebra := {|
  gas_add a b := sat (Z.add a b);
  gas_mul a b := sat (Z.mul a b);
  checked_sub a b := if bool_decide (b <= a) then Some (Z.sub a b) else None;
  to_unit a multiplier := sat (Z.mul a multiplier);
  to_unit_round_down a ratio := sat (Z.div (Z.mul a ratio.1) ratio.2);
  to_unit_round_up a ratio := sat (Z.div (Z.sub (Z.add (Z.mul a ratio.1) ratio.2) 1) ratio.2);
|}.

#[export] Instance saturating_laws : GasAlgebraLaws.
Proof. split; done. Qed.
End Saturating.

(** [NumArgs::new(len as u64)] *)
Definition num_args (len : nat) : Z := Z.of_nat len mod U64.

(** ** Visitors *)

(** [trait ValueVisitor]: [visit_struct], [visit_vec] and [visit_ref] say whether to go inside.
    A vector of primitive values is visited at once, by its length. *)
Record ValueVisitor (S : Type) := {
  visit_u8 : nat -> S -> comp Empty_set S;
  visit_u64 : nat -> S -> comp Empty_set S;
  visit_u128 : nat -> S -> comp Empty_set S;
  visit_bool : nat -> S -> comp Empty_set S;
  visit_address : nat -> S -> comp Empty_set S;
  visit_struct : nat -> nat -> S -> comp Empty_set (bool * S);
  visit_vec : nat -> nat -> S -> comp Empty_set (bool * S);
  visit_ref : nat -> bool -> S -> comp Empty_set (bool * S);
  visit_vec_u8 : nat -> nat -> S -> comp Empty_set S;
  visit_vec_u64 : nat -> nat -> S -> comp Empty_set S;
  visit_vec_u128 : nat -> nat -> S -> comp Empty_set S;
  visit_vec_bool : nat -> nat -> S -> comp Empty_set S;
  visit_vec_address : nat -> nat -> S -> comp Empty_set S;
}.
Arguments visit_u8 {S} _.
Arguments visit_u64 {S} _.
Arguments visit_u128 {S} _.
Arguments visit_bool {S} _.
Arguments visit_address {S} _.
Arguments visit_struct {S} _.
Arguments visit_vec {S} _.
Arguments visit_ref {S} _.
Arguments visit_vec_u8 {S} _.
Arguments visit_vec_u64 {S} _.
Arguments visit_vec_u128 {S} _.
Arguments visit_vec_bool {S} _.
Arguments visit_vec_address {S} _.

(** [trait ValueView] *)
Class ValueView (V : Type) := visit : forall S : Type, ValueVisitor S -> V -> S -> comp Empty_set S.
Arguments visit {V _ S} vis v s.

(** The kinds of primitive values, and the trees that are visited. *)
Inductive Prim := PU8 | PU64 | PU128 | PBool | PAddress.

#[warnings="-register-all"]
Inductive Shape :=
  | SPrim (p : Prim)
  | SStruct (fields : list Shape)
  | SVec (elems : list Shape)
  | SPrimVec (p : Prim) (len : nat)
  | SRef (is_global : bool) (target : Shape).

Definition visit_prim {S} (vis : ValueVisitor S) (p : Prim) : nat -> S -> comp Empty_set S :=
  match p with
  | PU8 => visit_u8 vis | PU64 => visit_u64 vis | PU128 => visit_u128 vis
  | PBool => visit_bool vis | PAddress => visit_address vis
  end.
Definition visit_prim_vec {S} (vis : ValueVisitor S) (p : Prim)
  : nat -> nat -> S -> comp Empty_set S :=
  match p with
  | PU8 => visit_vec_u8 vis | PU64 => visit_vec_u64 vis | PU128 => visit_vec_u128 vis
  | PBool => visit_vec_bool vis | PAddress => visit_vec_address vis
  end.

(** The traversal of a tree, each level one deeper. *)
Fixpoint traverse {S} (vis : ValueVisitor S) (t : Shape) (depth : nat) (s : S)
  : comp Empty_set S :=
  let traverse_all :=
    fix traverse_all (l : list Shape) (s : S) : comp Empty_set S :=
      match l with
      | [] => Return s
      | t :: l => s ← traverse vis t (Datatypes.S depth) s; traverse_all l s
      end in
  match t with
  | SPrim p => visit_prim vis p depth s
  | SPrimVec p len => visit_prim_vec vis p depth len s
  | SStruct fields =>
      r ← visit_struct vis depth (length fields) s;
      if r.1 : bool then traverse_all fields r.2 else Return r.2
  | SVec elems =>
      r ← visit_vec vis depth (length elems) s;
      if r.1 : bool then traverse_all elems r.2 else Return r.2
  | SRef is_global target =>
      r ← visit_ref vis depth is_global s;
      if r.1 : bool then traverse vis target (Datatypes.S depth) r.2 else Return r.2
  end.

Class ValueViewLaws (V : Type) `{ValueView V} := {
  shape : V -> Shape;
  visit_spec S (vis : ValueVisitor S) v s : visit vis v s = traverse vis (shape v) 0 s;
}.

#[export] Instance shape_view : ValueView Shape := fun S vis t s => traverse vis t 0 s.
#[export] Instance shape_view_laws : ValueViewLaws Shape.
Proof. refine {| shape t := t |}. done. Defined.

(** ** The visitors of [misc.rs] *)

Section Visitors.
Context `{GasAlgebra} (params : AbstractValueSizeGasParameters) (feature_version : Z).

Definition per_packed (p : Prim) : AbsVal.field :=
  match p with
  | PU8 => AbsVal.per_u8_packed | PU64 => AbsVal.per_u64_packed
  | PU128 => AbsVal.per_u128_packed | PBool => AbsVal.per_bool_packed
  | PAddress => AbsVal.per_address_packed
  end.

(** [self.size += ..] *)
Definition add_size (field : AbsVal.field) (size : Z) : comp Empty_set Z :=
  Return (size + params field)%gas.

(** The body of [visit_vec_u8] and its like. *)
Definition add_vec_size (per : AbsVal.field) (len : nat) (self_size : Z) : comp Empty_set Z :=
  let size := (params per * num_args len)%gas in
  let size := if 3 <=? feature_version then (size + params AbsVal.vector)%gas else size in
  Return (self_size + size)%gas.

(** [impl ValueVisitor for AbstractValueSizeVisitor] *)
Definition AbstractValueSizeVisitor : ValueVisitor Z := {|
  visit_u8 _ := add_size AbsVal.u8;
  visit_u64 _ := add_size AbsVal.u64;
  visit_u128 _ := add_size AbsVal.u128;
  visit_bool _ := add_size AbsVal.bool;
  visit_address _ := add_size AbsVal.address;
  visit_struct _ _ size := size ← add_size AbsVal.struct_ size; Return (true, size);
  visit_vec _ _ size := size ← add_size AbsVal.vector size; Return (true, size);
  visit_vec_u8 _ := add_vec_size AbsVal.per_u8_packed;
  visit_vec_u64 _ := add_vec_size AbsVal.per_u64_packed;
  visit_vec_u128 _ := add_vec_size AbsVal.per_u128_packed;
  visit_vec_bool _ := add_vec_size AbsVal.per_bool_packed;
  visit_vec_address _ := add_vec_size AbsVal.per_address_packed;
  visit_ref _ _ size := size ← add_size AbsVal.reference size; Return (false, size);
|}.

(** The local [Visitor] of [abstract_stack_size]: it records the size of the root only. *)
Definition set_res (field : AbsVal.field) (_ : option Z) : comp Empty_set (option Z) :=
  Return (Some (params field)).
Definition set_vec_res (_ : option Z) : comp Empty_set (option Z) :=
  Return (Some (if feature_version <? 3 then 0 else params AbsVal.vector)).

Definition StackSizeVisitor : ValueVisitor (option Z) := {|
  visit_u8 _ := set_res AbsVal.u8;
  visit_u64 _ := set_res AbsVal.u64;
  visit_u128 _ := set_res AbsVal.u128;
  visit_bool _ := set_res AbsVal.bool;
  visit_address _ := set_res AbsVal.address;
  visit_struct _ _ res := res ← set_res AbsVal.struct_ res; Return (false, res);
  visit_vec _ _ res := res ← set_res AbsVal.vector res; Return (false, res);
  visit_ref _ _ res := res ← set_res AbsVal.reference res; Return (false, res);
  visit_vec_u8 _ _ := set_vec_res;
  visit_vec_u64 _ _ := set_vec_res;
  visit_vec_u128 _ _ := set_vec_res;
  visit_vec_bool _ _ := set_vec_res;
  visit_vec_address _ _ := set_vec_res;
|}.

(** The local [Visitor] of [abstract_packed_size]: the size of the root inside a vector. *)
Definition set_packed_res (p : Prim) (_ : option Z) : comp Empty_set (option Z) :=
  Return (Some (params (per_packed p) * 1)%gas).

Definition PackedSizeVisitor : ValueVisitor (option Z) := {|
  visit_u8 _ := set_packed_res PU8;
  visit_u64 _ := set_packed_res PU64;
  visit_u128 _ := set_packed_res PU128;
  visit_bool _ := set_packed_res PBool;
  visit_address _ := set_packed_res PAddress;
  visit_struct _ _ res := res ← set_res AbsVal.struct_ res; Return (false, res);
  visit_vec _ _ res := res ← set_res AbsVal.vector res; Return (false, res);
  visit_ref _ _ res := res ← set_res AbsVal.reference res; Return (false, res);
  visit_vec_u8 _ _ := set_res AbsVal.vector;
  visit_vec_u64 _ _ := set_res AbsVal.vector;
  visit_vec_u128 _ _ := set_res AbsVal.vector;
  visit_vec_bool _ _ := set_res AbsVal.vector;
  visit_vec_address _ _ := set_res AbsVal.vector;
|}.
End Visitors.

(** [DerefVisitor]: the inner visitor, and the offset of the depths.  [depth - self.offset]
    panics when it underflows. *)
Section Deref.
Context {S : Type} (inner : ValueVisitor S).

Definition delegate {A B} (visit : nat -> S -> comp Empty_set A) (pack : A -> nat -> B)
  (depth : nat) (self : S * nat) : comp Empty_set B :=
  if (self.2 <=? depth)%nat
  then a ← visit (depth - self.2)%nat self.1; Return (pack a self.2)
  else Panic.
Definition delegate_simple (visit : nat -> S -> comp Empty_set S) :=
  delegate visit (fun s offset => (s, offset)).
Definition delegate_vec (visit : nat -> nat -> S -> comp Empty_set S) (depth len : nat) :=
  delegate_simple (fun depth => visit depth len) depth.
Definition delegate_inside (visit : nat -> nat -> S -> comp Empty_set (bool * S)) (depth len : nat) :=
  delegate (fun depth => visit depth len) (fun r offset => (r.1, (r.2, offset))) depth.

Definition DerefVisitor : ValueVisitor (S * nat) := {|
  visit_u8 := delegate_simple (visit_u8 inner);
  visit_u64 := delegate_simple (visit_u64 inner);
  visit_u128 := delegate_simple (visit_u128 inner);
  visit_bool := delegate_simple (visit_bool inner);
  visit_address := delegate_simple (visit_address inner);
  visit_vec_u8 := delegate_vec (visit_vec_u8 inner);
  visit_vec_u64 := delegate_vec (visit_vec_u64 inner);
  visit_vec_u128 := delegate_vec (visit_vec_u128 inner);
  visit_vec_bool := delegate_vec (visit_vec_bool inner);
  visit_vec_address := delegate_vec (visit_vec_address inner);
  visit_struct := delegate_inside (visit_struct inner);
  visit_vec := delegate_inside (visit_vec inner);
  visit_ref depth _is_global self :=
    if (depth =? 0)%nat then Return (true, (self.1, 1%nat)) else Panic (* assert_eq! *);
|}.
End Deref.

(** ** The sizes *)

Section Sizes.
Context `{GasAlgebra} {V : Type} `{ValueView V}.
Implicit Types (params : AbstractValueSizeGasParameters) (val : V) (feature_version : Z).

Definition abstract_value_size params val feature_version : comp Empty_set Z :=
  visit (AbstractValueSizeVisitor params feature_version) val 0.

Definition abstract_value_size_dereferenced params val feature_version : comp Empty_set Z :=
  visitor ← visit (DerefVisitor (AbstractValueSizeVisitor params feature_version)) val (0, 0%nat);
  Return visitor.1.

Definition abstract_stack_size params val feature_version : comp Empty_set Z :=
  res ← visit (StackSizeVisitor params feature_version) val None;
  expect res.

Definition abstract_packed_size params val : comp Empty_set Z :=
  res ← visit (PackedSizeVisitor params) val None;
  expect res.

Definition abstract_value_size_stack_and_heap params val feature_version
  : comp Empty_set (Z * Z) :=
  stack_size ← abstract_stack_size params val feature_version;
  abs_size ← abstract_value_size params val feature_version;
  Return (stack_size, default 0 (checked_sub abs_size stack_size)).

Definition abstract_heap_size params val feature_version : comp Empty_set Z :=
  stack_size ← abstract_stack_size params val feature_version;
  abs_size ← abstract_value_size params val feature_version;
  Return (default 0 (checked_sub abs_size stack_size)).
End Sizes.

(** ** What the visitors compute *)

Section ShapeInd.
Context (P : Shape -> Prop).
Context (HPrim : forall p, P (SPrim p)) (HPrimVec : forall p len, P (SPrimVec p len)).
Context (HStruct : forall fields, Forall P fields -> P (SStruct fields)).
Context (HVec : forall elems, Forall P elems -> P (SVec elems)).
Context (HRef : forall g t, P t -> P (SRef g t)).

Fixpoint shape_ind' (t : Shape) : P t :=
  let all := fix all (l : list Shape) : Forall P l :=
    match l with
    | [] => Forall_nil_2 P
    | t :: l => Forall_cons_2 P t l (shape_ind' t) (all l)
    end in
  match t with
  | SPrim p => HPrim p
  | SPrimVec p len => HPrimVec p len
  | SStruct fields => HStruct fields (all fields)
  | SVec elems => HVec elems (all elems)
  | SRef g t => HRef g t (shape_ind' t)
  end.
End ShapeInd.

(** The children of a node, one level deeper. *)
Fixpoint traverse_all {S} (vis : ValueVisitor S) (l : list Shape) (depth : nat) (s : S)
  : comp Empty_set S :=
  match l with
  | [] => Return s
  | t :: l => s ← traverse vis t depth s; traverse_all vis l depth s
  end.

Lemma traverse_struct {S} (vis : ValueVisitor S) fields depth s :
  traverse vis (SStruct fields) depth s =
    (r ← visit_struct vis depth (length fields) s;
     if r.1 : bool then traverse_all vis fields (Datatypes.S depth) r.2 else Return r.2).
Proof.
  simpl. destruct (visit_struct vis depth (length fields) s) as [[[] s']| |]; simpl; try done.
  revert s'. induction fields as [|t l IH]; intros s'; simpl; [done|].
  destruct (traverse vis t (Datatypes.S depth) s'); simpl; [apply IH|done|done].
Qed.

Lemma traverse_vec {S} (vis : ValueVisitor S) elems depth s :
  traverse vis (SVec elems) depth s =
    (r ← visit_vec vis depth (length elems) s;
     if r.1 : bool then traverse_all vis elems (Datatypes.S depth) r.2 else Return r.2).
Proof.
  simpl. destruct (visit_vec vis depth (length elems) s) as [[[] s']| |]; simpl; try done.
  revert s'. induction elems as [|t l IH]; intros s'; simpl; [done|].
  destruct (traverse vis t (Datatypes.S depth) s'); simpl; [apply IH|done|done].
Qed.

Definition prim_field (p : Prim) : AbsVal.field :=
  match p with
  | PU8 => AbsVal.u8 | PU64 => AbsVal.u64 | PU128 => AbsVal.u128
  | PBool => AbsVal.bool | PAddress => AbsVal.address
  end.

(** The size of a tree as an integer, what is behind a reference left out. *)
Fixpoint shape_size (params : AbstractValueSizeGasParameters) (feature_version : Z) (t : Shape) : Z :=
  let all := foldr (fun t n => shape_size params feature_version t + n) 0 in
  match t with
  | SPrim p => params (prim_field p)
  | SPrimVec p len =>
      params (per_packed p) * Z.of_nat len
      + (if 3 <=? feature_version then params AbsVal.vector else 0)
  | SStruct fields => params AbsVal.struct_ + all fields
  | SVec elems => params AbsVal.vector + all elems
  | SRef _ _ => params AbsVal.reference
  end.

(** The part of the root. *)
Definition root_size (params : AbstractValueSizeGasParameters) (feature_version : Z) (t : Shape) : Z :=
  match t with
  | SPrim p => params (prim_field p)
  | SPrimVec _ _ => if feature_version <? 3 then 0 else params AbsVal.vector
  | SStruct _ => params AbsVal.struct_
  | SVec _ => params AbsVal.vector
  | SRef _ _ => params AbsVal.reference
  end.

Definition packed_size (params : AbstractValueSizeGasParameters) (t : Shape) : Z :=
  match t with
  | SPrim p => params (per_packed p)
  | SPrimVec _ _ | SVec _ => params AbsVal.vector
  | SStruct _ => params AbsVal.struct_
  | SRef _ _ => params AbsVal.reference
  end.

(** Lengths are [u64]s, and there is no reference inside a value. *)
Fixpoint shape_ok (t : Shape) : Prop :=
  let all := foldr (fun t P => shape_ok t /\ P) True in
  match t with
  | SPrim _ => True
  | SPrimVec _ len => is_u64 (Z.of_nat len)
  | SStruct fields => all fields
  | SVec elems => all elems
  | SRef _ _ => False
  end.

(** A value, or a reference to one. *)
Definition value_ok (t : Shape) : Prop :=
  match t with SRef _ t => shape_ok t | _ => shape_ok t end.

Section SizeSpec.
Context `{GasAlgebra, !GasAlgebraLaws} {V : Type} `{!ValueView V, !ValueViewLaws V}.
Context (params : AbstractValueSizeGasParameters) (feature_version : Z).
Context (params_u64 : forall f, is_u64 (params f)).

Abbreviation sat := Saturating.sat.

Lemma sat_u64 z : 0 <= z -> is_u64 (sat z).
Proof. unfold is_u64, sat, U64_MAX, U64. lia. Qed.

Lemma sat_id z : is_u64 z -> sat z = z.
Proof. unfold is_u64, sat, U64_MAX. lia. Qed.

Lemma gas_add_sat a b : 0 <= a -> 0 <= b -> gas_add (sat a) (sat b) = sat (a + b).
Proof.
  intros. rewrite gas_add_spec by (by apply sat_u64). unfold sat, U64_MAX, U64. lia.
Qed.

Lemma gas_add_param a f : 0 <= a -> gas_add (sat a) (params f) = sat (a + params f).
Proof.
  intros Ha. pose proof (params_u64 f) as Hf. rewrite <- (sat_id (params f)) at 1 by done.
  apply gas_add_sat; [done|]. apply Hf.
Qed.

Lemma param_nonneg f : 0 <= params f.
Proof. apply params_u64. Qed.

(** The sum over the children. *)
Abbreviation sizes := (foldr (fun t n => shape_size params feature_version t + n) 0).

Lemma sizes_nonneg l : Forall (fun t => 0 <= shape_size params feature_version t) l -> 0 <= sizes l.
Proof. induction 1; simpl; lia. Qed.

Lemma shape_size_nonneg t : 0 <= shape_size params feature_version t.
Proof.
  induction t as [p|p len|fields IH|elems IH|g t IH] using shape_ind'; simpl;
    try apply param_nonneg.
  - pose proof (param_nonneg (per_packed p)). pose proof (param_nonneg AbsVal.vector).
    destruct (3 <=? _); nia.
  - pose proof (param_nonneg AbsVal.struct_). apply sizes_nonneg in IH. lia.
  - pose proof (param_nonneg AbsVal.vector). apply sizes_nonneg in IH. lia.
Qed.

Lemma all_sizes_nonneg l : 0 <= sizes l.
Proof. apply sizes_nonneg, Forall_forall. intros t _. apply shape_size_nonneg. Qed.

Lemma root_le_size t :
  root_size params feature_version t <= shape_size params feature_version t.
Proof.
  destruct t as [p|fields|elems|p len|g t]; simpl; try lia.
  - pose proof (all_sizes_nonneg fields). lia.
  - pose proof (all_sizes_nonneg elems). lia.
  - pose proof (param_nonneg (per_packed p)).
    destruct (Z.leb_spec 3 feature_version), (Z.ltb_spec feature_version 3); nia.
Qed.

Lemma root_u64 t : is_u64 (root_size params feature_version t).
Proof.
  destruct t; simpl; try apply params_u64. destruct (_ <? _); [|apply params_u64].
  unfold is_u64, U64. lia.
Qed.

(** *** The value visitor *)

Abbreviation size_visitor := (AbstractValueSizeVisitor params feature_version).

Lemma vec_size_step p len a :
  is_u64 (Z.of_nat len) -> 0 <= a ->
  add_vec_size params feature_version (per_packed p) len (sat a)
  = Return (sat (a + shape_size params feature_version (SPrimVec p len))).
Proof.
  intros Hlen Ha. unfold add_vec_size, num_args. rewrite Z.mod_small by apply Hlen.
  pose proof (param_nonneg (per_packed p)) as Hp. pose proof (param_nonneg AbsVal.vector) as Hv.
  rewrite gas_mul_spec by (done || apply params_u64).
  change (Z.min ?x U64_MAX) with (sat x). simpl. destruct (3 <=? feature_version).
  - rewrite gas_add_param by nia. rewrite gas_add_sat by nia. done.
  - rewrite gas_add_sat by nia. do 2 f_equal. lia.
Qed.

Lemma traverse_all_size l depth :
  Forall (fun t => shape_ok t -> forall depth a, 0 <= a ->
    traverse size_visitor t depth (sat a)
    = Return (sat (a + shape_size params feature_version t))) l ->
  foldr (fun t P => shape_ok t /\ P) True l ->
  forall a, 0 <= a -> traverse_all size_visitor l depth (sat a) = Return (sat (a + sizes l)).
Proof.
  induction 1 as [|t l Ht Hl IH]; cbn [traverse_all foldr]; intros Hok a Ha.
  { by rewrite Z.add_0_r. }
  destruct Hok as [Hok Hokl]. rewrite Ht by done. cbn [mbind comp_bind].
  pose proof (shape_size_nonneg t). rewrite IH by (done || lia). do 2 f_equal. lia.
Qed.

Lemma traverse_size t : shape_ok t -> forall depth a, 0 <= a ->
  traverse size_visitor t depth (sat a)
  = Return (sat (a + shape_size params feature_version t)).
Proof.
  induction t as [p|p len|fields IH|elems IH|g t IH] using shape_ind'; intros Hok depth a Ha.
  - destruct p; simpl; unfold add_size; by rewrite gas_add_param.
  - rewrite <- vec_size_step by done. by destruct p.
  - pose proof (param_nonneg AbsVal.struct_) as Hp.
    rewrite traverse_struct. simpl. rewrite gas_add_param by done.
    rewrite (traverse_all_size fields _ IH Hok) by lia. do 2 f_equal. lia.
  - pose proof (param_nonneg AbsVal.vector) as Hp.
    rewrite traverse_vec. simpl. rewrite gas_add_param by done.
    rewrite (traverse_all_size elems _ IH Hok) by lia. do 2 f_equal. lia.
  - done.
Qed.

Lemma traverse_value_size t depth a : value_ok t -> 0 <= a ->
  traverse size_visitor t depth (sat a)
  = Return (sat (a + shape_size params feature_version t)).
Proof.
  intros Hok Ha. destruct t; try by apply traverse_size.
  simpl. by rewrite gas_add_param.
Qed.

Lemma abstract_value_size_spec val : value_ok (shape val) ->
  abstract_value_size params val feature_version
  = Return (sat (shape_size params feature_version (shape val))).
Proof.
  intros Hok. unfold abstract_value_size. rewrite visit_spec.
  assert (H0' : sat 0 = 0) by (apply sat_id; unfold is_u64, U64; lia).
  rewrite <- H0' at 1. rewrite traverse_value_size by done. by rewrite Z.add_0_l.
Qed.

Lemma abstract_stack_size_spec val :
  abstract_stack_size params val feature_version
  = Return (root_size params feature_version (shape val)).
Proof.
  unfold abstract_stack_size. rewrite visit_spec.
  destruct (shape val) as [p|fields|elems|p len|g t]; try done; by destruct p.
Qed.

Lemma abstract_packed_size_spec val :
  abstract_packed_size params val = Return (packed_size params (shape val)).
Proof.
  unfold abstract_packed_size. rewrite visit_spec.
  assert (H1' : forall f, gas_mul (params f) 1 = params f).
  { intros f. rewrite gas_mul_spec; [|apply params_u64|unfold is_u64, U64; lia].
    rewrite Z.mul_1_r. by apply sat_id. }
  destruct (shape val) as [p|fields|elems|p len|g t]; try done; [|by destruct p].
  destruct p; simpl; by rewrite H1'.
Qed.

(** The heap part of a value: what is left of its size. *)
Definition heap_part (t : Shape) : Z :=
  sat (shape_size params feature_version t) - root_size params feature_version t.

Lemma heap_part_u64 t : is_u64 (heap_part t).
Proof.
  unfold heap_part. pose proof (root_le_size t). pose proof (root_u64 t) as Hr.
  pose proof (shape_size_nonneg t). unfold is_u64, sat, U64_MAX, U64 in *. lia.
Qed.

Lemma checked_heap t :
  checked_sub (sat (shape_size params feature_version t)) (root_size params feature_version t)
  = Some (heap_part t).
Proof.
  pose proof (shape_size_nonneg t). pose proof (heap_part_u64 t) as Hh.
  rewrite checked_sub_spec; [|by apply sat_u64|apply root_u64].
  rewrite bool_decide_true; [done|]. unfold heap_part, is_u64 in Hh. lia.
Qed.

Lemma abstract_heap_size_spec val : value_ok (shape val) ->
  abstract_heap_size params val feature_version = Return (heap_part (shape val)).
Proof.
  intros Hok. unfold abstract_heap_size. rewrite abstract_stack_size_spec. cbn [mbind comp_bind].
  rewrite abstract_value_size_spec by done. cbn [mbind comp_bind]. by rewrite checked_heap.
Qed.

Lemma stack_and_heap_spec val : value_ok (shape val) ->
  abstract_value_size_stack_and_heap params val feature_version
  = Return (root_size params feature_version (shape val), heap_part (shape val)).
Proof.
  intros Hok. unfold abstract_value_size_stack_and_heap. rewrite abstract_stack_size_spec.
  cbn [mbind comp_bind]. rewrite abstract_value_size_spec by done. cbn [mbind comp_bind].
  by rewrite checked_heap.
Qed.

(** *** The dereferencing visitor *)

Lemma deref_traverse {S} (inner : ValueVisitor S) offset t : shape_ok t ->
  forall depth s, (offset <= depth)%nat ->
  traverse (DerefVisitor inner) t depth (s, offset)
  = (s' ← traverse inner t (depth - offset) s; Return (s', offset)).
Proof.
  assert (Hall : forall l, Forall (fun t => shape_ok t -> forall depth s, (offset <= depth)%nat ->
      traverse (DerefVisitor inner) t depth (s, offset)
      = (s' ← traverse inner t (depth - offset) s; Return (s', offset))) l ->
    foldr (fun t P => shape_ok t /\ P) True l ->
    forall depth s, (offset <= depth)%nat ->
    traverse_all (DerefVisitor inner) l depth (s, offset)
    = (s' ← traverse_all inner l (depth - offset) s; Return (s', offset))).
  { induction 1 as [|t' l Ht Hl IHl]; intros Hok depth s Hd; [done|].
    destruct Hok as [Hok Hokl]. cbn [traverse_all]. rewrite Ht by done.
    destruct (traverse inner t' (depth - offset) s) as [s'| |]; simpl; [|done|done].
    by apply IHl. }
  induction t as [p|p len|fields IH|elems IH|g t IH] using shape_ind'; intros Hok depth s Hd.
  - destruct p; simpl; unfold delegate_simple, delegate; simpl;
      by rewrite (proj2 (Nat.leb_le _ _) Hd).
  - destruct p; simpl; unfold delegate_vec, delegate_simple, delegate; simpl;
      by rewrite (proj2 (Nat.leb_le _ _) Hd).
  - rewrite !traverse_struct. simpl. unfold delegate_inside, delegate. simpl.
    rewrite (proj2 (Nat.leb_le _ _) Hd).
    destruct (visit_struct inner (depth - offset) (length fields) s) as [[[] s']| |]; simpl; try done.
    rewrite (Hall fields IH Hok) by lia. by rewrite Nat.sub_succ_l.
  - rewrite !traverse_vec. simpl. unfold delegate_inside, delegate. simpl.
    rewrite (proj2 (Nat.leb_le _ _) Hd).
    destruct (visit_vec inner (depth - offset) (length elems) s) as [[[] s']| |]; simpl; try done.
    rewrite (Hall elems IH Hok) by lia. by rewrite Nat.sub_succ_l.
  - done.
Qed.

Lemma dereferenced_spec val : value_ok (shape val) ->
  abstract_value_size_dereferenced params val feature_version
  = Return (sat (shape_size params feature_version
                   (match shape val with SRef _ t => t | t => t end))).
Proof.
  intros Hok. unfold abstract_value_size_dereferenced. rewrite visit_spec.
  assert (H0' : sat 0 = 0) by (apply sat_id; unfold is_u64, U64; lia).
  assert (Hgo : forall t depth offset, shape_ok t -> (offset <= depth)%nat ->
    (visitor ← traverse (DerefVisitor size_visitor) t depth (0, offset); Return visitor.1)
    = (Return (sat (shape_size params feature_version t)) : comp Empty_set Z)).
  { intros t depth offset Ht Hd. rewrite deref_traverse by done.
    rewrite <- H0' at 1. rewrite traverse_size by done. simpl. by rewrite Z.add_0_l. }
  destruct (shape val) as [p|fields|elems|p len|g t] eqn:Hs; try by apply Hgo.
  cbn [traverse visit_ref DerefVisitor Nat.eqb mbind comp_bind fst snd]. by apply Hgo; [|lia].
Qed.
End SizeSpec.

(** ** Properties *)

(** C39. The sizes of a value are what its tree says: the value size is the saturating sum over
    its nodes, the stack and heap sizes split it exactly, the heap size alone is that heap
    part, a dereferenced size is that of what is behind the reference, and none of the
    visitors panics. *)
Theorem sizes_exact `{GasAlgebra, !GasAlgebraLaws} {V : Type} `{!ValueView V, !ValueViewLaws V}
  (params : AbstractValueSizeGasParameters) (v : Z) (val : V)
  (Hp : forall f, is_u64 (params f)) (Hv : value_ok (shape val)) :
  let total t := Z.min (shape_size params v t) U64_MAX in
  abstract_value_size params val v = Return (total (shape val)) /\
  abstract_value_size_dereferenced params val v
    = Return (total (match shape val with SRef _ t => t | t => t end)) /\
  exists stack heap, 0 <= heap /\ stack + heap = total (shape val) /\
    abstract_value_size_stack_and_heap params val v = Return (stack, heap) /\
    abstract_stack_size params val v = Return stack /\
    abstract_heap_size params val v = Return heap.
Proof.
  cbv zeta. split; [by apply abstract_value_size_spec|]. split; [by apply dereferenced_spec|].
  exists (root_size params v (shape val)), (heap_part params v (shape val)).
  split; [apply (heap_part_u64 params v Hp (shape val))|].
  split; [unfold heap_part, Saturating.sat; lia|].
  split; [by apply stack_and_heap_spec|]. split; [by apply abstract_stack_size_spec|].
  by apply abstract_heap_size_spec.
Qed.

Import Saturating.

Lemma sizes_exact_witness :
  abstract_value_size (fun _ => 40) (SRef false (SVec [SPrim PU8; SPrim PU64])) 3 = Return 40 /\
  abstract_value_size_dereferenced (fun _ => 40) (SRef false (SVec [SPrim PU8; SPrim PU64])) 3
    = Return 120.
Proof.
  destruct (sizes_exact (fun _ => 40) 3 (SRef false (SVec [SPrim PU8; SPrim PU64])))
    as (Hs & Hd & _).
  - intros _. vm_compute. intuition discriminate.
  - simpl. tauto.
  - split; [exact Hs|exact Hd].
Defined.
