(* ===== verification/GasMeter.v ===== *)
(** * The gas meter ([aptos-gas/src/{gas_meter,transaction,instr}.rs])

    [AptosGasMeter] counts down a balance of internal gas and a quota of memory.  A handler of
    the [GasMeter] trait computes the memory it uses or releases and the gas it costs; an error
    leaves the meter in the state the code leaves it in, so a handler is a function of the
    meter that returns the meter and a result, or panics. *)
From S2P Require Import Prelude GasSchedule GasSize.

#[local] Open Scope Z_scope.

(** ** Formulas for transactions ([transaction.rs]) *)

Record StorageGasParameters := {
  per_item_read : Z;
  per_item_create : Z;
  per_item_write : Z;
  per_byte_read : Z;
  per_byte_create : Z;
  per_byte_write : Z;
}.

(** Field by field from the on-chain [StorageGasSchedule], with [zeros]. *)
Definition StorageGasParameters_zeros : StorageGasParameters :=
  {| per_item_read := 0; per_item_create := 0; per_item_write := 0;
     per_byte_read := 0; per_byte_create := 0; per_byte_write := 0 |}.

Section Formulas.
Context `{GasAlgebra} {StateKey : Type}.
(** [StateKey::encode] and [StateKey::size]. *)
Context (encode : StateKey -> option bytes) (size : StateKey -> nat).

Abbreviation fallible := (comp Empty_set).

(** [NumBytes::new(l.len() as u64)] *)
Definition num_bytes (b : bytes) : Z := num_args (length b).

Definition write_op_size (key : StateKey) (value : bytes) (feature_version : Z) : fallible Z :=
  let value_size := num_bytes value in
  if 2 <? feature_version then
    let key_size := num_args (size key) in
    let kb := 1024 in
    Return (default 0 (checked_sub (key_size + value_size)%gas kb))
  else
    key_bytes ← expect (encode key);
    Return (num_bytes key_bytes + value_size)%gas.

(** The four counters of [StorageGasParameters::calculate_write_set_gas]. *)
Record Counters := {
  num_items_create : Z;
  num_items_write : Z;
  num_bytes_create : Z;
  num_bytes_write : Z;
}.
Definition Counters_zero : Counters :=
  {| num_items_create := 0; num_items_write := 0; num_bytes_create := 0; num_bytes_write := 0 |}.

Definition count_op (feature_version : Z) (c : Counters) (key : StateKey) (op : WriteOp)
  : fallible Counters :=
  match op with
  | Creation data =>
      n ← write_op_size key data feature_version;
      Return {| num_items_create := (num_items_create c + 1)%gas;
                num_items_write := num_items_write c;
                num_bytes_create := (num_bytes_create c + n)%gas;
                num_bytes_write := num_bytes_write c |}
  | Modification data =>
      n ← write_op_size key data feature_version;
      Return {| num_items_create := num_items_create c;
                num_items_write := (num_items_write c + 1)%gas;
                num_bytes_create := num_bytes_create c;
                num_bytes_write := (num_bytes_write c + n)%gas |}
  | Deletion => Return c
  end.

Fixpoint count_ops (feature_version : Z) (ops : list (StateKey * WriteOp)) (c : Counters)
  : fallible Counters :=
  match ops with
  | [] => Return c
  | (key, op) :: ops => c ← count_op feature_version c key op; count_ops feature_version ops c
  end.

Definition storage_write_set_gas (self : StorageGasParameters)
  (ops : list (StateKey * WriteOp)) (feature_version : Z) : fallible Z :=
  c ← count_ops feature_version ops Counters_zero;
  Return (num_items_create c * per_item_create self + num_items_write c * per_item_write self
          + num_bytes_create c * per_byte_create self
          + num_bytes_write c * per_byte_write self)%gas.

Definition scaling_factor (self : TransactionGasParameters) : Z :=
  if self Txn.gas_unit_scaling_factor =? 0 then 1 else self Txn.gas_unit_scaling_factor.

(** The intrinsic gas for the transaction based upon its size in bytes. *)
Definition calculate_intrinsic_gas (self : TransactionGasParameters) (transaction_size : Z)
  : fallible Z :=
  let min_transaction_fee := self Txn.min_transaction_gas_units in
  if self Txn.large_transaction_cutoff <? transaction_size then
    excess ← expect (checked_sub transaction_size (self Txn.large_transaction_cutoff));
    Return (min_transaction_fee + excess * self Txn.intrinsic_gas_per_byte)%gas
  else Return min_transaction_fee.

(** The counters of [TransactionGasParameters::calculate_write_set_gas]. *)
Record TxnCounters := { num_ops : Z; num_new_items : Z; num_bytes_key : Z; num_bytes_val : Z }.
Definition TxnCounters_zero : TxnCounters :=
  {| num_ops := 0; num_new_items := 0; num_bytes_key := 0; num_bytes_val := 0 |}.

Definition txn_count_op (self : TransactionGasParameters) (c : TxnCounters)
  (key : StateKey) (op : WriteOp) : fallible TxnCounters :=
  bytes_key ←
    (if 0 <? self Txn.write_data_per_byte_in_key
     then key_bytes ← expect (encode key); Return (num_bytes_key c + num_bytes key_bytes)%gas
     else Return (num_bytes_key c));
  Return (
    let num_ops := (num_ops c + 1)%gas in
    match op with
    | Creation data =>
        {| num_ops := num_ops; num_new_items := (num_new_items c + 1)%gas;
           num_bytes_key := bytes_key; num_bytes_val := (num_bytes_val c + num_bytes data)%gas |}
    | Modification data =>
        {| num_ops := num_ops; num_new_items := num_new_items c;
           num_bytes_key := bytes_key; num_bytes_val := (num_bytes_val c + num_bytes data)%gas |}
    | Deletion =>
        {| num_ops := num_ops; num_new_items := num_new_items c;
           num_bytes_key := bytes_key; num_bytes_val := num_bytes_val c |}
    end).

Fixpoint txn_count_ops (self : TransactionGasParameters) (ops : list (StateKey * WriteOp))
  (c : TxnCounters) : fallible TxnCounters :=
  match ops with
  | [] => Return c
  | (key, op) :: ops => c ← txn_count_op self c key op; txn_count_ops self ops c
  end.

Definition txn_write_set_gas (self : TransactionGasParameters)
  (ops : list (StateKey * WriteOp)) : fallible Z :=
  c ← txn_count_ops self ops TxnCounters_zero;
  let cost_ops := (self Txn.write_data_per_op * num_ops c)%gas in
  let cost_new_items := (self Txn.write_data_per_new_item * num_new_items c)%gas in
  let cost_bytes := (self Txn.write_data_per_byte_in_key * num_bytes_key c
                     + self Txn.write_data_per_byte_in_val * num_bytes_val c)%gas in
  Return (cost_ops + cost_new_items + cost_bytes)%gas.
End Formulas.

(** ** Instructions ([instr.rs]) *)

(** The simple instructions that [simple_instr_cost] prices. *)
Inductive SimpleInstruction :=
  | Nop | Abort_ | Ret | BrTrue | BrFalse | Branch
  | LdU8 | LdU64 | LdU128 | LdTrue | LdFalse
  | ImmBorrowLoc | MutBorrowLoc | ImmBorrowField | MutBorrowField
  | ImmBorrowFieldGeneric | MutBorrowFieldGeneric | FreezeRef
  | CastU8 | CastU64 | CastU128
  | Add | Sub | Mul | Mod | Div
  | BitOr | BitAnd | Xor | Shl | Shr
  | Or | And | Not | Lt | Gt | Le | Ge.

Definition simple_instr_cost (self : InstructionGasParameters) (instr : SimpleInstruction)
  : PartialVMResult Z :=
  Ok (self match instr with
           | Nop => Instr.nop
           | Abort_ => Instr.abort | Ret => Instr.ret
           | BrTrue => Instr.br_true | BrFalse => Instr.br_false | Branch => Instr.branch
           | LdU8 => Instr.ld_u8 | LdU64 => Instr.ld_u64 | LdU128 => Instr.ld_u128
           | LdTrue => Instr.ld_true | LdFalse => Instr.ld_false
           | ImmBorrowLoc => Instr.imm_borrow_loc | MutBorrowLoc => Instr.mut_borrow_loc
           | ImmBorrowField => Instr.imm_borrow_field
           | MutBorrowField => Instr.mut_borrow_field
           | ImmBorrowFieldGeneric => Instr.imm_borrow_field_generic
           | MutBorrowFieldGeneric => Instr.mut_borrow_field_generic
           | FreezeRef => Instr.freeze_ref
           | CastU8 => Instr.cast_u8 | CastU64 => Instr.cast_u64 | CastU128 => Instr.cast_u128
           | Add => Instr.add | Sub => Instr.sub | Mul => Instr.mul | Mod => Instr.mod_
           | Div => Instr.div
           | BitOr => Instr.bit_or | BitAnd => Instr.bit_and | Xor => Instr.xor
           | Shl => Instr.shl | Shr => Instr.shr
           | Or => Instr.or | And => Instr.and | Not => Instr.not
           | Lt => Instr.lt | Gt => Instr.gt | Le => Instr.le | Ge => Instr.ge
           end).

(** ** The meter *)

Record AptosGasMeter := {
  feature_version : Z;
  gas_params : AptosGasParameters;
  storage_gas_params : option StorageGasParameters;
  balance : Z;
  memory_quota : Z;
  is_call_table : bool;
}.

Definition set_balance (v : Z) (m : AptosGasMeter) : AptosGasMeter :=
  {| feature_version := feature_version m; gas_params := gas_params m;
     storage_gas_params := storage_gas_params m; balance := v;
     memory_quota := memory_quota m; is_call_table := is_call_table m |}.
Definition set_memory_quota (v : Z) (m : AptosGasMeter) : AptosGasMeter :=
  {| feature_version := feature_version m; gas_params := gas_params m;
     storage_gas_params := storage_gas_params m; balance := balance m;
     memory_quota := v; is_call_table := is_call_table m |}.
Definition set_is_call_table (v : bool) (m : AptosGasMeter) : AptosGasMeter :=
  {| feature_version := feature_version m; gas_params := gas_params m;
     storage_gas_params := storage_gas_params m; balance := balance m;
     memory_quota := memory_quota m; is_call_table := v |}.

(** A method on [&mut self]: [None] is a panic. *)
Definition meter (A : Type) : Type := AptosGasMeter -> option (AptosGasMeter * PartialVMResult A).

#[export] Instance meter_ret : MRet meter := fun A a m => Some (m, Ok a).
#[export] Instance meter_bind : MBind meter := fun A B f p m =>
  match p m with
  | None => None
  | Some (m, Ok a) => f a m
  | Some (m, Err e) => Some (m, Err e)
  end.

Definition self : meter AptosGasMeter := fun m => Some (m, Ok m).
Definition update (f : AptosGasMeter -> AptosGasMeter) : meter unit := fun m => Some (f m, Ok tt).
Definition fail {A} (code : StatusCode) : meter A :=
  fun m => Some (m, Err {| status := code; sub_status := None |}).
(** A pure computation that may panic. *)
Definition pure {A} (c : comp Empty_set A) : meter A := fun m =>
  match c with Return a => Some (m, Ok a) | _ => None end.

Section Meter.
Context `{GasAlgebra} {V : Type} `{ValueView V}.
Context {Address : Type} `{EqDecision Address} (CORE_CODE_ADDRESS : Address).
Context {StateKey : Type} (encode : StateKey -> option bytes) (size : StateKey -> nat).

Definition AptosGasMeter_new (gas_feature_version : Z) (gas_params : AptosGasParameters)
  (storage_gas_params : option StorageGasParameters) (balance : Z) : option AptosGasMeter :=
  if (gas_feature_version =? 0) && bool_decide (storage_gas_params = None)
     || (0 <? gas_feature_version) && negb (bool_decide (storage_gas_params = None))
  then Some {| feature_version := gas_feature_version; gas_params := gas_params;
               storage_gas_params := storage_gas_params;
               balance := to_unit balance (scaling_factor (txn gas_params));
               memory_quota := txn gas_params Txn.memory_quota; is_call_table := false |}
  else None.

Definition Gas_balance (m : AptosGasMeter) : Z :=
  to_unit_round_down (balance m) (1, scaling_factor (txn (gas_params m))).

Definition charge (amount : Z) : meter unit :=
  m ← self;
  match checked_sub (balance m) amount with
  | Some new_balance => update (set_balance new_balance)
  | None => _ ← update (set_balance 0); fail OUT_OF_GAS
  end.

Definition use_heap_memory (amount : Z) : meter unit :=
  m ← self;
  if 3 <=? feature_version m then
    match checked_sub (memory_quota m) amount with
    | Some remaining_quota => update (set_memory_quota remaining_quota)
    | None => _ ← update (set_memory_quota 0); fail MEMORY_LIMIT_EXCEEDED
    end
  else mret tt.

Definition release_heap_memory (amount : Z) : meter unit :=
  m ← self;
  if 3 <=? feature_version m
  then update (set_memory_quota (memory_quota m + amount)%gas)
  else mret tt.

(** [self.gas_params.misc.abs_val.abstract_heap_size(val, self.feature_version)] and its like. *)
Definition params_of (m : AptosGasMeter) : AbstractValueSizeGasParameters :=
  abs_val (misc (gas_params m)).
Definition instr_of (m : AptosGasMeter) : InstructionGasParameters := instr (gas_params m).
Definition heap_size_of (m : AptosGasMeter) (val : V) : comp Empty_set Z :=
  abstract_heap_size (params_of m) val (feature_version m).
Definition stack_size_of (m : AptosGasMeter) (val : V) : comp Empty_set Z :=
  abstract_stack_size (params_of m) val (feature_version m).
Definition packed_size_of (m : AptosGasMeter) (val : V) : comp Empty_set Z :=
  abstract_packed_size (params_of m) val.

(** [args.fold(AbstractValueSize::zero(), |acc, val| acc + ..)] *)
Fixpoint fold_sizes (f : V -> comp Empty_set Z) (vals : list V) (acc : Z) : comp Empty_set Z :=
  match vals with
  | [] => Return acc
  | val :: vals => n ← f val; fold_sizes f vals (acc + n)%gas
  end.

(** ** The handlers *)

Definition charge_simple_instr (i : SimpleInstruction) : meter unit :=
  m ← self;
  match simple_instr_cost (instr_of m) i with
  | Ok cost => charge cost
  | Err e => fun m => Some (m, Err e)
  end.

Definition charge_native_function_before_execution (args : list V) : meter unit :=
  m ← self;
  if is_call_table m then mret tt
  else n ← pure (fold_sizes (heap_size_of m) args 0); release_heap_memory n.

Definition charge_native_function (amount : Z) (ret_vals : option (list V)) : meter unit :=
  m ← self;
  _ ← match ret_vals with
      | Some ret_vals => n ← pure (fold_sizes (heap_size_of m) ret_vals 0); use_heap_memory n
      | None => mret tt
      end;
  charge amount.

Definition charge_load_resource (loaded : option (Z * V)) : meter unit :=
  m ← self;
  cost ←
    (if feature_version m =? 0 then
       let txn_params := txn (gas_params m) in
       mret (txn_params Txn.load_data_base
             + match loaded with
               | Some (num_bytes, _) => txn_params Txn.load_data_per_byte * num_bytes
               | None => txn_params Txn.load_data_failure
               end)%gas
     else
       _ ← match loaded with
           | Some (_, val) => n ← pure (heap_size_of m val); use_heap_memory n
           | None => mret tt
           end;
       storage_params ← pure (expect (storage_gas_params m));
       mret (per_item_read storage_params * 1
             + match loaded with
               | Some (num_bytes, _) => per_byte_read storage_params * num_bytes
               | None => 0
               end)%gas);
  charge cost.

Definition charge_pop (popped_val : V) : meter unit :=
  m ← self;
  n ← pure (heap_size_of m popped_val);
  _ ← release_heap_memory n;
  charge (instr_of m Instr.pop).

Definition charge_call (args : list V) (num_locals : Z) : meter unit :=
  m ← self;
  let params := instr_of m in
  let cost := (params Instr.call_base + params Instr.call_per_arg * num_args (length args))%gas in
  let cost := if 3 <=? feature_version m
              then (cost + params Instr.call_per_local * num_locals)%gas else cost in
  charge cost.

(** [module_id] is the address and the name of the module. *)
Definition charge_call_generic (module_id : Address * string) (num_ty_args : nat)
  (args : list V) (num_locals : Z) : meter unit :=
  _ ← update (set_is_call_table
        (bool_decide (module_id.1 = CORE_CODE_ADDRESS)
         && bool_decide (module_id.2 = "table"%string)));
  m ← self;
  let params := instr_of m in
  let cost := (params Instr.call_generic_base
               + params Instr.call_generic_per_ty_arg * num_args num_ty_args
               + params Instr.call_generic_per_arg * num_args (length args))%gas in
  let cost := if 3 <=? feature_version m
              then (cost + params Instr.call_generic_per_local * num_locals)%gas else cost in
  charge cost.

Definition charge_ld_const (size : Z) : meter unit :=
  m ← self;
  charge (instr_of m Instr.ld_const_base + instr_of m Instr.ld_const_per_byte * size)%gas.

Definition charge_ld_const_after_deserialization (val : V) : meter unit :=
  m ← self; n ← pure (heap_size_of m val); use_heap_memory n.

Definition charge_copy_loc (val : V) : meter unit :=
  m ← self;
  sizes ← pure (abstract_value_size_stack_and_heap (params_of m) val (feature_version m));
  let '(stack_size, heap_size) := sizes in
  _ ← use_heap_memory heap_size;
  charge (instr_of m Instr.copy_loc_base
          + instr_of m Instr.copy_loc_per_abs_val_unit * (stack_size + heap_size))%gas.

Definition charge_move_loc (_ : V) : meter unit :=
  m ← self; charge (instr_of m Instr.move_loc_base).

Definition charge_store_loc (_ : V) : meter unit :=
  m ← self; charge (instr_of m Instr.st_loc_base).

Definition charge_pack (is_generic : bool) (args : list V) : meter unit :=
  m ← self;
  let num_args := num_args (length args) in
  n ← pure (fold_sizes (stack_size_of m) args 0);
  _ ← use_heap_memory n;
  let params := instr_of m in
  charge (if is_generic
          then params Instr.pack_generic_base + params Instr.pack_generic_per_field * num_args
          else params Instr.pack_base + params Instr.pack_per_field * num_args)%gas.

Definition charge_unpack (is_generic : bool) (args : list V) : meter unit :=
  m ← self;
  let num_args := num_args (length args) in
  n ← pure (fold_sizes (stack_size_of m) args 0);
  _ ← release_heap_memory n;
  let params := instr_of m in
  charge (if is_generic
          then params Instr.unpack_generic_base + params Instr.unpack_generic_per_field * num_args
          else params Instr.unpack_base + params Instr.unpack_per_field * num_args)%gas.

Definition charge_read_ref (val : V) : meter unit :=
  m ← self;
  sizes ← pure (abstract_value_size_stack_and_heap (params_of m) val (feature_version m));
  let '(stack_size, heap_size) := sizes in
  _ ← use_heap_memory heap_size;
  charge (instr_of m Instr.read_ref_base
          + instr_of m Instr.read_ref_per_abs_val_unit * (stack_size + heap_size))%gas.

Definition charge_write_ref (_new_val old_val : V) : meter unit :=
  m ← self;
  n ← pure (heap_size_of m old_val);
  _ ← release_heap_memory n;
  charge (instr_of m Instr.write_ref_base).

(** The common body of [charge_eq] and [charge_neq]. *)
Definition charge_comparison (base per_unit : Instr.field) (lhs rhs : V) : meter unit :=
  m ← self;
  l ← pure (heap_size_of m lhs);
  _ ← release_heap_memory l;
  r ← pure (heap_size_of m rhs);
  _ ← release_heap_memory r;
  size_l ← pure (abstract_value_size_dereferenced (params_of m) lhs (feature_version m));
  size_r ← pure (abstract_value_size_dereferenced (params_of m) rhs (feature_version m));
  charge (instr_of m base + instr_of m per_unit * (size_l + size_r))%gas.

Definition charge_eq (lhs rhs : V) : meter unit :=
  charge_comparison Instr.eq_base Instr.eq_per_abs_val_unit lhs rhs.
Definition charge_neq (lhs rhs : V) : meter unit :=
  charge_comparison Instr.neq_base Instr.neq_per_abs_val_unit lhs rhs.

Definition charge_borrow_global (is_mut is_generic : bool) : meter unit :=
  m ← self;
  charge (instr_of m match is_mut, is_generic with
                     | false, false => Instr.imm_borrow_global_base
                     | false, true => Instr.imm_borrow_global_generic_base
                     | true, false => Instr.mut_borrow_global_base
                     | true, true => Instr.mut_borrow_global_generic_base
                     end).

Definition charge_exists (is_generic : bool) : meter unit :=
  m ← self;
  charge (instr_of m (if is_generic then Instr.exists_generic_base else Instr.exists_base)).

Definition charge_move_from (is_generic : bool) : meter unit :=
  m ← self;
  charge (instr_of m
    (if is_generic then Instr.move_from_generic_base else Instr.move_from_base)).

Definition charge_move_to (is_generic : bool) : meter unit :=
  m ← self;
  charge (instr_of m (if is_generic then Instr.move_to_generic_base else Instr.move_to_base)).

Definition charge_vec_pack (args : list V) : meter unit :=
  m ← self;
  let num_args := num_args (length args) in
  n ← pure (fold_sizes (packed_size_of m) args 0);
  _ ← use_heap_memory n;
  charge (instr_of m Instr.vec_pack_base + instr_of m Instr.vec_pack_per_elem * num_args)%gas.

Definition charge_vec_unpack (expect_num_elements : Z) (elems : list V) : meter unit :=
  m ← self;
  n ← pure (fold_sizes (packed_size_of m) elems 0);
  _ ← release_heap_memory n;
  charge (instr_of m Instr.vec_unpack_base
          + instr_of m Instr.vec_unpack_per_expected_elem * expect_num_elements)%gas.

Definition charge_vec_len : meter unit :=
  m ← self; charge (instr_of m Instr.vec_len_base).

Definition charge_vec_borrow (is_mut : bool) : meter unit :=
  m ← self;
  charge (instr_of m (if is_mut then Instr.vec_mut_borrow_base else Instr.vec_imm_borrow_base)).

Definition charge_vec_push_back (val : V) : meter unit :=
  m ← self;
  n ← pure (packed_size_of m val);
  _ ← use_heap_memory n;
  charge (instr_of m Instr.vec_push_back_base).

Definition charge_vec_pop_back (val : option V) : meter unit :=
  m ← self;
  _ ← match val with
      | Some val => n ← pure (packed_size_of m val); release_heap_memory n
      | None => mret tt
      end;
  charge (instr_of m Instr.vec_pop_back_base).

Definition charge_vec_swap : meter unit :=
  m ← self; charge (instr_of m Instr.vec_swap_base).

Definition charge_drop_frame (locals : list V) : meter unit :=
  m ← self; n ← pure (fold_sizes (heap_size_of m) locals 0); release_heap_memory n.

(** The charges of a transaction; [finish(Location::Undefined)] keeps the status. *)
Definition charge_intrinsic_gas_for_transaction (txn_size : Z) : meter unit :=
  m ← self;
  cost ← pure (calculate_intrinsic_gas (txn (gas_params m)) txn_size);
  charge cost.

Definition charge_write_set_gas (ops : list (StateKey * WriteOp)) : meter unit :=
  m ← self;
  cost ←
    (if feature_version m =? 0 then pure (txn_write_set_gas encode (txn (gas_params m)) ops)
     else
       storage_params ← pure (expect (storage_gas_params m));
       pure (storage_write_set_gas encode size storage_params ops (feature_version m)));
  charge cost.

(** ** Sequences of charges *)

(** One call of a method of the meter. *)
Inductive MeterOp :=
  | OpSimple (i : SimpleInstruction)
  | OpNativeBefore (args : list V)
  | OpNative (amount : Z) (ret_vals : option (list V))
  | OpLoadResource (loaded : option (Z * V))
  | OpPop (val : V)
  | OpCall (args : list V) (num_locals : Z)
  | OpCallGeneric (module_id : Address * string) (num_ty_args : nat) (args : list V)
      (num_locals : Z)
  | OpLdConst (n : Z)
  | OpLdConstAfter (val : V)
  | OpCopyLoc (val : V)
  | OpMoveLoc (val : V)
  | OpStoreLoc (val : V)
  | OpPack (is_generic : bool) (args : list V)
  | OpUnpack (is_generic : bool) (args : list V)
  | OpReadRef (val : V)
  | OpWriteRef (new_val old_val : V)
  | OpEq (lhs rhs : V)
  | OpNeq (lhs rhs : V)
  | OpBorrowGlobal (is_mut is_generic : bool)
  | OpExists (is_generic : bool)
  | OpMoveFrom (is_generic : bool)
  | OpMoveTo (is_generic : bool)
  | OpVecPack (args : list V)
  | OpVecUnpack (n : Z) (elems : list V)
  | OpVecLen
  | OpVecBorrow (is_mut : bool)
  | OpVecPushBack (val : V)
  | OpVecPopBack (val : option V)
  | OpVecSwap
  | OpDropFrame (locals : list V)
  | OpIntrinsic (txn_size : Z)
  | OpWriteSet (ops : list (StateKey * WriteOp)).

Definition run_op (op : MeterOp) : meter unit :=
  match op with
  | OpSimple i => charge_simple_instr i
  | OpNativeBefore args => charge_native_function_before_execution args
  | OpNative amount ret_vals => charge_native_function amount ret_vals
  | OpLoadResource loaded => charge_load_resource loaded
  | OpPop val => charge_pop val
  | OpCall args num_locals => charge_call args num_locals
  | OpCallGeneric module_id n args num_locals => charge_call_generic module_id n args num_locals
  | OpLdConst n => charge_ld_const n
  | OpLdConstAfter val => charge_ld_const_after_deserialization val
  | OpCopyLoc val => charge_copy_loc val
  | OpMoveLoc val => charge_move_loc val
  | OpStoreLoc val => charge_store_loc val
  | OpPack is_generic args => charge_pack is_generic args
  | OpUnpack is_generic args => charge_unpack is_generic args
  | OpReadRef val => charge_read_ref val
  | OpWriteRef new_val old_val => charge_write_ref new_val old_val
  | OpEq lhs rhs => charge_eq lhs rhs
  | OpNeq lhs rhs => charge_neq lhs rhs
  | OpBorrowGlobal is_mut is_generic => charge_borrow_global is_mut is_generic
  | OpExists is_generic => charge_exists is_generic
  | OpMoveFrom is_generic => charge_move_from is_generic
  | OpMoveTo is_generic => charge_move_to is_generic
  | OpVecPack args => charge_vec_pack args
  | OpVecUnpack n elems => charge_vec_unpack n elems
  | OpVecLen => charge_vec_len
  | OpVecBorrow is_mut => charge_vec_borrow is_mut
  | OpVecPushBack val => charge_vec_push_back val
  | OpVecPopBack val => charge_vec_pop_back val
  | OpVecSwap => charge_vec_swap
  | OpDropFrame locals => charge_drop_frame locals
  | OpIntrinsic txn_size => charge_intrinsic_gas_for_transaction txn_size
  | OpWriteSet ops => charge_write_set_gas ops
  end.

Fixpoint run_ops (ops : list MeterOp) : meter unit :=
  match ops with
  | [] => mret tt
  | op :: ops => _ ← run_op op; run_ops ops
  end.
End Meter.
Arguments MeterOp V Address StateKey : clear implicits.
