(* ===== verification/GasProps.v ===== *)
(** * Properties of the gas meter

    Every charge is [metered]: from a well-formed meter it never panics, it keeps the
    configuration, it fails only by emptying the balance or the memory quota, and what it spends
    does not depend on the balance.  The predicate composes, so it holds of every sequence of
    charges. *)
From S2P Require Import Prelude GasSchedule GasSize GasMeter.

#[local] Open Scope Z_scope.

(** Quantities in range, solved by [gas]. *)
Create HintDb gas.

Lemma is_u64_0 : is_u64 0.
Proof. unfold is_u64, U64. lia. Qed.
Lemma is_u64_1 : is_u64 1.
Proof. unfold is_u64, U64. lia. Qed.
Lemma num_args_u64 n : is_u64 (num_args n).
Proof. unfold num_args, is_u64. apply Z.mod_pos_bound. unfold U64. lia. Qed.
#[export] Hint Resolve is_u64_0 is_u64_1 num_args_u64 : gas.

Section Algebra.
Context `{GasAlgebra, !GasAlgebraLaws}.

Lemma gas_add_u64 a b : is_u64 a -> is_u64 b -> is_u64 (a + b)%gas.
Proof. intros. rewrite gas_add_spec by done. unfold is_u64, U64_MAX, U64 in *. lia. Qed.
Lemma gas_mul_u64 a b : is_u64 a -> is_u64 b -> is_u64 (a * b)%gas.
Proof. intros. rewrite gas_mul_spec by done. unfold is_u64, U64_MAX, U64 in *. nia. Qed.
Lemma checked_sub_u64 a b c : is_u64 a -> is_u64 b -> checked_sub a b = Some c -> is_u64 c.
Proof.
  intros Ha Hb. rewrite checked_sub_spec by done. case_bool_decide; [|done].
  intros [= <-]. unfold is_u64 in *. lia.
Qed.
Lemma default_sub_u64 a b : is_u64 a -> is_u64 b -> is_u64 (default 0 (checked_sub a b)).
Proof.
  intros Ha Hb. destruct (checked_sub a b) as [c|] eqn:Hc; simpl; [|apply is_u64_0].
  by apply (checked_sub_u64 a b).
Qed.
End Algebra.
#[export] Hint Resolve gas_add_u64 gas_mul_u64 default_sub_u64 : gas.

Section Metered.
Context `{GasAlgebra, !GasAlgebraLaws}.

Record params_wf (p : AptosGasParameters) : Prop := {
  abs_val_u64 f : is_u64 (abs_val (misc p) f);
  instr_u64 f : is_u64 (instr p f);
  txn_u64 f : is_u64 (txn p f);
}.

Definition storage_wf (s : StorageGasParameters) : Prop :=
  is_u64 (per_item_read s) /\ is_u64 (per_item_create s) /\ is_u64 (per_item_write s) /\
  is_u64 (per_byte_read s) /\ is_u64 (per_byte_create s) /\ is_u64 (per_byte_write s).

(** What [AptosGasMeter_new] establishes and every charge keeps. *)
Record meter_wf (m : AptosGasMeter) : Prop := {
  wf_params : params_wf (gas_params m);
  wf_version : 0 <= feature_version m;
  wf_storage : if feature_version m =? 0 then True
               else exists s, storage_gas_params m = Some s /\ storage_wf s;
  wf_balance : is_u64 (balance m);
  wf_quota : is_u64 (memory_quota m);
}.

Definition same_config (m m' : AptosGasMeter) : Prop :=
  feature_version m' = feature_version m /\ gas_params m' = gas_params m /\
  storage_gas_params m' = storage_gas_params m.

Definition out_of_gas : PartialVMError := {| status := OUT_OF_GAS; sub_status := None |}.
Definition memory_exceeded : PartialVMError :=
  {| status := MEMORY_LIMIT_EXCEEDED; sub_status := None |}.

(** What is left when a charge fails. *)
Definition emptied (m : AptosGasMeter) (e : PartialVMError) : Prop :=
  (e = out_of_gas /\ balance m = 0) \/
  (e = memory_exceeded /\ memory_quota m = 0 /\ 3 <= feature_version m).

(** From [m] to [m'] by spending [c], whatever the balance. *)
Definition spends {A} (p : meter A) (m m' : AptosGasMeter) (a : A) (c : Z) : Prop :=
  forall b, is_u64 b ->
    (c <= b -> p (set_balance b m) = Some (set_balance (b - c) m', Ok a)) /\
    (b < c -> exists m'', p (set_balance b m) = Some (m'', Err out_of_gas) /\ balance m'' = 0).

Definition metered {A} (p : meter A) (P : A -> Prop) : Prop :=
  forall m, meter_wf m ->
  match p m with
  | None => False
  | Some (m', Ok a) =>
      meter_wf m' /\ same_config m m' /\ P a /\
      exists c, 0 <= c /\ balance m' = balance m - c /\ spends p m m' a c
  | Some (m', Err e) => meter_wf m' /\ same_config m m' /\ emptied m' e /\ balance m' <= balance m
  end.

Lemma same_config_refl m : same_config m m.
Proof. done. Qed.
Lemma same_config_trans m1 m2 m3 : same_config m1 m2 -> same_config m2 m3 -> same_config m1 m3.
Proof. unfold same_config. intros (?&?&?) (?&?&?). repeat split; congruence. Qed.

Lemma set_balance_id m : set_balance (balance m) m = m.
Proof. by destruct m. Qed.
Lemma wf_set_balance b m : is_u64 b -> meter_wf m -> meter_wf (set_balance b m).
Proof. intros Hb []. by split. Qed.
Lemma wf_set_quota q m : is_u64 q -> meter_wf m -> meter_wf (set_memory_quota q m).
Proof. intros Hq []. by split. Qed.

Lemma metered_ret {A} (a : A) (P : A -> Prop) : P a -> metered (mret a) P.
Proof.
  intros Ha m Hm. simpl. split; [done|]. split; [done|]. split; [done|].
  exists 0. split; [done|]. split; [lia|]. intros b Hb. split.
  - intros _. by rewrite Z.sub_0_r.
  - unfold is_u64 in Hb. lia.
Qed.

Lemma metered_mono {A} (p : meter A) (P Q : A -> Prop) :
  (forall a, P a -> Q a) -> metered p P -> metered p Q.
Proof.
  intros HPQ Hp m Hm. specialize (Hp m Hm).
  destruct (p m) as [[m' [a|e]]|]; [|done|done].
  destruct Hp as (? & ? & ? & ?). auto.
Qed.

Lemma metered_bind {A B} (p : meter A) (f : A -> meter B) P Q :
  metered p P -> (forall a, P a -> metered (f a) Q) -> metered (p ≫= f) Q.
Proof.
  intros Hp Hf m Hm. specialize (Hp m Hm). unfold mbind, meter_bind.
  destruct (p m) as [[m1 [a|e]]|] eqn:Hpm; [|done|done].
  destruct Hp as (Hm1 & Hc1 & Ha & c1 & Hc1p & Hb1 & Hs1).
  specialize (Hf a Ha m1 Hm1). destruct (f a m1) as [[m2 [b2|e]]|] eqn:Hfm; [| |done].
  - destruct Hf as (Hm2 & Hc2 & Hb2P & c2 & Hc2p & Hb2 & Hs2).
    split; [done|]. split; [by eapply same_config_trans|]. split; [done|].
    exists (c1 + c2). split; [lia|]. split; [lia|]. intros b Hb. destruct (Hs1 b Hb) as [Hok1 Hoog1].
    unfold is_u64 in Hb. split.
    + intros Hle. rewrite Hok1 by lia. destruct (Hs2 (b - c1)) as [Hok2 _]; [unfold is_u64; lia|].
      rewrite Hok2 by lia. do 3 f_equal. lia.
    + intros Hlt. destruct (decide (b < c1)) as [Hb1'|Hb1'].
      * destruct (Hoog1 Hb1') as (m'' & -> & ?). eauto.
      * rewrite Hok1 by lia. destruct (Hs2 (b - c1)) as [_ Hoog2]; [unfold is_u64; lia|].
        apply Hoog2. lia.
  - destruct Hf as (Hm2 & Hc2 & He & Hle). split; [done|]. split; [by eapply same_config_trans|].
    split; [done|lia].
Qed.

(** A method that looks at its meter, but not at the balance. *)
Lemma metered_self {A} (f : AptosGasMeter -> meter A) P :
  (forall b m, f (set_balance b m) = f m) ->
  (forall m, meter_wf m -> metered (f m) P) -> metered (self ≫= f) P.
Proof.
  intros Hcong Hf m Hm. specialize (Hf m Hm m Hm).
  unfold mbind, meter_bind, self. destruct (f m m) as [[m' [a|e]]|] eqn:Hfm; [|done|done].
  destruct Hf as (? & ? & ? & c & ? & ? & Hs). split; [done|]. split; [done|]. split; [done|].
  exists c. split; [done|]. split; [done|]. intros b Hb. rewrite Hcong. by apply Hs.
Qed.

Lemma metered_pure {A} (x : comp Empty_set A) (a : A) (P : A -> Prop) :
  x = Return a -> P a -> metered (pure x) P.
Proof. intros -> Ha. by apply (metered_ret a). Qed.

Lemma metered_charge amount : is_u64 amount -> metered (charge amount) (fun _ => True).
Proof.
  intros Ha m Hm. pose proof (wf_balance m Hm) as Hb. unfold charge, mbind, meter_bind, self.
  rewrite checked_sub_spec by done. case_bool_decide as Hle; simpl.
  - assert (Hu : is_u64 (balance m - amount)) by (unfold is_u64 in *; lia).
    split; [by apply wf_set_balance|]. split; [done|]. split; [done|].
    exists amount. split; [apply Ha|]. split; [done|]. intros b Hbu. simpl.
    unfold mbind, meter_bind. simpl. rewrite checked_sub_spec by done. case_bool_decide; simpl.
    + split; [done|]. lia.
    + split; [lia|]. intros _. eexists. split; [reflexivity|]. done.
  - split; [by apply wf_set_balance; [apply is_u64_0|]|]. split; [done|]. split; [by left|apply Hb].
Qed.

(** What does not touch the balance spends nothing. *)
Lemma metered_quota (p : meter unit) :
  (forall b m, p (set_balance b m) =
     match p m with Some (m', r) => Some (set_balance b m', r) | None => None end) ->
  (forall m, meter_wf m ->
     exists m' r, p m = Some (m', r) /\ meter_wf m' /\ same_config m m' /\
       balance m' = balance m /\
       match r with Ok _ => True | Err e => emptied m' e end) ->
  metered p (fun _ => True).
Proof.
  intros Hcong Hp m Hm. destruct (Hp m Hm) as (m' & r & Hr & Hm' & Hc & Hb & He).
  rewrite Hr. destruct r as [[]|e].
  2: { split; [done|]. split; [done|]. split; [done|lia]. }
  split; [done|]. split; [done|]. split; [done|]. exists 0. split; [done|]. split; [lia|].
  intros b Hbu. split.
  - intros _. rewrite Hcong, Hr. by rewrite Z.sub_0_r.
  - unfold is_u64 in Hbu. lia.
Qed.

Lemma metered_use amount : is_u64 amount -> metered (use_heap_memory amount) (fun _ => True).
Proof.
  intros Ha. apply metered_quota.
  - intros b m. unfold use_heap_memory, mbind, meter_bind, self. simpl.
    destruct (3 <=? feature_version m); [|done]. by destruct (checked_sub (memory_quota m) amount).
  - intros m Hm. pose proof (wf_quota m Hm) as Hq.
    unfold use_heap_memory, mbind, meter_bind, self.
    destruct (Z.leb_spec 3 (feature_version m)); [|by eexists _, _].
    destruct (checked_sub (memory_quota m) amount) as [q|] eqn:Hc.
    + eexists _, _. split; [reflexivity|]. split; [|done].
      apply wf_set_quota; [|done]. by apply (checked_sub_u64 _ _ _ Hq Ha Hc).
    + eexists _, _. split; [reflexivity|]. split; [by apply wf_set_quota; [apply is_u64_0|]|].
      split; [done|]. split; [done|]. by right.
Qed.

Lemma metered_release amount : is_u64 amount -> metered (release_heap_memory amount) (fun _ => True).
Proof.
  intros Ha. apply metered_quota.
  - intros b m. unfold release_heap_memory, mbind, meter_bind, self. simpl.
    by destruct (3 <=? feature_version m).
  - intros m Hm. pose proof (wf_quota m Hm) as Hq.
    unfold release_heap_memory, mbind, meter_bind, self.
    destruct (3 <=? feature_version m); [|by eexists _, _].
    eexists _, _. split; [reflexivity|]. split; [|done].
    apply wf_set_quota; [|done]. by apply gas_add_u64.
Qed.

Lemma metered_set_table v : metered (update (set_is_call_table v)) (fun _ => True).
Proof.
  apply metered_quota; [done|]. intros m Hm. eexists _, _. split; [reflexivity|].
  split; [|done]. destruct Hm. by split.
Qed.
End Metered.

(** ** Every charge is metered *)

Section Charges.
Context `{GasAlgebra, !GasAlgebraLaws} {V : Type} `{!ValueView V, !ValueViewLaws V}.
Context {Address : Type} `{EqDecision Address} (CORE_CODE_ADDRESS : Address).
Context {StateKey : Type} (encode : StateKey -> option bytes) (size : StateKey -> nat).

Abbreviation view_ok := (fun val : V => value_ok (shape val)).

(** The operands of a charge: values without inner references, quantities in range, and
    state keys that can be serialised. *)
Definition op_ok (op : MeterOp V Address StateKey) : Prop :=
  match op with
  | OpNativeBefore args | OpPack _ args | OpUnpack _ args | OpDropFrame args => Forall view_ok args
  | OpCall args n | OpCallGeneric _ _ args n => is_u64 n
  | OpNative amount ret_vals => is_u64 amount /\ from_option (Forall view_ok) True ret_vals
  | OpLoadResource loaded => from_option (fun l => is_u64 l.1 /\ view_ok l.2) True loaded
  | OpPop val | OpLdConstAfter val | OpCopyLoc val | OpReadRef val => view_ok val
  | OpWriteRef _ old_val => view_ok old_val
  | OpEq lhs rhs | OpNeq lhs rhs => view_ok lhs /\ view_ok rhs
  | OpLdConst n | OpVecUnpack n _ | OpIntrinsic n => is_u64 n
  | OpWriteSet ops => Forall (fun kv => is_Some (encode kv.1)) ops
  | _ => True
  end.

Lemma params_of_u64 m : meter_wf m -> forall f, is_u64 (params_of m f).
Proof. intros Hm f. apply (wf_params m Hm). Qed.
Lemma instr_of_u64 m f : meter_wf m -> is_u64 (instr_of m f).
Proof. intros Hm. apply (wf_params m Hm). Qed.
Lemma txn_of_u64 m f : meter_wf m -> is_u64 (txn (gas_params m) f).
Proof. intros Hm. apply (wf_params m Hm). Qed.
#[local] Hint Resolve params_of_u64 instr_of_u64 txn_of_u64 : gas.

Lemma heap_size_u64 m (val : V) : meter_wf m -> view_ok val ->
  exists n, heap_size_of m val = Return n /\ is_u64 n.
Proof.
  intros Hm Hv. unfold heap_size_of. rewrite abstract_heap_size_spec by auto using params_of_u64.
  eexists. split; [done|]. by apply heap_part_u64, params_of_u64.
Qed.

Lemma stack_size_u64 m (val : V) : meter_wf m ->
  exists n, stack_size_of m val = Return n /\ is_u64 n.
Proof.
  intros Hm. unfold stack_size_of. rewrite abstract_stack_size_spec.
  eexists. split; [done|]. by apply root_u64, params_of_u64.
Qed.

Lemma packed_size_u64 m (val : V) : meter_wf m ->
  exists n, packed_size_of m val = Return n /\ is_u64 n.
Proof.
  intros Hm. unfold packed_size_of. rewrite abstract_packed_size_spec by auto using params_of_u64.
  eexists. split; [done|]. destruct (shape val); simpl; by apply params_of_u64.
Qed.

Lemma fold_sizes_u64 (f : V -> comp Empty_set Z) (vals : list V) :
  (forall val, val ∈ vals -> exists n, f val = Return n /\ is_u64 n) ->
  forall acc, is_u64 acc -> exists n, fold_sizes f vals acc = Return n /\ is_u64 n.
Proof.
  induction vals as [|val vals IH]; intros Hf acc Ha; simpl; [eauto|].
  destruct (Hf val) as (n & -> & Hn); [left|]. simpl. apply IH; [|auto with gas].
  intros val' Hin. apply Hf. by right.
Qed.

(** The common shapes of a charge. *)
Lemma metered_sized (x : comp Empty_set Z) (k : Z -> meter unit) :
  (exists n, x = Return n /\ is_u64 n) -> (forall n, is_u64 n -> metered (k n) (fun _ => True)) ->
  metered (pure x ≫= k) (fun _ => True).
Proof.
  intros (n & Hx & Hn) Hk. eapply metered_bind; [by apply (metered_pure x n is_u64)|]. auto.
Qed.

Lemma metered_then (p k : meter unit) :
  metered p (fun _ => True) -> metered k (fun _ => True) ->
  metered (p ≫= fun _ => k) (fun _ => True).
Proof. intros Hp Hk. eapply metered_bind; [exact Hp|]. auto. Qed.

Lemma num_bytes_u64 b : is_u64 (num_bytes b).
Proof. apply num_args_u64. Qed.
#[local] Hint Resolve num_bytes_u64 : gas.

Lemma write_op_size_u64 key value v : is_Some (encode key) ->
  exists n, write_op_size encode size key value v = Return n /\ is_u64 n.
Proof.
  intros [kb Hk]. unfold write_op_size. destruct (2 <? v).
  - eexists. split; [done|]. apply default_sub_u64; [auto with gas|]. unfold is_u64, U64. lia.
  - rewrite Hk. simpl. eexists. split; [done|]. auto with gas.
Qed.

Definition counters_u64 (c : Counters) : Prop :=
  is_u64 (num_items_create c) /\ is_u64 (num_items_write c) /\
  is_u64 (num_bytes_create c) /\ is_u64 (num_bytes_write c).

Lemma count_ops_u64 v (ops : list (StateKey * WriteOp)) :
  Forall (fun kv => is_Some (encode kv.1)) ops -> forall c, counters_u64 c ->
  exists c', count_ops encode size v ops c = Return c' /\ counters_u64 c'.
Proof.
  induction 1 as [|[key op] ops Hk Hops IH]; intros c Hc; simpl; [eauto|].
  destruct Hc as (? & ? & ? & ?). unfold count_op.
  destruct op as [data|data|]; [| |by apply IH];
    destruct (write_op_size_u64 key data v Hk) as (n & -> & Hn); simpl;
    apply IH; unfold counters_u64; simpl; auto with gas.
Qed.

Lemma storage_write_set_u64 s v (ops : list (StateKey * WriteOp)) :
  storage_wf s -> Forall (fun kv => is_Some (encode kv.1)) ops ->
  exists n, storage_write_set_gas encode size s ops v = Return n /\ is_u64 n.
Proof.
  intros (? & ? & ? & ? & ? & ?) Hops. unfold storage_write_set_gas.
  destruct (count_ops_u64 v ops Hops Counters_zero) as (c & -> & ? & ? & ? & ?).
  { unfold counters_u64. simpl. auto with gas. }
  simpl. eexists. split; [done|]. auto 20 with gas.
Qed.

Definition txn_counters_u64 (c : TxnCounters) : Prop :=
  is_u64 (num_ops c) /\ is_u64 (num_new_items c) /\
  is_u64 (num_bytes_key c) /\ is_u64 (num_bytes_val c).

Lemma txn_count_ops_u64 p (ops : list (StateKey * WriteOp)) :
  Forall (fun kv => is_Some (encode kv.1)) ops -> forall c, txn_counters_u64 c ->
  exists c', txn_count_ops encode p ops c = Return c' /\ txn_counters_u64 c'.
Proof.
  induction 1 as [|[key op] ops [kb Hk] Hops IH]; intros c Hc; simpl; [eauto|].
  destruct Hc as (? & ? & ? & ?). unfold txn_count_op. simpl in Hk. rewrite Hk.
  destruct (0 <? _), op as [data|data|]; simpl;
    apply IH; unfold txn_counters_u64; simpl; auto with gas.
Qed.

Lemma txn_write_set_u64 p (ops : list (StateKey * WriteOp)) :
  (forall f, is_u64 (p f)) -> Forall (fun kv => is_Some (encode kv.1)) ops ->
  exists n, txn_write_set_gas encode p ops = Return n /\ is_u64 n.
Proof.
  intros Hp Hops. unfold txn_write_set_gas.
  destruct (txn_count_ops_u64 p ops Hops TxnCounters_zero) as (c & -> & ? & ? & ? & ?).
  { unfold txn_counters_u64. simpl. auto with gas. }
  simpl. eexists. split; [done|]. auto 20 with gas.
Qed.

Lemma intrinsic_u64 (p : TransactionGasParameters) n :
  (forall f, is_u64 (p f)) -> is_u64 n ->
  exists g, calculate_intrinsic_gas p n = Return g /\ is_u64 g.
Proof.
  intros Hp Hn. unfold calculate_intrinsic_gas.
  destruct (Z.ltb_spec (p Txn.large_transaction_cutoff) n); [|eauto].
  rewrite checked_sub_spec by auto. rewrite bool_decide_true by lia. simpl.
  eexists. split; [done|]. apply gas_add_u64; [auto|]. apply gas_mul_u64; [|auto].
  pose proof (Hp Txn.large_transaction_cutoff). unfold is_u64 in *. lia.
Qed.

(** One step of the proof that a charge is metered. *)
Ltac meter_step :=
  match goal with
  | |- metered (charge _) _ => apply metered_charge; repeat case_match; auto 20 with gas
  | |- metered (use_heap_memory _) _ => apply metered_use; auto with gas
  | |- metered (release_heap_memory _) _ => apply metered_release; auto with gas
  | |- metered (mret tt) _ => by apply metered_ret
  | |- metered (self ≫= _) _ => apply metered_self; [reflexivity|intros ? ?]
  | |- metered (update (set_is_call_table _) ≫= _) _ =>
      apply metered_then; [apply metered_set_table|]
  | |- metered (pure _ ≫= _) _ => apply metered_sized; [|intros ? ?]
  | |- metered (_ ≫= fun _ => _) _ => apply metered_then
  | |- metered (match ?x with _ => _ end) _ => destruct x eqn:?
  end.

Lemma metered_load_resource loaded :
  from_option (fun l => is_u64 l.1 /\ view_ok l.2) True loaded ->
  metered (charge_load_resource loaded) (fun _ => True).
Proof.
  intros Hl. unfold charge_load_resource. meter_step.
  eapply (metered_bind _ _ is_u64); [|intros cost Hcost; meter_step].
  pose proof (wf_storage m H1) as Hs. destruct (feature_version m =? 0).
  - apply metered_ret. destruct loaded as [[n val]|]; simpl in Hl; auto 20 with gas.
    apply gas_add_u64; [auto with gas|]. apply gas_mul_u64; [auto with gas|tauto].
  - destruct Hs as (s & Hs & Hsw). rewrite Hs. eapply (metered_bind _ _ (fun _ => True)).
    + destruct loaded as [[n val]|]; [|by apply metered_ret].
      repeat meter_step. apply heap_size_u64; [done|]. apply Hl.
    + intros _ _. apply metered_ret. destruct Hsw as (? & ? & ? & ? & ? & ?).
      destruct loaded as [[n val]|]; simpl in Hl; auto 20 with gas.
      apply gas_add_u64; [auto with gas|]. apply gas_mul_u64; [auto with gas|tauto].
Qed.

Lemma metered_write_set ops :
  Forall (fun kv => is_Some (encode kv.1)) ops ->
  metered (charge_write_set_gas encode size ops) (fun _ => True).
Proof.
  intros Hops. unfold charge_write_set_gas. meter_step.
  eapply (metered_bind _ _ is_u64); [|intros cost Hcost; meter_step].
  pose proof (wf_storage m H1) as Hs. destruct (feature_version m =? 0).
  - destruct (txn_write_set_u64 (txn (gas_params m)) ops) as (n & Hn & Hu);
      [auto with gas|done|]. by eapply metered_pure.
  - destruct Hs as (s & Hs & Hsw). rewrite Hs.
    eapply (metered_bind _ _ (fun x => x = s)); [by eapply metered_pure|]. intros s' ->.
    destruct (storage_write_set_u64 s (feature_version m) ops Hsw Hops) as (n & Hn & Hu).
    by eapply metered_pure.
Qed.

Lemma Forall_heap_u64 m (vals : list V) : meter_wf m -> Forall view_ok vals ->
  exists n, fold_sizes (heap_size_of m) vals 0 = Return n /\ is_u64 n.
Proof.
  intros Hm Hv. apply fold_sizes_u64; [|auto with gas]. intros val Hin.
  apply heap_size_u64; [done|]. by rewrite Forall_forall in Hv; apply Hv.
Qed.
Lemma all_stack_u64 m (vals : list V) : meter_wf m ->
  exists n, fold_sizes (stack_size_of m) vals 0 = Return n /\ is_u64 n.
Proof.
  intros Hm. apply fold_sizes_u64; [|auto with gas]. intros val _. by apply stack_size_u64.
Qed.
Lemma all_packed_u64 m (vals : list V) : meter_wf m ->
  exists n, fold_sizes (packed_size_of m) vals 0 = Return n /\ is_u64 n.
Proof.
  intros Hm. apply fold_sizes_u64; [|auto with gas]. intros val _. by apply packed_size_u64.
Qed.

Lemma metered_comparison base per_unit (lhs rhs : V) :
  view_ok lhs -> view_ok rhs -> metered (charge_comparison base per_unit lhs rhs) (fun _ => True).
Proof.
  intros Hl Hr. unfold charge_comparison. meter_step.
  assert (Hd : forall val : V, view_ok val -> exists n,
    abstract_value_size_dereferenced (params_of m) val (feature_version m) = Return n /\ is_u64 n).
  { intros val Hv. rewrite dereferenced_spec by auto using params_of_u64.
    eexists. split; [done|]. apply sat_u64, shape_size_nonneg. by apply params_of_u64. }
  repeat meter_step; auto using heap_size_u64.
Qed.

Lemma metered_copy base per_unit (val : V) : view_ok val ->
  metered (m ← self;
           sizes ← pure (abstract_value_size_stack_and_heap (params_of m) val (feature_version m));
           let '(stack_size, heap_size) := sizes in
           _ ← use_heap_memory heap_size;
           charge (instr_of m base + instr_of m per_unit * (stack_size + heap_size))%gas)
          (fun _ => True).
Proof.
  intros Hv. meter_step. pose proof (params_of_u64 m H1) as Hp.
  eapply (metered_bind _ _ (fun x => is_u64 x.1 /\ is_u64 x.2)).
  { eapply metered_pure; [by apply stack_and_heap_spec|].
    split; [by apply root_u64|by apply heap_part_u64]. }
  intros [s h] [Hs Hh]. simpl in Hs, Hh. repeat meter_step.
Qed.

Lemma metered_intrinsic n : is_u64 n ->
  metered (charge_intrinsic_gas_for_transaction n) (fun _ => True).
Proof.
  intros Hn. unfold charge_intrinsic_gas_for_transaction. repeat meter_step.
  apply intrinsic_u64; auto with gas.
Qed.

Lemma metered_op (op : MeterOp V Address StateKey) :
  op_ok op -> metered (run_op CORE_CODE_ADDRESS encode size op) (fun _ => True).
Proof.
  intros Hop. destruct op; simpl in Hop |- *;
    try (by apply metered_load_resource); try (by apply metered_write_set);
    try (by apply metered_comparison; apply Hop); try (by apply metered_copy);
    try (by apply metered_intrinsic);
    unfold charge_simple_instr, charge_native_function_before_execution, charge_native_function,
      charge_pop, charge_call, charge_call_generic, charge_ld_const,
      charge_ld_const_after_deserialization, charge_move_loc, charge_store_loc, charge_pack,
      charge_unpack, charge_write_ref, charge_borrow_global, charge_exists, charge_move_from,
      charge_move_to, charge_vec_pack, charge_vec_unpack, charge_vec_len, charge_vec_borrow,
      charge_vec_push_back, charge_vec_pop_back, charge_vec_swap, charge_drop_frame,
      simple_instr_cost;
    repeat meter_step;
    auto using heap_size_u64, Forall_heap_u64, all_stack_u64, all_packed_u64, packed_size_u64;
    try tauto.
  apply Forall_heap_u64; [done|]. apply Hop.
Qed.

Lemma metered_ops (ops : list (MeterOp V Address StateKey)) :
  Forall op_ok ops -> metered (run_ops CORE_CODE_ADDRESS encode size ops) (fun _ => True).
Proof.
  induction 1 as [|op ops Hop Hops IH]; simpl; [by apply metered_ret|].
  apply metered_then; [by apply metered_op|done].
Qed.
End Charges.

(** ** Memory *)

Section Memory.
Context `{GasAlgebra, !GasAlgebraLaws} {V : Type} `{!ValueView V, !ValueViewLaws V}.
Context {Address : Type} `{EqDecision Address} (CORE_CODE_ADDRESS : Address).
Context {StateKey : Type} (encode : StateKey -> option bytes) (size : StateKey -> nat).
Abbreviation Op := (MeterOp V Address StateKey).
Abbreviation run := (run_op CORE_CODE_ADDRESS encode size).

(** [alloc] brings values into existence, and [free] drops or takes apart the same values. *)
Inductive frees : Op -> Op -> Prop :=
  | FreeCopy val : frees (OpCopyLoc val) (OpPop val)
  | FreeRead val : frees (OpReadRef val) (OpPop val)
  | FreeConst val : frees (OpLdConstAfter val) (OpDropFrame [val])
  | FreePack g g' args : frees (OpPack g args) (OpUnpack g' args)
  | FreeVec n args : frees (OpVecPack args) (OpVecUnpack n args)
  | FreePush val : frees (OpVecPushBack val) (OpVecPopBack (Some val))
  | FreeNative amount vals : frees (OpNative amount (Some vals)) (OpDropFrame vals).

Definition uses (p : meter unit) (n : Z) (m : AptosGasMeter) : Prop :=
  forall m1, p m = Some (m1, Ok tt) -> memory_quota m1 = memory_quota m - n.
Definition releases (p : meter unit) (n : Z) (m : AptosGasMeter) : Prop :=
  forall m1 r, p m = Some (m1, r) -> memory_quota m1 = gas_add (memory_quota m) n.

Lemma charge_keeps_quota amount m m1 r :
  charge amount m = Some (m1, r) -> memory_quota m1 = memory_quota m.
Proof.
  unfold charge, mbind, meter_bind, self. destruct (checked_sub _ _); simpl; by intros [= <- <-].
Qed.

Lemma use_then_charge n (k : meter unit) m :
  is_u64 (memory_quota m) -> is_u64 n -> 3 <= feature_version m ->
  (k = mret tt \/ exists c, k = charge c) ->
  uses (use_heap_memory n ≫= fun _ => k) n m.
Proof.
  intros Hq Hn Hv Hk m1. unfold use_heap_memory, mbind, meter_bind, self.
  rewrite (proj2 (Z.leb_le 3 _) Hv), checked_sub_spec by done.
  case_bool_decide; simpl; [|done].
  destruct Hk as [->|[c ->]]; [by intros [= <-]|]. intros Hc. by apply charge_keeps_quota in Hc.
Qed.

Lemma release_then_charge n (k : meter unit) m :
  3 <= feature_version m -> (k = mret tt \/ exists c, k = charge c) ->
  releases (release_heap_memory n ≫= fun _ => k) n m.
Proof.
  intros Hv Hk m1 r. unfold release_heap_memory, mbind, meter_bind, self.
  rewrite (proj2 (Z.leb_le 3 _) Hv). simpl.
  destruct Hk as [->|[c ->]]; [by intros [= <- <-]|]. intros Hc.
  by apply charge_keeps_quota in Hc.
Qed.

Lemma bind_ret_r (p : meter unit) m : (p ≫= fun _ => mret tt) m = p m.
Proof. unfold mbind, meter_bind, mret, meter_ret. by destruct (p m) as [[m' [[]|e]]|]. Qed.

Lemma self_bind {A} (f : AptosGasMeter -> meter A) m : (self ≫= f) m = f m m.
Proof. done. Qed.

Lemma pure_bind {A B} (x : comp Empty_set A) a (f : A -> meter B) m :
  x = Return a -> (pure x ≫= f) m = f a m.
Proof. by intros ->. Qed.

(** A charge that uses (releases) the memory [sz] computes. *)
Lemma uses_sized (sz : comp Empty_set Z) n (k : Z -> meter unit) m :
  sz = Return n -> uses (k n) n m -> uses (pure sz ≫= k) n m.
Proof. intros Hs Hk m1. rewrite (pure_bind _ n) by done. apply Hk. Qed.
Lemma releases_sized (sz : comp Empty_set Z) n (k : Z -> meter unit) m :
  sz = Return n -> releases (k n) n m -> releases (pure sz ≫= k) n m.
Proof. intros Hs Hk m1 r. rewrite (pure_bind _ n) by done. apply Hk. Qed.

Lemma heap_size_config m m1 (val : V) :
  same_config m m1 -> heap_size_of m1 val = heap_size_of m val.
Proof. intros (Hv & Hp & _). unfold heap_size_of, params_of. by rewrite Hv, Hp. Qed.
Lemma stack_size_config m m1 (val : V) :
  same_config m m1 -> stack_size_of m1 val = stack_size_of m val.
Proof. intros (Hv & Hp & _). unfold stack_size_of, params_of. by rewrite Hv, Hp. Qed.
Lemma packed_size_config m m1 (val : V) :
  same_config m m1 -> packed_size_of m1 val = packed_size_of m val.
Proof. intros (Hv & Hp & _). unfold packed_size_of, params_of. by rewrite Hp. Qed.
Lemma fold_sizes_ext (f g : V -> comp Empty_set Z) vals :
  (forall val, f val = g val) -> forall acc, fold_sizes f vals acc = fold_sizes g vals acc.
Proof.
  intros Hfg. induction vals as [|val vals IH]; intros acc; simpl; [done|]. rewrite Hfg.
  destruct (g val); simpl; [apply IH|done|done].
Qed.

Lemma copy_uses (m : AptosGasMeter) (val : V) base per_unit :
  meter_wf m -> 3 <= feature_version m -> value_ok (shape val) ->
  exists n, heap_size_of m val = Return n /\ is_u64 n /\
    uses (sizes ← pure (abstract_value_size_stack_and_heap (params_of m) val (feature_version m));
          let '(stack_size, heap_size) := sizes in
          _ ← use_heap_memory heap_size;
          charge (instr_of m base + instr_of m per_unit * (stack_size + heap_size))%gas) n m.
Proof.
  intros Hm Hv Hval. pose proof (params_of_u64 m Hm) as Hp.
  exists (heap_part (params_of m) (feature_version m) (shape val)).
  split; [by apply abstract_heap_size_spec|]. split; [by apply heap_part_u64|]. intros m1.
  rewrite (pure_bind _ _ _ _ (stack_and_heap_spec _ _ Hp val Hval)).
  apply use_then_charge; [apply Hm|by apply heap_part_u64|done|eauto].
Qed.

Lemma native_uses (m : AptosGasMeter) amount (vals : list V) n :
  fold_sizes (heap_size_of m) vals 0 = Return n -> is_u64 n -> meter_wf m ->
  3 <= feature_version m ->
  uses (charge_native_function amount (Some vals)) n m.
Proof.
  intros Hn Hu Hm Hv m1. unfold charge_native_function. rewrite self_bind.
  assert (Hass : ((n ← pure (fold_sizes (heap_size_of m) vals 0); use_heap_memory n)
                    ≫= fun _ => charge amount) m
                 = (use_heap_memory n ≫= fun _ => charge amount) m).
  { unfold mbind at 1 2, meter_bind. rewrite Hn. done. }
  rewrite Hass. apply use_then_charge; [apply Hm|done|done|eauto].
Qed.

(** The instructions that give heap memory back release what the values they
    drop were sized at, under any meter of the same configuration. *)
Lemma pop_releases (m m1 : AptosGasMeter) (val : V) n :
  heap_size_of m val = Return n -> 3 <= feature_version m -> same_config m m1 ->
  releases (charge_pop val) n m1.
Proof.
  intros Hn Hv Hc m2 r. unfold charge_pop. rewrite self_bind. revert m2 r.
  apply releases_sized; [by rewrite (heap_size_config m)|].
  apply release_then_charge; [|eauto]. by destruct Hc as (-> & _).
Qed.

Lemma drop_frame_releases (m m1 : AptosGasMeter) (locals : list V) n :
  fold_sizes (heap_size_of m) locals 0 = Return n -> 3 <= feature_version m ->
  same_config m m1 -> releases (charge_drop_frame locals) n m1.
Proof.
  intros Hn Hv Hc m2 r. unfold charge_drop_frame. rewrite self_bind.
  rewrite (pure_bind _ n).
  2: { rewrite <- Hn. apply fold_sizes_ext. intros val. by apply heap_size_config. }
  rewrite <- bind_ret_r. apply release_then_charge; [|auto]. by destruct Hc as (-> & _).
Qed.

Lemma frees_sizes (a f : Op) m :
  frees a f -> op_ok encode a -> meter_wf m -> 3 <= feature_version m ->
  exists n, is_u64 n /\ uses (run a) n m /\ forall m1, same_config m m1 -> releases (run f) n m1.
Proof.
  intros Hf Hok Hm Hv.
  assert (Hv1 : forall m1, same_config m m1 -> 3 <= feature_version m1)
    by (intros m1 (-> & _); done).
  destruct Hf as [val|val|val|g g' args|k args|val|amount vals]; simpl in Hok.
  - destruct (copy_uses m val Instr.copy_loc_base Instr.copy_loc_per_abs_val_unit Hm Hv Hok)
      as (n & Hn & Hu & Huse). exists n. split; [done|]. split; [exact Huse|].
    intros m1 Hc. by apply (pop_releases m).
  - destruct (copy_uses m val Instr.read_ref_base Instr.read_ref_per_abs_val_unit Hm Hv Hok)
      as (n & Hn & Hu & Huse). exists n. split; [done|]. split; [exact Huse|].
    intros m1 Hc. by apply (pop_releases m).
  - destruct (heap_size_u64 m val Hm Hok) as (n & Hn & Hu). exists n. split; [done|]. split.
    + intros m1. simpl. unfold charge_ld_const_after_deserialization. rewrite self_bind.
      rewrite (pure_bind _ n) by done. rewrite <- bind_ret_r.
      apply use_then_charge; [apply Hm|done|done|by left].
    + intros m1 Hc. apply (drop_frame_releases m); try done. simpl. rewrite Hn. simpl.
      rewrite gas_add_spec by auto with gas. f_equal. unfold is_u64, U64_MAX in *. lia.
  - destruct (all_stack_u64 m args Hm) as (n & Hn & Hu). exists n. split; [done|]. split.
    + intros m1. simpl. unfold charge_pack. rewrite self_bind. revert m1.
      apply uses_sized; [done|]. apply use_then_charge; [apply Hm|done|done|eauto].
    + intros m1 Hc m2 r. simpl. unfold charge_unpack. rewrite self_bind. revert m2 r.
      apply releases_sized; [|apply release_then_charge; eauto].
      rewrite <- Hn. apply fold_sizes_ext. intros val. by apply stack_size_config.
  - destruct (all_packed_u64 m args Hm) as (n & Hn & Hu). exists n. split; [done|]. split.
    + intros m1. simpl. unfold charge_vec_pack. rewrite self_bind. revert m1.
      apply uses_sized; [done|]. apply use_then_charge; [apply Hm|done|done|eauto].
    + intros m1 Hc m2 r. simpl. unfold charge_vec_unpack. rewrite self_bind. revert m2 r.
      apply releases_sized; [|apply release_then_charge; eauto].
      rewrite <- Hn. apply fold_sizes_ext. intros val. by apply packed_size_config.
  - destruct (packed_size_u64 m val Hm) as (n & Hn & Hu). exists n. split; [done|]. split.
    + intros m1. simpl. unfold charge_vec_push_back. rewrite self_bind. revert m1.
      apply uses_sized; [done|]. apply use_then_charge; [apply Hm|done|done|eauto].
    + intros m1 Hc m2 r. simpl. unfold charge_vec_pop_back. rewrite self_bind.
      assert (Hass : forall k : meter unit,
        ((n ← pure (packed_size_of m1 val); release_heap_memory n) ≫= fun _ => k) m1
        = (release_heap_memory n ≫= fun _ => k) m1).
      { intros k. unfold mbind at 1 2, meter_bind. rewrite (packed_size_config m) by done.
        rewrite Hn. done. }
      rewrite Hass. apply release_then_charge; eauto.
  - destruct Hok as [Ha Hok]. destruct (Forall_heap_u64 m vals Hm Hok) as (n & Hn & Hu).
    exists n. split; [done|]. split; [by apply native_uses|].
    intros m1 Hc. by apply (drop_frame_releases m).
Qed.

Lemma frees_restore (a f : Op) m m1 m2 r :
  frees a f -> op_ok encode a -> meter_wf m -> 3 <= feature_version m ->
  run a m = Some (m1, Ok tt) -> run f m1 = Some (m2, r) ->
  memory_quota m2 = memory_quota m.
Proof.
  intros Hf Hok Hm Hv Ha Hr.
  destruct (frees_sizes a f m Hf Hok Hm Hv) as (n & Hn & Huse & Hrel).
  pose proof (metered_op CORE_CODE_ADDRESS encode size a Hok m Hm) as Hma. rewrite Ha in Hma.
  destruct Hma as (Hm1 & Hc & _ & _). pose proof (Huse m1 Ha) as Hq1.
  rewrite (Hrel m1 Hc m2 r Hr), gas_add_spec by (done || apply Hm1).
  pose proof (wf_quota m Hm) as Hq. rewrite Hq1. unfold is_u64, U64_MAX in *. lia.
Qed.
End Memory.

(** ** The write-set formula *)

Section WriteSet.
Context `{GasAlgebra, !GasAlgebraLaws} {StateKey : Type}.
Context (encode : StateKey -> option bytes) (size : StateKey -> nat).
Abbreviation sat := Saturating.sat.

(** The number of bytes an operation is charged for, when the key can be serialised. *)
Definition op_bytes (v : Z) (key : StateKey) (value : bytes) : Z :=
  if 2 <? v then Z.max 0 (sat (num_args (size key) + num_bytes value) - 1024)
  else match encode key with
       | Some key_bytes => sat (num_bytes key_bytes + num_bytes value)
       | None => 0
       end.

Lemma write_op_size_exact v key value : is_Some (encode key) ->
  write_op_size encode size key value v = Return (op_bytes v key value) /\
  0 <= op_bytes v key value.
Proof.
  intros [kb Hk]. unfold write_op_size, op_bytes.
  pose proof (num_args_u64 (size key)). pose proof (num_args_u64 (length value)).
  destruct (2 <? v).
  - split; [|lia]. unfold num_bytes.
    rewrite gas_add_spec, checked_sub_spec; [|unfold is_u64, U64_MAX, U64 in *; lia| |done|done].
    + f_equal. case_bool_decide; simpl; unfold sat in *; lia.
    + unfold is_u64, U64. lia.
  - rewrite Hk. pose proof (num_args_u64 (length kb)). unfold num_bytes. simpl.
    rewrite gas_add_spec by done. unfold is_u64, sat, U64_MAX, U64 in *. split; [done|]. lia.
Qed.

(** What one operation adds to each counter. *)
Definition creates (op : WriteOp) : Z := match op with Creation _ => 1 | _ => 0 end.
Definition modifies (op : WriteOp) : Z := match op with Modification _ => 1 | _ => 0 end.
Definition create_bytes v key (op : WriteOp) : Z :=
  match op with Creation data => op_bytes v key data | _ => 0 end.
Definition modify_bytes v key (op : WriteOp) : Z :=
  match op with Modification data => op_bytes v key data | _ => 0 end.
Definition total (f : StateKey -> WriteOp -> Z) (ops : list (StateKey * WriteOp)) : Z :=
  foldr (fun kv n => f kv.1 kv.2 + n) 0 ops.

Definition sat_counters (a b c d : Z) : Counters :=
  {| num_items_create := sat a; num_items_write := sat b;
     num_bytes_create := sat c; num_bytes_write := sat d |}.

Lemma sat_1 : sat 1 = 1.
Proof. done. Qed.

Lemma op_bytes_sat v key value : is_Some (encode key) -> sat (op_bytes v key value) = op_bytes v key value.
Proof.
  intros Hk. destruct (write_op_size_u64 encode size key value v Hk) as (n & Hn & Hu).
  destruct (write_op_size_exact v key value Hk) as [He _]. rewrite He in Hn.
  injection Hn as ->. by apply sat_id.
Qed.

Lemma count_op_exact v key op a b c d :
  is_Some (encode key) -> 0 <= a -> 0 <= b -> 0 <= c -> 0 <= d ->
  count_op encode size v (sat_counters a b c d) key op
  = Return (sat_counters (a + creates op) (b + modifies op)
              (c + create_bytes v key op) (d + modify_bytes v key op)).
Proof.
  intros Hk ? ? ? ?. unfold count_op. destruct op as [data|data|]; simpl.
  3: { by rewrite !Z.add_0_r. }
  all: destruct (write_op_size_exact v key data Hk) as [-> Hn]; simpl; unfold sat_counters;
    rewrite !Z.add_0_r; rewrite <- (op_bytes_sat v key data) by done;
    rewrite <- sat_1 at 1; rewrite !gas_add_sat by lia;
    by rewrite (op_bytes_sat v key data).
Qed.

Lemma count_ops_exact v ops : Forall (fun kv => is_Some (encode kv.1)) ops ->
  forall a b c d, 0 <= a -> 0 <= b -> 0 <= c -> 0 <= d ->
  count_ops encode size v ops (sat_counters a b c d)
  = Return (sat_counters (a + total (fun _ op => creates op) ops)
              (b + total (fun _ op => modifies op) ops)
              (c + total (create_bytes v) ops) (d + total (modify_bytes v) ops)).
Proof.
  induction 1 as [|[key op] ops Hk Hops IH]; intros a b c d ? ? ? ?; simpl.
  { by rewrite !Z.add_0_r. }
  rewrite count_op_exact by done. simpl.
  assert (0 <= creates op /\ 0 <= modifies op /\
          0 <= create_bytes v key op /\ 0 <= modify_bytes v key op) as (? & ? & ? & ?).
  { destruct op as [data|data|]; simpl; try lia;
      destruct (write_op_size_exact v key data Hk); lia. }
  rewrite IH by lia. by rewrite !Z.add_assoc.
Qed.

Lemma sat_mul a p : 0 <= a -> is_u64 p -> gas_mul (sat a) p = sat (a * p).
Proof.
  intros Ha Hp. rewrite gas_mul_spec by (done || by apply sat_u64).
  change (sat (sat a * p) = sat (a * p)). unfold sat. unfold is_u64 in Hp.
  destruct (decide (p = 0)) as [->|]; [rewrite !Z.mul_0_r; done|].
  destruct (Z.le_ge_cases a U64_MAX); [by rewrite (Z.min_l a)|].
  rewrite (Z.min_r a) by done. unfold U64_MAX, U64 in *. nia.
Qed.

(** The gas of one operation, and of the whole write set, as integers. *)
Definition op_gas (s : StorageGasParameters) v (key : StateKey) (op : WriteOp) : Z :=
  match op with
  | Creation data => per_item_create s + op_bytes v key data * per_byte_create s
  | Modification data => per_item_write s + op_bytes v key data * per_byte_write s
  | Deletion => 0
  end.

Lemma total_nonneg f ops : Forall (fun kv => 0 <= f kv.1 kv.2) ops -> 0 <= total f ops.
Proof. induction 1; simpl; lia. Qed.

Lemma total_op_gas s v ops :
  total (fun _ op => creates op) ops * per_item_create s
  + total (fun _ op => modifies op) ops * per_item_write s
  + total (create_bytes v) ops * per_byte_create s
  + total (modify_bytes v) ops * per_byte_write s = total (op_gas s v) ops.
Proof. induction ops as [|[key [data|data|]] ops IH]; simpl; lia. Qed.

Lemma storage_gas_exact (s : StorageGasParameters) v ops :
  storage_wf s -> Forall (fun kv => is_Some (encode kv.1)) ops ->
  storage_write_set_gas encode size s ops v = Return (sat (total (op_gas s v) ops)).
Proof.
  intros (? & ? & ? & ? & ? & ?) Hops. unfold storage_write_set_gas.
  assert (Hz : Counters_zero = sat_counters 0 0 0 0) by done.
  rewrite Hz, (count_ops_exact v ops Hops) by done. rewrite !Z.add_0_l. simpl.
  assert (Hn : forall f, (forall key op, is_Some (encode key) -> 0 <= f key op) -> 0 <= total f ops).
  { intros f Hf. apply total_nonneg. eapply Forall_impl; [exact Hops|]. auto. }
  assert (Hb : forall key data, is_Some (encode key) -> 0 <= op_bytes v key data)
    by (intros key data Hk; by apply write_op_size_exact).
  assert (0 <= total (fun _ op => creates op) ops) by (apply Hn; by intros ? [] _).
  assert (0 <= total (fun _ op => modifies op) ops) by (apply Hn; by intros ? [] _).
  assert (0 <= total (create_bytes v) ops) by (apply Hn; intros ? [] ?; simpl; auto; lia).
  assert (0 <= total (modify_bytes v) ops) by (apply Hn; intros ? [] ?; simpl; auto; lia).
  unfold is_u64 in *. rewrite !sat_mul by done. rewrite !gas_add_sat by nia.
  by rewrite total_op_gas.
Qed.
End WriteSet.

(** ** The balance in gas units, the intrinsic gas, and the table flag *)

Section More.
Context `{GasAlgebra, !GasAlgebraLaws} {V : Type} `{!ValueView V, !ValueViewLaws V}.
Context {Address : Type} `{EqDecision Address} (CORE_CODE_ADDRESS : Address).
Abbreviation sat := Saturating.sat.

Lemma scaling_factor_pos (p : TransactionGasParameters) :
  (forall f, is_u64 (p f)) -> 1 <= scaling_factor p /\ is_u64 (scaling_factor p).
Proof.
  intros Hp. unfold scaling_factor. pose proof (Hp Txn.gas_unit_scaling_factor) as Hu.
  destruct (Z.eqb_spec (p Txn.gas_unit_scaling_factor) 0); [split; [lia|apply is_u64_1]|].
  split; [|done]. unfold is_u64 in Hu. lia.
Qed.

Lemma new_balance v (p : AptosGasParameters) s b (m : AptosGasMeter) :
  params_wf p -> is_u64 b -> AptosGasMeter_new v p s b = Some m ->
  Gas_balance m <= b /\ (b * scaling_factor (txn p) <= U64_MAX -> Gas_balance m = b).
Proof.
  intros Hp Hb. unfold AptosGasMeter_new. destruct (_ || _); [|done]. intros [= <-].
  unfold Gas_balance. simpl.
  destruct (scaling_factor_pos (txn p) (txn_u64 p Hp)) as [Hs Hsu].
  rewrite to_unit_spec by done. change (Z.min ?x U64_MAX) with (sat x).
  assert (Hx : 0 <= b * scaling_factor (txn p)) by (unfold is_u64 in *; nia).
  rewrite to_unit_round_down_spec; [|by apply sat_u64|apply is_u64_1|done|lia].
  rewrite Z.mul_1_r. pose proof (sat_u64 _ Hx) as Hxu. set (f := scaling_factor (txn p)) in *.
  assert (Hd : sat (b * f) / f <= b).
  { apply Z.div_le_upper_bound; [lia|]. unfold sat. lia. }
  split; [lia|]. intros Hle.
  assert (He : sat (b * f) = b * f) by (unfold sat; lia).
  rewrite He, Z.div_mul by lia. unfold is_u64, U64_MAX in *. lia.
Qed.

Lemma intrinsic_exact (p : TransactionGasParameters) n :
  (forall f, is_u64 (p f)) -> is_u64 n ->
  calculate_intrinsic_gas p n
  = Return (sat (p Txn.min_transaction_gas_units
                 + Z.max 0 (n - p Txn.large_transaction_cutoff) * p Txn.intrinsic_gas_per_byte)).
Proof.
  intros Hp Hn. unfold calculate_intrinsic_gas.
  pose proof (Hp Txn.large_transaction_cutoff) as Hc.
  pose proof (Hp Txn.min_transaction_gas_units) as Hmin.
  pose proof (Hp Txn.intrinsic_gas_per_byte) as Hper.
  destruct (Z.ltb_spec (p Txn.large_transaction_cutoff) n) as [Hlt|Hge].
  - rewrite checked_sub_spec, bool_decide_true by (done || lia). simpl.
    set (e := n - p Txn.large_transaction_cutoff) in *.
    assert (He : is_u64 e) by (unfold is_u64 in *; lia).
    rewrite Z.max_r by lia. rewrite <- (sat_id e) at 1 by done.
    unfold is_u64 in *. rewrite sat_mul by (done || lia).
    rewrite <- (sat_id (p Txn.min_transaction_gas_units)) at 1 by done.
    rewrite gas_add_sat by nia. done.
  - rewrite Z.max_l by lia. rewrite Z.add_0_r. by rewrite sat_id.
Qed.

(** A generic call into the table module sets the flag; a plain call leaves it set. *)
Lemma table_flag_stale m (args args' : list V) n n' (k : nat) m1 m2 :
  charge_call_generic CORE_CODE_ADDRESS (CORE_CODE_ADDRESS, "table"%string) k args n m
    = Some (m1, Ok tt) ->
  charge_call args' n' m1 = Some (m2, Ok tt) ->
  forall args'' : list V, charge_native_function_before_execution args'' m2 = Some (m2, Ok tt).
Proof.
  intros H1' H2' args''.
  assert (Hkeep : forall c (ma mb : AptosGasMeter) r, charge c ma = Some (mb, r) ->
    is_call_table mb = is_call_table ma).
  { intros c ma mb r. unfold charge, mbind, meter_bind, self.
    destruct (checked_sub _ _); simpl; by intros [= <- <-]. }
  unfold charge_call_generic, charge_call in *.
  apply (Hkeep _ (set_is_call_table _ m)) in H1'. apply (Hkeep _ m1) in H2'. simpl in H1'.
  rewrite !bool_decide_true in H1' by done. simpl in H1'.
  unfold charge_native_function_before_execution. rewrite self_bind.
  by rewrite H2', H1'.
Qed.
End More.

(** ** Properties *)

Import Saturating.

(** A meter of feature version 3, with the same price for everything. *)
Definition example_params : AptosGasParameters :=
  {| misc := {| abs_val := fun _ => 40 |}; instr := fun _ => 100; txn := fun _ => 1000;
     natives := {| move_stdlib := fun _ => 0; aptos_framework := fun _ => 0;
                   table := fun _ => 0 |} |}.
Definition example_storage : StorageGasParameters :=
  {| per_item_read := 3; per_item_create := 5; per_item_write := 2; per_byte_read := 1;
     per_byte_create := 1; per_byte_write := 1 |}.
Definition example_meter : AptosGasMeter :=
  {| feature_version := 3; gas_params := example_params;
     storage_gas_params := Some example_storage; balance := 100000; memory_quota := 1000;
     is_call_table := false |}.

Lemma example_params_wf : params_wf example_params.
Proof. split; intros f; vm_compute; intuition discriminate. Qed.
Lemma example_storage_wf : storage_wf example_storage.
Proof. vm_compute; intuition discriminate. Qed.
Lemma example_meter_wf : meter_wf example_meter.
Proof.
  split; [apply example_params_wf|vm_compute; discriminate| |vm_compute; intuition discriminate..].
  simpl. exists example_storage. split; [done|]. apply example_storage_wf.
Qed.

(** C33. Metering is sound: a sequence of any of the charges never panics and keeps the
    configuration; it fails only by emptying the balance or the memory quota; and what it
    spends does not depend on the balance, so that from any balance at least as large it
    succeeds and spends the same, and from any smaller one it runs out of gas at zero. *)
Theorem charges_metered `{GasAlgebra, !GasAlgebraLaws} {V : Type} `{!ValueView V, !ValueViewLaws V}
  {Address : Type} `{EqDecision Address} (core : Address) {StateKey : Type}
  (encode : StateKey -> option bytes) (size : StateKey -> nat)
  (ops : list (MeterOp V Address StateKey)) (m : AptosGasMeter)
  (Hm : meter_wf m) (Hops : Forall (op_ok encode) ops) :
  match run_ops core encode size ops m with
  | None => False
  | Some (m', Ok _) =>
      meter_wf m' /\ same_config m m' /\
      exists c, 0 <= c /\ balance m' = balance m - c /\
        forall b, is_u64 b ->
          (c <= b -> run_ops core encode size ops (set_balance b m)
                     = Some (set_balance (b - c) m', Ok tt)) /\
          (b < c -> exists m'', run_ops core encode size ops (set_balance b m)
                     = Some (m'', Err {| status := OUT_OF_GAS; sub_status := None |})
                     /\ balance m'' = 0)
  | Some (m', Err e) =>
      meter_wf m' /\ same_config m m' /\
      ((status e = OUT_OF_GAS /\ balance m' = 0) \/
       (status e = MEMORY_LIMIT_EXCEEDED /\ memory_quota m' = 0 /\ 3 <= feature_version m'))
  end.
Proof.
  pose proof (metered_ops core encode size ops Hops m Hm) as Hr.
  destruct (run_ops core encode size ops m) as [[m' [[]|e]]|]; [| |done].
  - destruct Hr as (? & ? & _ & c & ? & ? & Hs). eauto 10.
  - destruct Hr as (? & ? & [[-> ?]|[-> ?]] & _); auto.
Qed.

Lemma charges_metered_witness :
  let ops : list (MeterOp Shape nat bytes) :=
    [OpCopyLoc (SVec [SPrim PU8]); OpPop (SVec [SPrim PU8]); OpWriteSet [([1], Creation [2])]] in
  match run_ops 0%nat Some length ops example_meter with
  | Some (m', Ok _) => meter_wf m' /\ same_config example_meter m'
  | _ => False
  end.
Proof.
  intros ops.
  assert (Hr : exists m', run_ops 0%nat Some length ops example_meter = Some (m', Ok tt))
    by (eexists; vm_compute; reflexivity).
  destruct Hr as (m' & Hr). rewrite Hr.
  pose proof (charges_metered 0%nat Some length ops example_meter example_meter_wf) as Hc.
  rewrite Hr in Hc. destruct Hc as (Hw & Hs & _); [|by split].
  repeat constructor; eexists; reflexivity.
Defined.

(** C20. Memory is given back: bringing values into existence and then dropping or taking apart
    the same values (copying or reading and popping, packing and unpacking, pushing and
    popping back, returning from a native and dropping the frame) leaves the memory quota
    exactly where it was, whatever gas the two charges cost. *)
Theorem memory_restored `{GasAlgebra, !GasAlgebraLaws} {V : Type} `{!ValueView V, !ValueViewLaws V}
  {Address : Type} `{EqDecision Address} (core : Address) {StateKey : Type}
  (encode : StateKey -> option bytes) (size : StateKey -> nat)
  (alloc free : MeterOp V Address StateKey) (m m1 m2 : AptosGasMeter) (r : PartialVMResult unit)
  (Hf : frees alloc free) (Hok : op_ok encode alloc) (Hm : meter_wf m)
  (Hv : 3 <= feature_version m)
  (Ha : run_op core encode size alloc m = Some (m1, Ok tt))
  (Hr : run_op core encode size free m1 = Some (m2, r)) :
  memory_quota m2 = memory_quota m.
Proof. by eapply frees_restore. Qed.

Lemma memory_restored_witness :
  exists m1 m2, run_op 0%nat (Some (A := bytes)) length
      (OpVecPack [SPrim PU8; SStruct []] : MeterOp Shape nat bytes) example_meter = Some (m1, Ok tt)
    /\ memory_quota m1 = 920 /\ memory_quota m2 = 1000.
Proof.
  eexists _, _. split; [vm_compute; reflexivity|]. split; [reflexivity|].
  refine (memory_restored 0%nat (Some (A := bytes)) length
    (OpVecPack [SPrim PU8; SStruct []] : MeterOp Shape nat bytes)
    (OpVecUnpack 2 [SPrim PU8; SStruct []]) example_meter _ _ (Ok tt) _ I example_meter_wf _
    _ _); [constructor|vm_compute; discriminate|vm_compute; reflexivity..].
Defined.

(** C40. The write-set charge is exact: a creation or modification costs its item and its bytes, a
    deletion nothing, the sum saturates at the largest [u64], and so it does not depend on
    the order of the operations. *)
Theorem write_set_gas_exact `{GasAlgebra, !GasAlgebraLaws} {StateKey : Type}
  (encode : StateKey -> option bytes) (size : StateKey -> nat) (s : StorageGasParameters) (v : Z)
  (ops : list (StateKey * WriteOp)) (Hs : storage_wf s)
  (Hops : Forall (fun kv => is_Some (encode kv.1)) ops) :
  storage_write_set_gas encode size s ops v
  = Return (Z.min (total (op_gas encode size s v) ops) U64_MAX) /\
  forall ops', ops' ≡ₚ ops ->
    storage_write_set_gas encode size s ops' v = storage_write_set_gas encode size s ops v.
Proof.
  split; [by apply storage_gas_exact|]. intros ops' Hp.
  rewrite !storage_gas_exact by (done || by rewrite Hp). do 2 f_equal.
  clear Hops. induction Hp; simpl; lia.
Qed.

Lemma write_set_gas_exact_witness :
  storage_write_set_gas (StateKey := bytes) Some length example_storage
    [([1], Creation (repeat 0 1030)); ([2], Deletion)] 3 = Return 12.
Proof.
  exact (proj1 (write_set_gas_exact (StateKey := bytes) Some length example_storage 3
    [([1], Creation (repeat 0 1030)); ([2], Deletion)] example_storage_wf
    ltac:(repeat constructor; eexists; reflexivity))).
Defined.

(** The intrinsic gas of a transaction is the minimum fee plus a price per byte above the
    cutoff, saturating, so it never decreases with the size. *)
Theorem intrinsic_gas_exact `{GasAlgebra, !GasAlgebraLaws} (p : TransactionGasParameters) (n : Z)
  (Hp : forall f, is_u64 (p f)) (Hn : is_u64 n) :
  calculate_intrinsic_gas p n
  = Return (Z.min (p Txn.min_transaction_gas_units
                   + Z.max 0 (n - p Txn.large_transaction_cutoff) * p Txn.intrinsic_gas_per_byte)
                  U64_MAX) /\
  forall n' g g', is_u64 n' -> n <= n' ->
    calculate_intrinsic_gas p n = Return g -> calculate_intrinsic_gas p n' = Return g' -> g <= g'.
Proof.
  split; [by apply intrinsic_exact|]. intros n' g g' Hn' Hle.
  rewrite !intrinsic_exact by done. intros [= <-] [= <-]. unfold sat.
  pose proof (Hp Txn.intrinsic_gas_per_byte) as Hper. unfold is_u64 in Hper. nia.
Qed.

Lemma intrinsic_gas_exact_witness :
  calculate_intrinsic_gas (txn example_params) 1003 = Return 4000.
Proof.
  exact (proj1 (intrinsic_gas_exact (txn example_params) 1003
    (txn_u64 _ example_params_wf) ltac:(vm_compute; intuition discriminate))).
Defined.

(** The gas a meter is created with is the gas it shows, unless the conversion to internal
    units saturates; and it never shows more. *)
Theorem balance_roundtrip `{GasAlgebra, !GasAlgebraLaws} (v : Z) (p : AptosGasParameters)
  (s : option StorageGasParameters) (b : Z) (m : AptosGasMeter)
  (Hp : params_wf p) (Hb : is_u64 b) (Hm : AptosGasMeter_new v p s b = Some m) :
  Gas_balance m <= b /\ (b * scaling_factor (txn p) <= U64_MAX -> Gas_balance m = b).
Proof. by eapply new_balance. Qed.

Lemma balance_roundtrip_witness :
  exists m, AptosGasMeter_new 3 example_params (Some example_storage) 77 = Some m /\
    Gas_balance m <= 77.
Proof.
  eexists. split; [reflexivity|].
  refine (proj1 (balance_roundtrip 3 example_params (Some example_storage) 77 _
    example_params_wf _ _)); [vm_compute; intuition discriminate|reflexivity].
Defined.

(** The flag that exempts the table natives from releasing memory is set by a generic call
    and kept by a plain one: after a generic call into the table module, a plain call to any
    native is still treated as a table call, and the memory of its arguments is not
    released. *)
Theorem table_flag_kept_by_plain_call `{GasAlgebra} {V : Type} `{!ValueView V}
  {Address : Type} `{EqDecision Address} (core : Address) (m m1 m2 : AptosGasMeter)
  (args args' args'' : list V) (n n' : Z) (k : nat)
  (Hg : charge_call_generic core (core, "table"%string) k args n m = Some (m1, Ok tt))
  (Hp : charge_call args' n' m1 = Some (m2, Ok tt)) :
  charge_native_function_before_execution args'' m2 = Some (m2, Ok tt).
Proof. by eapply table_flag_stale. Qed.

Lemma table_flag_kept_by_plain_call_witness :
  exists m1 m2,
    charge_call_generic (V := Shape) 1%nat (1%nat, "table"%string) 1 [] 0 example_meter
      = Some (m1, Ok tt) /\
    charge_call [SVec [SPrim PU8]] 0 m1 = Some (m2, Ok tt) /\
    charge_native_function_before_execution [SVec [SPrim PU8]] m2 = Some (m2, Ok tt).
Proof.
  assert (Hc : exists m1,
    charge_call_generic (V := Shape) 1%nat (1%nat, "table"%string) 1 [] 0 example_meter
      = Some (m1, Ok tt) /\
    exists m2, charge_call [SVec [SPrim PU8]] 0 m1 = Some (m2, Ok tt)).
  { eexists. split; [vm_compute; reflexivity|]. eexists. vm_compute. reflexivity. }
  destruct Hc as (m1 & Hg & m2 & Hp). exists m1, m2. split; [exact Hg|]. split; [exact Hp|].
  exact (table_flag_kept_by_plain_call 1%nat example_meter m1 m2 [] [SVec [SPrim PU8]]
    [SVec [SPrim PU8]] 0 0 1 Hg Hp).
Defined.
