(* ===== verification/Natives.v ===== *)
(** * Natives of the framework
    ([framework/src/natives/{account,any,event,hash,mod,state_storage,transaction_context,
    type_info,util}.rs])

    A native takes the values that its Move arguments hold (the popping and casting of
    [pop_arg!] is the Move VM's), computes its cost from the gas parameters of
    [aptos_framework], and gives the cost with the values it returns or the code it aborts with.
    The gas parameters are read by their paths in [GasSchedule.aptos_framework_table].
    [NativeCrypto] and [Ristretto] hold the natives of [cryptography/], [AggregatorContext]
    those of the aggregators and [Publish] that of [code.rs]. *)
From S2P Require Import Prelude GasSchedule GasSize GasProps.

(** [NativeResult]: the cost, and the values returned or the abort code. *)
Record NativeResult (V : Type) := { cost : Z; native_result : result Z V }.
Arguments cost {V}.
Arguments native_result {V}.

Module Native.
Definition ok {V} (c : Z) (v : V) : NativeResult V := {| cost := c; native_result := Ok v |}.
Definition err {V} (c code : Z) : NativeResult V := {| cost := c; native_result := Err code |}.
End Native.

Module abort_codes.
Definition NFE_EXPECTED_STRUCT_TYPE_TAG : Z := 0x1.
Definition NFE_UNABLE_TO_PARSE_ADDRESS : Z := 0x2.
Definition EFROM_BYTES : Z := 0x010001.
End abort_codes.
Import abort_codes.

(** [NumArgs::one()], and [str::as_bytes]. *)
Definition one : Z := 1.

Fixpoint as_bytes (s : string) : bytes :=
  match s with
  | EmptyString => []
  | String c s => Z.of_N (Ascii.N_of_ascii c) :: as_bytes s
  end.

Section Natives.
Context `{GasAlgebra}.
(** The gas parameters of the framework. *)
Context (p : string -> Z).

(** ** [account.rs] *)
Section Account.
Context {AccountAddress : Type} (from_bytes : bytes -> option AccountAddress).

Definition native_create_address (bytes : bytes) : NativeResult AccountAddress :=
  let cost := p "account.create_address.base" in
  match from_bytes bytes with
  | Some address => Native.ok cost address
  | None => Native.err cost NFE_UNABLE_TO_PARSE_ADDRESS
  end.

Definition native_create_signer (address : AccountAddress) : NativeResult AccountAddress :=
  Native.ok (p "account.create_signer.base") address.
End Account.

(** ** [hash.rs]: a base cost, and one for each byte; the two hashes are other crates. *)
Section Hash.
Context (sip_hash : bytes -> Z) (keccak256 : bytes -> bytes).

Definition native_sip_hash (bytes : bytes) : NativeResult Z :=
  let cost := (p "hash.sip_hash.base" + p "hash.sip_hash.per_byte" * num_args (length bytes))%gas in
  Native.ok cost (sip_hash bytes).

Definition native_keccak256 (bytes : Prelude.bytes) : NativeResult Prelude.bytes :=
  let cost := (p "hash.keccak256.base"
               + p "hash.keccak256.per_byte" * num_args (length bytes))%gas in
  Native.ok cost (keccak256 bytes).
End Hash.

(** ** [event.rs]: [NativeContext::save_event] is the Move VM's. *)
Section Event.
Context {Value Type_ Context_ : Type}.
Context (calc_abstract_val_size : Value -> Z).
Context (save_event : Context_ -> bytes -> Z -> Type_ -> Value -> PartialVMResult (bool * Context_)).

Definition native_write_to_event_store (context : Context_) (ty : Type_) (guid : bytes)
    (seq_num : Z) (msg : Value) : PartialVMResult (NativeResult unit * Context_) :=
  let cost := (p "event.write_to_event_store.base"
               + p "event.write_to_event_store.per_abstract_value_unit"
                 * calc_abstract_val_size msg)%gas in
  '(saved, context) ← save_event context guid seq_num ty msg;
  Ok (if saved : bool then Native.ok cost tt else Native.err cost 0, context).
End Event.

(** ** [state_storage.rs] and [transaction_context.rs]: what the session's extensions hold *)
Section Extensions.
Context {AnyhowError : Type}.

Record StateStorageUsage := { items : Z; usage_bytes : Z }.

Record NativeStateStorageContext := { resolver : unit -> result AnyhowError StateStorageUsage }.

Definition NativeStateStorageContext_new resolver : NativeStateStorageContext :=
  {| resolver := resolver |}.

(** [assert!(_ty_args.is_empty())], [assert!(_args.is_empty())]: with arguments it panics. *)
Definition native_get_usage (ctx : NativeStateStorageContext) (ty_args args : nat)
    : comp PartialVMError (NativeResult (Z * Z)) :=
  if (ty_args =? 0)%nat && (args =? 0)%nat then
    usage ← lift (map_err (fun _ => {| status := VM_EXTENSION_ERROR; sub_status := None |})
                    (resolver ctx tt));
    Return (Native.ok (p "state_storage.get_usage.base_cost")
              (items usage mod U64, usage_bytes usage mod U64))
  else Panic.

Record NativeTransactionContext := { script_hash : bytes }.

Definition NativeTransactionContext_new script_hash : NativeTransactionContext :=
  {| script_hash := script_hash |}.

Definition native_get_script_hash (ctx : NativeTransactionContext) : NativeResult bytes :=
  Native.ok (p "transaction_context.get_script_hash.base") (script_hash ctx).
End Extensions.

(** ** [type_info.rs]: the [Display] of a type is that of [move-core-types]. *)
Section TypeInfo.
Context {AccountAddress StructName TypeTag Type_ : Type}.

Record StructTag := {
  address : AccountAddress;
  module : string;
  name : string;
  type_params : list TypeTag;
}.

(** [TypeTag::Struct] or another type, and [type_to_type_tag] of the context. *)
Context (as_struct : TypeTag -> option StructTag) (type_tag_to_string : TypeTag -> string).
Context (type_to_type_tag : Type_ -> PartialVMResult TypeTag).

Definition type_of_internal (struct_tag : StructTag) : AccountAddress * bytes * bytes :=
  let name :=
    match type_params struct_tag with
    | [] => name struct_tag
    | first_ty :: rest =>
        foldl (fun name ty => name +:+ ", " +:+ type_tag_to_string ty)
          (name struct_tag +:+ "<" +:+ type_tag_to_string first_ty) rest +:+ ">"
    end%string in
  (address struct_tag, as_bytes (module struct_tag), as_bytes name).

Definition native_type_of (ty : Type_) : PartialVMResult (NativeResult (AccountAddress * bytes * bytes)) :=
  type_tag ← type_to_type_tag ty;
  let cost := p "type_info.type_of.base" in
  let per_byte := p "type_info.type_of.per_byte_in_str" in
  let cost :=
    if bool_decide (0 < per_byte)
    then (cost + per_byte * num_args (String.length (type_tag_to_string type_tag)))%gas
    else cost in
  Ok (match as_struct type_tag with
      | Some struct_tag => Native.ok cost (type_of_internal struct_tag)
      | None => Native.err cost NFE_EXPECTED_STRUCT_TYPE_TAG
      end).

Definition native_type_name (ty : Type_) : PartialVMResult (NativeResult bytes) :=
  type_tag ← type_to_type_tag ty;
  let type_name := type_tag_to_string type_tag in
  let cost := (p "type_info.type_name.base"
               + p "type_info.type_name.per_byte_in_str" * num_args (String.length type_name))%gas in
  Ok (Native.ok cost (as_bytes type_name)).
End TypeInfo.

(** ** [util.rs]: [Value::simple_deserialize] for the layout of a type is the Move VM's. *)
Section Util.
Context {Type_ Layout Value : Type}.
Context (type_to_type_layout : Type_ -> PartialVMResult (option Layout)).
Context (simple_deserialize : bytes -> Layout -> option Value).

Definition native_from_bytes (ty : Type_) (bytes : bytes) : PartialVMResult (NativeResult Value) :=
  layout ← type_to_type_layout ty;
  layout ← ok_or layout
    {| status := UNKNOWN_INVARIANT_VIOLATION_ERROR; sub_status := None |};
  let cost := (p "util.from_bytes.base"
               + p "util.from_bytes.per_byte" * num_args (length bytes))%gas in
  Ok (match simple_deserialize bytes layout with
      | Some val => Native.ok cost val
      | None => Native.err cost EFROM_BYTES
      end).
End Util.
End Natives.

(** ** [any.rs]: a value with the name of its type; BCS is another crate. *)
Module Any.
Section Any.
Context {T BcsError : Type}.
Context (to_bytes : T -> result BcsError bytes) (from_bytes : bytes -> result BcsError T).

Record Any := { type_name : string; data : bytes }.

Definition pack (move_name : string) (x : T) : comp Empty_set Any :=
  match to_bytes x with
  | Ok data => Return {| type_name := move_name; data := data |}
  | Err _ => Panic
  end.

(** The error is that of BCS, or "type mismatch". *)
Definition unpack (move_name : string) (x : Any) : result (option BcsError) T :=
  if bool_decide (type_name x = move_name) then map_err Some (from_bytes (data x)) else Err None.

(** A packed value comes back under its own name, and under no other. *)
Lemma unpack_pack move_name other x b :
  to_bytes x = Ok b -> from_bytes b = Ok x ->
  exists a, pack move_name x = Return a /\
    unpack other a = if bool_decide (move_name = other) then Ok x else Err None.
Proof.
  intros Ht Hf. unfold pack. rewrite Ht. eexists. split; [done|].
  unfold unpack; cbn [type_name data]. case_bool_decide; [by rewrite Hf | done].
Qed.
End Any.
End Any.

(** ** [mod.rs]: the table of the natives, by the module and the function they implement *)
Module Table.
Definition account := ["create_address"; "create_signer"]%string.
Definition ed25519 := ["public_key_validate_internal"; "signature_verify_strict_internal"]%string.
Definition multi_ed25519 := ["public_key_validate_internal"; "signature_verify_strict_internal"]%string.
Definition bls12381 := [
  "aggregate_pubkeys_internal"; "aggregate_signatures_internal";
  "signature_subgroup_check_internal"; "validate_pubkey_internal";
  "verify_aggregate_signature_internal"; "verify_multisignature_internal";
  "verify_normal_signature_internal"; "verify_proof_of_possession_internal";
  "verify_signature_share_internal"]%string.
Definition secp256k1 := ["ecdsa_recover_internal"]%string.
Definition hash := ["sip_hash"; "keccak256"]%string.
Definition ristretto255 := [
  "point_is_canonical_internal"; "point_identity_internal"; "point_decompress_internal";
  "point_compress_internal"; "point_mul_internal"; "point_equals"; "point_neg_internal";
  "point_add_internal"; "point_sub_internal"; "basepoint_mul_internal";
  "basepoint_double_mul_internal"; "new_point_from_sha512_internal";
  "new_point_from_64_uniform_bytes_internal"; "multi_scalar_mul_internal";
  "scalar_is_canonical_internal"; "scalar_invert_internal"; "scalar_from_sha512_internal";
  "scalar_mul_internal"; "scalar_add_internal"; "scalar_sub_internal"; "scalar_neg_internal";
  "scalar_from_u64_internal"; "scalar_from_u128_internal";
  "scalar_reduced_from_32_bytes_internal"; "scalar_uniform_from_64_bytes_internal"]%string.
Definition type_info := ["type_of"; "type_name"]%string.
Definition util := ["from_bytes"]%string.
Definition transaction_context := ["get_script_hash"]%string.
Definition code := ["request_publish"; "request_publish_with_allowed_deps"]%string.
Definition event := ["write_to_event_store"]%string.
Definition state_storage := ["get_state_storage_usage_only_at_epoch_beginning"]%string.
Definition aggregator := ["add"; "read"; "sub"; "destroy"]%string.
Definition aggregator_factory := ["new_aggregator"]%string.

Definition add_natives_from_module {Addr} (framework_addr : Addr) (module_name : string)
    (natives : list string) : list (Addr * string * string) :=
  (fun func_name => (framework_addr, module_name, func_name)) <$> natives.

(** [genesis] has the natives of [account], [from_bcs] those of [util]. *)
Definition all_natives {Addr} (framework_addr : Addr) : list (Addr * string * string) :=
  let add := add_natives_from_module framework_addr in
  (add "account"%string account
   ++ add "ed25519"%string ed25519
   ++ add "genesis"%string account
   ++ add "multi_ed25519"%string multi_ed25519
   ++ add "bls12381"%string bls12381
   ++ add "secp256k1"%string secp256k1
   ++ add "aptos_hash"%string hash
   ++ add "ristretto255"%string ristretto255
   ++ add "type_info"%string type_info
   ++ add "util"%string util
   ++ add "from_bcs"%string util
   ++ add "transaction_context"%string transaction_context
   ++ add "code"%string code
   ++ add "event"%string event
   ++ add "state_storage"%string state_storage
   ++ add "aggregator"%string aggregator
   ++ add "aggregator_factory"%string aggregator_factory).

(** [patch_table_module]: every native moves to the module [table]. *)
Definition patch_table_module {Addr F} (table : list (Addr * string * string * F))
    : list (Addr * string * string * F) :=
  (fun '(m, _, f, i) => (m, "table"%string, f, i)) <$> table.

(** No native is registered twice. *)
Lemma all_natives_NoDup {Addr} `{EqDecision Addr} (a : Addr) : NoDup (all_natives a).
Proof.
  assert (Hs : NoDup ((fun x => (x.1.2, x.2)) <$> all_natives a)).
  { refine (bool_decide_unpack (dec := NoDup_dec _) _ _). vm_compute. exact I. }
  by eapply NoDup_fmap_1.
Qed.
End Table.

(** ** Exact costs

    [saturates c z]: the quantity [c] is [z], or the largest [u64] if [z] is larger.  Additions
    and products of such quantities are such quantities, so that the cost of a native is read off
    its code. *)
Definition saturates (c z : Z) : Prop := 0 <= z /\ c = Saturating.sat z.

Section Saturates.
Context `{GasAlgebra, !GasAlgebraLaws}.

Lemma saturates_u64 a : is_u64 a -> saturates a a.
Proof. intros Ha. split; [apply Ha | by rewrite sat_id]. Qed.

Lemma saturates_add a b x y : saturates a x -> saturates b y -> saturates (gas_add a b) (x + y).
Proof. intros [Hx ->] [Hy ->]. split; [lia | by apply gas_add_sat]. Qed.

Lemma saturates_mul a b x y : saturates a x -> saturates b y -> saturates (gas_mul a b) (x * y).
Proof.
  intros [Hx ->] [Hy ->]. split; [nia|]. rewrite gas_mul_spec by by apply sat_u64.
  unfold Saturating.sat, U64_MAX, U64. destruct (decide (x = 0)), (decide (y = 0)); nia.
Qed.

Lemma saturates_one : saturates one 1.
Proof. apply saturates_u64, is_u64_1. Qed.

Lemma saturates_num_args n : Z.of_nat n < U64 -> saturates (num_args n) (Z.of_nat n).
Proof.
  intros Hn. unfold num_args. rewrite Z.mod_small by lia. apply saturates_u64. unfold is_u64. lia.
Qed.

Lemma saturates_exact c z z' : saturates c z' -> z' = z -> c = Saturating.sat z.
Proof. by intros [_ ->] ->. Qed.
End Saturates.

Create HintDb exact_cost.
#[export] Hint Resolve saturates_u64 saturates_add saturates_mul saturates_one saturates_num_args
  : exact_cost.

(** [a +? b] of the comments of the source: each step has a cost, and the first one that fails is
    the last one that is paid. *)
Fixpoint staged (steps : list (Z * bool)) : Z :=
  match steps with
  | [] => 0
  | (c, passes) :: steps => c + (if passes : bool then staged steps else 0)
  end.

Ltac exact_cost :=
  eapply saturates_exact; [solve [eauto 60 with exact_cost] | cbn -[Z.add Z.mul Z.of_nat]; lia].
Ltac price := unfold Native.ok, Native.err; f_equal; exact_cost.
