(* ===== verification/NativeCrypto.v ===== *)
(** * Signature natives
    ([framework/src/natives/cryptography/{bls12381,ed25519,multi_ed25519,secp256k1}.rs])

    The schemes themselves ([aptos-crypto], [curve25519-dalek], [libsecp256k1]) are other crates:
    their parsers, checks and aggregations are parameters.  What the natives add is the order of
    the checks, the early returns, the shape of the result, and the cost, which grows as the
    checks pass.  The theorems give both exactly; the comments of the source write the cost as
    [a +? b], which stops where a step fails: here [staged]. *)
From S2P Require Import Prelude GasSchedule GasSize GasProps Natives.

#[local] Open Scope Z_scope.

Section Crypto.
Context `{GasAlgebra}.
(** The gas parameters of the framework. *)
Context (p : string -> Z).

(** ** [bls12381.rs] *)
Section Bls12381.
Context {PublicKey Signature ProofOfPossession : Type}.
(** [aptos_crypto::bls12381]; the errors are not looked at. *)
Context (PublicKey_try_from : bytes -> option PublicKey).
Context (Signature_try_from : bytes -> option Signature).
Context (ProofOfPossession_try_from : bytes -> option ProofOfPossession).
Context (PublicKey_subgroup_check : PublicKey -> bool).
Context (Signature_subgroup_check : Signature -> bool).
Context (PublicKey_aggregate : list PublicKey -> option PublicKey).
Context (Signature_aggregate : list Signature -> option Signature).
Context (PublicKey_to_bytes : PublicKey -> bytes).
Context (Signature_to_bytes : Signature -> bytes).
Context (verify_arbitrary_msg : Signature -> bytes -> PublicKey -> bool).
Context (verify_aggregate_arbitrary_msg : Signature -> list bytes -> list PublicKey -> bool).
Context (pop_verify : ProofOfPossession -> PublicKey -> bool).

Definition bls12381_deserialize_pk (pk_bytes : bytes) (cost : Z) : option PublicKey * Z :=
  let cost := (cost + p "bls12381.per_pubkey_deserialize" * one)%gas in
  (PublicKey_try_from pk_bytes, cost).

Definition bls12381_deserialize_sig (sig_bytes : bytes) (cost : Z) : option Signature * Z :=
  let cost := (cost + p "bls12381.per_sig_deserialize" * one)%gas in
  (Signature_try_from sig_bytes, cost).

Definition bls12381_deserialize_pop (pop_bytes : bytes) (cost : Z) : option ProofOfPossession * Z :=
  let cost := (cost + p "bls12381.per_sig_deserialize" * one)%gas in
  (ProofOfPossession_try_from pop_bytes, cost).

(** The loop of [bls12381_deserialize_pks] and [bls12381_deserialize_sigs]. *)
Fixpoint push_while {K} (deserialize : bytes -> Z -> option K * Z) (l : list bytes) (cost : Z)
    : list K * Z :=
  match l with
  | [] => ([], cost)
  | key_bytes :: l =>
      let '(key, cost) := deserialize key_bytes cost in
      match key with
      | Some key => let '(keys, cost) := push_while deserialize l cost in (key :: keys, cost)
      | None => ([], cost)
      end
  end.

Definition bls12381_deserialize_pks : list bytes -> Z -> list PublicKey * Z :=
  push_while bls12381_deserialize_pk.
Definition bls12381_deserialize_sigs : list bytes -> Z -> list Signature * Z :=
  push_while bls12381_deserialize_sig.

Definition bls12381_pk_subgroub_check (pk : PublicKey) (cost : Z) : bool * Z :=
  let cost := (cost + p "bls12381.per_pubkey_deserialize" * one)%gas in
  (PublicKey_subgroup_check pk, cost).

Definition bls12381_sig_subgroub_check (sig : Signature) (cost : Z) : bool * Z :=
  let cost := (cost + p "bls12381.per_sig_subgroup_check" * one)%gas in
  (Signature_subgroup_check sig, cost).

Definition signature_verify (sig : Signature) (pk : PublicKey) (msg : bytes) (cost : Z) : bool * Z :=
  let cost := (cost + (p "bls12381.per_sig_verify" * one
                       + p "bls12381.per_msg_hashing" * one
                       + p "bls12381.per_byte_hashing" * num_args (length msg)))%gas in
  (verify_arbitrary_msg sig msg pk, cost).

Definition bls12381_verify_signature_helper (multisig_bytes aggpk_bytes msg_bytes : bytes)
    (check_pk_subgroup : bool) : NativeResult bool :=
  let cost := p "bls12381.base" in
  let '(pk, cost) := bls12381_deserialize_pk aggpk_bytes cost in
  match pk with
  | None => Native.ok cost false
  | Some pk =>
      let '(outside, cost) :=
        if check_pk_subgroup
        then let '(inside, cost) := bls12381_pk_subgroub_check pk cost in (negb inside, cost)
        else (false, cost) in
      if outside : bool then Native.ok cost false
      else
        let '(sig, cost) := bls12381_deserialize_sig multisig_bytes cost in
        match sig with
        | None => Native.ok cost false
        | Some sig =>
            let '(verify_result, cost) := signature_verify sig pk msg_bytes cost in
            Native.ok cost verify_result
        end
  end.

Definition native_bls12381_verify_multisignature (multisig_bytes aggpk_bytes msg_bytes : bytes) :=
  bls12381_verify_signature_helper multisig_bytes aggpk_bytes msg_bytes false.
Definition native_bls12381_verify_normal_signature (multisig_bytes aggpk_bytes msg_bytes : bytes) :=
  bls12381_verify_signature_helper multisig_bytes aggpk_bytes msg_bytes true.
Definition native_bls12381_verify_signature_share (multisig_bytes aggpk_bytes msg_bytes : bytes) :=
  bls12381_verify_signature_helper multisig_bytes aggpk_bytes msg_bytes false.

Definition native_bls12381_aggregate_pubkeys (pks_bytes : list bytes)
    : NativeResult (bytes * bool) :=
  let num_pks := length pks_bytes in
  let cost := p "bls12381.base" in
  if bool_decide (pks_bytes = []) then Native.ok cost ([], false)
  else
    let '(pks, cost) := bls12381_deserialize_pks pks_bytes cost in
    if negb (length pks =? num_pks)%nat then Native.ok cost ([], false)
    else
      let cost := (cost + p "bls12381.per_pubkey_aggregate" * num_args num_pks)%gas in
      match PublicKey_aggregate pks with
      | Some aggpk => Native.ok cost (PublicKey_to_bytes aggpk, true)
      | None => Native.ok cost ([], false)
      end.

Definition native_bls12381_aggregate_signatures (sigs_serialized : list bytes)
    : NativeResult (bytes * bool) :=
  let num_sigs := length sigs_serialized in
  let cost := p "bls12381.base" in
  if bool_decide (sigs_serialized = []) then Native.ok cost ([], false)
  else
    let '(sigs, cost) := bls12381_deserialize_sigs sigs_serialized cost in
    if negb (length sigs =? num_sigs)%nat then Native.ok cost ([], false)
    else
      let cost := (cost + p "bls12381.per_sig_aggregate" * num_args (length sigs))%gas in
      match Signature_aggregate sigs with
      | Some aggsig => Native.ok cost (Signature_to_bytes aggsig, true)
      | None => Native.ok cost ([], false)
      end.

Definition native_bls12381_signature_subgroup_check (sig_bytes : bytes) : NativeResult bool :=
  let cost := p "bls12381.base" in
  let '(sig, cost) := bls12381_deserialize_sig sig_bytes cost in
  match sig with
  | None => Native.ok cost false
  | Some sig =>
      let '(valid, cost) := bls12381_sig_subgroub_check sig cost in Native.ok cost valid
  end.

Definition native_bls12381_validate_pubkey (pk_bytes : bytes) : NativeResult bool :=
  let cost := p "bls12381.base" in
  let '(pk, cost) := bls12381_deserialize_pk pk_bytes cost in
  match pk with
  | None => Native.ok cost false
  | Some pk => let '(valid, cost) := bls12381_pk_subgroub_check pk cost in Native.ok cost valid
  end.

(** [messages.iter().fold(NumBytes::new(0), ..)] *)
Definition total_bytes (messages : list bytes) : Z :=
  foldl (fun sum msg => (sum + num_args (length msg))%gas) 0 messages.

Definition native_bls12381_verify_aggregate_signature (aggsig_bytes : bytes)
    (pks_serialized messages : list bytes) : NativeResult bool :=
  let cost := p "bls12381.base" in
  let num_pks := length pks_serialized in
  if negb (num_pks =? length messages)%nat then Native.ok cost false
  else
    let '(pks, cost) := bls12381_deserialize_pks pks_serialized cost in
    if negb (length pks =? num_pks)%nat then Native.ok cost false
    else
      let '(aggsig, cost) := bls12381_deserialize_sig aggsig_bytes cost in
      match aggsig with
      | None => Native.ok cost false
      | Some aggsig =>
          let cost := (cost + (p "bls12381.per_pairing" * num_args (length messages + 1)
                               + p "bls12381.per_msg_hashing" * num_args (length messages)
                               + p "bls12381.per_byte_hashing" * total_bytes messages))%gas in
          Native.ok cost (verify_aggregate_arbitrary_msg aggsig messages pks)
      end.

Definition native_bls12381_verify_proof_of_possession (key_bytes pop_bytes : bytes)
    : NativeResult bool :=
  let cost := p "bls12381.base" in
  let '(pk, cost) := bls12381_deserialize_pk key_bytes cost in
  match pk with
  | None => Native.ok cost false
  | Some pk =>
      let '(pop, cost) := bls12381_deserialize_pop pop_bytes cost in
      match pop with
      | None => Native.ok cost false
      | Some pop =>
          let cost := (cost + p "bls12381.per_pop_verify" * one)%gas in
          Native.ok cost (pop_verify pop pk)
      end
  end.
End Bls12381.

(** ** [ed25519.rs] and [multi_ed25519.rs] *)
Definition E_WRONG_PUBKEY_SIZE : Z := 1.
Definition E_WRONG_SIGNATURE_SIZE : Z := 2.

Section Ed25519.
(** [curve25519-dalek], and the keys, the signatures and the constants of [aptos-crypto]. *)
Context (ED25519_PUBLIC_KEY_LENGTH ED25519_SIGNATURE_LENGTH MAX_NUM_OF_KEYS : nat).
Context {EdwardsPoint Ed25519PublicKey Ed25519Signature : Type}.
Context (decompress : bytes -> option EdwardsPoint) (is_small_order : EdwardsPoint -> bool).
Context (PublicKey_try_from : bytes -> option Ed25519PublicKey).
Context (Signature_try_from : bytes -> option Ed25519Signature).
Context (verify_arbitrary_msg : Ed25519Signature -> bytes -> Ed25519PublicKey -> bool).

(** [<[u8; ED25519_PUBLIC_KEY_LENGTH]>::try_from] *)
Definition key_array (key_bytes : bytes) : option bytes :=
  if (length key_bytes =? ED25519_PUBLIC_KEY_LENGTH)%nat then Some key_bytes else None.

Definition ed25519_public_key_validate (key_bytes : bytes) : NativeResult bool :=
  let cost := (p "ed25519.base" + p "ed25519.per_pubkey_deserialize" * one)%gas in
  match key_array key_bytes with
  | None => Native.err cost E_WRONG_PUBKEY_SIZE
  | Some key_bytes_slice =>
      match decompress key_bytes_slice with
      | None => Native.ok cost false
      | Some point =>
          let cost := (cost + p "ed25519.per_pubkey_small_order_check" * one)%gas in
          Native.ok cost (negb (is_small_order point))
      end
  end.

Definition ed25519_signature_verify_strict (signature pubkey msg : bytes) : NativeResult bool :=
  let cost := p "ed25519.base" in
  let cost := (cost + p "ed25519.per_pubkey_deserialize" * one)%gas in
  match PublicKey_try_from pubkey with
  | None => Native.ok cost false
  | Some pk =>
      let cost := (cost + p "ed25519.per_sig_deserialize" * one)%gas in
      match Signature_try_from signature with
      | None => Native.ok cost false
      | Some sig =>
          let cost := (cost + (p "ed25519.per_sig_strict_verify" * one
                               + p "ed25519.per_msg_hashing_base" * one
                               + p "ed25519.per_msg_byte_hashing" * num_args (length msg)))%gas in
          Native.ok cost (verify_arbitrary_msg sig msg pk)
      end
  end.

(** [slice::chunks_exact(size)]: what is left over is dropped. *)
Fixpoint chunks_exact (size n : nat) (l : bytes) : list bytes :=
  match n with
  | O => []
  | S n => take size l :: chunks_exact size n (drop size l)
  end.

(** The closure of [filter]. *)
Definition sub_pk_ok (pk_bytes : bytes) : bool :=
  match key_array pk_bytes ≫= decompress with
  | Some point => negb (is_small_order point)
  | None => false
  end.

Definition multi_ed25519_public_key_validate (pks_bytes : bytes) : NativeResult bool :=
  let num_sub_pks := (length pks_bytes / ED25519_PUBLIC_KEY_LENGTH)%nat in
  let cost := p "ed25519.base" in
  if (MAX_NUM_OF_KEYS <? num_sub_pks)%nat then Native.ok cost false
  else
    let num_valid :=
      length (filter (fun pk_bytes => sub_pk_ok pk_bytes = true)
                (chunks_exact ED25519_PUBLIC_KEY_LENGTH num_sub_pks pks_bytes)) in
    let all_valid := (num_valid =? num_sub_pks)%nat in
    let num_checked := if all_valid then num_valid else (num_valid + 1)%nat in
    let num_checked := num_args num_checked in
    let cost := (cost + (p "ed25519.per_pubkey_deserialize" * num_checked
                         + p "ed25519.per_pubkey_small_order_check" * num_checked))%gas in
    Native.ok cost all_valid.

Definition multi_ed25519_signature_verify_strict (signature pubkey msg : bytes)
    : NativeResult bool :=
  let cost := p "ed25519.base" in
  let num_sub_pks := num_args (length pubkey / ED25519_PUBLIC_KEY_LENGTH) in
  let num_sub_sigs := num_args (length signature / ED25519_SIGNATURE_LENGTH) in
  let cost := (cost + p "ed25519.per_pubkey_deserialize" * num_sub_pks)%gas in
  match PublicKey_try_from pubkey with
  | None => Native.ok cost false
  | Some pk =>
      let cost := (cost + p "ed25519.per_sig_deserialize" * num_sub_sigs)%gas in
      match Signature_try_from signature with
      | None => Native.ok cost false
      | Some sig =>
          let cost := (cost + (p "ed25519.per_sig_strict_verify" * num_sub_sigs
                               + p "ed25519.per_msg_hashing_base" * num_sub_sigs
                               + p "ed25519.per_msg_byte_hashing" * num_args (length msg)
                                 * num_sub_sigs))%gas in
          Native.ok cost (verify_arbitrary_msg sig msg pk)
      end
  end.
End Ed25519.

(** ** [secp256k1.rs] *)
Definition NFE_DESERIALIZE : Z := 0x010001.

Section Secp256k1.
Context {Message RecoveryId Signature PublicKey : Type}.
Context (Message_parse_slice : bytes -> option Message).
Context (RecoveryId_parse : Z -> option RecoveryId).
Context (Signature_parse_standard_slice : bytes -> option Signature).
Context (recover : Message -> Signature -> RecoveryId -> option PublicKey).
Context (serialize : PublicKey -> bytes).

Definition native_ecdsa_recover (msg : bytes) (recovery_id : Z) (signature : bytes)
    : NativeResult (bytes * bool) :=
  let cost := p "secp256k1.base" in
  match Message_parse_slice msg with
  | None => Native.err cost NFE_DESERIALIZE
  | Some msg =>
      match RecoveryId_parse recovery_id with
      | None => Native.err cost NFE_DESERIALIZE
      | Some rid =>
          match Signature_parse_standard_slice signature with
          | None => Native.err cost NFE_DESERIALIZE
          | Some sig =>
              let cost := (cost + p "secp256k1.ecdsa_recover" * one)%gas in
              match recover msg sig rid with
              | Some pk => Native.ok cost (drop 1 (serialize pk), true)
              | None => Native.ok cost ([], false)
              end
          end
      end
  end.
End Secp256k1.
End Crypto.

(** ** Verdicts and costs *)

(** The keys that a loop deserializes: up to the first one that does not parse. *)
Fixpoint parse_prefix {K} (parse : bytes -> option K) (l : list bytes) : list K :=
  match l with
  | [] => []
  | b :: l => match parse b with Some k => k :: parse_prefix parse l | None => [] end
  end.

(** How many of them are tried: one more than parse, if there is one more. *)
Definition attempts {K} (parse : bytes -> option K) (l : list bytes) : nat :=
  (length (parse_prefix parse l) + 1) `min` length l.

Definition parses {K} (o : option K) : bool := bool_decide (is_Some o).

Section Spec.
Context `{GasAlgebra, !GasAlgebraLaws}.
Context (p : string -> Z) (p_u64 : forall f, is_u64 (p f)).
#[local] Hint Resolve p_u64 : exact_cost.
Abbreviation sat := Saturating.sat.

Lemma push_while_exact {K} (parse : bytes -> option K) d l : is_u64 d -> forall c z,
  saturates c z ->
  exists c', saturates c' (z + d * Z.of_nat (attempts parse l)) /\
    push_while (fun b c => (parse b, (c + d * one)%gas)) l c = (parse_prefix parse l, c').
Proof.
  intros Hd. induction l as [|b l IH]; intros c z Hc; cbn [push_while].
  { exists c. split; [|done]. by rewrite Z.mul_0_r, Z.add_0_r. }
  assert (Hc' : saturates (c + d * one)%gas (z + d * 1)) by auto with exact_cost.
  unfold attempts in *. cbn [parse_prefix]. destruct (parse b) as [k|].
  - destruct (IH _ _ Hc') as (c' & Hs & ->). exists c'. split; [|done].
    replace (z + d * _) with (z + d * 1 + d * Z.of_nat ((length (parse_prefix parse l) + 1) `min` length l));
      [done|]. cbn [length]. nia.
  - exists (c + d * one)%gas. split; [|done]. replace (Z.of_nat _) with 1; [done|].
    cbn [length]. lia.
Qed.

Lemma parse_prefix_all {K} (parse : bytes -> option K) l :
  match mapM parse l with
  | Some ks => parse_prefix parse l = ks /\ length ks = length l
  | None => (length (parse_prefix parse l) < length l)%nat
  end.
Proof.
  induction l as [|b l IH]; cbn; [done|]. destruct (parse b) as [k|]; cbn; [|lia].
  destruct (mapM parse l) as [ks|]; cbn in *; [|lia]. destruct IH as [-> ?]. split; [done|]. cbn. lia.
Qed.

(** The loop, and the test on its result that follows it. *)
Lemma push_while_tested {K} (parse : bytes -> option K) d l c z :
  is_u64 d -> saturates c z ->
  exists c', saturates c' (z + d * Z.of_nat (attempts parse l)) /\
    match mapM parse l with
    | Some ks => push_while (fun b c => (parse b, (c + d * one)%gas)) l c = (ks, c') /\
        (length ks =? length l)%nat = true
    | None => exists ks, push_while (fun b c => (parse b, (c + d * one)%gas)) l c = (ks, c') /\
        (length ks =? length l)%nat = false
    end.
Proof.
  intros Hd Hc. destruct (push_while_exact parse d l Hd c z Hc) as (c' & Hs & Hpush).
  pose proof (parse_prefix_all parse l) as Hall. exists c'. split; [done|]. rewrite Hpush.
  destruct (mapM parse l) as [ks|].
  - destruct Hall as [-> Hn]. split; [done|]. by apply Nat.eqb_eq.
  - eexists. split; [done|]. apply Nat.eqb_neq. lia.
Qed.

(** The aggregate of the keys, if there are some and all of them parse. *)
Definition aggregated {K} (parse : bytes -> option K) (aggregate : list K -> option K)
    (to_bytes : K -> bytes) (l : list bytes) : bytes * bool :=
  match mapM parse l with
  | None | Some [] => ([], false)
  | Some ks => match aggregate ks with Some k => (to_bytes k, true) | None => ([], false) end
  end.

(** What aggregating costs: [base + deserialize * min(valid + 1, n) +? aggregate * n]. *)
Definition aggregate_cost {K} (parse : bytes -> option K) (deserialize aggregate : Z)
    (l : list bytes) : Z :=
  p "bls12381.base"
  + staged [(deserialize * Z.of_nat (attempts parse l), parses (mapM parse l));
            (aggregate * Z.of_nat (length l), true)].

Section Bls12381.
Context {PublicKey Signature ProofOfPossession : Type}.
Context (PublicKey_try_from : bytes -> option PublicKey).
Context (Signature_try_from : bytes -> option Signature).
Context (ProofOfPossession_try_from : bytes -> option ProofOfPossession).
Context (PublicKey_subgroup_check : PublicKey -> bool).
Context (Signature_subgroup_check : Signature -> bool).
Context (PublicKey_aggregate : list PublicKey -> option PublicKey).
Context (Signature_aggregate : list Signature -> option Signature).
Context (PublicKey_to_bytes : PublicKey -> bytes).
Context (Signature_to_bytes : Signature -> bytes).
Context (verify_arbitrary_msg : Signature -> bytes -> PublicKey -> bool).
Context (verify_aggregate_arbitrary_msg : Signature -> list bytes -> list PublicKey -> bool).
Context (pop_verify : ProofOfPossession -> PublicKey -> bool).

(** The body that the two aggregations share. *)
Lemma aggregate_exact {K} (parse : bytes -> option K) aggregate to_bytes d a l :
  is_u64 d -> is_u64 a -> Z.of_nat (length l) < U64 ->
  (if bool_decide (l = []) then Native.ok (p "bls12381.base") ([], false)
   else
     let '(ks, cost) := push_while (fun b c => (parse b, (c + d * one)%gas)) l (p "bls12381.base") in
     if negb (length ks =? length l)%nat then Native.ok cost ([], false)
     else
       let cost := (cost + a * num_args (length l))%gas in
       match aggregate ks with
       | Some k => Native.ok cost (to_bytes k, true)
       | None => Native.ok cost ([], false)
       end) =
  {| cost := sat (aggregate_cost parse d a l);
     native_result := Ok (aggregated parse aggregate to_bytes l) |}.
Proof.
  intros Hd Ha Hl. unfold aggregate_cost, aggregated. case_bool_decide as Hnil.
  { subst l. price. }
  destruct (push_while_tested parse d l _ _ Hd (saturates_u64 _ (p_u64 "bls12381.base")))
    as (c & Hc & Htest).
  pose proof (parse_prefix_all parse l) as Hall.
  destruct (mapM parse l) as [ks|].
  - destruct Htest as [-> ->], Hall as [_ Hn], ks as [|k ks]; [by destruct l|].
    cbn [negb]. destruct (aggregate _); price.
  - destruct Htest as (ks & -> & ->). price.
Qed.

Lemma aggregate_pubkeys_exact l : Z.of_nat (length l) < U64 ->
  native_bls12381_aggregate_pubkeys p PublicKey_try_from PublicKey_aggregate PublicKey_to_bytes l =
  {| cost := sat (aggregate_cost PublicKey_try_from (p "bls12381.per_pubkey_deserialize")
                    (p "bls12381.per_pubkey_aggregate") l);
     native_result := Ok (aggregated PublicKey_try_from PublicKey_aggregate PublicKey_to_bytes l) |}.
Proof. intros Hl. by apply aggregate_exact. Qed.

Lemma aggregate_signatures_exact l : Z.of_nat (length l) < U64 ->
  native_bls12381_aggregate_signatures p Signature_try_from Signature_aggregate Signature_to_bytes l =
  {| cost := sat (aggregate_cost Signature_try_from (p "bls12381.per_sig_deserialize")
                    (p "bls12381.per_sig_aggregate") l);
     native_result := Ok (aggregated Signature_try_from Signature_aggregate Signature_to_bytes l) |}.
Proof.
  intros Hl. rewrite <- aggregate_exact by done.
  unfold native_bls12381_aggregate_signatures, bls12381_deserialize_sigs.
  change (bls12381_deserialize_sig p Signature_try_from) with
    (fun b c => (Signature_try_from b, (c + p "bls12381.per_sig_deserialize" * one)%gas)).
  case_bool_decide; [done|]. destruct (push_while _ l _) as [sigs c].
  destruct (Nat.eqb_spec (length sigs) (length l)) as [->|]; done.
Qed.

Lemma total_bytes_exact messages :
  Forall (fun m => Z.of_nat (length m) < U64) messages ->
  saturates (total_bytes messages) (Z.of_nat (length (concat messages))).
Proof.
  intros Hm. unfold total_bytes.
  assert (Hg : forall c z, saturates c z ->
    saturates (foldl (fun sum msg => (sum + num_args (length msg))%gas) c messages)
      (z + Z.of_nat (length (concat messages)))).
  { induction Hm as [|m ms Hm Hms IH]; intros c z Hc; cbn [foldl concat].
    { by rewrite Z.add_0_r. }
    rewrite length_app, Nat2Z.inj_add, Z.add_assoc. apply IH. auto with exact_cost. }
  apply (Hg 0 0). apply saturates_u64, is_u64_0.
Qed.

(** The verdict and the cost of the verification of an aggregate signature. *)
Definition aggregate_verified (aggsig : bytes) (pks messages : list bytes) : bool :=
  match mapM PublicKey_try_from pks, Signature_try_from aggsig with
  | Some ks, Some s =>
      (length pks =? length messages)%nat && verify_aggregate_arbitrary_msg s messages ks
  | _, _ => false
  end.

Definition aggregate_verify_cost (aggsig : bytes) (pks messages : list bytes) : Z :=
  let n := Z.of_nat (length messages) in
  p "bls12381.base"
  + staged
      [(0, (length pks =? length messages)%nat);
       (p "bls12381.per_pubkey_deserialize" * Z.of_nat (attempts PublicKey_try_from pks),
        parses (mapM PublicKey_try_from pks));
       (p "bls12381.per_sig_deserialize", parses (Signature_try_from aggsig));
       (p "bls12381.per_pairing" * (n + 1) + p "bls12381.per_msg_hashing" * n
        + p "bls12381.per_byte_hashing" * Z.of_nat (length (concat messages)), true)].

Lemma verify_aggregate_exact aggsig pks messages :
  Z.of_nat (length messages + 1) < U64 ->
  Forall (fun m => Z.of_nat (length m) < U64) messages ->
  native_bls12381_verify_aggregate_signature p PublicKey_try_from Signature_try_from
    verify_aggregate_arbitrary_msg aggsig pks messages =
  {| cost := sat (aggregate_verify_cost aggsig pks messages);
     native_result := Ok (aggregate_verified aggsig pks messages) |}.
Proof.
  intros Hn Hm. apply total_bytes_exact in Hm.
  assert (Hn' : Z.of_nat (length messages) < U64) by lia.
  unfold native_bls12381_verify_aggregate_signature, aggregate_verify_cost, aggregate_verified.
  destruct (length pks =? length messages)%nat eqn:Hlen; cbn [negb].
  2: { replace (match mapM PublicKey_try_from pks with Some _ => _ | None => _ end) with false
         by by destruct (mapM PublicKey_try_from pks), (Signature_try_from aggsig). price. }
  destruct (push_while_tested PublicKey_try_from (p "bls12381.per_pubkey_deserialize") pks
    _ _ (p_u64 _) (saturates_u64 _ (p_u64 "bls12381.base"))) as (c & Hc & Htest).
  unfold bls12381_deserialize_pks.
  change (bls12381_deserialize_pk p PublicKey_try_from) with
    (fun b c => (PublicKey_try_from b, (c + p "bls12381.per_pubkey_deserialize" * one)%gas)).
  destruct (mapM PublicKey_try_from pks) as [ks|].
  - destruct Htest as [-> ->]. cbn [negb bls12381_deserialize_sig].
    destruct (Signature_try_from aggsig) as [s|]; price.
  - destruct Htest as (ks & -> & ->). price.
Qed.

(** C22. The BLS natives over many keys: aggregating gives the aggregate of the keys (or signatures)
    if there are some and all of them parse, and nothing otherwise; verifying an aggregate
    signature accepts if there are as many messages as keys, everything parses and the scheme
    accepts.  The cost has one deserialization more than the valid prefix if there is an invalid
    key or signature, a pairing more than there are messages, and nothing after the first step that
    fails.  The comments on the costs differ: they leave out the deserialization that fails when
    signatures are aggregated, and count one pairing for each message. *)
Theorem bls12381_aggregates_exact (pks sigs messages : list bytes) (aggsig : bytes)
    (Hpks : Z.of_nat (length pks) < U64) (Hsigs : Z.of_nat (length sigs) < U64)
    (Hn : Z.of_nat (length messages + 1) < U64)
    (Hm : Forall (fun m => Z.of_nat (length m) < U64) messages) :
  native_bls12381_aggregate_pubkeys p PublicKey_try_from PublicKey_aggregate PublicKey_to_bytes pks =
    {| cost := sat (aggregate_cost PublicKey_try_from (p "bls12381.per_pubkey_deserialize")
                      (p "bls12381.per_pubkey_aggregate") pks);
       native_result := Ok (aggregated PublicKey_try_from PublicKey_aggregate PublicKey_to_bytes pks) |} /\
  native_bls12381_aggregate_signatures p Signature_try_from Signature_aggregate Signature_to_bytes sigs =
    {| cost := sat (aggregate_cost Signature_try_from (p "bls12381.per_sig_deserialize")
                      (p "bls12381.per_sig_aggregate") sigs);
       native_result := Ok (aggregated Signature_try_from Signature_aggregate Signature_to_bytes sigs) |} /\
  native_bls12381_verify_aggregate_signature p PublicKey_try_from Signature_try_from
    verify_aggregate_arbitrary_msg aggsig pks messages =
    {| cost := sat (aggregate_verify_cost aggsig pks messages);
       native_result := Ok (aggregate_verified aggsig pks messages) |}.
Proof.
  split_and!; [by apply aggregate_pubkeys_exact | by apply aggregate_signatures_exact
              | by apply verify_aggregate_exact].
Qed.

(** The verdict and the cost of the verification of one signature.  The check of the subgroup is
    charged [per_pubkey_deserialize]. *)
Definition signature_verified (check_pk_subgroup : bool) (sig pk msg : bytes) : bool :=
  match PublicKey_try_from pk, Signature_try_from sig with
  | Some k, Some s =>
      (negb check_pk_subgroup || PublicKey_subgroup_check k) && verify_arbitrary_msg s msg k
  | _, _ => false
  end.

Definition signature_cost (check_pk_subgroup : bool) (sig pk msg : bytes) : Z :=
  p "bls12381.base"
  + staged
      [(p "bls12381.per_pubkey_deserialize", parses (PublicKey_try_from pk));
       (if check_pk_subgroup then p "bls12381.per_pubkey_deserialize" else 0,
        negb check_pk_subgroup || from_option PublicKey_subgroup_check false (PublicKey_try_from pk));
       (p "bls12381.per_sig_deserialize", parses (Signature_try_from sig));
       (p "bls12381.per_sig_verify" + p "bls12381.per_msg_hashing"
        + p "bls12381.per_byte_hashing" * Z.of_nat (length msg), true)].

(** Verifying a BLS signature (a normal one, with the check that the key is in the subgroup; a
    share or a multisignature, without) accepts exactly when the key parses, is in the subgroup if
    that is checked, the signature parses, and the scheme accepts it; it pays for the steps up to
    the first one that fails. *)
Theorem verify_signature_exact check sig pk msg (Hmsg : Z.of_nat (length msg) < U64) :
  bls12381_verify_signature_helper p PublicKey_try_from Signature_try_from
    PublicKey_subgroup_check verify_arbitrary_msg sig pk msg check =
  {| cost := sat (signature_cost check sig pk msg);
     native_result := Ok (signature_verified check sig pk msg) |}.
Proof.
  unfold bls12381_verify_signature_helper, signature_cost, signature_verified.
  cbn [bls12381_deserialize_pk bls12381_deserialize_sig bls12381_pk_subgroub_check signature_verify].
  destruct (PublicKey_try_from pk) as [k|]; [|price].
  destruct check; [destruct (PublicKey_subgroup_check k) eqn:Hk|];
    destruct (Signature_try_from sig) as [s|]; cbn [negb orb andb from_option]; rewrite ?Hk; price.
Qed.

Lemma validate_pubkey_exact pk :
  native_bls12381_validate_pubkey p PublicKey_try_from PublicKey_subgroup_check pk =
  {| cost := sat (p "bls12381.base" + staged
               [(p "bls12381.per_pubkey_deserialize", parses (PublicKey_try_from pk));
                (p "bls12381.per_pubkey_deserialize", true)]);
     native_result := Ok (from_option PublicKey_subgroup_check false (PublicKey_try_from pk)) |}.
Proof.
  unfold native_bls12381_validate_pubkey. cbn [bls12381_deserialize_pk bls12381_pk_subgroub_check].
  destruct (PublicKey_try_from pk); price.
Qed.

Lemma signature_subgroup_check_exact sig :
  native_bls12381_signature_subgroup_check p Signature_try_from Signature_subgroup_check sig =
  {| cost := sat (p "bls12381.base" + staged
               [(p "bls12381.per_sig_deserialize", parses (Signature_try_from sig));
                (p "bls12381.per_sig_subgroup_check", true)]);
     native_result := Ok (from_option Signature_subgroup_check false (Signature_try_from sig)) |}.
Proof.
  unfold native_bls12381_signature_subgroup_check.
  cbn [bls12381_deserialize_sig bls12381_sig_subgroub_check].
  destruct (Signature_try_from sig); price.
Qed.

Lemma verify_pop_exact key pop :
  native_bls12381_verify_proof_of_possession p PublicKey_try_from ProofOfPossession_try_from
    pop_verify key pop =
  {| cost := sat (p "bls12381.base" + staged
               [(p "bls12381.per_pubkey_deserialize", parses (PublicKey_try_from key));
                (p "bls12381.per_sig_deserialize", parses (ProofOfPossession_try_from pop));
                (p "bls12381.per_pop_verify", true)]);
     native_result := Ok (match PublicKey_try_from key, ProofOfPossession_try_from pop with
                          | Some k, Some q => pop_verify q k
                          | _, _ => false
                          end) |}.
Proof.
  unfold native_bls12381_verify_proof_of_possession.
  cbn [bls12381_deserialize_pk bls12381_deserialize_pop].
  destruct (PublicKey_try_from key), (ProofOfPossession_try_from pop); price.
Qed.
End Bls12381.

Section Ed25519.
Context (ED25519_PUBLIC_KEY_LENGTH MAX_NUM_OF_KEYS : nat) {EdwardsPoint : Type}.
Context (decompress : bytes -> option EdwardsPoint) (is_small_order : EdwardsPoint -> bool).

Lemma ed25519_verify_exact {Ed25519PublicKey Ed25519Signature : Type}
    (PublicKey_try_from : bytes -> option Ed25519PublicKey)
    (Signature_try_from : bytes -> option Ed25519Signature) verify_arbitrary_msg sig pk msg : Z.of_nat (length msg) < U64 ->
  ed25519_signature_verify_strict p PublicKey_try_from Signature_try_from verify_arbitrary_msg
    sig pk msg =
  {| cost := sat (p "ed25519.base" + staged
               [(p "ed25519.per_pubkey_deserialize", parses (PublicKey_try_from pk));
                (p "ed25519.per_sig_deserialize", parses (Signature_try_from sig));
                (p "ed25519.per_sig_strict_verify" + p "ed25519.per_msg_hashing_base"
                 + p "ed25519.per_msg_byte_hashing" * Z.of_nat (length msg), true)]);
     native_result := Ok (match PublicKey_try_from pk, Signature_try_from sig with
                          | Some k, Some s => verify_arbitrary_msg s msg k
                          | _, _ => false
                          end) |}.
Proof.
  intros Hm. unfold ed25519_signature_verify_strict.
  destruct (PublicKey_try_from pk), (Signature_try_from sig); price.
Qed.

Lemma ed25519_validate_exact key :
  let wrong := negb (length key =? ED25519_PUBLIC_KEY_LENGTH)%nat in
  ed25519_public_key_validate p ED25519_PUBLIC_KEY_LENGTH decompress is_small_order key =
  {| cost := sat (p "ed25519.base" + staged
               [(p "ed25519.per_pubkey_deserialize", negb wrong && parses (decompress key));
                (p "ed25519.per_pubkey_small_order_check", true)]);
     native_result := if wrong then Err E_WRONG_PUBKEY_SIZE
                      else Ok (sub_pk_ok ED25519_PUBLIC_KEY_LENGTH decompress is_small_order key) |}.
Proof.
  cbn zeta. unfold ed25519_public_key_validate, sub_pk_ok, key_array.
  destruct (_ =? _)%nat; cbn [mbind option_bind negb andb]; [|price].
  destruct (decompress key); price.
Qed.

(** *** Many keys *)
Abbreviation chunk pks i :=
  (take ED25519_PUBLIC_KEY_LENGTH (drop (i * ED25519_PUBLIC_KEY_LENGTH) pks)).

Lemma chunks_exact_seq n : forall l,
  chunks_exact ED25519_PUBLIC_KEY_LENGTH n l = (fun i => chunk l i) <$> seq 0 n.
Proof.
  induction n as [|n IH]; intros l; [done|]. cbn [chunks_exact seq]. rewrite fmap_cons. f_equal.
  rewrite IH, <- fmap_S_seq, <- list_fmap_compose. apply list_fmap_ext. intros i ? _. cbn.
  rewrite drop_drop. do 2 f_equal.
Qed.

Lemma chunk_length (pks : bytes) i : (i < length pks / ED25519_PUBLIC_KEY_LENGTH)%nat ->
  length (chunk pks i) = ED25519_PUBLIC_KEY_LENGTH.
Proof.
  intros Hi. destruct (decide (ED25519_PUBLIC_KEY_LENGTH = 0)%nat) as [Hz|Hz].
  { rewrite Hz in *. cbn in Hi. lia. }
  rewrite length_take, length_drop. apply Nat.min_l.
  pose proof (Nat.div_mod (length pks) _ Hz). nia.
Qed.

(** A chunk is the encoding of a point outside of the small subgroup. *)
Definition good_chunk (pks : bytes) (i : nat) : Prop :=
  exists point, decompress (chunk pks i) = Some point /\ is_small_order point = false.

Lemma good_chunk_ok pks i : (i < length pks / ED25519_PUBLIC_KEY_LENGTH)%nat ->
  sub_pk_ok ED25519_PUBLIC_KEY_LENGTH decompress is_small_order (chunk pks i) = true <->
  good_chunk pks i.
Proof.
  intros Hi. unfold sub_pk_ok, key_array, good_chunk. rewrite chunk_length, Nat.eqb_refl by done.
  cbn [mbind option_bind]. destruct (decompress _) as [pt|].
  - rewrite negb_true_iff. split; [eauto | by intros (? & [= <-] & ?)].
  - split; [done | by intros (? & ? & _)].
Qed.

Lemma filter_all {A} (P : A -> Prop) `{!forall x, Decision (P x)} (l : list A) :
  length (filter P l) = length l <-> Forall P l.
Proof.
  induction l as [|x l IH]; [by split; constructor|]. rewrite filter_cons, Forall_cons.
  pose proof (length_filter P l) as Hle. case_decide as Hx; cbn [length]; [|split; [lia | naive_solver]].
  rewrite <- IH. split; [intros ?; split; [done|lia] | lia].
Qed.

Lemma filter_map_length {A B} (f : A -> B) (P : B -> Prop) `{!forall x, Decision (P x)} (l : list A) :
  length (filter P (f <$> l)) = length (filter (fun x => P (f x)) l).
Proof.
  induction l as [|x l IH]; [done|]. rewrite fmap_cons, !filter_cons.
  case_decide; cbn [length]; by rewrite IH.
Qed.

(** The number of chunks that are good. *)
Definition num_good (pks : bytes) : nat :=
  length (filter (fun i =>
    sub_pk_ok ED25519_PUBLIC_KEY_LENGTH decompress is_small_order (chunk pks i) = true)
    (seq 0 (length pks / ED25519_PUBLIC_KEY_LENGTH))).

Lemma num_valid_good pks :
  length (filter (fun b => sub_pk_ok ED25519_PUBLIC_KEY_LENGTH decompress is_small_order b = true)
    (chunks_exact ED25519_PUBLIC_KEY_LENGTH (length pks / ED25519_PUBLIC_KEY_LENGTH) pks)) =
  num_good pks.
Proof. by rewrite chunks_exact_seq, filter_map_length. Qed.

Lemma num_good_all pks :
  num_good pks = (length pks / ED25519_PUBLIC_KEY_LENGTH)%nat <->
  forall i, (i < length pks / ED25519_PUBLIC_KEY_LENGTH)%nat -> good_chunk pks i.
Proof.
  unfold num_good. set (n := (length pks / ED25519_PUBLIC_KEY_LENGTH)%nat).
  transitivity (Forall (fun i => sub_pk_ok ED25519_PUBLIC_KEY_LENGTH decompress is_small_order
                          (chunk pks i) = true) (seq 0 n)).
  { by rewrite <- filter_all, length_seq. }
  rewrite Forall_forall.
  split; intros Hall i Hi.
  - apply good_chunk_ok; [done|]. apply Hall, elem_of_seq. lia.
  - apply elem_of_seq in Hi. apply good_chunk_ok; [lia|]. apply Hall. lia.
Qed.

Lemma num_good_le pks : (num_good pks <= length pks / ED25519_PUBLIC_KEY_LENGTH)%nat.
Proof.
  unfold num_good. etrans; [apply length_filter|]. by rewrite length_seq.
Qed.

(** C23. Validating a multi-ed25519 public key accepts exactly the inputs of at most
    [MAX_NUM_OF_KEYS] whole chunks, each of them a point outside of the small subgroup; the bytes
    after the last whole chunk (the threshold, or anything else) play no part, and no chunk at all
    is accepted.  An input of too many chunks costs the base; otherwise a check is paid for each
    valid chunk, and one more if there is an invalid one. *)
Theorem multi_ed25519_validate_exact (pks : bytes) (Hmax : Z.of_nat MAX_NUM_OF_KEYS < U64) :
  let n := (length pks / ED25519_PUBLIC_KEY_LENGTH)%nat in
  let r := multi_ed25519_public_key_validate p ED25519_PUBLIC_KEY_LENGTH MAX_NUM_OF_KEYS
             decompress is_small_order pks in
  (native_result r = Ok true <-> (n <= MAX_NUM_OF_KEYS)%nat /\
     forall i, (i < n)%nat -> good_chunk pks i) /\
  (native_result r = Ok true \/ native_result r = Ok false) /\
  cost r = sat (p "ed25519.base" +
    if (MAX_NUM_OF_KEYS <? n)%nat then 0
    else (p "ed25519.per_pubkey_deserialize" + p "ed25519.per_pubkey_small_order_check")
         * (Z.of_nat (num_good pks) + if (num_good pks =? n)%nat then 0 else 1)).
Proof.
  cbn zeta. unfold multi_ed25519_public_key_validate. rewrite num_valid_good, <- num_good_all.
  pose proof (num_good_le pks) as Hle.
  set (n := (length pks / ED25519_PUBLIC_KEY_LENGTH)%nat) in *.
  destruct (Nat.ltb_spec MAX_NUM_OF_KEYS n) as [Hn|Hn]; cbn [Native.ok native_result cost].
  { split_and!; [split; [done|lia] | by right | exact_cost]. }
  destruct (Nat.eqb_spec (num_good pks) n) as [Hg|Hg].
  - split_and!; [naive_solver | by left |].
    assert (Z.of_nat (num_good pks) < U64) by lia. exact_cost.
  - split_and!; [naive_solver | by right |].
    assert (Z.of_nat (num_good pks + 1) < U64) by lia. exact_cost.
Qed.
End Ed25519.
End Spec.

(** ** The theorems at concrete inputs *)
Module CryptoExample.
Import Saturating.

Definition price (_ : string) : Z := 10.
Lemma price_u64 f : is_u64 (price f).
Proof. unfold price, is_u64, U64. lia. Qed.

(** Keys are bytes; a key that is not 0 parses. *)
Definition parse (b : bytes) : option Z :=
  match b with [k] => if k =? 0 then None else Some k | _ => None end.
Definition sum (l : list Z) : option Z := Some (foldr Z.add 0 l).
Definition encode (k : Z) : bytes := [k].
Definition verify_all (s : Z) (messages : list bytes) (ks : list Z) : bool :=
  s =? foldr Z.add 0 (zip_with (fun m k => k * foldr Z.add 0 m) messages ks).

Lemma bls12381_aggregates_exact_witness :
  native_bls12381_aggregate_pubkeys price parse sum encode [[1]; [0]; [2]; [3]] =
    {| cost := 30; native_result := Ok ([], false) |} /\
  native_bls12381_aggregate_signatures price parse sum encode [[1]; [2]] =
    {| cost := 50; native_result := Ok ([3], true) |} /\
  native_bls12381_verify_aggregate_signature price parse parse verify_all [9] [[1]; [0]; [2]; [3]]
      [[5]; [2]] =
    {| cost := 10; native_result := Ok false |} /\
  aggregate_cost price parse 10 10 [[1]; [0]; [2]; [3]] = 30.
Proof.
  destruct (bls12381_aggregates_exact price price_u64 parse parse sum sum encode encode
    verify_all [[1]; [0]; [2]; [3]] [[1]; [2]] [[5]; [2]] [9]) as (Hp & Hs & Hv).
  - reflexivity.
  - reflexivity.
  - reflexivity.
  - by repeat constructor.
  - split_and!; [exact Hp | exact Hs | exact Hv | reflexivity].
Defined.

Lemma multi_ed25519_validate_exact_witness :
  let r := multi_ed25519_public_key_validate price 1 2 parse Z.even [1; 3] in
  native_result r = Ok true /\ cost r = 50 /\
  cost (multi_ed25519_public_key_validate price 1 2 parse Z.even [1; 0]) = 50 /\
  native_result (multi_ed25519_public_key_validate price 2 2 (fun b => parse (take 1 b)) Z.even [1; 3; 4])
    = Ok true.
Proof.
  pose proof (multi_ed25519_validate_exact price price_u64 1 2 parse Z.even [1; 3] eq_refl)
    as (Hv & _ & Hc).
  split_and!; [|exact Hc | reflexivity | reflexivity].
  apply Hv. split; [by apply Nat.leb_le|]. intros [|[|i]] Hi; [| |cbn in Hi; lia]; by eexists.
Defined.

Lemma verify_signature_exact_witness :
  let verify s m k := (s =? k * foldr Z.add 0 m) in
  bls12381_verify_signature_helper price parse parse Z.odd verify [15] [3] [2; 3] true =
    {| cost := 80; native_result := Ok true |} /\
  bls12381_verify_signature_helper price parse parse Z.odd verify [15] [2] [2; 3] true =
    {| cost := 30; native_result := Ok false |}.
Proof.
  split.
  - exact (verify_signature_exact price price_u64 parse parse Z.odd
      (fun s m k => (s =? k * foldr Z.add 0 m)) true [15] [3] [2; 3] eq_refl).
  - exact (verify_signature_exact price price_u64 parse parse Z.odd
      (fun s m k => (s =? k * foldr Z.add 0 m)) true [15] [2] [2; 3] eq_refl).
Defined.
End CryptoExample.
