(* ===== verification/ReleaseBundle.v ===== *)
(** * Packages and release bundles
    ([framework/src/release_bundle.rs], the types of [framework/src/natives/code.rs])

    A release package has metadata and the bytecode of modules.  Genesis and upgrades publish the
    modules of a package in an order that [sorted_code_and_modules] finds: a depth-first walk over
    the dependencies inside of the package.  A proposal script holds the bytecode and the metadata
    as literals, the latter in three chunks.  The deserializer of modules, BCS and the writer of
    indented code are other crates. *)
From S2P Require Import Prelude Natives.
From stdpp Require Import relations pretty.

#[local] Open Scope Z_scope.

(** ** [code.rs]: metadata *)
Module Metadata.
Record MoveOption (T : Type) := { value : list T }.
Arguments value {T} _.
Definition none {T} : MoveOption T := {| value := [] |}.
Definition some {T} (x : T) : MoveOption T := {| value := [x] |}.
Definition is_none {T} (o : MoveOption T) : bool := bool_decide (value o = []).
Definition is_some {T} (o : MoveOption T) : bool := negb (is_none o).

Record UpgradePolicy := { policy : Z }.
Definition arbitrary : UpgradePolicy := {| policy := 0 |}.
Definition compat : UpgradePolicy := {| policy := 1 |}.
Definition immutable : UpgradePolicy := {| policy := 2 |}.

(** [FromStr] and [Display]; the error is "unknown policy". *)
Definition from_str (s : string) : option UpgradePolicy :=
  if bool_decide (s = "arbitrary"%string) then Some arbitrary
  else if bool_decide (s = "compatible"%string) then Some compat
  else if bool_decide (s = "immutable"%string) then Some immutable
  else None.

Definition to_string (p : UpgradePolicy) : string :=
  match policy p with
  | 0 => "arbitrary"
  | 1 => "compatible"
  | _ => "immutable"
  end%string.

(** A policy that was read is printed as it was written. *)
Lemma to_string_from_str s p : from_str s = Some p -> to_string p = s.
Proof. unfold from_str. repeat case_bool_decide; intros [= <-]; done. Qed.

Record PackageDep (AccountAddress : Type) := { account : AccountAddress; package_name : string }.
Record ModuleMetadata := {
  module_name : string;
  source : bytes;
  source_map : bytes;
  module_extension : MoveOption Any.Any;
}.
Record PackageMetadata (AccountAddress : Type) := {
  name : string;
  upgrade_policy : UpgradePolicy;
  upgrade_number : Z;
  source_digest : string;
  manifest : bytes;
  modules : list ModuleMetadata;
  deps : list (PackageDep AccountAddress);
  extension : MoveOption Any.Any;
}.
Arguments name {AccountAddress} _.
Arguments source_digest {AccountAddress} _.
Record PackageRegistry (AccountAddress : Type) := { packages : list (PackageMetadata AccountAddress) }.
End Metadata.
Import Metadata.

Section Bundle.
Context {AccountAddress ModuleId CompiledModule : Type} `{Countable ModuleId}.
(** [CompiledModule::deserialize] and its accessors, the order of [ModuleId]. *)
Context (deserialize : bytes -> PartialVMResult CompiledModule).
Context (self_id : CompiledModule -> ModuleId).
Context (immediate_dependencies : CompiledModule -> list ModuleId).
Context (id_leb : ModuleId -> ModuleId -> Prop) `{!RelDecision id_leb}.

Record ReleasePackage := { metadata : PackageMetadata AccountAddress; code : list bytes }.
Record ReleaseBundle := { packages : list ReleasePackage; source_dirs : list string }.

Definition ReleaseBundle_new packages source_dirs : ReleaseBundle :=
  {| packages := packages; source_dirs := source_dirs |}.

Definition bundle_code (self : ReleaseBundle) : list bytes :=
  foldl (fun result pack => result ++ code pack) [] (packages self).

(** [(bc, CompiledModule::deserialize(bc).unwrap())] *)
Definition with_module (bc : bytes) : option (bytes * CompiledModule) :=
  m ← ok (deserialize bc); Some (bc, m).

Definition code_and_compiled_modules (self : ReleaseBundle) : option (list (bytes * CompiledModule)) :=
  mapM with_module (bundle_code self).

Definition compiled_modules (self : ReleaseBundle) : option (list CompiledModule) :=
  l ← code_and_compiled_modules self; Some (l.*2).

Definition legacy_copy_code (self : ReleaseBundle) : list bytes := bundle_code self.

Definition package_name (self : ReleasePackage) : string := name (metadata self).

(** Indexing panics out of bounds. *)
Definition compiled_module_at (self : ReleasePackage) (idx : nat)
    : option (PartialVMResult CompiledModule) :=
  c ← code self !! idx; Some (deserialize c).

(** *** Sorting by dependencies *)
Abbreviation module_map := (gmap ModuleId (bytes * CompiledModule)).

(** [collect] into a BTreeMap: the last module of a name stays. *)
Definition collect_modules (l : list (bytes * CompiledModule)) : module_map :=
  foldl (fun map x => <[self_id x.2 := x]> map) ∅ l.

(** The loop over the dependencies. *)
Fixpoint for_deps (f : list ModuleId -> ModuleId -> option (list ModuleId)) (map : module_map)
    (deps order : list ModuleId) : option (list ModuleId) :=
  match deps with
  | [] => Some order
  | dep :: deps =>
      order ← (if bool_decide (is_Some (map !! dep)) then f order dep else Some order);
      for_deps f map deps order
  end.

Fixpoint sort_by_deps (fuel : nat) (map : module_map) (order : list ModuleId) (id : ModuleId)
    : option (list ModuleId) :=
  match fuel with
  | O => None
  | S fuel =>
      if bool_decide (id ∈ order) then Some order
      else
        '(_, compiled) ← map !! id;
        order ← for_deps (sort_by_deps fuel map) map (immediate_dependencies compiled) order;
        Some (order ++ [id])
  end.

(** The loop over the keys of the map. *)
Fixpoint sort_all (fuel : nat) (map : module_map) (ids order : list ModuleId)
    : option (list ModuleId) :=
  match ids with
  | [] => Some order
  | id :: ids => order ← sort_by_deps fuel map order id; sort_all fuel map ids order
  end.

(** The last loop: every module is taken out of the map. *)
Fixpoint take_out (order : list ModuleId) (map : module_map) : option (list (bytes * CompiledModule)) :=
  match order with
  | [] => Some []
  | id :: order =>
      x ← map !! id;
      result ← take_out order (delete id map);
      Some (x :: result)
  end.

Definition sorted_code_and_modules (self : ReleasePackage) : option (list (bytes * CompiledModule)) :=
  l ← mapM with_module (code self);
  let map := collect_modules l in
  order ← sort_all (S (size map)) map (btree_iter id_leb map).*1 [];
  take_out order map.

(** *** Proposal scripts: what is written to a [CodeWriter] *)
Inductive Writing :=
  | Emit (s : string)
  | Emitln (s : string)
  | Indent
  | Unindent.

(** The loop over the bytes, [i] the index of the first one. *)
Fixpoint generate_bytes (i : nat) (data : bytes) : list Writing :=
  match data with
  | [] => []
  | b :: data =>
      (if ((i + 1) mod 20 =? 0)%nat then [Emitln ""%string] else [])
      ++ Emit (pretty b +:+ "u8,") :: generate_bytes (S i) data
  end.

Definition generate_blob (data : bytes) : list Writing :=
  [Emitln "vector["%string; Indent] ++ generate_bytes 0 data
  ++ [Emitln ""%string; Unindent; Emit "]"%string].

Definition generate_blobs (blobs : list bytes) : list Writing :=
  [Emitln "vector["%string; Indent]
  ++ concat ((fun blob => generate_blob blob ++ [Emitln ","%string]) <$> blobs)
  ++ [Unindent; Emit "]"%string].

(** [metadata.drain(0..to_drain)] for [i] in [1..4]: two chunks of a third, and the rest. *)
Fixpoint metadata_chunks (chunk_size i : nat) (range : list nat) (metadata : bytes) : list bytes :=
  match range with
  | [] => []
  | _ :: range =>
      let to_drain := if (i =? 3)%nat then length metadata else chunk_size in
      take to_drain metadata :: metadata_chunks chunk_size (S i) range (drop to_drain metadata)
  end.

Definition chunks_of (metadata : bytes) : list bytes :=
  metadata_chunks (length metadata / 3) 1 [1; 2; 3]%nat metadata.

Definition generate_chunk (i : nat) (chunk : bytes) : list Writing :=
  Emit ("let chunk" +:+ pretty i +:+ " = ") :: generate_blob chunk ++ [Emitln ";"%string].

(** The address and the metadata, in the encodings of their crates; [None] is an error. *)
Context (address_to_string : AccountAddress -> string).
Context (to_bytes : PackageMetadata AccountAddress -> option bytes).

Definition generate_script_proposal (self : ReleasePackage) (for_address : AccountAddress)
    : option (list Writing) :=
  metadata_bytes ← to_bytes (metadata self);
  Some
    ([Emitln ("// Upgrade proposal for package `" +:+ name (metadata self) +:+ "`");
      Emitln "";
      Emitln ("// source digest: " +:+ source_digest (metadata self));
      Emitln "script {"; Indent;
      Emitln "use std::vector;";
      Emitln "use aptos_framework::aptos_governance;";
      Emitln "use aptos_framework::code;"; Emitln "";
      Emitln "fun main(proposal_id: u64){"; Indent;
      Emitln ("let framework_signer = aptos_governance::resolve(proposal_id, @"
              +:+ address_to_string for_address +:+ ");");
      Emit "let code = "]%string
     ++ generate_blobs (code self) ++ [Emitln ";"%string]
     ++ concat (imap (fun i chunk => generate_chunk (S i) chunk) (chunks_of metadata_bytes))
     ++ [Emitln "vector::append(&mut chunk1, chunk2);";
         Emitln "vector::append(&mut chunk1, chunk3);";
         Emitln "code::publish_package_txn(&framework_signer, chunk1, code)";
         Unindent; Emitln "}"; Unindent; Emitln "}"]%string).
End Bundle.

(** ** The order of the modules *)

Section Sorting.
Context {ModuleId CompiledModule : Type} `{Countable ModuleId}.
Context (immediate_dependencies : CompiledModule -> list ModuleId).
Context (map : gmap ModuleId (bytes * CompiledModule)).
Implicit Types (order path : list ModuleId).

(** [b] is a dependency of [a], inside of the package. *)
Definition dep_of (a b : ModuleId) : Prop :=
  exists x, map !! a = Some x /\ b ∈ immediate_dependencies x.2 /\ is_Some (map !! b).

(** Every module comes once, and after the modules that it depends on. *)
Record dependency_order order : Prop := {
  order_once : NoDup order;
  order_known id : id ∈ order -> is_Some (map !! id);
  order_deps l1 id l2 : order = l1 ++ id :: l2 -> forall dep, dep_of id dep -> dep ∈ l1;
}.

Lemma dependency_order_nil : dependency_order [].
Proof. split; [constructor | by intros id ?%elem_of_nil | by intros []]. Qed.

Lemma dependency_order_snoc order id : dependency_order order -> id ∉ order -> is_Some (map !! id) ->
  (forall dep, dep_of id dep -> dep ∈ order) -> dependency_order (order ++ [id]).
Proof.
  intros [Hn Hk Hd] Hid Hmap Hdeps. split.
  - apply NoDup_app. split; [done|]. split; [|apply NoDup_singleton].
    intros x Hx ->%list_elem_of_singleton. done.
  - intros x [Hx|Hx]%elem_of_app; [by apply Hk | by apply list_elem_of_singleton in Hx as ->].
  - intros l1 x l2 Heq. destruct (decide (l2 = [])) as [->|Hl2].
    + apply app_inj_tail in Heq as [-> ->]. done.
    + destruct (exists_last Hl2) as (l2' & y & ->).
      rewrite app_comm_cons, app_assoc in Heq. apply app_inj_tail in Heq as [-> _]. by eapply Hd.
Qed.

Lemma path_bound path : NoDup path -> (forall x, x ∈ path -> is_Some (map !! x)) ->
  (length path <= size map)%nat.
Proof.
  intros Hn Hp. rewrite <- size_dom, <- (size_list_to_set (C := gset ModuleId)) by done.
  apply subseteq_size. intros x Hx%elem_of_list_to_set. by apply elem_of_dom, Hp.
Qed.

Section Acyclic.
Context (acyclic : forall id, ~ tc dep_of id id).

(** What visiting [id] adds to the order: modules that [id] needs, itself included. *)
Definition visits (id : ModuleId) (r : option (list ModuleId)) order : Prop :=
  exists new, r = Some (order ++ new) /\ dependency_order (order ++ new) /\
    id ∈ order ++ new /\ (forall x, x ∈ new -> rtc dep_of id x).

Lemma for_deps_visits f id deps :
  (forall dep, dep ∈ deps -> dep_of id dep -> forall order, dependency_order order ->
     visits dep (f order dep) order) ->
  forall order, (forall dep, dep ∈ deps -> is_Some (map !! dep) -> dep_of id dep) ->
    dependency_order order ->
    exists new, for_deps f map deps order = Some (order ++ new) /\ dependency_order (order ++ new) /\
      (forall dep, dep ∈ deps -> is_Some (map !! dep) -> dep ∈ order ++ new) /\
      (forall x, x ∈ new -> tc dep_of id x).
Proof.
  induction deps as [|dep deps IH]; intros Hf order Hdeps Ho; cbn [for_deps].
  { exists []. rewrite app_nil_r. split_and!; [done..| by intros ? ?%elem_of_nil | by intros ? ?%elem_of_nil]. }
  assert (Hfirst : exists new1,
    (if bool_decide (is_Some (map !! dep)) then f order dep else Some order) = Some (order ++ new1) /\
    dependency_order (order ++ new1) /\ (is_Some (map !! dep) -> dep ∈ order ++ new1) /\
    (forall x, x ∈ new1 -> tc dep_of id x)).
  { case_bool_decide as Hmap.
    - assert (Hd : dep_of id dep) by (apply Hdeps; [left | done]).
      destruct (Hf dep ltac:(left) Hd order Ho) as (new & Heq & Ho' & Hin & Hreach).
      exists new. split_and!; [done..|]. intros x Hx.
      eapply tc_rtc_r; [by apply tc_once | by apply Hreach].
    - exists []. rewrite app_nil_r. split_and!; [done..| by intros ? ?%elem_of_nil]. }
  destruct Hfirst as (new1 & -> & Ho1 & Hin1 & Hreach1). cbn [mbind option_bind].
  destruct (IH ltac:(intros d Hd; apply Hf; by right) (order ++ new1)
    ltac:(intros d Hd; apply Hdeps; by right) Ho1) as (new2 & -> & Ho2 & Hin2 & Hreach2).
  exists (new1 ++ new2). rewrite app_assoc. split_and!; [done..| |].
  - intros d [->|Hd]%elem_of_cons Hmap; [apply elem_of_app; left; by apply Hin1 | by apply Hin2].
  - intros x [Hx|Hx]%elem_of_app; [by apply Hreach1 | by apply Hreach2].
Qed.

(** The walk ends: the modules under way are different ones, so that there are never more of them
    than modules in the package. *)
Lemma sort_by_deps_visits fuel : forall path order id,
  (S (size map) <= fuel + length path)%nat -> NoDup path ->
  (forall x, x ∈ path -> is_Some (map !! x) /\ tc dep_of x id) ->
  is_Some (map !! id) -> dependency_order order ->
  visits id (sort_by_deps immediate_dependencies fuel map order id) order.
Proof.
  induction fuel as [|fuel IH]; intros path order id Hfuel Hnd Hpath Hid Ho.
  { pose proof (path_bound path Hnd (fun x Hx => proj1 (Hpath x Hx))). lia. }
  cbn [sort_by_deps]. case_bool_decide as Hin.
  { exists []. rewrite app_nil_r. split_and!; [done..| by intros ? ?%elem_of_nil]. }
  destruct Hid as [[c m] Hid]. rewrite Hid. cbn [mbind option_bind].
  destruct (for_deps_visits (sort_by_deps immediate_dependencies fuel map) id (immediate_dependencies m))
    with (order := order) as (new & -> & Ho' & Hall & Hreach); [| |done|].
  - intros dep _ Hdep order' Ho''. apply (IH (id :: path)); [cbn [length]; lia | | | |done].
    + constructor; [|done]. intros Hc. by eapply acyclic, Hpath.
    + intros x [->|Hx]%elem_of_cons; [split; [by eexists | by apply tc_once]|].
      destruct (Hpath x Hx) as [? Htc]. split; [done|]. by eapply tc_r.
    + by destruct Hdep as (? & _ & _ & ?).
  - intros dep Hdep Hmap. by exists (c, m).
  - cbn [mbind option_bind]. exists (new ++ [id]). rewrite app_assoc. split_and!; [done| | |].
    + apply dependency_order_snoc; [done| |by eexists|].
      * intros [Hc|Hc]%elem_of_app; [done|]. by eapply acyclic, Hreach.
      * intros dep (x & Hx & Hdep & Hmap). rewrite Hid in Hx. injection Hx as <-. by apply Hall.
    + set_solver.
    + intros x [Hx|Hx]%elem_of_app; [by apply tc_rtc, Hreach|].
      apply list_elem_of_singleton in Hx as ->. done.
Qed.

Lemma sort_all_visits ids : (forall id, id ∈ ids -> is_Some (map !! id)) -> forall order,
  dependency_order order ->
  exists new, sort_all immediate_dependencies (S (size map)) map ids order = Some (order ++ new) /\
    dependency_order (order ++ new) /\ (forall id, id ∈ ids -> id ∈ order ++ new).
Proof.
  induction ids as [|id ids IH]; intros Hids order Ho; cbn [sort_all].
  { exists []. rewrite app_nil_r. split_and!; [done..| by intros ? ?%elem_of_nil]. }
  destruct (sort_by_deps_visits (S (size map)) [] order id) as (new1 & -> & Ho1 & Hin & _);
    [cbn [length]; lia | constructor | by intros ? ?%elem_of_nil | apply Hids; left | done |].
  cbn [mbind option_bind]. destruct (IH ltac:(intros d Hd; apply Hids; by right) _ Ho1)
    as (new2 & -> & Ho2 & Hin2). exists (new1 ++ new2). rewrite app_assoc. split_and!; [done..|].
  intros d [->|Hd]%elem_of_cons; [by apply elem_of_app; left | by apply Hin2].
Qed.
End Acyclic.

(** Taking the modules of an order out of the map never fails if there are no repetitions. *)
Lemma take_out_exact order : NoDup order ->
  forall map' : gmap ModuleId (bytes * CompiledModule),
  (forall id, id ∈ order -> is_Some (map' !! id)) ->
  exists result, take_out order map' = Some result /\
    Forall2 (fun id x => map' !! id = Some x) order result.
Proof.
  induction 1 as [|id order Hid Hnd IH]; intros map' Hmap; cbn [take_out].
  { by exists []. }
  destruct (Hmap id ltac:(left)) as [x Hx]. rewrite Hx. cbn [mbind option_bind].
  destruct (IH (delete id map')) as (result & -> & Hall).
  { intros y Hy. rewrite lookup_delete_ne; [apply Hmap; by right | intros ->; done]. }
  exists (x :: result). split; [done|]. constructor; [done|].
  eapply Forall2_impl; [done|]. cbn. intros y z Hy.
  by apply lookup_delete_Some in Hy as [_ ?].
Qed.
End Sorting.

Section SortedModules.
Context {AccountAddress ModuleId CompiledModule : Type} `{Countable ModuleId}.
Context (deserialize : bytes -> PartialVMResult CompiledModule) (self_id : CompiledModule -> ModuleId).
Context (immediate_dependencies : CompiledModule -> list ModuleId).
Context (id_leb : ModuleId -> ModuleId -> Prop) `{!RelDecision id_leb}.

Lemma collect_modules_snoc l x :
  collect_modules self_id (l ++ [x]) = <[self_id x.2 := x]> (collect_modules self_id l).
Proof. unfold collect_modules. by rewrite foldl_app. Qed.

(** A module of the map is one of the list, under its own name. *)
Lemma collect_modules_elem (l : list (bytes * CompiledModule)) id x :
  collect_modules self_id l !! id = Some x -> x ∈ l /\ self_id x.2 = id.
Proof.
  induction l as [|y l IH] using rev_ind; [done|].
  rewrite collect_modules_snoc. intros [[<- <-]|[_ Hl]]%lookup_insert_Some.
  - set_solver.
  - destruct (IH Hl) as [? ?]. set_solver.
Qed.

Lemma collect_modules_dom (l : list (bytes * CompiledModule)) x :
  x ∈ l -> is_Some (collect_modules self_id l !! self_id x.2).
Proof.
  induction l as [|y l IH] using rev_ind; [by intros ?%elem_of_nil|].
  rewrite collect_modules_snoc. intros Hx. rewrite lookup_insert_is_Some'.
  apply elem_of_app in Hx as [Hx|Hx%list_elem_of_singleton]; [by right; apply IH | left; by subst].
Qed.

(** The modules of a package that parses. *)
Definition parsed_modules (code : list bytes) (l : list (bytes * CompiledModule)) : Prop :=
  Forall2 (fun c x => deserialize c = Ok x.2 /\ x.1 = c) code l.

Lemma with_module_all code l : parsed_modules code l -> mapM (with_module deserialize) code = Some l.
Proof.
  intros Hl. apply mapM_Some_2. eapply Forall2_impl; [exact Hl|]. intros c [c' m] [Hm Hc].
  cbn in *. subst c'. unfold with_module. by rewrite Hm.
Qed.

(** C24. For a package whose modules parse and do not depend on each other in a circle, sorting ends
    without a panic, and gives each module of the package once (the last one of a name, with its
    bytecode), after the modules of the package that it depends on. *)
Theorem sorted_modules_exact (pack : ReleasePackage (AccountAddress := AccountAddress)) l
    (Hparse : parsed_modules (code pack) l)
    (Hacyclic : forall id, ~ tc (dep_of immediate_dependencies (collect_modules self_id l)) id id) :
  exists result, sorted_code_and_modules deserialize self_id immediate_dependencies id_leb pack
      = Some result /\
    NoDup ((fun x => self_id x.2) <$> result) /\
    (forall x, x ∈ result <-> collect_modules self_id l !! self_id x.2 = Some x) /\
    (forall before x after dep, result = before ++ x :: after ->
       dep ∈ immediate_dependencies x.2 -> is_Some (collect_modules self_id l !! dep) ->
       dep ∈ (fun y => self_id y.2) <$> before).
Proof.
  unfold sorted_code_and_modules. rewrite (with_module_all _ l Hparse). cbn [mbind option_bind].
  set (map := collect_modules self_id l) in *.
  assert (Hkeys : forall id, id ∈ (btree_iter id_leb map).*1 <-> is_Some (map !! id)).
  { intros id. rewrite list_elem_of_fmap. split.
    - intros ([k v] & -> & Hin). apply btree_iter_elem in Hin. by eexists.
    - intros [v Hv]. exists (id, v). split; [done|]. by apply btree_iter_elem. }
  destruct (sort_all_visits immediate_dependencies map Hacyclic (btree_iter id_leb map).*1)
    with (order := @nil ModuleId) as (order & -> & [Honce Hknown Hdeps] & Hall);
    [by intros id Hid; apply Hkeys | apply dependency_order_nil|].
  cbn [app mbind option_bind] in *.
  destruct (take_out_exact order Honce map Hknown) as (result & -> & Hr).
  assert (Hids : (fun x => self_id x.2) <$> result = order).
  { clear -Hr. induction Hr as [|id x order result Hx _ IH]; [done|]. rewrite fmap_cons, IH. f_equal.
    by apply collect_modules_elem in Hx as [_ ?]. }
  exists result. split_and!; [done | by rewrite Hids | |].
  - intros x. split.
    + intros [i Hi]%list_elem_of_lookup. destruct (Forall2_lookup_r _ _ _ _ _ Hr Hi) as (id & _ & Hid).
      pose proof (collect_modules_elem l id x Hid) as [_ <-]. done.
    + intros Hx. assert (Hin : self_id x.2 ∈ order) by (apply Hall, Hkeys; by eexists).
      apply list_elem_of_lookup in Hin as [i Hi].
      destruct (Forall2_lookup_l _ _ _ _ _ Hr Hi) as (y & Hy & Heq).
      rewrite Hx in Heq. injection Heq as <-. by apply list_elem_of_lookup_2 in Hy.
  - intros before x after dep Heq Hdep Hmap. rewrite <- Hids, Heq, fmap_app, fmap_cons in Hdeps.
    eapply Hdeps; [reflexivity|]. exists x. split_and!; [|done..].
    assert (Hx : x ∈ result) by set_solver.
    apply list_elem_of_lookup in Hx as [i Hi]. destruct (Forall2_lookup_r _ _ _ _ _ Hr Hi) as (id & _ & Hid).
    pose proof (collect_modules_elem l id x Hid) as [_ <-]. done.
Qed.
End SortedModules.

(** A proposal script appends the second and the third chunk to the first: this is the metadata. *)
Lemma chunks_append metadata : exists c1 c2 c3,
  chunks_of metadata = [c1; c2; c3] /\ c1 ++ c2 ++ c3 = metadata.
Proof.
  unfold chunks_of. cbn. do 3 eexists. split; [done|].
  rewrite take_ge with (l := drop _ (drop _ metadata)) by done. by rewrite !take_drop.
Qed.

(** ** A package of three modules *)
Module BundleExample.
(** The first byte of a module is its name, the others are its dependencies. *)
Definition parse (b : bytes) : PartialVMResult bytes := Ok b.
Definition name_of (m : bytes) : Z := hd 0 m.
Definition pack : ReleasePackage (AccountAddress := Z) :=
  {| metadata := {| name := "example"; upgrade_policy := compat; upgrade_number := 0;
                    source_digest := ""; manifest := []; modules := []; deps := [];
                    extension := none |};
     code := [[1; 2; 7]; [2; 3]; [3; 9]] |}.
Definition mods : list (bytes * bytes) := [([1; 2; 7], [1; 2; 7]); ([2; 3], [2; 3]); ([3; 9], [3; 9])].

Lemma larger a b : dep_of tail (collect_modules name_of mods) a b -> a < b.
Proof.
  intros (x & Hx & Hdep & [y Hy]).
  apply collect_modules_elem in Hx as [Hx <-], Hy as [Hy <-]. unfold mods in *.
  repeat (apply elem_of_cons in Hx as [->|Hx]; [
    repeat (apply elem_of_cons in Hy as [->|Hy]; [cbn in *; set_solver by lia|]);
      by apply elem_of_nil in Hy|]).
  by apply elem_of_nil in Hx.
Qed.

Lemma sorted_modules_exact_witness :
  sorted_code_and_modules parse name_of tail Z.le pack =
    Some [([3; 9], [3; 9]); ([2; 3], [2; 3]); ([1; 2; 7], [1; 2; 7])] /\
  exists result, sorted_code_and_modules parse name_of tail Z.le pack = Some result /\
    NoDup (name_of <$> result.*2).
Proof.
  split; [reflexivity|].
  destruct (sorted_modules_exact parse name_of tail Z.le pack mods) as (result & Hr & Hn & _).
  - by repeat constructor.
  - intros id Hc. assert (Hlt : forall a b, tc (dep_of tail (collect_modules name_of mods)) a b -> a < b).
    { induction 1 as [a b Hab|a b c Hab _ IH]; [by apply larger | apply larger in Hab; lia]. }
    apply Hlt in Hc. lia.
  - exists result. split; [exact Hr|]. by rewrite <- list_fmap_compose.
Defined.
End BundleExample.
