(* ===== verification/Ristretto.v ===== *)
(** * The Ristretto group natives
    ([framework/src/natives/cryptography/{ristretto255,ristretto255_point,ristretto255_scalar}.rs])

    A Move struct [RistrettoPoint] holds a handle into the [PointStore] of the session; a Move
    [Scalar] holds bytes.  The group, its scalars and SHA-512 are [curve25519-dalek] and [sha2].
    The store is the state of the point natives: indexing it out of bounds panics, and so does a
    scalar that is not canonical, by a debug assertion ([noncanonical_panics]).  The theorem
    [handles_are_points] shows that Move code that owns its handles and passes canonical scalars,
    as [ristretto255.move] sees to it, sees points: nothing panics, a new handle is never an old
    one, and an operation in place changes one point only. *)
From S2P Require Import Prelude GasSchedule GasSize GasProps Natives.

#[local] Open Scope Z_scope.

Definition internal_type_error : PartialVMError :=
  {| status := INTERNAL_TYPE_ERROR; sub_status := None |}.

(** [<[u8; N]>::try_from(bytes)] *)
Definition array (n : nat) (bytes : bytes) : option Prelude.bytes :=
  if (length bytes =? n)%nat then Some bytes else None.

Definition pop_32_byte_slice (bytes : bytes) : PartialVMResult Prelude.bytes :=
  ok_or (array 32 bytes) internal_type_error.
Definition pop_64_byte_slice (bytes : bytes) : PartialVMResult Prelude.bytes :=
  ok_or (array 64 bytes) internal_type_error.

Section Ristretto.
Context `{GasAlgebra}.
(** The gas parameters of the framework. *)
Context (p : string -> Z).
Context {Scalar RistrettoPoint : Type}.

(** ** [ristretto255_scalar.rs] *)
Section Scalars.
Context (from_bits : bytes -> Scalar) (is_canonical : Scalar -> bool) (to_bytes : Scalar -> bytes).
Context (from_canonical_bytes : bytes -> option Scalar).
Context (invert neg : Scalar -> Scalar) (mul add sub : Scalar -> Scalar -> Scalar).
Context (hash_from_bytes : bytes -> Scalar) (from_u64 from_u128 : Z -> Scalar).
Context (from_bytes_mod_order from_bytes_mod_order_wide : bytes -> Scalar).

Definition scalar_from_valid_bytes (bytes : bytes) : comp PartialVMError Scalar :=
  slice ← lift (ok_or (array 32 bytes) internal_type_error);
  let s := from_bits slice in
  if is_canonical s then Return s else Panic (* debug_assert!(s.is_canonical()) *).
Definition pop_scalar_from_bytes (bytes : bytes) : comp PartialVMError Scalar :=
  scalar_from_valid_bytes bytes.

Definition native_scalar_is_canonical (bytes : bytes) : NativeResult bool :=
  let cost := (p "ristretto255.scalar_is_canonical" * one)%gas in
  if negb (length bytes =? 32)%nat then Native.ok cost false
  else Native.ok cost (bool_decide (is_Some (from_canonical_bytes bytes))).

Definition native_scalar_invert (bytes : bytes) : comp PartialVMError (NativeResult Prelude.bytes) :=
  let cost := (p "ristretto255.scalar_invert" * one)%gas in
  s ← pop_scalar_from_bytes bytes;
  Return (Native.ok cost (to_bytes (invert s))).

Definition native_scalar_from_sha512 (bytes : bytes) : NativeResult Prelude.bytes :=
  let cost := (p "ristretto255.scalar_uniform_from_64_bytes" * one
               + p "ristretto255.sha512_per_hash" * one
               + p "ristretto255.sha512_per_byte" * num_args (length bytes))%gas in
  Native.ok cost (to_bytes (hash_from_bytes bytes)).

(** [native_scalar_mul], [native_scalar_add] and [native_scalar_sub]: [b] is popped first. *)
Definition native_scalar_mul (a_bytes b_bytes : bytes) : comp PartialVMError (NativeResult bytes) :=
  let cost := (p "ristretto255.scalar_mul" * one)%gas in
  b ← pop_scalar_from_bytes b_bytes;
  a ← pop_scalar_from_bytes a_bytes;
  Return (Native.ok cost (to_bytes (mul a b))).

Definition native_scalar_add (a_bytes b_bytes : bytes) : comp PartialVMError (NativeResult bytes) :=
  let cost := (p "ristretto255.scalar_add" * one)%gas in
  b ← pop_scalar_from_bytes b_bytes;
  a ← pop_scalar_from_bytes a_bytes;
  Return (Native.ok cost (to_bytes (add a b))).

Definition native_scalar_sub (a_bytes b_bytes : bytes) : comp PartialVMError (NativeResult bytes) :=
  let cost := (p "ristretto255.scalar_sub" * one)%gas in
  b ← pop_scalar_from_bytes b_bytes;
  a ← pop_scalar_from_bytes a_bytes;
  Return (Native.ok cost (to_bytes (sub a b))).

Definition native_scalar_neg (a_bytes : bytes) : comp PartialVMError (NativeResult bytes) :=
  a ← pop_scalar_from_bytes a_bytes;
  let cost := (p "ristretto255.scalar_neg" * one)%gas in
  Return (Native.ok cost (to_bytes (neg a))).

Definition native_scalar_from_u64 (num : Z) : NativeResult bytes :=
  let cost := (p "ristretto255.scalar_from_u64" * one)%gas in
  Native.ok cost (to_bytes (from_u64 num)).

Definition native_scalar_from_u128 (num : Z) : NativeResult bytes :=
  let cost := (p "ristretto255.scalar_from_u128" * one)%gas in
  Native.ok cost (to_bytes (from_u128 num)).

Definition native_scalar_reduced_from_32_bytes (bytes : bytes)
    : PartialVMResult (NativeResult Prelude.bytes) :=
  bytes_slice ← pop_32_byte_slice bytes;
  let cost := (p "ristretto255.scalar_reduced_from_32_bytes" * one)%gas in
  Ok (Native.ok cost (to_bytes (from_bytes_mod_order bytes_slice))).

Definition native_scalar_uniform_from_64_bytes (bytes : bytes)
    : PartialVMResult (NativeResult Prelude.bytes) :=
  bytes_slice ← pop_64_byte_slice bytes;
  let cost := (p "ristretto255.scalar_uniform_from_64_bytes" * one)%gas in
  Ok (Native.ok cost (to_bytes (from_bytes_mod_order_wide bytes_slice))).
End Scalars.

(** ** [PointStore] *)
Record PointStore := { points : list RistrettoPoint }.

(** [NativeRistrettoPointContext::new()] *)
Definition PointStore_default : PointStore := {| points := [] |}.

(** A handle is a [u64]; indexing is by [handle.0 as usize]. *)
Abbreviation RistrettoPointHandle := Z.

Definition set_point (s : PointStore) (handle : RistrettoPointHandle) (point : RistrettoPoint)
    : comp PartialVMError PointStore :=
  if bool_decide (Z.to_nat handle < length (points s))%nat
  then Return {| points := <[Z.to_nat handle := point]> (points s) |}
  else Panic.

Definition get_point (s : PointStore) (handle : RistrettoPointHandle)
    : comp PartialVMError RistrettoPoint :=
  expect (points s !! Z.to_nat handle).

(** References to two points, as their indices in the vector: the vector is split after the
    smaller one. *)
Definition get_two_muts (s : PointStore) (a b : RistrettoPointHandle)
    : comp PartialVMError (nat * nat) :=
  let split (a b : nat) :=
    if (a + 1 <=? length (points s))%nat then
      let left := take (a + 1) (points s) in
      let right := drop (a + 1) (points s) in
      _ ← expect (left !! a);
      _ ← expect (right !! (b - (a + 1))%nat);
      Return (a, (a + 1 + (b - (a + 1)))%nat)
    else Panic in
  match a ?= b with
  | Lt => split (Z.to_nat a) (Z.to_nat b)
  | Gt => '(a_ref, b_ref) ← split (Z.to_nat b) (Z.to_nat a); Return (b_ref, a_ref)
  | Eq => Panic
  end.

Definition add_point (s : PointStore) (point : RistrettoPoint) : RistrettoPointHandle * PointStore :=
  let id := length (points s) in
  (Z.of_nat id mod U64, {| points := points s ++ [point] |}).

(** ** [ristretto255_point.rs] *)
Section Points.
Context (from_bits : bytes -> Scalar) (is_canonical : Scalar -> bool).
Context (identity : RistrettoPoint) (decompress : bytes -> option RistrettoPoint).
Context (compress : RistrettoPoint -> bytes) (eq : RistrettoPoint -> RistrettoPoint -> bool).
Context (point_mul : RistrettoPoint -> Scalar -> RistrettoPoint).
Context (point_neg : RistrettoPoint -> RistrettoPoint).
Context (point_add point_sub : RistrettoPoint -> RistrettoPoint -> RistrettoPoint).
Context (basepoint_mul : Scalar -> RistrettoPoint).
Context (vartime_double_scalar_mul_basepoint : Scalar -> RistrettoPoint -> Scalar -> RistrettoPoint).
Context (vartime_multiscalar_mul : list Scalar -> list RistrettoPoint -> RistrettoPoint).
Context (hash_from_bytes from_uniform_bytes : bytes -> RistrettoPoint).
(** [(n / log2(n)).ceil() as u64] in [f64] for [n >= 2], and the error of [borrow_elem] past the
    end of a vector. *)
Context (div_log2_ceil : nat -> Z) (index_error : PartialVMError).

Abbreviation pop_scalar := (pop_scalar_from_bytes from_bits is_canonical).
Abbreviation native V := (comp PartialVMError (NativeResult V * PointStore)).

Definition compressed_point_from_bytes (bytes : bytes) : option Prelude.bytes := array 32 bytes.

Definition decompress_maybe_non_canonical_point_bytes (cumulative_cost : Z) (bytes : bytes)
    : option RistrettoPoint * Z :=
  match compressed_point_from_bytes bytes with
  | None => (None, cumulative_cost)
  | Some compressed =>
      let cumulative_cost := (cumulative_cost + p "ristretto255.point_decompress" * one)%gas in
      (decompress compressed, cumulative_cost)
  end.

Definition native_point_identity (s : PointStore) : native Z :=
  let cost := (p "ristretto255.point_identity" * one)%gas in
  let '(result_handle, s) := add_point s identity in
  Return (Native.ok cost result_handle, s).

Definition native_point_is_canonical (bytes : bytes) : NativeResult bool :=
  let '(opt_point, cost) := decompress_maybe_non_canonical_point_bytes 0 bytes in
  Native.ok cost (bool_decide (is_Some opt_point)).

Definition native_point_decompress (s : PointStore) (bytes : bytes) : native (Z * bool) :=
  let '(point, cost) := decompress_maybe_non_canonical_point_bytes 0 bytes in
  match point with
  | None => Return (Native.ok cost (U64_MAX, false), s)
  | Some point =>
      let '(id, s) := add_point s point in Return (Native.ok cost (id, true), s)
  end.

Definition native_point_compress (s : PointStore) (handle : RistrettoPointHandle) : native bytes :=
  let cost := (p "ristretto255.point_compress" * one)%gas in
  point ← get_point s handle;
  Return (Native.ok cost (compress point), s).

Definition native_point_mul (s : PointStore) (point_handle : RistrettoPointHandle)
    (scalar : bytes) (in_place : bool) : native Z :=
  scalar ← pop_scalar scalar;
  let cost := (p "ristretto255.point_mul" * one)%gas in
  '(result_handle, s) ←
    (if in_place then
       point ← get_point s point_handle;
       s ← set_point s point_handle (point_mul point scalar);
       Return (point_handle, s)
     else
       point ← get_point s point_handle;
       Return (add_point s (point_mul point scalar)));
  Return (Native.ok cost result_handle, s).

Definition native_point_equals (s : PointStore) (a_handle b_handle : RistrettoPointHandle)
    : native bool :=
  let cost := (p "ristretto255.point_equals" * one)%gas in
  a ← get_point s a_handle;
  b ← get_point s b_handle;
  Return (Native.ok cost (eq a b), s).

Definition native_point_neg (s : PointStore) (point_handle : RistrettoPointHandle)
    (in_place : bool) : native Z :=
  let cost := (p "ristretto255.point_neg" * one)%gas in
  '(result_handle, s) ←
    (if in_place then
       point ← get_point s point_handle;
       s ← set_point s point_handle (point_neg point);
       Return (point_handle, s)
     else
       point ← get_point s point_handle;
       Return (add_point s (point_neg point)));
  Return (Native.ok cost result_handle, s).

(** [a.add_assign(&*b)] or [a.sub_assign(&*b)], through the references. *)
Definition assign (op : RistrettoPoint -> RistrettoPoint -> RistrettoPoint) (s : PointStore)
    (a_handle b_handle : RistrettoPointHandle) : comp PartialVMError (Z * PointStore) :=
  '(a_ref, b_ref) ← get_two_muts s a_handle b_handle;
  a ← expect (points s !! a_ref);
  b ← expect (points s !! b_ref);
  Return (a_handle, {| points := <[a_ref := op a b]> (points s) |}).

Definition native_point_add (s : PointStore) (a_handle b_handle : RistrettoPointHandle)
    (in_place : bool) : native Z :=
  let cost := (p "ristretto255.point_add" * one)%gas in
  '(result_handle, s) ←
    (if in_place then assign point_add s a_handle b_handle
     else
       a ← get_point s a_handle;
       b ← get_point s b_handle;
       Return (add_point s (point_add a b)));
  Return (Native.ok cost result_handle, s).

Definition native_point_sub (s : PointStore) (a_handle b_handle : RistrettoPointHandle)
    (in_place : bool) : native Z :=
  let cost := (p "ristretto255.point_sub" * one)%gas in
  '(result_handle, s) ←
    (if in_place then assign point_sub s a_handle b_handle
     else
       a ← get_point s a_handle;
       b ← get_point s b_handle;
       Return (add_point s (point_sub a b)));
  Return (Native.ok cost result_handle, s).

Definition native_basepoint_mul (s : PointStore) (scalar : bytes) : native Z :=
  a ← pop_scalar scalar;
  let cost := (p "ristretto255.basepoint_mul" * one)%gas in
  let '(result_handle, s) := add_point s (basepoint_mul a) in
  Return (Native.ok cost result_handle, s).

Definition native_basepoint_double_mul (s : PointStore) (a_bytes : bytes)
    (A_handle : RistrettoPointHandle) (b_bytes : bytes) : native Z :=
  b ← pop_scalar b_bytes;
  a ← pop_scalar a_bytes;
  let cost := (p "ristretto255.basepoint_double_mul" * one)%gas in
  A_ref ← get_point s A_handle;
  let '(result_handle, s) := add_point s (vartime_double_scalar_mul_basepoint a A_ref b) in
  Return (Native.ok cost result_handle, s).

Definition native_new_point_from_sha512 (s : PointStore) (bytes : bytes) : native Z :=
  let cost := (p "ristretto255.point_from_64_uniform_bytes" * one
               + p "ristretto255.sha512_per_hash" * one
               + p "ristretto255.sha512_per_byte" * num_args (length bytes))%gas in
  let '(result_handle, s) := add_point s (hash_from_bytes bytes) in
  Return (Native.ok cost result_handle, s).

Definition native_new_point_from_64_uniform_bytes (s : PointStore) (bytes : bytes) : native Z :=
  slice ← lift (pop_64_byte_slice bytes);
  let cost := (p "ristretto255.point_from_64_uniform_bytes" * one)%gas in
  let '(result_handle, s) := add_point s (from_uniform_bytes slice) in
  Return (Native.ok cost result_handle, s).

(** [(num as f64 / f64::log2(num as f64)).ceil() as u64]: [log2(0)] is minus infinity, [1 / 0.0]
    is infinity, and the cast saturates. *)
Definition num_muls (num : nat) : Z :=
  match num with
  | 0%nat => 0
  | 1%nat => U64_MAX
  | _ => div_log2_ceil num
  end.

(** The two loops over [0..num], where [num] is the number of scalars. *)
Fixpoint parse_scalars (scalars : list bytes) : comp PartialVMError (list Scalar) :=
  match scalars with
  | [] => Return []
  | b :: scalars =>
      scalar ← scalar_from_valid_bytes from_bits is_canonical b;
      scalars ← parse_scalars scalars;
      Return (scalar :: scalars)
  end.

Fixpoint parse_points (s : PointStore) (num : nat) (handles : list RistrettoPointHandle)
    : comp PartialVMError (list RistrettoPoint) :=
  match num, handles with
  | O, _ => Return []
  | S _, [] => Throw index_error
  | S num, handle :: handles =>
      point ← get_point s handle;
      points ← parse_points s num handles;
      Return (point :: points)
  end.

Definition native_multi_scalar_mul (s : PointStore) (points_ref : list RistrettoPointHandle)
    (scalars_ref : list bytes) : native Z :=
  let num := length scalars_ref in
  scalars ← parse_scalars scalars_ref;
  points ← parse_points s num points_ref;
  let result := vartime_multiscalar_mul scalars points in
  let cost := (p "ristretto255.scalar_parse_arg" * num_args num
               + p "ristretto255.point_parse_arg" * num_args num
               + p "ristretto255.point_mul" * num_muls num)%gas in
  let '(result_handle, s) := add_point s result in
  Return (Native.ok cost result_handle, s).
End Points.
End Ristretto.
Arguments PointStore : clear implicits.

(** ** The store behind Move's points

    A call of a native that takes or makes points, over any representation [H] of a point: the
    handles of the store, or the variables of a Move program. *)
Inductive PointCall (H : Type) :=
  | PointIdentity
  | PointDecompress (b : bytes)
  | PointCompress (h : H)
  | PointMul (in_place : bool) (h : H) (scalar : bytes)
  | PointEquals (a b : H)
  | PointNeg (in_place : bool) (h : H)
  | PointAdd (in_place : bool) (a b : H)
  | PointSub (in_place : bool) (a b : H)
  | BasepointMul (scalar : bytes)
  | BasepointDoubleMul (a_bytes : bytes) (h : H) (b_bytes : bytes)
  | FromSha512 (b : bytes)
  | FromUniformBytes (b : bytes)
  | MultiScalarMul (hs : list H) (scalars : list bytes).
Arguments PointIdentity {H}.
Arguments PointDecompress {H} b.
Arguments PointCompress {H} h.
Arguments PointMul {H} in_place h scalar.
Arguments PointEquals {H} a b.
Arguments PointNeg {H} in_place h.
Arguments PointAdd {H} in_place a b.
Arguments PointSub {H} in_place a b.
Arguments BasepointMul {H} scalar.
Arguments BasepointDoubleMul {H} a_bytes h b_bytes.
Arguments FromSha512 {H} b.
Arguments FromUniformBytes {H} b.
Arguments MultiScalarMul {H} hs scalars.

(** What a call returns to Move. *)
Inductive PointRet :=
  | RHandle (h : Z)
  | RMaybe (h : Z) (ok : bool)
  | RBytes (b : bytes)
  | RBool (b : bool).

(** What a call does to points: a new one, a new value of a variable, or an observation. *)
Inductive PointEffect (H P : Type) :=
  | Fresh (point : P)
  | Updated (h : H) (point : P)
  | NoPoint
  | SeesBytes (b : bytes)
  | SeesBool (b : bool).
Arguments Fresh {H P} point.
Arguments Updated {H P} h point.
Arguments NoPoint {H P}.
Arguments SeesBytes {H P} b.
Arguments SeesBool {H P} b.

(** The result of a native, and the store after it. *)
Definition returning {V S} (f : V -> PointRet) (m : comp PartialVMError (NativeResult V * S))
    : comp PartialVMError (option PointRet * S) :=
  '(r, s) ← m; Return (f <$> ok (native_result r), s).

Section Handles.
Context `{GasAlgebra} (p : string -> Z) {Scalar RistrettoPoint : Type}.
Context (from_bits : bytes -> Scalar) (is_canonical : Scalar -> bool).
Context (identity : RistrettoPoint) (decompress : bytes -> option RistrettoPoint).
Context (compress : RistrettoPoint -> bytes) (eq : RistrettoPoint -> RistrettoPoint -> bool).
Context (point_mul : RistrettoPoint -> Scalar -> RistrettoPoint).
Context (point_neg : RistrettoPoint -> RistrettoPoint).
Context (point_add point_sub : RistrettoPoint -> RistrettoPoint -> RistrettoPoint).
Context (basepoint_mul : Scalar -> RistrettoPoint).
Context (vartime_double_scalar_mul_basepoint : Scalar -> RistrettoPoint -> Scalar -> RistrettoPoint).
Context (vartime_multiscalar_mul : list Scalar -> list RistrettoPoint -> RistrettoPoint).
Context (hash_from_bytes from_uniform_bytes : bytes -> RistrettoPoint).
Context (div_log2_ceil : nat -> Z) (index_error : PartialVMError).

Abbreviation PointStore := (PointStore RistrettoPoint).

(** The native of a call. *)
Definition run (s : PointStore) (c : PointCall Z) : comp PartialVMError (option PointRet * PointStore) :=
  match c with
  | PointIdentity => returning RHandle (native_point_identity p identity s)
  | PointDecompress b =>
      returning (uncurry RMaybe) (native_point_decompress p decompress s b)
  | PointCompress h => returning RBytes (native_point_compress p compress s h)
  | PointMul in_place h scalar =>
      returning RHandle (native_point_mul p from_bits is_canonical point_mul s h scalar in_place)
  | PointEquals a b => returning RBool (native_point_equals p eq s a b)
  | PointNeg in_place h =>
      returning RHandle (native_point_neg p point_neg s h in_place)
  | PointAdd in_place a b =>
      returning RHandle (native_point_add p point_add s a b in_place)
  | PointSub in_place a b =>
      returning RHandle (native_point_sub p point_sub s a b in_place)
  | BasepointMul scalar =>
      returning RHandle (native_basepoint_mul p from_bits is_canonical basepoint_mul s scalar)
  | BasepointDoubleMul a h b =>
      returning RHandle (native_basepoint_double_mul p from_bits is_canonical vartime_double_scalar_mul_basepoint s a h b)
  | FromSha512 b =>
      returning RHandle (native_new_point_from_sha512 p hash_from_bytes s b)
  | FromUniformBytes b =>
      returning RHandle (native_new_point_from_64_uniform_bytes p from_uniform_bytes s b)
  | MultiScalarMul hs scalars =>
      returning RHandle (native_multi_scalar_mul p from_bits is_canonical vartime_multiscalar_mul div_log2_ceil index_error s hs scalars)
  end.

(** *** A Move program sees points *)
Section Variables.
Context {V : Type} `{Countable V}.
Implicit Types (env : gmap V Z) (m : gmap V RistrettoPoint) (s : PointStore) (x : V).

(** The point of a variable, and the points of the first variables of a list. *)
Definition point_of m x : comp PartialVMError RistrettoPoint := expect (m !! x).

Fixpoint points_of m (num : nat) (xs : list V) : comp PartialVMError (list RistrettoPoint) :=
  match num, xs with
  | O, _ => Return []
  | S _, [] => Throw index_error
  | S num, x :: xs =>
      point ← point_of m x;
      points ← points_of m num xs;
      Return (point :: points)
  end.

Definition make (in_place : bool) x (point : RistrettoPoint) : PointEffect V RistrettoPoint :=
  if in_place then Updated x point else Fresh point.

(** The scalar of 32 bytes, and the scalars of a list; the 64 bytes of a point. *)
Definition scalar_of (b : bytes) : comp PartialVMError Scalar :=
  if decide (length b = 32%nat) then Return (from_bits b) else Throw internal_type_error.
Fixpoint scalars_of (l : list bytes) : comp PartialVMError (list Scalar) :=
  match l with
  | [] => Return []
  | b :: l => a ← scalar_of b; rest ← scalars_of l; Return (a :: rest)
  end.
Definition uniform_point (b : bytes) : comp PartialVMError RistrettoPoint :=
  if decide (length b = 64%nat) then Return (from_uniform_bytes b) else Throw internal_type_error.

(** The abstract semantics: what a call does to the points of the variables. *)
Definition effect m (c : PointCall V) : comp PartialVMError (PointEffect V RistrettoPoint) :=
  match c with
  | PointIdentity => Return (Fresh identity)
  | PointDecompress b =>
      Return (if decide (length b = 32%nat) then from_option Fresh NoPoint (decompress b) else NoPoint)
  | PointCompress x => pt ← point_of m x; Return (SeesBytes (compress pt))
  | PointMul in_place x scalar =>
      a ← scalar_of scalar; pt ← point_of m x; Return (make in_place x (point_mul pt a))
  | PointEquals x y => a ← point_of m x; b ← point_of m y; Return (SeesBool (eq a b))
  | PointNeg in_place x => pt ← point_of m x; Return (make in_place x (point_neg pt))
  | PointAdd in_place x y =>
      a ← point_of m x; b ← point_of m y; Return (make in_place x (point_add a b))
  | PointSub in_place x y =>
      a ← point_of m x; b ← point_of m y; Return (make in_place x (point_sub a b))
  | BasepointMul scalar => a ← scalar_of scalar; Return (Fresh (basepoint_mul a))
  | BasepointDoubleMul a_bytes x b_bytes =>
      b ← scalar_of b_bytes; a ← scalar_of a_bytes; pt ← point_of m x;
      Return (Fresh (vartime_double_scalar_mul_basepoint a pt b))
  | FromSha512 b => Return (Fresh (hash_from_bytes b))
  | FromUniformBytes b => pt ← uniform_point b; Return (Fresh pt)
  | MultiScalarMul xs scalars =>
      a ← scalars_of scalars; pts ← points_of m (length scalars) xs;
      Return (Fresh (vartime_multiscalar_mul a pts))
  end.

(** The variables that a call uses; Move never passes one variable to both references of an
    operation in place. *)
Definition call_vars (c : PointCall V) : list V :=
  match c with
  | PointCompress x | PointMul _ x _ | PointNeg _ x | BasepointDoubleMul _ x _ => [x]
  | PointEquals x y | PointAdd _ x y | PointSub _ x y => [x; y]
  | MultiScalarMul xs _ => xs
  | _ => []
  end.

(** The scalars that a call takes, as bytes; a Move [Scalar] holds the canonical bytes of one, an
    invariant of [ristretto255.move]. *)
Definition call_scalars (c : PointCall V) : list bytes :=
  match c with
  | PointMul _ _ scalar | BasepointMul scalar => [scalar]
  | BasepointDoubleMul a _ b => [a; b]
  | MultiScalarMul _ scalars => scalars
  | _ => []
  end.
Definition canonical (b : bytes) : Prop := length b = 32%nat -> is_canonical (from_bits b) = true.

Definition exclusive (c : PointCall V) : Prop :=
  match c with
  | PointAdd in_place x y | PointSub in_place x y => in_place = true -> x <> y
  | _ => True
  end.

(** The call, with the handles that the variables hold. *)
Definition handle_of env x : Z := default 0 (env !! x).

Definition with_handles env (c : PointCall V) : PointCall Z :=
  match c with
  | PointIdentity => PointIdentity
  | PointDecompress b => PointDecompress b
  | PointCompress x => PointCompress (handle_of env x)
  | PointMul in_place x scalar => PointMul in_place (handle_of env x) scalar
  | PointEquals x y => PointEquals (handle_of env x) (handle_of env y)
  | PointNeg in_place x => PointNeg in_place (handle_of env x)
  | PointAdd in_place x y => PointAdd in_place (handle_of env x) (handle_of env y)
  | PointSub in_place x y => PointSub in_place (handle_of env x) (handle_of env y)
  | BasepointMul scalar => BasepointMul scalar
  | BasepointDoubleMul a x b => BasepointDoubleMul a (handle_of env x) b
  | FromSha512 b => FromSha512 b
  | FromUniformBytes b => FromUniformBytes b
  | MultiScalarMul xs scalars => MultiScalarMul (handle_of env <$> xs) scalars
  end.

(** The variables hold handles of the store, no handle twice, and the store has their points. *)
Record represents s env m : Prop := {
  rep_dom x : is_Some (env !! x) <-> is_Some (m !! x);
  rep_point x h : env !! x = Some h -> 0 <= h /\ points s !! Z.to_nat h = m !! x;
  rep_own x y h : env !! x = Some h -> env !! y = Some h -> x = y;
}.

Lemma rep_lookup s env m x : represents s env m -> x ∈ dom env ->
  exists h pt, env !! x = Some h /\ handle_of env x = h /\ 0 <= h /\
    points s !! Z.to_nat h = Some pt /\ m !! x = Some pt.
Proof.
  intros Hr Hx. apply elem_of_dom in Hx as [h Hh].
  destruct (proj1 (rep_dom _ _ _ Hr x) (mk_is_Some _ _ Hh)) as [pt Hpt].
  destruct (rep_point _ _ _ Hr x h Hh) as [Hpos Hp]. rewrite Hpt in Hp.
  exists h, pt. split_and!; [done | unfold handle_of; by rewrite Hh | done..].
Qed.

Lemma rep_get s env m x : represents s env m -> x ∈ dom env ->
  exists pt, get_point s (handle_of env x) = Return pt /\ point_of m x = Return pt.
Proof.
  intros Hr Hx. destruct (rep_lookup _ _ _ _ Hr Hx) as (h & pt & _ & -> & _ & Hp & Hm).
  exists pt. unfold get_point, point_of. by rewrite Hp, Hm.
Qed.

(** A new point: its handle is new. *)
Lemma rep_fresh s env m pt x h s' : represents s env m -> Z.of_nat (length (points s)) < U64 ->
  add_point s pt = (h, s') -> represents s' (<[x := h]> env) (<[x := pt]> m).
Proof.
  intros Hr Hlen [= <- <-]. rewrite Z.mod_small by lia.
  assert (Hold : forall y h, env !! y = Some h -> 0 <= h /\ (Z.to_nat h < length (points s))%nat /\
    points s !! Z.to_nat h = m !! y).
  { intros y h Hy. destruct (rep_point _ _ _ Hr y h Hy) as [Hh Hp].
    destruct (proj1 (rep_dom _ _ _ Hr y) (mk_is_Some _ _ Hy)) as [q Hq].
    rewrite Hq in Hp. split_and!; [done | by apply lookup_lt_Some in Hp | congruence]. }
  split; cbn [points].
  - intros y. destruct (decide (x = y)) as [->|Hne].
    + rewrite !lookup_insert_eq. split; eauto.
    + rewrite !lookup_insert_ne by done. apply (rep_dom _ _ _ Hr).
  - intros y h Hy. destruct (decide (x = y)) as [->|Hne].
    + rewrite lookup_insert_eq in Hy. rewrite lookup_insert_eq. injection Hy as <-. split; [lia|].
      by rewrite Nat2Z.id, list_lookup_middle.
    + rewrite lookup_insert_ne in Hy by done. rewrite lookup_insert_ne by done. destruct (Hold y h Hy) as (Hh & Hlt & Hp).
      split; [done|]. by rewrite lookup_app_l.
  - intros y z h Hy Hz.
    destruct (decide (x = y)) as [->|Hy'], (decide (z = y)) as [->|Hz']; try done.
    + rewrite lookup_insert_eq in Hy. rewrite lookup_insert_ne in Hz by congruence.
      injection Hy as <-. destruct (Hold z _ Hz) as (_ & Hlt & _). rewrite Nat2Z.id in Hlt. lia.
    + destruct (decide (x = z)) as [->|Hxz].
      * rewrite lookup_insert_eq in Hz. rewrite lookup_insert_ne in Hy by congruence.
        injection Hz as <-. destruct (Hold y _ Hy) as (_ & Hlt & _). rewrite Nat2Z.id in Hlt. lia.
      * rewrite lookup_insert_ne in Hy, Hz by done. by apply (rep_own _ _ _ Hr y z h).
Qed.

(** A point in place: only its variable changes. *)
Lemma rep_update s env m x h pt : represents s env m -> env !! x = Some h ->
  represents {| points := <[Z.to_nat h := pt]> (points s) |} env (<[x := pt]> m).
Proof.
  intros Hr Hx. destruct (rep_point _ _ _ Hr x h Hx) as [Hh Hp].
  destruct (proj1 (rep_dom _ _ _ Hr x) (mk_is_Some _ _ Hx)) as [q Hq]. rewrite Hq in Hp.
  split; cbn [points].
  - intros y. destruct (decide (x = y)) as [->|Hne].
    + rewrite lookup_insert_eq. split; eauto.
    + rewrite lookup_insert_ne by done. apply (rep_dom _ _ _ Hr).
  - intros y h' Hy. destruct (rep_point _ _ _ Hr y h' Hy) as [Hh' Hp']. split; [done|].
    destruct (decide (x = y)) as [->|Hne].
    + rewrite lookup_insert_eq. assert (h' = h) as -> by congruence.
      apply list_lookup_insert_eq. by apply lookup_lt_Some in Hp.
    + rewrite lookup_insert_ne by done. rewrite list_lookup_insert_ne; [done|].
      intros Heq. apply Hne. apply (rep_own _ _ _ Hr x y h); [done|].
      replace h with h' by lia. done.
  - apply (rep_own _ _ _ Hr).
Qed.

Lemma get_two_muts_exact s (a b : Z) : 0 <= a -> 0 <= b -> a <> b ->
  (Z.to_nat a < length (points s))%nat -> (Z.to_nat b < length (points s))%nat ->
  get_two_muts s a b = Return (Z.to_nat a, Z.to_nat b).
Proof.
  assert (Hsplit : forall i j, (i < j)%nat -> (j < length (points s))%nat ->
    (if (i + 1 <=? length (points s))%nat then
       _ ← expect (E := PartialVMError) (take (i + 1) (points s) !! i);
       _ ← expect (drop (i + 1) (points s) !! (j - (i + 1))%nat);
       Return (i, (i + 1 + (j - (i + 1)))%nat)
     else Panic) = Return (i, j)).
  { intros i j Hij Hj. rewrite (proj2 (Nat.leb_le _ _)) by lia.
    rewrite lookup_take_lt by lia. rewrite lookup_drop.
    replace (i + 1 + (j - (i + 1)))%nat with j by lia.
    destruct (lookup_lt_is_Some_2 (points s) i) as [? ->]; [lia|].
    by destruct (lookup_lt_is_Some_2 (points s) j) as [? ->]. }
  intros Ha Hb Hne Hla Hlb. unfold get_two_muts.
  destruct (Z.compare_spec a b) as [|Hlt|Hlt]; [done|..].
  - apply Hsplit; [lia | done].
  - rewrite Hsplit; [done | lia | done].
Qed.

Lemma assign_exact s env m op x y : represents s env m -> x ∈ dom env -> y ∈ dom env -> x <> y ->
  exists a b h, point_of m x = Return a /\ point_of m y = Return b /\ env !! x = Some h /\
    assign op s (handle_of env x) (handle_of env y) =
      Return (h, {| points := <[Z.to_nat h := op a b]> (points s) |}).
Proof.
  intros Hr Hx Hy Hne.
  destruct (rep_lookup _ _ _ _ Hr Hx) as (h & a & Hex & -> & Hh & Hpa & Hma).
  destruct (rep_lookup _ _ _ _ Hr Hy) as (k & b & Hey & -> & Hk & Hpb & Hmb).
  exists a, b, h. unfold point_of, assign. rewrite Hma, Hmb. split_and!; [done..|].
  rewrite get_two_muts_exact; [cbn; by rewrite Hpa, Hpb | done | done | | by eapply lookup_lt_Some..].
  intros ->. apply Hne. by apply (rep_own _ _ _ Hr x y k).
Qed.

Lemma points_agree s env m num : represents s env m -> forall xs, list_to_set xs ⊆ dom env ->
  parse_points index_error s num (handle_of env <$> xs) = points_of m num xs.
Proof.
  intros Hr. induction num as [|num IH]; intros [|x xs] Hxs; try done.
  rewrite fmap_cons. cbn [parse_points points_of].
  destruct (rep_get s env m x Hr) as (pt & -> & ->); [set_solver|]. cbn [mbind comp_bind].
  rewrite IH by set_solver. done.
Qed.

Lemma array_exact n (b : bytes) : array n b = if decide (length b = n) then Some b else None.
Proof. unfold array. destruct (Nat.eqb_spec (length b) n); by case_decide. Qed.

Lemma pop_scalar_exact b : canonical b -> pop_scalar_from_bytes from_bits is_canonical b = scalar_of b.
Proof.
  unfold canonical, pop_scalar_from_bytes, scalar_from_valid_bytes, scalar_of. rewrite array_exact.
  intros Hc. case_decide as Hl; [|done]. cbn. by rewrite Hc.
Qed.

Lemma parse_scalars_exact scalars : Forall canonical scalars ->
  parse_scalars from_bits is_canonical scalars = scalars_of scalars.
Proof.
  induction 1 as [|b l Hb _ IH]; [done|]. cbn [parse_scalars scalars_of].
  fold (pop_scalar_from_bytes from_bits is_canonical b). by rewrite pop_scalar_exact, IH.
Qed.

Lemma scalar_of_total b : scalar_of b <> Panic.
Proof. unfold scalar_of. by case_decide. Qed.

Lemma scalars_of_total scalars : scalars_of scalars <> Panic.
Proof.
  induction scalars as [|b l IH]; [done|]. cbn [scalars_of]. unfold scalar_of.
  case_decide; [|done]. cbn. by destruct (scalars_of l).
Qed.

Lemma points_of_total s env m num : represents s env m -> forall xs, list_to_set xs ⊆ dom env ->
  points_of m num xs <> Panic.
Proof.
  intros Hr. induction num as [|num IH]; intros [|x xs] Hxs; try done. cbn [points_of].
  destruct (rep_get s env m x Hr) as (pt & _ & ->); [set_solver|]. cbn [mbind comp_bind].
  specialize (IH xs). destruct (points_of m num xs); [done | done | set_solver].
Qed.

(** What the code makes of an effect: the handle it returns, and the store it leaves. *)
Definition realises s env m (eff : PointEffect V RistrettoPoint) (r : option PointRet) s' : Prop :=
  match eff with
  | Fresh pt => exists h, (r = Some (RHandle h) \/ r = Some (RMaybe h true)) /\
      forall x, represents s' (<[x := h]> env) (<[x := pt]> m)
  | Updated x pt => exists h, env !! x = Some h /\ r = Some (RHandle h) /\
      represents s' env (<[x := pt]> m)
  | NoPoint => s' = s /\ r = Some (RMaybe U64_MAX false)
  | SeesBytes b => s' = s /\ r = Some (RBytes b)
  | SeesBool b => s' = s /\ r = Some (RBool b)
  end.

Definition implements s env m (c : PointCall V) : Prop :=
  match effect m c with
  | Return eff => exists r s', run s (with_handles env c) = Return (r, s') /\ realises s env m eff r s'
  | Throw e => run s (with_handles env c) = Throw e
  | Panic => False
  end.

Lemma fresh_realised s env m pt : represents s env m -> Z.of_nat (length (points s)) < U64 ->
  exists h s', add_point s pt = (h, s') /\
    realises s env m (Fresh pt) (Some (RHandle h)) s' /\
    realises s env m (Fresh pt) (Some (RMaybe h true)) s'.
Proof.
  intros Hr Hlen. destruct (add_point s pt) as [h s'] eqn:Ha. exists h, s'.
  split; [done|]. split; exists h; (split; [auto | intros x; by eapply rep_fresh]).
Qed.

Lemma update_realised s env m x pt : represents s env m -> x ∈ dom env ->
  exists s', set_point s (handle_of env x) pt = Return s' /\
    realises s env m (Updated x pt) (Some (RHandle (handle_of env x))) s'.
Proof.
  intros Hr Hx. destruct (rep_lookup _ _ _ _ Hr Hx) as (h & q & He & -> & _ & Hp & _).
  unfold set_point. rewrite bool_decide_true by by eapply lookup_lt_Some. eexists. split; [done|].
  exists h. split_and!; [done..|]. by apply rep_update.
Qed.

Ltac realise :=
  match goal with
  | Hr : represents ?s ?env ?m, Hlen : Z.of_nat (length (points ?s)) < U64
    |- context [add_point ?s ?pt] =>
      let h := fresh in let s' := fresh in
      destruct (fresh_realised s env m pt Hr Hlen) as (h & s' & -> & ? & ?)
  | Hr : represents ?s ?env ?m, Hin : ?x ∈ dom ?env
    |- context [set_point ?s (handle_of ?env ?x) ?pt] =>
      let s' := fresh in destruct (update_realised s env m x pt Hr Hin) as (s' & -> & ?)
  | |- _ => idtac
  end; do 2 eexists; split; [reflexivity | done].

(** The two operations on two points. *)
Lemma binary_realised s env m op (in_place : bool) x y : represents s env m ->
  Z.of_nat (length (points s)) < U64 -> x ∈ dom env -> y ∈ dom env -> (in_place = true -> x <> y) ->
  exists a b h s', point_of m x = Return a /\ point_of m y = Return b /\
    (if in_place then assign op s (handle_of env x) (handle_of env y)
     else
       a ← get_point s (handle_of env x);
       b ← get_point s (handle_of env y);
       Return (add_point s (op a b))) = Return (h, s') /\
    realises s env m (make in_place x (op a b)) (Some (RHandle h)) s'.
Proof.
  intros Hr Hlen Hx Hy Hne. destruct in_place.
  - destruct (assign_exact s env m op x y) as (a & b & h & Ha & Hb & He & Hassign); auto.
    exists a, b, h. eexists. split_and!; [done..|]. exists h. split_and!; [done..|].
    by apply rep_update.
  - destruct (rep_get s env m x Hr Hx) as (a & -> & ->), (rep_get s env m y Hr Hy) as (b & -> & ->).
    destruct (fresh_realised s env m (op a b) Hr Hlen) as (h & s' & Hadd & Hok & _).
    exists a, b, h, s'. cbn. rewrite Hadd. split_and!; done.
Qed.

Lemma unary_realised s env m (op : RistrettoPoint -> RistrettoPoint) (in_place : bool) x : represents s env m ->
  Z.of_nat (length (points s)) < U64 -> x ∈ dom env ->
  exists a h s', point_of m x = Return a /\
    (if in_place then
       point ← get_point s (handle_of env x);
       s' ← set_point s (handle_of env x) (op point);
       Return (handle_of env x, s')
     else
       point ← get_point s (handle_of env x);
       Return (add_point s (op point))) = Return (h, s') /\
    realises s env m (make in_place x (op a)) (Some (RHandle h)) s'.
Proof.
  intros Hr Hlen Hx. destruct (rep_get s env m x Hr Hx) as (a & -> & ->). cbn. destruct in_place.
  - destruct (update_realised s env m x (op a) Hr Hx) as (s' & Hset & Hok).
    exists a, (handle_of env x), s'. rewrite Hset. split_and!; done.
  - destruct (fresh_realised s env m (op a) Hr Hlen) as (h & s' & Hadd & Hok & _).
    exists a, h, s'. rewrite Hadd. split_and!; done.
Qed.

(** A scalar that is not canonical fails a debug assertion. *)
Lemma noncanonical_panics s h b in_place : length b = 32%nat -> is_canonical (from_bits b) = false ->
  run s (PointMul in_place h b) = Panic.
Proof.
  intros Hl Hc. cbn [run]. unfold returning, native_point_mul, pop_scalar_from_bytes, scalar_from_valid_bytes.
  rewrite array_exact, decide_True by done. cbn. by rewrite Hc.
Qed.

(** C21. The natives of the Ristretto group implement operations on points: from a store that holds
    the points of the variables of a Move program (no handle held twice), a call on these
    variables (different ones, for an operation in place on two) with canonical scalars never
    panics.  It fails where the
    operation on points fails, and with its error; a new point gets a handle that no variable
    holds, an operation in place returns its handle and changes the point of its variable only, an
    observation leaves the store as it is; and the store holds the points of the variables
    again. *)
Theorem handles_are_points s env m (c : PointCall V) (Hr : represents s env m)
    (Hlen : Z.of_nat (length (points s)) < U64)
    (Hvars : list_to_set (call_vars c) ⊆ dom env) (Hex : exclusive c)
    (Hcan : Forall canonical (call_scalars c)) :
  implements s env m c.
Proof.
  destruct c as [|b|x|in_place x scalar|x y|in_place x|in_place x y|in_place x y|scalar|a x b|b|b|xs scalars];
    cbn [call_vars call_scalars] in *; unfold implements; cbn [effect run with_handles].
  - unfold native_point_identity. realise.
  - unfold native_point_decompress, decompress_maybe_non_canonical_point_bytes, compressed_point_from_bytes.
    rewrite array_exact. case_decide; [|realise]. destruct (decompress b) as [pt|]; realise.
  - unfold native_point_compress. destruct (rep_get s env m x Hr) as (pt & -> & ->); [set_solver|].
    realise.
  - unfold native_point_mul. apply Forall_cons in Hcan as [Hcan _]. rewrite pop_scalar_exact by done.
    pose proof (scalar_of_total scalar).
    destruct (scalar_of scalar) as [a|e|]; cbn [mbind comp_bind]; [|done..].
    destruct (unary_realised s env m (fun pt => point_mul pt a) in_place x Hr Hlen) as
      (pt & h & s' & -> & Hrun & Hok); [set_solver|]. rewrite Hrun. realise.
  - unfold native_point_equals. destruct (rep_get s env m x Hr) as (a & -> & ->); [set_solver|].
    destruct (rep_get s env m y Hr) as (b & -> & ->); [set_solver|]. realise.
  - unfold native_point_neg. destruct (unary_realised s env m point_neg in_place x Hr Hlen) as
      (pt & h & s' & -> & Hrun & Hok); [set_solver|]. rewrite Hrun. realise.
  - unfold native_point_add. destruct (binary_realised s env m point_add in_place x y Hr Hlen) as
      (a & b & h & s' & -> & -> & Hrun & Hok); [set_solver.. | done |]. rewrite Hrun. realise.
  - unfold native_point_sub. destruct (binary_realised s env m point_sub in_place x y Hr Hlen) as
      (a & b & h & s' & -> & -> & Hrun & Hok); [set_solver.. | done |]. rewrite Hrun. realise.
  - unfold native_basepoint_mul. apply Forall_cons in Hcan as [Hcan _]. rewrite pop_scalar_exact by done.
    pose proof (scalar_of_total scalar).
    destruct (scalar_of scalar) as [a|e|]; cbn [mbind comp_bind]; [realise | done..].
  - unfold native_basepoint_double_mul. apply Forall_cons in Hcan as [Ha [Hb _]%Forall_cons].
    rewrite !pop_scalar_exact by done. pose proof (scalar_of_total a). pose proof (scalar_of_total b).
    destruct (scalar_of b) as [sb|e|]; cbn [mbind comp_bind]; [|done..].
    destruct (scalar_of a) as [sa|e|]; cbn [mbind comp_bind]; [|done..].
    destruct (rep_get s env m x Hr) as (pt & -> & ->); [set_solver|]. cbn [mbind comp_bind]. realise.
  - unfold native_new_point_from_sha512. realise.
  - unfold native_new_point_from_64_uniform_bytes.
    unfold pop_64_byte_slice, uniform_point. rewrite array_exact.
    case_decide; cbn [ok_or lift mbind comp_bind]; [realise | done].
  - unfold native_multi_scalar_mul. rewrite parse_scalars_exact by done.
    pose proof (scalars_of_total scalars) as Hps.
    destruct (scalars_of scalars) as [a|e|]; cbn [mbind comp_bind]; [|done|done].
    rewrite (points_agree s env m _ Hr xs) by set_solver.
    pose proof (points_of_total s env m (length scalars) Hr xs) as Hpo.
    destruct (points_of m (length scalars) xs) as [pts|e|]; cbn [mbind comp_bind]; [|done|set_solver].
    realise.
Qed.

(** Multiplying one scalar with one point is charged as [u64::MAX] multiplications, so that it
    costs more gas than any transaction has, and multiplying none is free. *)
Lemma single_mul_cost `{!GasAlgebraLaws} (p_u64 : forall f, is_u64 (p f)) s h scalar r s' :
  0 < p "ristretto255.point_mul" ->
  native_multi_scalar_mul p from_bits is_canonical vartime_multiscalar_mul div_log2_ceil index_error
    s [h] [scalar] = Return (r, s') -> cost r = U64_MAX.
Proof.
  intros Hp. unfold native_multi_scalar_mul. intros Hrun.
  apply comp_bind_Return in Hrun as (a & _ & Hrun).
  apply comp_bind_Return in Hrun as (pts & _ & Hrun).
  destruct (add_point s _) as [k s2]. injection Hrun as <- <-. cbn [Native.ok cost length num_muls].
  assert (Hc : saturates (p "ristretto255.scalar_parse_arg" * num_args 1
    + p "ristretto255.point_parse_arg" * num_args 1 + p "ristretto255.point_mul" * U64_MAX)%gas
    (p "ristretto255.scalar_parse_arg" * Z.of_nat 1 + p "ristretto255.point_parse_arg" * Z.of_nat 1
     + p "ristretto255.point_mul" * U64_MAX)).
  { repeat apply saturates_add; apply saturates_mul; first
      [ by apply saturates_u64 | by apply saturates_num_args
      | apply saturates_u64; unfold is_u64, U64_MAX, U64; lia ]. }
  destruct Hc as [_ ->]. unfold Saturating.sat.
  pose proof (p_u64 "ristretto255.scalar_parse_arg") as [? _].
  pose proof (p_u64 "ristretto255.point_parse_arg") as [? _]. unfold U64_MAX, U64. lia.
Qed.
End Variables.
End Handles.

(** The store of a new session has no points. *)
Lemma represents_default {V RistrettoPoint} `{Countable V} :
  represents (PointStore_default (RistrettoPoint := RistrettoPoint)) (∅ : gmap V Z) ∅.
Proof.
  split; [intros x; by rewrite !lookup_empty | intros x h; by rewrite lookup_empty
         | intros x y h; by rewrite lookup_empty].
Qed.

(** ** The theorem at a concrete store: the group of the integers, with two points. *)
Module RistrettoExample.
Import Saturating.

Definition two : PointStore Z := {| points := [5; 7] |}.
Definition vars : gmap string Z := {["x" := 0; "y" := 1]}.
Definition values : gmap string Z := {["x" := 5; "y" := 7]}.

Lemma two_represents : represents two vars values.
Proof.
  split.
  - intros x. unfold vars, values. rewrite !lookup_insert, !lookup_singleton. repeat case_decide; naive_solver.
  - intros x h. unfold vars, values. rewrite !lookup_insert, !lookup_singleton.
    repeat case_decide; naive_solver lia.
  - intros x y h. unfold vars. rewrite !lookup_insert, !lookup_singleton. repeat case_decide; naive_solver.
Qed.

Definition first (b : bytes) : Z := hd 0 b.
Definition example_run :=
  run (fun _ => 1) first (fun a => a <? 100) 0 (fun b => head b) (fun x => [x]) Z.eqb Z.mul Z.opp Z.add Z.sub
    (fun x => x) (fun a x b => a * x + b) (fun l l' => foldr Z.add 0 (zip_with Z.mul l l'))
    first first (fun n => Z.of_nat n) internal_type_error two.

Abbreviation example_implements := (implements (fun _ => 1) first (fun a => a <? 100) 0 (fun b => head b)
  (fun x => [x]) Z.eqb Z.mul Z.opp Z.add Z.sub (fun x => x) (fun a x b => a * x + b)
  (fun l l' => foldr Z.add 0 (zip_with Z.mul l l')) first first (fun n => Z.of_nat n)
  internal_type_error two vars values).

(** [y := y + x] in place, and [3 * x]; a scalar from 100 on is not canonical. *)
Lemma handles_are_points_witness :
  (example_implements (PointAdd true "y"%string "x"%string) /\
   example_implements (PointMul false "x"%string (replicate 32 3))) /\
  example_run (PointAdd true 1 0) = Return (Some (RHandle 1), {| points := [5; 12] |}) /\
  example_run (PointMul false 0 (replicate 32 3)) = Return (Some (RHandle 2), {| points := [5; 7; 15] |}) /\
  example_run (PointAdd true 1 1) = Panic /\ example_run (PointMul false 0 (replicate 32 100)) = Panic.
Proof.
  assert (Hall : forall c, bool_decide (list_to_set (call_vars c) ⊆ dom vars) = true -> exclusive c ->
    Forall (canonical first (fun a => a <? 100)) (call_scalars c) -> example_implements c).
  { intros c Hvars%bool_decide_eq_true_1 Hex Hcan.
    exact (handles_are_points (fun _ => 1) first (fun a => a <? 100) 0 (fun b => head b) (fun x => [x]) Z.eqb
      Z.mul Z.opp Z.add Z.sub (fun x => x) (fun a x b => a * x + b)
      (fun l l' => foldr Z.add 0 (zip_with Z.mul l l')) first first (fun n => Z.of_nat n)
      internal_type_error two vars values c two_represents eq_refl Hvars Hex Hcan). }
  split_and!; [apply Hall; [vm_compute; reflexivity|done|apply Forall_nil_2]
              |apply Hall; [vm_compute; reflexivity|done|by apply Forall_cons_2; [intros _|apply Forall_nil_2]]
              |reflexivity..].
Defined.
End RistrettoExample.
