(* ===== verification/TxnArgs.v ===== *)
(** * Validation of transaction arguments ([aptos-vm/src/transaction_arg_validation.rs])

    Before an entry function or a script runs, its signature and the serialised arguments are
    checked: the parameters are signers followed by plain values, strings and vectors of them,
    and every argument with strings in it is walked with a cursor until all its strings have
    been found to be UTF-8.  The walk is driven by lengths in the input, so it is defined by
    fuel, and [validation_terminates] shows that the bytes of the arguments are enough.
    [combine_accepts_exactly] says which calls are accepted, by a grammar of the arguments. *)
From S2P Require Import Prelude.

#[local] Open Scope Z_scope.

(** ** UTF-8 *)

Definition in_range (lo hi b : Z) : bool := (lo <=? b) && (b <=? hi).

(** [std::str::from_utf8] of the Rust standard library: is it a string? *)
Fixpoint from_utf8 (s : bytes) : bool :=
  match s with
  | [] => true
  | b :: s =>
      if in_range 0 0x7f b then from_utf8 s
      else match s with
      | [] => false
      | c1 :: s =>
          if in_range 0xc2 0xdf b then in_range 0x80 0xbf c1 && from_utf8 s
          else match s with
          | [] => false
          | c2 :: s =>
              if in_range 0xe0 0xef b then
                (if b =? 0xe0 then in_range 0xa0 0xbf c1
                 else if b =? 0xed then in_range 0x80 0x9f c1 else in_range 0x80 0xbf c1)
                && in_range 0x80 0xbf c2 && from_utf8 s
              else match s with
              | [] => false
              | c3 :: s =>
                  in_range 0xf0 0xf4 b
                  && (if b =? 0xf0 then in_range 0x90 0xbf c1
                      else if b =? 0xf4 then in_range 0x80 0x8f c1 else in_range 0x80 0xbf c1)
                  && in_range 0x80 0xbf c2 && in_range 0x80 0xbf c3 && from_utf8 s
              end
          end
      end
  end.

(** The reference: a string is a sequence of Unicode scalar values. *)
Definition is_scalar (c : Z) : Prop := 0 <= c < 0xd800 \/ 0xe000 <= c < 0x110000.

Definition encode_scalar (c : Z) : bytes :=
  if c <? 0x80 then [c]
  else if c <? 0x800 then [0xc0 + c / 64; 0x80 + c mod 64]
  else if c <? 0x10000 then [0xe0 + c / 4096; 0x80 + c / 64 mod 64; 0x80 + c mod 64]
  else [0xf0 + c / 262144; 0x80 + c / 4096 mod 64; 0x80 + c / 64 mod 64; 0x80 + c mod 64].

Definition is_string (s : bytes) : Prop :=
  exists cs, Forall is_scalar cs /\ s = concat (encode_scalar <$> cs).

Lemma in_range_spec lo hi b : in_range lo hi b = true <-> lo <= b <= hi.
Proof. unfold in_range. rewrite andb_true_iff, !Z.leb_le. done. Qed.
Lemma in_range_false lo hi b : in_range lo hi b = false <-> ~ lo <= b <= hi.
Proof. rewrite <- in_range_spec. by destruct (in_range lo hi b). Qed.

(** [lia], with the equations of divisions. *)
Ltac zdiv := Z.div_mod_to_equations; lia.

(** The tests of a byte, decided by the bounds in the context. *)
Ltac decide_range :=
  repeat match goal with
  | |- context [in_range ?lo ?hi ?b] =>
      first [ rewrite (proj2 (in_range_spec lo hi b)) by lia
            | rewrite (proj2 (in_range_false lo hi b)) by lia ]
  | |- context [?a =? ?b] =>
      first [ rewrite (proj2 (Z.eqb_eq a b)) by lia | rewrite (proj2 (Z.eqb_neq a b)) by lia ]
  end.

Lemma is_string_nil : is_string [].
Proof. by exists []. Qed.

Lemma is_string_cons c s : is_scalar c -> is_string s -> is_string (encode_scalar c ++ s).
Proof. intros Hc (cs & Hcs & ->). exists (c :: cs). split; [by constructor|done]. Qed.

(** Decoding: the scalar that one to four bytes stand for. *)
Lemma encode_scalar_1 b : 0 <= b <= 0x7f -> encode_scalar b = [b].
Proof. intros Hb. unfold encode_scalar. by rewrite (proj2 (Z.ltb_lt _ _)) by lia. Qed.

Lemma encode_scalar_2 a b : 2 <= a <= 31 -> 0 <= b < 64 ->
  encode_scalar (a * 64 + b) = [0xc0 + a; 0x80 + b].
Proof.
  intros Ha Hb. unfold encode_scalar.
  rewrite (proj2 (Z.ltb_ge _ _)), (proj2 (Z.ltb_lt _ _)) by lia.
  rewrite Z.div_add_l, Z.div_small by lia. rewrite (Z.add_comm (a * 64)), Z_mod_plus_full.
  rewrite Z.mod_small by lia. by rewrite Z.add_0_r.
Qed.

Lemma encode_scalar_3 a b c : 0 <= a <= 15 -> 0 <= b < 64 -> 0 <= c < 64 -> (a = 0 -> 32 <= b) ->
  encode_scalar (a * 4096 + b * 64 + c) = [0xe0 + a; 0x80 + b; 0x80 + c].
Proof.
  intros Ha Hb Hc Hab. unfold encode_scalar.
  rewrite 2!(proj2 (Z.ltb_ge _ _)), (proj2 (Z.ltb_lt _ _)) by lia.
  assert ((a * 4096 + b * 64 + c) / 4096 = a) as -> by zdiv.
  assert ((a * 4096 + b * 64 + c) / 64 mod 64 = b) as -> by zdiv.
  by assert ((a * 4096 + b * 64 + c) mod 64 = c) as -> by zdiv.
Qed.

Lemma encode_scalar_4 a b c d :
  0 <= a <= 4 -> 0 <= b < 64 -> 0 <= c < 64 -> 0 <= d < 64 -> (a = 0 -> 16 <= b) ->
  encode_scalar (a * 262144 + b * 4096 + c * 64 + d) =
  [0xf0 + a; 0x80 + b; 0x80 + c; 0x80 + d].
Proof.
  intros Ha Hb Hc Hd Hab. unfold encode_scalar.
  rewrite 3!(proj2 (Z.ltb_ge _ _)) by lia.
  assert ((a * 262144 + b * 4096 + c * 64 + d) / 262144 = a) as -> by zdiv.
  assert ((a * 262144 + b * 4096 + c * 64 + d) / 4096 mod 64 = b) as -> by zdiv.
  assert ((a * 262144 + b * 4096 + c * 64 + d) / 64 mod 64 = c) as -> by zdiv.
  by assert ((a * 262144 + b * 4096 + c * 64 + d) mod 64 = d) as -> by zdiv.
Qed.

Lemma from_utf8_encode c s : is_scalar c -> from_utf8 (encode_scalar c ++ s) = from_utf8 s.
Proof.
  intros Hc. unfold is_scalar in Hc. unfold encode_scalar.
  destruct (Z.ltb_spec c 0x80); [cbn [app from_utf8]; by decide_range|].
  destruct (Z.ltb_spec c 0x800).
  { assert (0 <= c mod 64 < 64) by zdiv. assert (2 <= c / 64 <= 31) by zdiv.
    cbn [app from_utf8]. by decide_range. }
  destruct (Z.ltb_spec c 0x10000).
  { assert (0 <= c mod 64 < 64) by zdiv. assert (0 <= c / 64 mod 64 < 64) by zdiv.
    assert (0 <= c / 4096 <= 15) by zdiv.
    cbn [app from_utf8].
    destruct (Z.eq_dec (c / 4096) 0) as [Hz|Hz].
    { assert (32 <= c / 64 mod 64) by zdiv. by decide_range. }
    destruct (Z.eq_dec (c / 4096) 13) as [Hd|Hd].
    { assert (c / 64 mod 64 <= 31) by zdiv. by decide_range. }
    by decide_range. }
  assert (0 <= c mod 64 < 64) by zdiv. assert (0 <= c / 64 mod 64 < 64) by zdiv.
  assert (0 <= c / 4096 mod 64 < 64) by zdiv. assert (0 <= c / 262144 <= 4) by zdiv.
  cbn [app from_utf8].
  destruct (Z.eq_dec (c / 262144) 0) as [Hz|Hz].
  { assert (16 <= c / 4096 mod 64) by zdiv. by decide_range. }
  destruct (Z.eq_dec (c / 262144) 4) as [Hd|Hd].
  { assert (c / 4096 mod 64 <= 15) by zdiv. by decide_range. }
  by decide_range.
Qed.

Lemma from_utf8_string s : is_string s -> from_utf8 s = true.
Proof.
  intros (cs & Hcs & ->). induction Hcs as [|c cs Hc _ IH]; [done|].
  rewrite fmap_cons, <- IH. by apply from_utf8_encode.
Qed.

(** One step of the decoder, read backwards: the first bytes are those of a scalar. *)
Lemma from_utf8_step b s :
  from_utf8 (b :: s) = true ->
  exists c s', is_scalar c /\ b :: s = encode_scalar c ++ s' /\ from_utf8 s' = true.
Proof.
  cbn [from_utf8]. unfold is_scalar.
  destruct (in_range 0 0x7f b) eqn:H1.
  { intros Hs. apply in_range_spec in H1. exists b, s. rewrite encode_scalar_1 by lia.
    split; [lia|done]. }
  destruct s as [|c1 s]; [done|]. destruct (in_range 0xc2 0xdf b) eqn:H2.
  { rewrite andb_true_iff, in_range_spec. intros [Hc1 Hs]. apply in_range_spec in H2.
    exists ((b - 0xc0) * 64 + (c1 - 0x80)), s. rewrite encode_scalar_2 by lia.
    split; [lia|]. split; [|done]. simpl. do 2 f_equal; lia. }
  destruct s as [|c2 s]; [done|]. destruct (in_range 0xe0 0xef b) eqn:H3.
  { rewrite !andb_true_iff, in_range_spec. intros [[Hc1 Hc2] Hs]. apply in_range_spec in H3.
    exists ((b - 0xe0) * 4096 + (c1 - 0x80) * 64 + (c2 - 0x80)), s.
    destruct (Z.eqb_spec b 0xe0); [|destruct (Z.eqb_spec b 0xed)]; apply in_range_spec in Hc1;
      (rewrite encode_scalar_3 by lia; split; [lia|]; split; [|done]; simpl; do 3 (f_equal; try lia)). }
  destruct s as [|c3 s]; [done|]. rewrite !andb_true_iff, !in_range_spec.
  intros [[[[H4 Hc1] Hc2] Hc3] Hs].
  exists ((b - 0xf0) * 262144 + (c1 - 0x80) * 4096 + (c2 - 0x80) * 64 + (c3 - 0x80)), s.
  destruct (Z.eqb_spec b 0xf0); [|destruct (Z.eqb_spec b 0xf4)]; apply in_range_spec in Hc1;
    (rewrite encode_scalar_4 by lia; split; [lia|]; split; [|done]; simpl; do 4 (f_equal; try lia)).
Qed.

Lemma encode_scalar_length c : (0 < length (encode_scalar c))%nat.
Proof. unfold encode_scalar. repeat case_match; simpl; lia. Qed.

Lemma string_from_utf8 s : from_utf8 s = true -> is_string s.
Proof.
  induction s as [s IH] using (induction_ltof1 _ (@length Z)). unfold ltof in IH.
  destruct s as [|b s]; [intros _; apply is_string_nil|].
  intros (c & s' & Hc & Heq & Hs)%from_utf8_step. rewrite Heq. apply is_string_cons; [done|].
  apply IH; [|done]. rewrite Heq, length_app. pose proof (encode_scalar_length c). lia.
Qed.

Lemma from_utf8_exact s : from_utf8 s = true <-> is_string s.
Proof. split; [apply string_from_utf8|apply from_utf8_string]. Qed.

(** ** The types of the Move VM *)

(** [move_vm_types::loaded_data::runtime_types::Type] *)
#[warnings="-register-all"] Inductive Type_ (StructIndex : Type) : Type :=
  | Bool
  | U8
  | U64
  | U128
  | Address
  | Signer
  | Vector (inner : Type_ StructIndex)
  | Struct (idx : StructIndex)
  | Reference (inner : Type_ StructIndex)
  | MutableReference (inner : Type_ StructIndex)
  | TyParam (n : nat)
  | StructInstantiation (idx : StructIndex) (ty_args : list (Type_ StructIndex)).
Arguments Bool {_}. Arguments U8 {_}. Arguments U64 {_}. Arguments U128 {_}.
Arguments Address {_}. Arguments Signer {_}.
Arguments Vector {_} _. Arguments Struct {_} _. Arguments Reference {_} _.
Arguments MutableReference {_} _. Arguments TyParam {_} _. Arguments StructInstantiation {_} _ _.

(** [move_binary_format::file_format_common::read_uleb128_as_u64]: the number at the head of
    the input and how many bytes it takes. *)
Class Uleb128 := read_uleb128_as_u64 : bytes -> option (Z * nat).

(** What the code relies on: at least one byte is read, and nothing after the number. *)
Class Uleb128Laws `{Uleb128} : Prop := {
  uleb_bounds b n k : read_uleb128_as_u64 b = Some (n, k) ->
    is_u64 n /\ (0 < k <= length b)%nat;
  uleb_prefix b n k r : read_uleb128_as_u64 b = Some (n, k) ->
    read_uleb128_as_u64 (take k b ++ r) = Some (n, k);
}.

Section TxnArgs.
Context `{Uleb128} {StructIndex ModuleId AccountAddress : Type}.
Abbreviation Type_ := (Type_ StructIndex).

(** [StructType] of the loader, [SessionExt::get_struct_type], and
    [ModuleId::short_str_lossless]. *)
Record StructType := { st_module : ModuleId; st_name : string }.
Context (get_struct_type : StructIndex -> option StructType).
Context (short_str_lossless : ModuleId -> string).
(** [MoveValue::Signer(s).simple_serialize()] *)
Context (serialize_signer : AccountAddress -> option bytes).

(** [LoadedFunctionInstantiation] *)
Record LoadedFunctionInstantiation := { parameters : list Type_; return_ : list Type_ }.

(** [Cursor<&[u8]>] *)
Record Cursor := { inner_bytes : bytes; position : nat }.
Definition remaining (c : Cursor) : bytes := drop (position c) (inner_bytes c).
Definition advance (c : Cursor) (k : nat) : Cursor :=
  {| inner_bytes := inner_bytes c; position := position c + k |}.
Definition Cursor_new (b : bytes) : Cursor := {| inner_bytes := b; position := 0 |}.

(** [cursor.read_exact(&mut vec![0u8; len])] *)
Definition read_exact (c : Cursor) (len : Z) : option (bytes * Cursor) :=
  if len <=? Z.of_nat (length (remaining c))
  then Some (take (Z.to_nat len) (remaining c), advance c (Z.to_nat len))
  else None.

Definition deserialize_error {A} : result VMStatus A := Err (VMStatus_Error FAILED_TO_DESERIALIZE_ARGUMENT).

Definition get_len (c : Cursor) : result VMStatus (Z * Cursor) :=
  match read_uleb128_as_u64 (remaining c) with
  | None => deserialize_error
  | Some (len, k) => Ok (len, advance c k)
  end.

Definition check_string (s : bytes) : result VMStatus unit :=
  if from_utf8 s then Ok tt else deserialize_error.

(** The structs allowed as transaction input and the validation function for those, if one was
    needed. *)
Definition ALLOWED_STRUCTS : gmap string (option (bytes -> result VMStatus unit)) :=
  {["0x1::string::String"%string := Some check_string]}.

(** [format!("{}::{}", st.module.short_str_lossless(), st.name)] *)
Definition full_name (st : StructType) : string :=
  (short_str_lossless (st_module st) +:+ "::" +:+ st_name st)%string.

(** Whether the argument is valid and whether it needs validation. *)
Fixpoint is_valid_txn_arg (typ : Type_) : bool * bool :=
  match typ with
  | Bool | U8 | U64 | U128 | Address => (true, false)
  | Vector inner => is_valid_txn_arg inner
  | Struct idx | StructInstantiation idx _ =>
      match get_struct_type idx with
      | Some st =>
          match ALLOWED_STRUCTS !! full_name st with
          | None => (false, false)
          | Some validator => (true, bool_decide (is_Some validator))
          end
      | None => (false, false)
      end
  | Signer | Reference _ | MutableReference _ | TyParam _ => (false, false)
  end.

(** The case of a string in [validate_arg]. *)
Definition validate_struct (idx : StructIndex) (c : Cursor) (arg_len : nat)
  : comp VMStatus Cursor :=
  '(len, c) ← lift (get_len c);
  let current_pos := Z.of_nat (position c) in
  _ ← lift (if Prelude.U64 <=? current_pos + len then deserialize_error  (* checked_add *)
            else if Z.of_nat arg_len <? current_pos + len then deserialize_error else Ok tt);
  '(s, c) ← lift (match read_exact c len with Some r => Ok r | None => deserialize_error end);
  st ← expect (get_struct_type idx);
  option_validator ← expect (ALLOWED_STRUCTS !! full_name st);
  _ ← match option_validator with
      | Some validator => lift (validator s)
      | None => Return tt
      end;
  Return c.

(** [while len > 0 { body; len -= 1 }]; [None] when the fuel runs out. *)
Fixpoint while_len (body : Cursor -> option (comp VMStatus Cursor)) (fuel : nat) (len : Z)
  (c : Cursor) : option (comp VMStatus Cursor) :=
  match fuel with
  | O => None
  | S fuel =>
      if 0 <? len then
        r ← body c;
        match r with
        | Return c => while_len body fuel (len - 1) c
        | Throw e => Some (Throw e)
        | Panic => Some Panic
        end
      else Some (Return c)
  end.

(** Validate a single arg; every loop has [fuel] turns. *)
Fixpoint validate_arg (fuel : nat) (ty : Type_) (c : Cursor) (arg_len : nat)
  : option (comp VMStatus Cursor) :=
  match ty with
  | Vector inner =>
      match get_len c with
      | Err e => Some (Throw e)
      | Ok (len, c) => while_len (fun c => validate_arg fuel inner c arg_len) fuel len c
      end
  | Struct idx | StructInstantiation idx _ => Some (validate_struct idx c arg_len)
  | Bool | U8 | U64 | U128 | Address | Signer | Reference _ | MutableReference _ | TyParam _ =>
      Some Panic  (* unreachable!("Validation is only for arguments with String") *)
  end.

(** The loop of [validate_args], from argument [idx]; a loop over an argument gets one turn
    more than the argument has bytes. *)
Fixpoint validate_args_from (idx : nat) (idxs : list nat) (params : list Type_)
  (args : list bytes) : option (comp VMStatus unit) :=
  match params, args with
  | ty :: params, arg :: args =>
      if bool_decide (idx ∈ idxs) then
        r ← validate_arg (S (length arg)) ty (Cursor_new arg) (length arg);
        match r with
        | Return _ => validate_args_from (S idx) idxs params args
        | Throw e => Some (Throw e)
        | Panic => Some Panic
        end
      else validate_args_from (S idx) idxs params args
  | _, _ => Some (Return tt)
  end.

Definition validate_args (idxs : list nat) (args : list bytes) (func : LoadedFunctionInstantiation)
  : option (comp VMStatus unit) := validate_args_from 0 idxs (parameters func) args.

Definition is_signer (ty : Type_) : bool :=
  match ty with Signer | Reference Signer => true | _ => false end.

(** The loop over the parameters after the signers, from parameter [idx]: which of them need
    validation. *)
Fixpoint check_params (idx : nat) (params : list Type_) : result VMStatus (list nat) :=
  match params with
  | [] => Ok []
  | ty :: params =>
      let '(valid, validation) := is_valid_txn_arg ty in
      if negb valid then Err (VMStatus_Error INVALID_MAIN_FUNCTION_SIGNATURE)
      else
        rest ← check_params (S idx) params;
        Ok (if validation then idx :: rest else rest)
  end.

(** [senders.into_iter().map(|s| MoveValue::Signer(s).simple_serialize().unwrap())] *)
Definition signer_args (senders : list AccountAddress) : option (list bytes) :=
  mapM serialize_signer senders.

Definition validate_combine_signer_and_txn_args (senders : list AccountAddress)
  (args : list bytes) (func : LoadedFunctionInstantiation) : option (comp VMStatus (list bytes)) :=
  if negb (bool_decide (return_ func = [])) then
    Some (Throw (VMStatus_Error INVALID_MAIN_FUNCTION_SIGNATURE))
  else
  let signer_param_cnt := length (filter is_signer (parameters func)) in
  match check_params signer_param_cnt (drop signer_param_cnt (parameters func)) with
  | Err e => Some (Throw e)
  | Ok needs_validation =>
      if negb (signer_param_cnt + length args =? length (parameters func))%nat then
        Some (Throw (VMStatus_Error NUMBER_OF_ARGUMENTS_MISMATCH))
      else
      let combined_args :=
        if (signer_param_cnt =? 0)%nat then Return args
        else if negb (length senders =? signer_param_cnt)%nat then
          Throw (VMStatus_Error NUMBER_OF_SIGNER_ARGUMENTS_MISMATCH)
        else signers ← expect (signer_args senders); Return (signers ++ args) in
      match combined_args with
      | Return combined_args =>
          if bool_decide (needs_validation = []) then Some (Return combined_args)
          else
            r ← validate_args needs_validation combined_args func;
            Some (_ ← r; Return combined_args)
      | Throw e => Some (Throw e)
      | Panic => Some Panic
      end
  end.

(** ** The grammar of the arguments *)

(** [h] encodes the length [n]. *)
Definition uleb (h : bytes) (n : nat) : Prop :=
  read_uleb128_as_u64 h = Some (Z.of_nat n, length h).

(** [p] encodes a value of type [ty] whose strings are strings. *)
Fixpoint encoding (ty : Type_) (p : bytes) : Prop :=
  match ty with
  | Vector inner => exists h ps, uleb h (length ps) /\ Forall (encoding inner) ps /\ p = h ++ concat ps
  | Struct _ | StructInstantiation _ _ => exists h s, uleb h (length s) /\ is_string s /\ p = h ++ s
  | _ => False
  end.

(** The struct is [0x1::string::String]. *)
Definition is_String (idx : StructIndex) : Prop :=
  exists st, get_struct_type idx = Some st /\
    (short_str_lossless (st_module st) +:+ "::" +:+ st_name st)%string = "0x1::string::String"%string.

(** A string, or vectors of them; a plain value, or vectors of them; the types of arguments, and
    those of signers. *)
Fixpoint strings (ty : Type_) : Prop :=
  match ty with
  | Struct idx | StructInstantiation idx _ => is_String idx
  | Vector inner => strings inner
  | _ => False
  end.
Fixpoint plain (ty : Type_) : Prop :=
  match ty with
  | Bool | U8 | U64 | U128 | Address => True
  | Vector inner => plain inner
  | _ => False
  end.
Definition valid (ty : Type_) : Prop := plain ty \/ strings ty.
Definition signer (ty : Type_) : Prop := ty = Signer \/ ty = Reference Signer.

Lemma allowed_exact st : ALLOWED_STRUCTS !! full_name st =
  if bool_decide (full_name st = "0x1::string::String"%string) then Some (Some check_string) else None.
Proof.
  unfold ALLOWED_STRUCTS. case_bool_decide as Hn; [by rewrite Hn, lookup_singleton_eq|].
  by rewrite lookup_singleton_ne by congruence.
Qed.

(** [is_valid_txn_arg] tells these types apart. *)
Lemma valid_txn_arg_exact ty :
  is_valid_txn_arg ty = (true, true) /\ strings ty /\ ~ plain ty \/
  is_valid_txn_arg ty = (true, false) /\ plain ty /\ ~ strings ty \/
  is_valid_txn_arg ty = (false, false) /\ ~ valid ty.
Proof.
  assert (Hstruct : forall idx, let r := is_valid_txn_arg (Struct idx) in
    r = (true, true) /\ is_String idx \/ r = (false, false) /\ ~ is_String idx).
  { intros idx. cbn [is_valid_txn_arg]. unfold is_String.
    destruct (get_struct_type idx) as [st|]; [|right; by split; [|intros (st & [=] & _)]].
    rewrite allowed_exact. fold (full_name st). case_bool_decide as Hn; [left|right].
    - rewrite bool_decide_true by (by eexists). by split; [|exists st].
    - split; [done|]. by intros (st' & [= <-] & Hn'). }
  unfold valid. induction ty as [| | | | | |inner IH|idx|inner _|inner _|n|idx tys]; cbn [strings plain];
    try (right; left; split; [done|by split; [|intros []]]);
    try (right; right; split; [done|by intros [[]|[]]]); [exact IH| |];
    (destruct (Hstruct idx) as [[Hr H1]|[Hr H1]]; cbn [is_valid_txn_arg] in Hr |- *; rewrite Hr;
     [left; split; [done|by split; [|intros []]]|right; right; split; [done|by intros [[]|?]]]).
Qed.

Lemma strings_exact ty : is_valid_txn_arg ty = (true, true) <-> strings ty.
Proof. destruct (valid_txn_arg_exact ty) as [[-> H1]|[[-> H1]|[-> H1]]]; unfold valid in *;
  (split; intros H2; [done || tauto|done || tauto]). Qed.

Lemma valid_exact ty : (is_valid_txn_arg ty).1 = true <-> valid ty.
Proof. destruct (valid_txn_arg_exact ty) as [[-> H1]|[[-> H1]|[-> H1]]]; unfold valid in *;
  (split; intros H2; [done || tauto|done || tauto]). Qed.

Lemma signer_exact ty : is_signer ty = true <-> signer ty.
Proof.
  unfold signer. destruct ty as [| | | | | |inner|idx|[]|inner|n|idx tys]; simpl;
    (split; [by auto|by intros [[=]|[=]]]).
Qed.

Context `{!Uleb128Laws}.

Lemma uleb_pos h n : uleb h n -> (0 < length h)%nat.
Proof. intros Hu. apply uleb_bounds in Hu. lia. Qed.

Lemma encoding_pos ty p : encoding ty p -> (0 < length p)%nat.
Proof.
  destruct ty; simpl; try done.
  - intros (h & ps & Hu & _ & ->). apply uleb_pos in Hu. rewrite length_app. lia.
  - intros (h & s & Hu & _ & ->). apply uleb_pos in Hu. rewrite length_app. lia.
  - intros (h & s & Hu & _ & ->). apply uleb_pos in Hu. rewrite length_app. lia.
Qed.

Definition cursor_ok (c : Cursor) : Prop :=
  (position c <= length (inner_bytes c))%nat /\ Z.of_nat (length (inner_bytes c)) < Prelude.U64.

(** [c'] is [c] after [p]. *)
Definition after (c c' : Cursor) (p : bytes) : Prop :=
  remaining c = p ++ remaining c' /\ c' = advance c (length p).

Lemma advance_after c k : (k <= length (remaining c))%nat ->
  after c (advance c k) (take k (remaining c)).
Proof.
  intros Hk. unfold after. rewrite length_take, Nat.min_l by done. split; [|done].
  unfold remaining at 3. simpl. rewrite <- drop_drop. symmetry. apply take_drop.
Qed.

Lemma after_trans c c' c'' p q : after c c' p -> after c' c'' q -> after c c'' (p ++ q).
Proof.
  intros [Hr ->] [Hr' ->]. split; [by rewrite Hr, Hr', (assoc_L (++))|].
  unfold advance. simpl. by rewrite length_app, Nat.add_assoc.
Qed.

Lemma after_ok c c' p : cursor_ok c -> after c c' p -> cursor_ok c'.
Proof.
  intros [Hp Hl] [Hr ->]. split; [|done]. simpl.
  apply (f_equal length) in Hr. unfold remaining in Hr. rewrite length_app, !length_drop in Hr.
  simpl in Hr. lia.
Qed.

Lemma app_after c p r : remaining c = p ++ r -> exists c', after c c' p /\ remaining c' = r.
Proof.
  intros Hr. exists (advance c (length p)).
  assert (Ha : after c (advance c (length p)) (take (length p) (remaining c))).
  { apply advance_after. rewrite Hr, length_app. lia. }
  rewrite Hr, take_app_length in Ha. split; [done|]. destruct Ha as [Ha _].
  rewrite Hr in Ha. by apply app_inv_head in Ha.
Qed.

Lemma get_len_sound c len c' : get_len c = Ok (len, c') ->
  exists h n, len = Z.of_nat n /\ uleb h n /\ after c c' h.
Proof.
  unfold get_len, uleb. destruct (read_uleb128_as_u64 (remaining c)) as [[n k]|] eqn:Hu; [|done].
  intros [= <- <-]. destruct (uleb_bounds _ _ _ Hu) as [[Hn _] Hk].
  exists (take k (remaining c)), (Z.to_nat n). rewrite Z2Nat.id by lia.
  rewrite length_take, Nat.min_l by lia. split; [done|]. split; [|apply advance_after; lia].
  apply (uleb_prefix _ _ _ []) in Hu. by rewrite app_nil_r in Hu.
Qed.

Lemma get_len_complete c c' h n : uleb h n -> after c c' h -> get_len c = Ok (Z.of_nat n, c').
Proof.
  unfold get_len, uleb. intros Hu [-> ->]. apply (uleb_prefix _ _ _ (remaining (advance c (length h)))) in Hu.
  rewrite take_ge in Hu by done. by rewrite Hu.
Qed.

Lemma get_len_error c e : get_len c = Err e -> e = VMStatus_Error FAILED_TO_DESERIALIZE_ARGUMENT.
Proof. unfold get_len. destruct (read_uleb128_as_u64 _) as [[]|]; [done|by intros [= <-]]. Qed.

(** ** The walk of an argument follows the grammar *)

(** A walk of a value of type [ty] from [c] returns, after an encoding, or fails with the
    error of the deserialisation. *)
Definition walks (ty : Type_) (c : Cursor) (r : comp VMStatus Cursor) : Prop :=
  match r with
  | Return c' => exists p, encoding ty p /\ after c c' p
  | Throw e => e = VMStatus_Error FAILED_TO_DESERIALIZE_ARGUMENT
  | Panic => False
  end.

(** The types that are walked. *)
Lemma strings_struct idx : strings (Struct idx) ->
  exists st, get_struct_type idx = Some st /\ ALLOWED_STRUCTS !! full_name st = Some (Some check_string).
Proof.
  intros (st & Hst & Hn). exists st. split; [done|]. by rewrite allowed_exact, bool_decide_true.
Qed.

Lemma read_exact_sound c len s c' : 0 <= len -> read_exact c len = Some (s, c') ->
  after c c' s /\ len = Z.of_nat (length s).
Proof.
  unfold read_exact. intros Hlen. destruct (Z.leb_spec len (Z.of_nat (length (remaining c)))); [|done].
  intros [= <- <-]. split; [apply advance_after; lia|]. rewrite length_take. lia.
Qed.

Lemma read_exact_complete c c' s : after c c' s -> read_exact c (Z.of_nat (length s)) = Some (s, c').
Proof.
  unfold read_exact. intros [Hr ->]. rewrite Nat2Z.id, Hr, length_app.
  rewrite (proj2 (Z.leb_le _ _)) by lia. by rewrite take_app_length.
Qed.

Lemma check_string_exact s : check_string s = Ok tt <-> is_string s.
Proof. rewrite <- from_utf8_exact. unfold check_string. by destruct (from_utf8 s). Qed.

(** The check of the length of a string passes when the bytes are there. *)
Lemma length_checked (c c' : Cursor) s : cursor_ok c -> after c c' s ->
  (Prelude.U64 <=? Z.of_nat (position c) + Z.of_nat (length s)) = false /\
  (Z.of_nat (length (inner_bytes c)) <? Z.of_nat (position c) + Z.of_nat (length s)) = false.
Proof.
  intros [Hp Hl] [Hr _]. apply (f_equal length) in Hr. unfold remaining at 1 in Hr.
  rewrite length_app, length_drop in Hr. rewrite Z.leb_gt, Z.ltb_ge. lia.
Qed.

Lemma validate_struct_walks idx ty c : strings (Struct idx) -> cursor_ok c ->
  encoding ty = encoding (Struct idx) ->
  walks ty c (validate_struct idx c (length (inner_bytes c))).
Proof.
  intros (st & Hst & Hallowed)%strings_struct Hc Hty. unfold validate_struct.
  destruct (get_len c) as [[len c1]|e] eqn:Hlen; [|by apply get_len_error in Hlen].
  apply get_len_sound in Hlen as (h & n & -> & Hu & H1). cbn [lift comp_bind mbind].
  destruct (Prelude.U64 <=? _); [done|]. destruct (_ <? _); [done|]. cbn [lift comp_bind mbind].
  destruct (read_exact c1 (Z.of_nat n)) as [[s c2]|] eqn:Hs; [|done].
  apply read_exact_sound in Hs as [H2 Hn]; [|lia]. rewrite Hst. cbn [expect lift comp_bind mbind].
  rewrite Hallowed. cbn [expect lift comp_bind mbind].
  destruct (check_string s) as [[]|e] eqn:Hcs; cbn [lift comp_bind mbind walks].
  - exists (h ++ s). split; [|by eapply after_trans]. rewrite Hty. exists h, s.
    split; [by replace (length s) with n by lia|]. split; [|done]. by apply check_string_exact.
  - revert Hcs. unfold check_string. by case_match; intros [= <-].
Qed.

Lemma validate_struct_complete idx c c' p : strings (Struct idx) -> cursor_ok c ->
  encoding (Struct idx) p -> after c c' p ->
  validate_struct idx c (length (inner_bytes c)) = Return c'.
Proof.
  intros (st & Hst & Hallowed)%strings_struct Hc (h & s & Hu & Hs & ->) Ha.
  destruct Ha as [Hr ->]. rewrite <- (assoc_L (++)) in Hr.
  destruct (app_after c h _ Hr) as (c1 & H1 & Hr1).
  pose proof (after_ok _ _ _ Hc H1) as Hc1. pose proof H1 as [_ Hi].
  assert (H2 : after c1 (advance c (length (h ++ s))) s).
  { split; [by rewrite Hr1|]. rewrite Hi. unfold advance. simpl.
    by rewrite length_app, Nat.add_assoc. }
  unfold validate_struct. rewrite (get_len_complete c c1 h (length s) Hu H1).
  cbn [lift comp_bind mbind].
  destruct (length_checked c1 _ s Hc1 H2) as [Ho Hl]. rewrite Hi in Hl at 1. cbn [inner_bytes advance] in Hl.
  rewrite Ho, Hl. cbn [lift comp_bind mbind]. rewrite (read_exact_complete c1 _ s H2).
  cbn [lift comp_bind mbind]. rewrite Hst. cbn [expect lift comp_bind mbind]. rewrite Hallowed.
  cbn [expect lift comp_bind mbind]. by rewrite (proj2 (check_string_exact s) Hs).
Qed.

(** A walk of a vector of [len] values, each of them walked by [body]. *)
Definition elements (ty : Type_) (len : Z) (c : Cursor) (r : comp VMStatus Cursor) : Prop :=
  match r with
  | Return c' => exists ps, Z.of_nat (length ps) = Z.max 0 len /\ Forall (encoding ty) ps /\
                   after c c' (concat ps)
  | Throw e => e = VMStatus_Error FAILED_TO_DESERIALIZE_ARGUMENT
  | Panic => False
  end.

Lemma after_shrinks c c' p : (0 < length p)%nat -> after c c' p ->
  (length (remaining c') < length (remaining c))%nat.
Proof. intros Hp [-> _]. rewrite length_app. lia. Qed.

Lemma while_len_walks ty body bound limit fuel : forall len c,
  (forall c, cursor_ok c -> length (inner_bytes c) = bound -> (length (remaining c) < limit)%nat ->
     exists r, body c = Some r /\ walks ty c r) ->
  cursor_ok c -> length (inner_bytes c) = bound ->
  (length (remaining c) < limit)%nat -> (length (remaining c) < fuel)%nat ->
  exists r, while_len body fuel len c = Some r /\ elements ty len c r.
Proof.
  induction fuel as [|fuel IH]; intros len c Hbody Hc Hb Hl Hf; [lia|]. cbn [while_len].
  destruct (Z.ltb_spec 0 len) as [Hlen|Hlen].
  2: { exists (Return c). split; [done|]. exists []. simpl. split; [lia|]. split; [done|].
       split; [done|]. unfold advance. rewrite Nat.add_0_r. by destruct c. }
  destruct (Hbody c Hc Hb Hl) as (r & -> & Hr). cbn [mbind option_bind].
  destruct r as [c1|e|]; [|by exists (Throw e)|done].
  destruct Hr as (p & Hp & Ha). pose proof (after_shrinks _ _ _ (encoding_pos _ _ Hp) Ha).
  assert (Hi : inner_bytes c1 = inner_bytes c) by (by destruct Ha as [_ ->]).
  destruct (IH (len - 1) c1 Hbody (after_ok _ _ _ Hc Ha)) as (r & Hr & He); [congruence|lia..|].
  exists r. split; [done|]. destruct r as [c2|e|]; [|done..].
  destruct He as (ps & Hps & Hall & Ha2). exists (p :: ps). simpl.
  split; [lia|]. split; [by constructor|]. by eapply after_trans.
Qed.

(** Termination, soundness and the absence of panics of [validate_arg]. *)
Lemma validate_arg_walks fuel ty : forall c, strings ty -> cursor_ok c ->
  (length (remaining c) < fuel)%nat ->
  exists r, validate_arg fuel ty c (length (inner_bytes c)) = Some r /\ walks ty c r.
Proof.
  induction ty; intros c Hty Hc Hf; try done.
  2, 3: by eexists; split; [done|]; apply validate_struct_walks.
  cbn [validate_arg]. destruct (get_len c) as [[len c1]|e] eqn:Hlen.
  2: { apply get_len_error in Hlen. by exists (Throw e). }
  apply get_len_sound in Hlen as (h & n & -> & Hu & Ha).
  pose proof (after_shrinks _ _ _ (uleb_pos _ _ Hu) Ha) as Hlt.
  assert (Hi : inner_bytes c1 = inner_bytes c) by (by destruct Ha as [_ ->]).
  destruct fuel as [|fuel]; [lia|].
  destruct (while_len_walks ty (fun c0 => validate_arg (S fuel) ty c0 (length (inner_bytes c)))
    (length (inner_bytes c)) (S fuel) (S fuel) (Z.of_nat n) c1) as (r & Hr & He); try lia.
  { intros c0 Hc0 <- Hl. by apply IHty. }
  { by eapply after_ok. }
  { congruence. }
  exists r. split; [done|]. destruct r as [c2|e|]; [|done..].
  destruct He as (ps & Hps & Hall & Ha2). exists (h ++ concat ps). split; [|by eapply after_trans].
  exists h, ps. split; [|done]. by replace (length ps) with n by lia.
Qed.

(** A vector, completely: [body] reads each of its values. *)
Lemma while_len_complete ty body bound ps : forall fuel c c',
  (forall c c' p, cursor_ok c -> length (inner_bytes c) = bound -> encoding ty p -> after c c' p ->
     body c = Some (Return c')) ->
  cursor_ok c -> length (inner_bytes c) = bound -> Forall (encoding ty) ps ->
  after c c' (concat ps) -> (length ps < fuel)%nat ->
  while_len body fuel (Z.of_nat (length ps)) c = Some (Return c').
Proof.
  induction ps as [|p ps IH]; intros [|fuel] c c' Hbody Hc Hb Hall Ha Hf; try (simpl in Hf; lia).
  - destruct Ha as [_ ->]. cbn. unfold advance. rewrite Nat.add_0_r. by destruct c.
  - apply Forall_cons in Hall as [Hp Hall]. destruct Ha as [Hr ->]. cbn [concat] in *.
    rewrite <- (assoc_L (++)) in Hr. destruct (app_after c p _ Hr) as (c1 & H1 & Hr1).
    cbn [while_len]. rewrite (proj2 (Z.ltb_lt _ _)) by (simpl; lia).
    rewrite (Hbody c c1 p Hc Hb Hp H1). cbn [mbind option_bind].
    replace (Z.of_nat (length (p :: ps)) - 1) with (Z.of_nat (length ps)) by (simpl; lia).
    pose proof H1 as [_ Hi]. apply IH; [done|by eapply after_ok|by rewrite Hi|done| |simpl in Hf; lia].
    split; [by rewrite Hr1|]. rewrite Hi. unfold advance. simpl.
    by rewrite length_app, Nat.add_assoc.
Qed.

Lemma elements_length ty ps : Forall (encoding ty) ps -> (length ps <= length (concat ps))%nat.
Proof.
  induction 1 as [|p ps Hp _ IH]; [done|]. apply encoding_pos in Hp. simpl.
  rewrite length_app. lia.
Qed.

Lemma validate_arg_complete fuel ty : forall c c' p, strings ty -> cursor_ok c ->
  (length (inner_bytes c) < fuel)%nat -> encoding ty p -> after c c' p ->
  validate_arg fuel ty c (length (inner_bytes c)) = Some (Return c').
Proof.
  induction ty; intros c c' p Hty Hc Hf Hp Ha; try done.
  2, 3: cbn [validate_arg]; f_equal; by eapply validate_struct_complete.
  destruct Hp as (h & ps & Hu & Hall & ->). pose proof Ha as [Hr Hc'].
  rewrite <- (assoc_L (++)) in Hr. destruct (app_after c h _ Hr) as (c1 & H1 & Hr1).
  cbn [validate_arg]. rewrite (get_len_complete c c1 h _ Hu H1). pose proof H1 as [_ Hi].
  apply (while_len_complete ty _ (length (inner_bytes c)) ps fuel c1 c').
  - intros c2 c3 q Hc2 Hb Hq Ha2. rewrite <- Hb. apply (IHty c2 c3 q); try done. by rewrite Hb.
  - by eapply after_ok.
  - by rewrite Hi.
  - exact Hall.
  - split; [done|]. rewrite Hc', Hi. unfold advance. simpl.
    by rewrite length_app, Nat.add_assoc.
  - apply elements_length in Hall. apply (f_equal length) in Hr. unfold remaining at 1 in Hr.
    rewrite !length_app, length_drop in Hr. lia.
Qed.

(** ** All the arguments *)

(** The arguments with strings in them, from argument [idx], begin with encodings. *)
Definition args_encoded (idx : nat) (idxs : list nat) (params : list Type_) (args : list bytes)
  : Prop :=
  forall i ty arg, params !! i = Some ty -> args !! i = Some arg -> (idx + i)%nat ∈ idxs ->
    exists p rest, encoding ty p /\ arg = p ++ rest.

Definition usize_long (arg : bytes) : Prop := Z.of_nat (length arg) < Prelude.U64.

Lemma args_encoded_skip idx idxs ty arg params args :
  args_encoded idx idxs (ty :: params) (arg :: args) <->
  (idx ∈ idxs -> exists p rest, encoding ty p /\ arg = p ++ rest) /\
  args_encoded (S idx) idxs params args.
Proof.
  unfold args_encoded. split.
  - intros Hall. split.
    + intros Hi. apply (Hall 0%nat ty arg); [done..|by rewrite Nat.add_0_r].
    + intros i ty' arg' Ht Ha Hi. apply (Hall (S i) ty' arg'); [done..|].
      by replace (idx + S i)%nat with (S idx + i)%nat by lia.
  - intros [Hfirst Hall] [|i] ty' arg' Ht Ha Hi; simplify_eq/=.
    + rewrite Nat.add_0_r in Hi. by apply Hfirst.
    + rewrite Nat.add_succ_r in Hi. by apply (Hall i ty' arg').
Qed.

Lemma validate_args_from_exact idxs params : forall idx args,
  (forall i ty, params !! i = Some ty -> (idx + i)%nat ∈ idxs -> strings ty) ->
  Forall usize_long args ->
  exists r, validate_args_from idx idxs params args = Some r /\
    (r = Return tt /\ args_encoded idx idxs params args \/
     r = Throw (VMStatus_Error FAILED_TO_DESERIALIZE_ARGUMENT) /\
       ~ args_encoded idx idxs params args).
Proof.
  induction params as [|ty params IH]; intros idx args Hty Hlong; [by exists (Return tt); split; [|left]|].
  destruct Hlong as [|arg args Harg Hlong].
  { exists (Return tt). split; [done|]. left. split; [done|]. by intros i ty' arg'. }
  assert (IHn : exists r, validate_args_from (S idx) idxs params args = Some r /\
    (r = Return tt /\ args_encoded (S idx) idxs params args \/
     r = Throw (VMStatus_Error FAILED_TO_DESERIALIZE_ARGUMENT) /\
       ~ args_encoded (S idx) idxs params args)).
  { apply IH; [|done]. intros i ty' Ht Hi. apply (Hty (S i) ty' Ht).
    by replace (idx + S i)%nat with (S idx + i)%nat by lia. }
  cbn [validate_args_from]. case_bool_decide as Hin.
  2: { destruct IHn as (r & -> & Hr). exists r. split; [done|]. rewrite args_encoded_skip. tauto. }
  assert (Hs : strings ty) by (apply (Hty 0%nat); [done|by rewrite Nat.add_0_r]).
  assert (Hc : cursor_ok (Cursor_new arg)) by (split; simpl; [lia|done]).
  destruct (validate_arg_walks (S (length arg)) ty (Cursor_new arg) Hs Hc) as (r & Hr & Hw).
  { unfold remaining. simpl. rewrite drop_0. lia. }
  cbn [inner_bytes Cursor_new] in Hr. rewrite Hr. cbn [mbind option_bind].
  destruct r as [c1|e|]; [| |done].
  - destruct IHn as (r & -> & Hr2). exists r. split; [done|]. rewrite args_encoded_skip.
    assert (exists p rest, encoding ty p /\ arg = p ++ rest); [|tauto].
    destruct Hw as (p & Hp & [Ha _]). exists p, (remaining c1). split; [done|].
    unfold remaining in Ha at 1. simpl in Ha. by rewrite drop_0 in Ha.
  - simpl in Hw. subst e. eexists. split; [done|]. right. split; [done|]. rewrite args_encoded_skip.
    intros [He _]. destruct (He Hin) as (p & rest & Hp & Harg').
    destruct (app_after (Cursor_new arg) p rest) as (c' & Ha & _);
      [unfold remaining; simpl; by rewrite drop_0|].
    apply (validate_arg_complete (S (length arg)) ty) in Ha; [|done..|simpl; lia|done].
    simpl in Ha. congruence.
Qed.

(** ** Signatures *)

Lemma signer_not_valid ty : is_signer ty = true -> ~ valid ty.
Proof. intros [-> | ->]%signer_exact; by intros []. Qed.

Lemma check_params_ok params : forall idx ns, check_params idx params = Ok ns ->
  Forall valid params /\
  forall n, n ∈ ns <-> exists i ty, n = (idx + i)%nat /\ params !! i = Some ty /\ strings ty.
Proof.
  induction params as [|ty params IH]; intros idx ns; simpl.
  { intros [= <-]. split; [done|]. intros n. split; [by intros []%elem_of_nil|].
    by intros (i & ty & _ & Hi & _). }
  pose proof (valid_exact ty) as Hvalid. pose proof (strings_exact ty) as Hstrings.
  destruct (is_valid_txn_arg ty) as [v b] eqn:Hv. destruct v; [|done].
  destruct (check_params (S idx) params) as [rest|] eqn:Hrest; [|done]. intros [= <-].
  destruct (IH _ _ Hrest) as [Hall Hrest']. split; [constructor; [by apply Hvalid|done]|].
  intros n. transitivity ((n = idx /\ b = true) \/ n ∈ rest).
  { destruct b; [rewrite elem_of_cons; tauto|]. by split; [right|intros [[_ ?]|?]]. }
  rewrite Hrest'. split.
  - intros [[-> ->]|(i & ty' & -> & Hi & Hs)].
    + exists 0%nat, ty. rewrite Nat.add_0_r. by split; [|split; [|apply Hstrings]].
    + exists (S i), ty'. split; [lia|done].
  - intros ([|i] & ty' & -> & Hi & Hs); simplify_eq/=.
    + left. apply Hstrings in Hs. simplify_eq. split; [lia|done].
    + right. exists i, ty'. split; [lia|done].
Qed.

Lemma check_params_valid params : forall idx, Forall valid params ->
  exists ns, check_params idx params = Ok ns.
Proof.
  induction params as [|ty params IH]; intros idx Hall; [by eexists|].
  apply Forall_cons in Hall as [Hty Hall]. simpl. apply valid_exact in Hty.
  destruct (is_valid_txn_arg ty) as [v b]. simpl in Hty. subst v. simpl.
  destruct (IH (S idx) Hall) as [ns ->]. by eexists.
Qed.

Lemma check_params_error params : forall idx e, check_params idx params = Err e ->
  e = VMStatus_Error INVALID_MAIN_FUNCTION_SIGNATURE.
Proof.
  induction params as [|ty params IH]; intros idx e; simpl; [done|].
  destruct (is_valid_txn_arg ty) as [[] b]; simpl; [|by intros [= <-]].
  destruct (check_params (S idx) params) eqn:Hp; [done|]. intros [= <-]. by eapply IH.
Qed.

Lemma no_signers l : Forall valid l -> filter is_signer l = [].
Proof.
  induction 1 as [|ty l Hty _ IH]; [done|]. rewrite filter_cons_False, IH; [done|].
  intros Hs. apply (signer_not_valid ty); [by apply Is_true_true_1|done].
Qed.

(** The number of signers, when those that follow are valid. *)
Lemma count_signers signers others :
  Forall signer signers -> Forall valid others ->
  length (filter is_signer (signers ++ others)) = length signers.
Proof.
  intros Hs Ho. rewrite filter_app, length_app.
  assert (filter is_signer signers = signers) as ->.
  { induction Hs as [|ty l Hty%signer_exact _ IH]; [done|].
    rewrite filter_cons_True, IH by (by rewrite Hty). done. }
  rewrite no_signers by done. simpl. lia.
Qed.

(** Counting the signers and checking what follows that many parameters finds them in front. *)
Lemma signers_first params :
  Forall valid (drop (length (filter is_signer params)) params) ->
  Forall signer (take (length (filter is_signer params)) params).
Proof.
  set (n := length (filter is_signer params)). intros Hd.
  assert (Hn : (n <= length params)%nat) by apply length_filter.
  assert (Hc : length (filter is_signer (take n params ++ drop n params)) = n) by by rewrite take_drop.
  rewrite filter_app, length_app, (no_signers _ Hd), Nat.add_0_r in Hc.
  rewrite Forall_forall. intros ty Hty. apply signer_exact.
  assert (Hl : length (take n params) = n) by (rewrite length_take; lia).
  clear -Hc Hl Hty. revert Hc Hl Hty. generalize (take n params) as l. intros l Hc Hl. rewrite <- Hl in Hc.
  clear Hl. induction l as [|ty' l IH]; [by intros ?%elem_of_nil|].
  destruct (is_signer ty') eqn:Hs.
  - rewrite filter_cons_True in Hc by (by rewrite Hs). intros [->|Hin]%elem_of_cons; [done|].
    apply IH; [|done]. simpl in Hc. lia.
  - rewrite filter_cons_False in Hc by (rewrite Hs; by intros []). exfalso.
    pose proof (length_filter is_signer l). simpl in Hc. lia.
Qed.

(** ** The calls that are accepted *)

(** [combined] are the final arguments of a call of [func]: its parameters are signers, then
    plain values, strings and vectors of them, one for each argument; the senders are the signers
    where there are any; and an argument with strings in it begins with an encoding. *)
Definition accepted (senders : list AccountAddress) (args : list bytes)
  (func : LoadedFunctionInstantiation) (combined : list bytes) : Prop :=
  return_ func = [] /\ exists signers others,
    parameters func = signers ++ others /\
    Forall signer signers /\ Forall valid others /\
    length args = length others /\
    (signers = [] /\ combined = args \/
     signers <> [] /\ length senders = length signers /\
       exists ss, Forall2 (fun s b => serialize_signer s = Some b) senders ss /\
         combined = ss ++ args) /\
    (forall i ty arg, others !! i = Some ty -> args !! i = Some arg -> strings ty ->
       exists p rest, encoding ty p /\ arg = p ++ rest).

(** The statuses of a call that is refused. *)
Definition refusal (e : VMStatus) : Prop :=
  e ∈ VMStatus_Error <$> [INVALID_MAIN_FUNCTION_SIGNATURE; NUMBER_OF_ARGUMENTS_MISMATCH;
                          NUMBER_OF_SIGNER_ARGUMENTS_MISMATCH; FAILED_TO_DESERIALIZE_ARGUMENT].

(** The parameters of an accepted call are split where the signers are counted. *)
Lemma accepted_split senders args func combined : accepted senders args func combined ->
  let n := length (filter is_signer (parameters func)) in
  Forall valid (drop n (parameters func)) /\
  (n + length args)%nat = length (parameters func) /\
  (n = 0%nat /\ combined = args \/
   n <> 0%nat /\ length senders = n /\ exists ss, signer_args senders = Some ss /\ combined = ss ++ args) /\
  (forall i ty arg, drop n (parameters func) !! i = Some ty -> args !! i = Some arg ->
     strings ty -> exists p rest, encoding ty p /\ arg = p ++ rest).
Proof.
  intros (_ & signers & others & -> & Hs & Ho & Hlen & Hc & He).
  cbn zeta. rewrite !count_signers by done. rewrite drop_app_length. split; [done|].
  rewrite length_app. split; [lia|]. split; [|done].
  destruct Hc as [[-> ->]|(Hne & Hl & ss & Hss & Hc)]; [by left|right].
  split; [by destruct signers|]. split; [done|]. exists ss. split; [by apply mapM_Some|done].
Qed.

(** What [validate_args] is asked, in terms of the parameters after the signers. *)
Lemma combined_encoded n ns params args ss :
  length ss = n -> (n <= length params)%nat -> check_params n (drop n params) = Ok ns ->
  args_encoded 0 ns params (ss ++ args) <->
  (forall i ty arg, drop n params !! i = Some ty -> args !! i = Some arg -> strings ty ->
     exists p rest, encoding ty p /\ arg = p ++ rest).
Proof.
  intros <- Hn [_ Hns]%check_params_ok. unfold args_encoded. split.
  - intros Hall i ty arg Ht Ha Hs. rewrite lookup_drop in Ht.
    apply (Hall (length ss + i)%nat ty arg); [done| |].
    + rewrite lookup_app_r by lia. by rewrite Nat.add_sub'.
    + apply Hns. exists i, ty. by rewrite lookup_drop.
  - intros Hall i ty arg Ht Ha (j & ty' & Heq & Hj & Hs)%Hns. simpl in Heq. subst i.
    rewrite lookup_drop, Ht in Hj. injection Hj as <-.
    rewrite lookup_app_r, Nat.add_sub' in Ha by lia. eapply Hall; [|done..]. by rewrite lookup_drop.
Qed.

Lemma signer_args_total senders :
  (forall s, exists b, serialize_signer s = Some b /\ length b = 32%nat) ->
  exists ss, signer_args senders = Some ss /\ length ss = length senders /\ Forall usize_long ss.
Proof.
  intros Hsig. unfold signer_args. induction senders as [|s senders (ss & Hss & Hl & Hall)].
  { by exists []. }
  destruct (Hsig s) as (b & Hb & Hlen). exists (b :: ss). cbn [mapM].
  rewrite Hb. cbn [mbind option_bind]. rewrite Hss. cbn [mbind option_bind].
  split; [done|]. split; [by simpl; f_equal|]. constructor; [|done]. unfold usize_long.
  rewrite Hlen. done.
Qed.

(** The signers in front of the arguments. *)
Lemma combined_outcome senders n :
  (forall s, exists b, serialize_signer s = Some b /\ length b = 32%nat) ->
  length senders = n \/ n = 0%nat ->
  exists ss, length ss = n /\ Forall usize_long ss /\
    (n <> 0%nat -> signer_args senders = Some ss) /\ (n = 0%nat -> ss = []).
Proof.
  intros Hsig Hn. destruct n as [|n]; [by exists []|].
  destruct (signer_args_total senders Hsig) as (ss & Hss & Hl & Hall).
  exists ss. split; [|done]. destruct Hn; lia.
Qed.

Lemma combined_accepted senders args func ns ss :
  let n := length (filter is_signer (parameters func)) in
  return_ func = [] -> check_params n (drop n (parameters func)) = Ok ns ->
  (n + length args)%nat = length (parameters func) -> length senders = n \/ n = 0%nat ->
  length ss = n -> (n <> 0%nat -> signer_args senders = Some ss) -> (n = 0%nat -> ss = []) ->
  args_encoded 0 ns (parameters func) (ss ++ args) ->
  accepted senders args func (ss ++ args).
Proof.
  intros n Hret Hns Hlen Hsn Hss Hne Hz He.
  assert (Hn : (n <= length (parameters func))%nat) by apply length_filter.
  destruct (check_params_ok _ _ _ Hns) as [Hv _].
  split; [done|]. exists (take n (parameters func)), (drop n (parameters func)).
  rewrite take_drop. split; [done|]. split; [by apply signers_first|]. split; [done|].
  rewrite length_drop. split; [lia|].
  split; [|by apply (combined_encoded n ns (parameters func) args ss)].
  assert (Htake : length (take n (parameters func)) = n) by (rewrite length_take; lia).
  destruct (decide (n = 0%nat)) as [Hzero|Hzero]; [left|right].
  - rewrite (Hz Hzero). split; [|done]. apply nil_length_inv. congruence.
  - split; [by intros Hnil; apply Hzero; rewrite <- Htake, Hnil|]. rewrite Htake.
    split; [tauto|]. exists ss. split; [by apply mapM_Some, Hne|done].
Qed.

Lemma combine_outcome senders args func :
  (forall s, exists b, serialize_signer s = Some b /\ length b = 32%nat) ->
  Forall usize_long args ->
  exists r, validate_combine_signer_and_txn_args senders args func = Some r /\
    match r with
    | Return combined => accepted senders args func combined
    | Throw e => refusal e /\ forall combined, ~ accepted senders args func combined
    | Panic => False
    end.
Proof.
  intros Hsig Hlong. unfold validate_combine_signer_and_txn_args.
  case_bool_decide as Hret; cbn [negb].
  2: { eexists. split; [done|]. split; [left|]. intros combined Ha. by apply Hret, Ha. }
  set (n := length (filter is_signer (parameters func))).
  destruct (check_params n (drop n (parameters func))) as [ns|e] eqn:Hns.
  2: { eexists. split; [done|]. pose proof (check_params_error _ _ _ Hns) as ->. split; [left|].
       intros combined (Hv & _)%accepted_split. apply (check_params_valid _ n) in Hv as [ns Hv]. 
       fold n in Hv. congruence. }
  destruct (Nat.eqb_spec (n + length args) (length (parameters func))) as [Hlen|Hlen]; cbn [negb].
  2: { eexists. split; [done|]. split; [do 1 right; left|].
       intros combined (_ & Hl & _)%accepted_split. by apply Hlen. }
  destruct (decide (length senders = n \/ n = 0%nat)) as [Hsn|Hsn].
  2: { destruct (Nat.eqb_spec n 0); [tauto|]. destruct (Nat.eqb_spec (length senders) n); [tauto|].
       eexists. split; [done|]. split; [do 2 right; left|].
       intros combined (_ & _ & Hc & _)%accepted_split. fold n in Hc. tauto. }
  destruct (combined_outcome senders n Hsig Hsn) as (ss & Hss & Hsl & Hne & Hz).
  assert (Hn : (n <= length (parameters func))%nat) by apply length_filter.
  pose proof (combined_encoded n ns (parameters func) args ss Hss Hn Hns) as Henc.
  destruct (check_params_ok _ _ _ Hns) as [_ Hin].
  pose proof (combined_accepted senders args func ns ss Hret Hns Hlen Hsn Hss Hne Hz) as Hacc.
  assert (Hrej : ~ args_encoded 0 ns (parameters func) (ss ++ args) ->
    forall combined, ~ accepted senders args func combined).
  { intros He combined (_ & _ & _ & Hc)%accepted_split. apply He, Henc, Hc. }
  assert ((if (n =? 0)%nat then Return args
           else if negb (length senders =? n)%nat
           then Throw (VMStatus_Error NUMBER_OF_SIGNER_ARGUMENTS_MISMATCH)
           else signers ← expect (signer_args senders); Return (signers ++ args))
          = Return (ss ++ args)) as ->.
  { destruct (Nat.eqb_spec n 0) as [Hzero|Hzero]; [by rewrite (Hz Hzero)|].
    destruct (Nat.eqb_spec (length senders) n); [|tauto]. by rewrite (Hne Hzero). }
  case_bool_decide as Hnil.
  { eexists. split; [done|]. apply Hacc. intros i ty arg _ _. rewrite Hnil. by intros []%elem_of_nil. }
  destruct (validate_args_from_exact ns (parameters func) 0 (ss ++ args)) as (r & Hr & Hcases).
  { intros i ty Hi (j & ty' & Heq & Hj & Hs)%Hin. simpl in Heq. subst i.
    rewrite lookup_drop in Hj. by simplify_eq. }
  { by apply Forall_app. }
  unfold validate_args. rewrite Hr. cbn [mbind option_bind]. eexists. split; [done|].
  destruct Hcases as [[-> He]|[-> He]]; cbn [comp_bind mbind]; [by apply Hacc|].
  split; [do 3 right; left|]. by apply Hrej.
Qed.

Lemma accepted_unique senders args func c c' :
  accepted senders args func c -> accepted senders args func c' -> c = c'.
Proof.
  intros (_ & _ & Hc & _)%accepted_split (_ & _ & Hc' & _)%accepted_split.
  destruct Hc as [[? ->]|(? & _ & ss & Hss & ->)], Hc' as [[? ->]|(? & _ & ss' & Hss' & ->)];
    congruence.
Qed.

(** ** Properties *)

(** C15. The calls whose arguments are accepted are exactly those of a function without results
    whose parameters are signers and then types of arguments (booleans, integers, addresses, the
    struct [0x1::string::String], and vectors of these), as many as there are arguments, with a
    sender for each signer where there are signers (the senders are not looked at where there
    are none), and whose arguments begin, where they hold strings, with the encoding of a value
    of their type in which every string is a sequence of Unicode scalar values.  What follows
    that encoding in an argument is not looked at.  The arguments the function runs with are the
    serialised senders, as signers, and then the arguments. *)
Theorem combine_accepts_exactly senders args func combined :
  (forall s, exists b, serialize_signer s = Some b /\ length b = 32%nat) ->
  Forall usize_long args ->
  validate_combine_signer_and_txn_args senders args func = Some (Return combined) <->
  accepted senders args func combined.
Proof.
  intros Hsig Hlong. destruct (combine_outcome senders args func Hsig Hlong) as (r & -> & Hr).
  split.
  - intros [= ->]. exact Hr.
  - intros Ha. destruct r as [c|e|]; [|by destruct (proj2 Hr combined)|done].
    by rewrite (accepted_unique _ _ _ _ _ Hr Ha).
Qed.

(** C16. The validation of arguments terminates on every input and does not panic, whatever
    lengths the arguments claim: it accepts the call or refuses it with one of four errors, and
    no loop over an argument has more turns than the argument has bytes. *)
Theorem validation_terminates senders args func :
  (forall s, exists b, serialize_signer s = Some b /\ length b = 32%nat) ->
  Forall usize_long args ->
  exists r, validate_combine_signer_and_txn_args senders args func = Some r /\
    ((exists combined, r = Return combined) \/ (exists e, r = Throw e /\ refusal e)).
Proof.
  intros Hsig Hlong. destruct (combine_outcome senders args func Hsig Hlong) as (r & -> & Hr).
  exists r. split; [done|]. destruct r as [c|e|]; [left|right|done]; [by exists c|].
  exists e. split; [done|]. apply Hr.
Qed.
End TxnArgs.

(** ** A concrete decoder of lengths, and calls of a function on strings *)

Module Uleb.
(** Groups of seven bits, least significant first, at most ten of them. *)
Fixpoint decode (fuel : nat) (b : bytes) : option (Z * nat) :=
  match fuel, b with
  | S fuel, x :: b =>
      if x <? 128 then Some (x, 1%nat)
      else '(n, k) ← decode fuel b; Some (x - 128 + 128 * n, S k)
  | _, _ => None
  end.

#[export] Instance uleb128 : Uleb128 := fun b =>
  '(n, k) ← decode 10 b; if bool_decide (is_u64 n) then Some (n, k) else None.

Lemma decode_spec fuel : forall b n k r, decode fuel b = Some (n, k) ->
  (0 < k <= length b)%nat /\ decode fuel (take k b ++ r) = Some (n, k).
Proof.
  induction fuel as [|fuel IH]; intros [|x b] n k r; simpl; try done.
  destruct (x <? 128) eqn:Hx; [intros [= <- <-]; simpl; rewrite Hx; split; [lia|done]|].
  destruct (decode fuel b) as [[m j]|] eqn:Hd; [|done]. intros [= <- <-].
  destruct (IH _ _ _ r Hd) as [Hj Hr]. simpl. rewrite Hx, Hr. split; [lia|done].
Qed.

#[export] Instance uleb128_laws : Uleb128Laws.
Proof.
  assert (Hread : forall b n k, read_uleb128_as_u64 b = Some (n, k) <->
    decode 10 b = Some (n, k) /\ is_u64 n).
  { intros b n k. unfold read_uleb128_as_u64, uleb128.
    destruct (decode 10 b) as [[m j]|]; simpl; [|by split; [|intros []]].
    case_bool_decide; split; [by intros [= <- <-]|by intros [[= <- <-] _]|done|].
    by intros [[= <- <-] ?]. }
  split.
  - intros b n k [Hd Hn]%Hread. split; [done|]. by apply (decode_spec _ _ _ _ [] Hd).
  - intros b n k r [Hd Hn]%Hread. apply Hread. split; [|done]. by apply decode_spec.
Qed.
End Uleb.

Module TxnArgsExample.
#[local] Existing Instance Uleb.uleb128.
#[local] Existing Instance Uleb.uleb128_laws.

(** Struct 0 is [0x1::string::String]; an address is a byte, repeated 32 times. *)
Definition struct_type (idx : nat) : option (StructType (ModuleId := string)) :=
  match idx with
  | O => Some {| st_module := "0x1::string"; st_name := "String" |}
  | _ => None
  end.
Definition signer_bytes (a : Z) : option bytes := Some (replicate 32 a).

(** [fun f(s: &signer, n: u64, names: vector<String>)] *)
Definition func : LoadedFunctionInstantiation (StructIndex := nat) :=
  {| parameters := [Reference Signer; U64; Vector (Struct 0%nat)]; return_ := [] |}.

(** The vector of the strings [h], the letter e with an acute accent, and the empty one. *)
Definition names : bytes := [3; 1; 0x68; 2; 0xc3; 0xa9; 0].
Definition call (names : bytes) :=
  validate_combine_signer_and_txn_args struct_type id signer_bytes [7] [[0; 0; 0; 0; 0; 0; 0; 0]; names]
    func.

Example call_accepted :
  call names = Some (Return [replicate 32 7; [0; 0; 0; 0; 0; 0; 0; 0]; names]).
Proof. reflexivity. Qed.
(** A surrogate, an overlong encoding, and a vector that claims to be longer than it is. *)
Example call_surrogate :
  call [1; 3; 0xed; 0xa0; 0x80] = Some (Throw (VMStatus_Error FAILED_TO_DESERIALIZE_ARGUMENT)).
Proof. reflexivity. Qed.
Example call_overlong :
  call [1; 2; 0xc0; 0x80] = Some (Throw (VMStatus_Error FAILED_TO_DESERIALIZE_ARGUMENT)).
Proof. reflexivity. Qed.
Example call_truncated :
  call [0xff; 0xff; 0xff; 0xff; 0xff; 0xff; 0xff; 0xff; 0xff; 1; 0; 0] =
  Some (Throw (VMStatus_Error FAILED_TO_DESERIALIZE_ARGUMENT)).
Proof. reflexivity. Qed.

Lemma signer_ok (a : Z) : exists b, signer_bytes a = Some b /\ length b = 32%nat.
Proof. exists (replicate 32 a). split; [done|]. apply length_replicate. Qed.

Lemma combine_accepts_exactly_witness :
  accepted struct_type id signer_bytes [7] [[0; 0; 0; 0; 0; 0; 0; 0]; names] func
    [replicate 32 7; [0; 0; 0; 0; 0; 0; 0; 0]; names].
Proof.
  refine (proj1 (combine_accepts_exactly struct_type id signer_bytes [7]
    [[0; 0; 0; 0; 0; 0; 0; 0]; names] func _ signer_ok _) call_accepted).
  repeat constructor; by vm_compute.
Defined.

Lemma validation_terminates_witness :
  exists r, call [0xff; 0xff; 0xff; 0xff; 0xff; 0xff; 0xff; 0xff; 0xff; 1; 0; 0] = Some r /\
    ((exists combined, r = Return combined) \/ (exists e, r = Throw e /\ refusal e)).
Proof.
  apply (validation_terminates struct_type id signer_bytes).
  - exact signer_ok.
  - repeat constructor; by vm_compute.
Defined.
End TxnArgsExample.
