(* ===== verification/VMErrors.v ===== *)
(** * Errors of the prologue and the epilogue ([aptos-vm/src/errors.rs])

    The prologue and the epilogue are Move functions; their abort codes are split into a
    category and a reason and mapped to the statuses a transaction is discarded with.  Alerts
    and log messages have no effect on results and are left out. *)
From S2P Require Import Prelude.

#[local] Open Scope Z_scope.

Definition EBAD_ACCOUNT_AUTHENTICATION_KEY : Z := 1001.
Definition ESEQUENCE_NUMBER_TOO_OLD : Z := 1002.
Definition ESEQUENCE_NUMBER_TOO_NEW : Z := 1003.
Definition EACCOUNT_DOES_NOT_EXIST : Z := 1004.
Definition ECANT_PAY_GAS_DEPOSIT : Z := 1005.
Definition ETRANSACTION_EXPIRED : Z := 1006.
Definition EBAD_CHAIN_ID : Z := 1007.
Definition ESEQUENCE_NUMBER_TOO_BIG : Z := 1008.
Definition ESECONDARY_KEYS_ADDRESSES_COUNT_MISMATCH : Z := 1009.

Definition INVALID_ARGUMENT : Z := 1.
Definition LIMIT_EXCEEDED : Z := 2.

Definition error_split (code : Z) : Z * Z :=
  let reason := Z.land code 0xffff in
  let category := Z.land (Z.shiftr code 16) 0xff mod 2 ^ 8 in
  (category, reason).

(** [VMStatus::Error(StatusCode::UNEXPECTED_ERROR_FROM_KNOWN_MOVE_FUNCTION)] *)
Definition unexpected : VMStatus := VMStatus_Error UNEXPECTED_ERROR_FROM_KNOWN_MOVE_FUNCTION.

(** The inner [match] of [convert_prologue_error], top to bottom. *)
Definition prologue_status (category reason : Z) : option StatusCode :=
  let coded c r := (category =? c) && (reason =? r) in
  if coded INVALID_ARGUMENT EBAD_ACCOUNT_AUTHENTICATION_KEY then Some INVALID_AUTH_KEY
  else if coded INVALID_ARGUMENT ESEQUENCE_NUMBER_TOO_OLD then Some SEQUENCE_NUMBER_TOO_OLD
  else if coded INVALID_ARGUMENT ESEQUENCE_NUMBER_TOO_NEW then Some SEQUENCE_NUMBER_TOO_NEW
  else if coded INVALID_ARGUMENT EACCOUNT_DOES_NOT_EXIST then Some SENDING_ACCOUNT_DOES_NOT_EXIST
  else if coded INVALID_ARGUMENT ECANT_PAY_GAS_DEPOSIT
  then Some INSUFFICIENT_BALANCE_FOR_TRANSACTION_FEE
  else if coded INVALID_ARGUMENT ETRANSACTION_EXPIRED then Some TRANSACTION_EXPIRED
  else if coded INVALID_ARGUMENT EBAD_CHAIN_ID then Some BAD_CHAIN_ID
  else if coded LIMIT_EXCEEDED ESEQUENCE_NUMBER_TOO_BIG then Some SEQUENCE_NUMBER_TOO_BIG
  else if coded INVALID_ARGUMENT ESECONDARY_KEYS_ADDRESSES_COUNT_MISMATCH
  then Some SECONDARY_KEYS_ADDRESSES_COUNT_MISMATCH
  else None.

Section Errors.
(** [VMError::into_vm_status] and [TransactionValidation::is_account_module_abort]. *)
Context {VMError : Type} (into_vm_status : VMError -> VMStatus).
Context {TransactionValidation : Type}.
Context (is_account_module_abort : TransactionValidation -> AbortLocation -> bool).

Definition convert_prologue_error (transaction_validation : TransactionValidation)
  (error : VMError) : result VMStatus unit :=
  match into_vm_status error with
  | VMStatus_Executed => Err VMStatus_Executed
  | VMStatus_MoveAbort location code =>
      if negb (is_account_module_abort transaction_validation location) then Err unexpected
      else
        let '(category, reason) := error_split code in
        match prologue_status category reason with
        | Some new_major_status => Err (VMStatus_Error new_major_status)
        | None => Err unexpected
        end
  | VMStatus_ExecutionFailure _ _ _ _ | VMStatus_Error _ => Err unexpected
  end.

Definition convert_epilogue_error (transaction_validation : TransactionValidation)
  (error : VMError) : result VMStatus unit :=
  match into_vm_status error with
  | VMStatus_Executed => Err VMStatus_Executed
  | VMStatus_MoveAbort location code =>
      if negb (is_account_module_abort transaction_validation location) then Err unexpected
      else
        let '(category, reason) := error_split code in
        if (category =? LIMIT_EXCEEDED) && (reason =? ECANT_PAY_GAS_DEPOSIT)
        then Err (VMStatus_MoveAbort location code)
        else Err unexpected
  | _ => Err unexpected
  end.

Definition expect_only_successful_execution (error : VMError) : result VMStatus unit :=
  match into_vm_status error with
  | VMStatus_Executed => Err VMStatus_Executed
  | _ => Err unexpected
  end.
End Errors.

(** ** The codes *)

(** [std::error::canonical] of the Move standard library: how a code is made. *)
Definition canonical (category reason : Z) : Z := category * 2 ^ 16 + reason.

Lemma error_split_arith code : error_split code = (code / 2 ^ 16 mod 2 ^ 8, code mod 2 ^ 16).
Proof.
  unfold error_split. change 0xffff with (Z.ones 16). change 0xff with (Z.ones 8).
  rewrite !Z.land_ones, Z.shiftr_div_pow2, Z.mod_mod by lia. done.
Qed.

Lemma error_split_canonical category reason extra :
  0 <= category < 2 ^ 8 -> 0 <= reason < 2 ^ 16 ->
  error_split (extra * 2 ^ 24 + canonical category reason) = (category, reason).
Proof. intros Hc Hr. rewrite error_split_arith. unfold canonical. f_equal; Z.div_mod_to_equations; lia. Qed.

(** The documented codes: category, reason and status. *)
Definition prologue_codes : list (Z * Z * StatusCode) :=
  [(INVALID_ARGUMENT, EBAD_ACCOUNT_AUTHENTICATION_KEY, INVALID_AUTH_KEY);
   (INVALID_ARGUMENT, ESEQUENCE_NUMBER_TOO_OLD, SEQUENCE_NUMBER_TOO_OLD);
   (INVALID_ARGUMENT, ESEQUENCE_NUMBER_TOO_NEW, SEQUENCE_NUMBER_TOO_NEW);
   (INVALID_ARGUMENT, EACCOUNT_DOES_NOT_EXIST, SENDING_ACCOUNT_DOES_NOT_EXIST);
   (INVALID_ARGUMENT, ECANT_PAY_GAS_DEPOSIT, INSUFFICIENT_BALANCE_FOR_TRANSACTION_FEE);
   (INVALID_ARGUMENT, ETRANSACTION_EXPIRED, TRANSACTION_EXPIRED);
   (INVALID_ARGUMENT, EBAD_CHAIN_ID, BAD_CHAIN_ID);
   (LIMIT_EXCEEDED, ESEQUENCE_NUMBER_TOO_BIG, SEQUENCE_NUMBER_TOO_BIG);
   (INVALID_ARGUMENT, ESECONDARY_KEYS_ADDRESSES_COUNT_MISMATCH,
      SECONDARY_KEYS_ADDRESSES_COUNT_MISMATCH)].

Lemma prologue_status_table category reason s :
  prologue_status category reason = Some s <-> (category, reason, s) ∈ prologue_codes.
Proof.
  unfold prologue_status. split.
  - repeat case_match; intros [= <-];
      match goal with Hb : (_ =? _) && (_ =? _) = true |- _ =>
        apply andb_true_iff in Hb as [->%Z.eqb_eq ->%Z.eqb_eq] end;
      repeat (apply elem_of_cons; first [left; reflexivity|right]).
  - unfold prologue_codes. intros Hin.
    repeat (apply elem_of_cons in Hin as [[= -> -> ->]|Hin]; [reflexivity|]).
    by apply elem_of_nil in Hin.
Qed.

(** A code of the prologue with the documented status [c], with any bits above the category. *)
Definition prologue_code (code : Z) (c : StatusCode) : Prop :=
  exists category reason extra, (category, reason, c) ∈ prologue_codes /\
    code = extra * 2 ^ 24 + canonical category reason.

Lemma prologue_code_split code c :
  prologue_code code c <->
  prologue_status (code / 2 ^ 16 mod 2 ^ 8) (code mod 2 ^ 16) = Some c.
Proof.
  rewrite prologue_status_table. split.
  - intros (category & reason & extra & Hin & ->).
    assert (Hb : 0 <= category < 2 ^ 8 /\ 0 <= reason < 2 ^ 16).
    { unfold prologue_codes in Hin.
      repeat (apply elem_of_cons in Hin as [[= -> -> _]|Hin]; [vm_compute; intuition discriminate|]).
      by apply elem_of_nil in Hin. }
    pose proof (error_split_canonical category reason extra (proj1 Hb) (proj2 Hb)) as Hs.
    rewrite error_split_arith in Hs. by injection Hs as -> ->.
  - intros Hin. eexists _, _, (code / 2 ^ 24). split; [done|]. unfold canonical.
    Z.div_mod_to_equations. lia.
Qed.

(** Whatever the error, its status is a code of the prologue or the unexpected error. *)
Lemma prologue_error_code {VMError TransactionValidation} (into_vm_status : VMError -> VMStatus)
  (is_account_module_abort : TransactionValidation -> AbortLocation -> bool) tv error s :
  into_vm_status error <> VMStatus_Executed ->
  convert_prologue_error into_vm_status is_account_module_abort tv error = Err s ->
  exists c, s = VMStatus_Error c /\
    (c = UNEXPECTED_ERROR_FROM_KNOWN_MOVE_FUNCTION \/ c ∈ prologue_codes.*2).
Proof.
  unfold convert_prologue_error. intros Hne. destruct (into_vm_status error) as [|?|loc code|]; [done|..].
  1, 3: intros [= <-]; eexists; split; [done|by left].
  destruct (is_account_module_abort tv loc); cbn [negb].
  2: { intros [= <-]. eexists. split; [done|by left]. }
  destruct (error_split code) as [category reason].
  destruct (prologue_status category reason) as [c|] eqn:Hc; intros [= <-]; eexists; (split; [done|]).
  - right. apply prologue_status_table in Hc. apply list_elem_of_fmap. by exists (category, reason, c).
  - by left.
Qed.

(** ** Properties *)

Section Properties.
Context {VMError : Type} (into_vm_status : VMError -> VMStatus).
Context {TransactionValidation : Type}.
Context (is_account_module_abort : TransactionValidation -> AbortLocation -> bool).

(** C27. An error of the prologue has a status other than the unexpected error exactly when the
    account module aborts with a code that has the category and the reason documented for that
    status, whatever its bits above the category; every other abort, execution failure or error
    of the prologue is the unexpected error. *)
Theorem prologue_error_exact (tv : TransactionValidation) (error : VMError) :
  into_vm_status error <> VMStatus_Executed ->
  (exists c, convert_prologue_error into_vm_status is_account_module_abort tv error
             = Err (VMStatus_Error c)) /\
  forall c, c <> UNEXPECTED_ERROR_FROM_KNOWN_MOVE_FUNCTION ->
    convert_prologue_error into_vm_status is_account_module_abort tv error
      = Err (VMStatus_Error c) <->
    exists location code, into_vm_status error = VMStatus_MoveAbort location code /\
      is_account_module_abort tv location = true /\ prologue_code code c.
Proof.
  unfold convert_prologue_error. intros Hne. destruct (into_vm_status error) as [|code|loc code|]; [done|..].
  1, 3: split; [by eexists|]; intros c Hc; split; [by intros [= <-]|by intros (? & ? & ? & _)].
  destruct (is_account_module_abort tv loc) eqn:Ha; cbn [negb].
  2: { split; [by eexists|]. intros c Hc. split; [by intros [= <-]|].
       intros (loc' & code' & [= <- <-] & Ha' & _). congruence. }
  rewrite error_split_arith. cbn beta iota. split; [case_match; by eexists|]. intros c Hc.
  transitivity (prologue_code code c).
  2: { split; [by exists loc, code|]. by intros (loc' & code' & [= <- <-] & _ & Hp). }
  rewrite prologue_code_split. destruct (prologue_status _ _) as [c'|]; [|by split; intros [= <-]].
  split; congruence.
Qed.
End Properties.

Module VMErrorsExample.
(** The account module aborts with [error::invalid_argument(EACCOUNT_DOES_NOT_EXIST)]. *)
Definition abort : VMStatus := VMStatus_MoveAbort (AbortModule [1] "account") 0x103ec.
Definition is_account (_ : unit) (l : AbortLocation) : bool :=
  bool_decide (l = AbortModule [1] "account").

Lemma prologue_error_exact_witness :
  (exists c, convert_prologue_error id is_account tt abort = Err (VMStatus_Error c)) /\
  convert_prologue_error id is_account tt abort
    = Err (VMStatus_Error SENDING_ACCOUNT_DOES_NOT_EXIST).
Proof.
  destruct (prologue_error_exact id is_account tt abort ltac:(discriminate)) as [Hc Hcode].
  split; [exact Hc|]. apply Hcode; [discriminate|].
  exists (AbortModule [1] "account"), 0x103ec. split; [reflexivity|]. split; [reflexivity|].
  exists INVALID_ARGUMENT, EACCOUNT_DOES_NOT_EXIST, 0. split; [|reflexivity].
  by do 3 right; left.
Defined.
End VMErrorsExample.
