(* ===== verification/Session.v ===== *)
(** * Sessions of the Move VM ([aptos-vm/src/move_vm_ext/session.rs])

    A session ends with the changes of resources and modules, of tables and of aggregators, and
    with its events; [SessionOutput_into_change_set] turns them into a write set, the deltas of
    the aggregators and the contract events.  [squash_table_change_sets] and
    [SessionOutput_squash] put the outputs of two sessions together. *)
From S2P Require Import Prelude Delta Aggregator AggregatorContext ChangeSetExt.

(** [move_core_types::effects::Op], [MoveStorageOp] in the code. *)
Inductive Op :=
  | New (data : bytes)
  | Modify (data : bytes)
  | Remove.

Section Session.
Context `{Bcs128} {StateKey : Type} `{Countable StateKey}.
Context {AccountAddress Identifier StructTag TableHandle TableInfo TypeTag : Type}.
Context `{Countable AccountAddress} `{Countable Identifier} `{Countable StructTag}.
Context `{Countable TableHandle}.
Context {MoveEvent ContractEvent : Type}.

(** [AccountChangeSet], the change set of the Move VM, and the change set of the tables. *)
Record AccountChangeSet := { modules : gmap Identifier Op; resources : gmap StructTag Op }.
Abbreviation MoveChangeSet := (gmap AccountAddress AccountChangeSet).
Record TableChange := { entries : gmap bytes Op }.
Record TableChangeSet := {
  new_tables : gmap TableHandle TableInfo;
  removed_tables : gset TableHandle;
  table_changes : gmap TableHandle TableChange;
}.
Abbreviation AggregatorChangeSet := (gmap (TableHandle * AccountAddress) AggregatorChange).

Record SessionOutput := {
  out_change_set : MoveChangeSet;
  out_move_events : list MoveEvent;
  table_change_set : TableChangeSet;
  aggregator_change_set : AggregatorChangeSet;
}.

(** The orders of the maps. *)
Context (addr_leb : AccountAddress -> AccountAddress -> Prop) `{!RelDecision addr_leb}.
Context (ident_leb : Identifier -> Identifier -> Prop) `{!RelDecision ident_leb}.
Context (tag_leb : StructTag -> StructTag -> Prop) `{!RelDecision tag_leb}.
Context (handle_leb : TableHandle -> TableHandle -> Prop) `{!RelDecision handle_leb}.
Context (bytes_leb : bytes -> bytes -> Prop) `{!RelDecision bytes_leb}.
Context (id_leb : TableHandle * AccountAddress -> TableHandle * AccountAddress -> Prop).
Context `{!RelDecision id_leb}.

(** [StateKey::AccessPath(ap_cache.get_resource_path(..))], the same for modules, and
    [StateKey::table_item]; [AccountAddress::to_vec]. *)
Context (resource_key : AccountAddress -> StructTag -> StateKey).
Context (module_key : AccountAddress -> Identifier -> StateKey).
Context (table_item : TableHandle -> bytes -> StateKey).
Context (to_vec : AccountAddress -> bytes).
(** [WriteSetMut::freeze]; the checks of [ChangeSet::new]; an event with the key that is
    decoded from its guid; [MoveChangeSet::squash]. *)
Context (freeze : gmap StateKey WriteOp -> option (gmap StateKey WriteOp)).
Context (check_change_set : gmap StateKey WriteOp -> list ContractEvent -> Z -> result VMStatus unit).
Context (contract_event : MoveEvent -> option ContractEvent).
Context (squash_move : MoveChangeSet -> MoveChangeSet -> option MoveChangeSet).
Context (into_vm_status : PartialVMError -> VMStatus).

Abbreviation WriteSetMut := (gmap StateKey WriteOp).
Abbreviation DeltaChangeSet := (gmap StateKey DeltaOp).
Abbreviation ChangeSetExt := (ChangeSetExt StateKey ContractEvent).

(** The [match blob_op] of a resource, of a module and of a table item. *)
Definition resource_op (gas_feature_version : Z) (blob_op : Op) : WriteOp :=
  match blob_op with
  | Remove => Deletion
  | New blob => if gas_feature_version <? 3 then Modification blob else Creation blob
  | Modify blob => Modification blob
  end.
Definition module_op (blob_op : Op) : WriteOp :=
  match blob_op with
  | Remove => Deletion
  | New blob => Creation blob
  | Modify blob => Modification blob
  end.
Definition value_op (op : Op) : WriteOp :=
  match op with
  | Remove => Deletion
  | New bytes => Creation bytes
  | Modify bytes => Modification bytes
  end.

(** [write_set_mut.insert((key(k), op(blob_op)))] for the entries of a map, in order. *)
Definition insert_ops {K} (key : K -> StateKey) (op : Op -> WriteOp) (l : list (K * Op))
  (write_set_mut : WriteSetMut) : WriteSetMut :=
  foldl (fun ws x => <[key x.1 := op x.2]> ws) write_set_mut l.

(** One turn of the loop over the accounts, and one of the loop over the tables. *)
Definition insert_account (gas_feature_version : Z) (write_set_mut : WriteSetMut)
  (x : AccountAddress * AccountChangeSet) : WriteSetMut :=
  let '(addr, account_changeset) := x in
  let write_set_mut :=
    insert_ops (resource_key addr) (resource_op gas_feature_version)
      (btree_iter tag_leb (resources account_changeset)) write_set_mut in
  insert_ops (module_key addr) module_op (btree_iter ident_leb (modules account_changeset))
    write_set_mut.

Definition insert_table (write_set_mut : WriteSetMut) (x : TableHandle * TableChange)
  : WriteSetMut :=
  let '(handle, change) := x in
  insert_ops (table_item handle) value_op (btree_iter bytes_leb (entries change)) write_set_mut.

(** The loop over the aggregators. *)
Fixpoint insert_aggregators (l : list ((TableHandle * AccountAddress) * AggregatorChange))
  (write_set_mut : WriteSetMut) (delta_change_set : DeltaChangeSet)
  : comp VMStatus (WriteSetMut * DeltaChangeSet) :=
  match l with
  | [] => Return (write_set_mut, delta_change_set)
  | ((handle, key), change) :: l =>
      let state_key := table_item handle (to_vec key) in
      match change with
      | Write value =>
          data ← expect (serialize value);
          insert_aggregators l (<[state_key := Modification data]> write_set_mut) delta_change_set
      | Merge delta_op =>
          insert_aggregators l write_set_mut (<[state_key := delta_op]> delta_change_set)
      | Delete => insert_aggregators l (<[state_key := Deletion]> write_set_mut) delta_change_set
      end
  end.

Definition SessionOutput_into_change_set (self : SessionOutput) (gas_feature_version : Z)
  : comp VMStatus ChangeSetExt :=
  let write_set_mut := foldl (insert_account gas_feature_version) ∅
                         (btree_iter addr_leb (out_change_set self)) in
  let write_set_mut := foldl insert_table write_set_mut
                         (btree_iter handle_leb (table_changes (table_change_set self))) in
  '(write_set_mut, delta_change_set) ←
    insert_aggregators (btree_iter id_leb (aggregator_change_set self)) write_set_mut ∅;
  write_set ← lift (ok_or (freeze write_set_mut) (VMStatus_Error DATA_FORMAT_ERROR));
  events ← lift (ok_or (mapM contract_event (out_move_events self)) (VMStatus_Error EVENT_KEY_MISMATCH));
  _ ← lift (check_change_set write_set events gas_feature_version);
  Return {| delta_change_set := delta_change_set;
            change_set := {| write_set := write_set; events := events |};
            gas_feature_version := gas_feature_version |}.

(** ** Putting two outputs together *)

(** [BTreeMap::extend] and [BTreeSet::extend] *)
Definition extend {K V} `{Countable K} (base other : gmap K V) : gmap K V := other ∪ base.

Definition squash_table_change_sets (base other : TableChangeSet) : TableChangeSet :=
  let tables := extend (new_tables base) (new_tables other) in
  {| new_tables := foldr delete tables (elements (removed_tables base));
     removed_tables := removed_tables base ∪ removed_tables other;
     table_changes :=
       foldl (fun changes x =>
                let my_changes := default {| entries := ∅ |} (changes !! x.1) in
                <[x.1 := {| entries := extend (entries my_changes) (entries x.2) |}]> changes)
         (table_changes base) (btree_iter handle_leb (table_changes other)) |}.

Definition SessionOutput_squash (self other : SessionOutput) : comp VMStatus SessionOutput :=
  change_set ← lift (ok_or (squash_move (out_change_set self) (out_change_set other))
                       (VMStatus_Error DATA_FORMAT_ERROR));
  let tables := squash_table_change_sets (table_change_set self) (table_change_set other) in
  aggregators ← AggregatorContext.squash id_leb into_vm_status (aggregator_change_set self)
                  (aggregator_change_set other);
  Return {| out_change_set := change_set;
            out_move_events := out_move_events self ++ out_move_events other;
            table_change_set := tables;
            aggregator_change_set := aggregators |}.

(** ** What is at each key *)

(** The write of an operation that creates, changes or removes what is at a key; a new resource
    is written as a modification below feature version 3. *)
Inductive written (creates : bool) : Op -> WriteOp -> Prop :=
  | written_new data : creates = true -> written creates (New data) (Creation data)
  | written_new_before data : creates = false -> written creates (New data) (Modification data)
  | written_modify data : written creates (Modify data) (Modification data)
  | written_remove : written creates Remove Deletion.

(** The write that an output leaves at a key. *)
Inductive change_at (self : SessionOutput) (v : Z) : StateKey -> WriteOp -> Prop :=
  | at_resource addr acc tag op w :
      out_change_set self !! addr = Some acc -> resources acc !! tag = Some op ->
      written (bool_decide (3 <= v)%Z) op w ->
      change_at self v (resource_key addr tag) w
  | at_module addr acc name op w :
      out_change_set self !! addr = Some acc -> modules acc !! name = Some op ->
      written true op w -> change_at self v (module_key addr name) w
  | at_table handle change key op w :
      table_changes (table_change_set self) !! handle = Some change ->
      entries change !! key = Some op ->
      written true op w -> change_at self v (table_item handle key) w
  | at_write handle key value data :
      aggregator_change_set self !! (handle, key) = Some (Write value) ->
      serialize value = Some data ->
      change_at self v (table_item handle (to_vec key)) (Modification data)
  | at_delete handle key :
      aggregator_change_set self !! (handle, key) = Some Delete ->
      change_at self v (table_item handle (to_vec key)) Deletion.

Definition delta_at (self : SessionOutput) (k : StateKey) (d : DeltaOp) : Prop :=
  exists handle key, aggregator_change_set self !! (handle, key) = Some (Merge d) /\
    k = table_item handle (to_vec key).

Lemma written_unique b op w w' : written b op w -> written b op w' -> w = w'.
Proof. intros [] Hw; inversion Hw; congruence. Qed.

Lemma resource_op_written v op : written (bool_decide (3 <= v)%Z) op (resource_op v op).
Proof.
  destruct op as [data|data|]; simpl; [|constructor..].
  destruct (Z.ltb_spec v 3); [apply written_new_before|apply written_new]; case_bool_decide; lia || done.
Qed.
Lemma module_op_written op : written true op (module_op op).
Proof. destruct op; by constructor. Qed.
Lemma value_op_written op : written true op (value_op op).
Proof. destruct op; by constructor. Qed.

(** The keys of different things are different. *)
Class StateKeyLaws : Prop := {
  resource_key_inj :: Inj2 eq eq eq resource_key;
  module_key_inj :: Inj2 eq eq eq module_key;
  table_item_inj :: Inj2 eq eq eq table_item;
  to_vec_inj :: Inj eq eq to_vec;
  resource_not_module a t b n : resource_key a t <> module_key b n;
  resource_not_table a t h k : resource_key a t <> table_item h k;
  module_not_table a n h k : module_key a n <> table_item h k;
}.

(** No table item is an aggregator. *)
Definition separate (self : SessionOutput) : Prop :=
  forall handle key agg change, aggregator_change_set self !! (handle, key) = Some agg ->
    table_changes (table_change_set self) !! handle = Some change ->
    entries change !! to_vec key = None.

(** A map that holds writes of [P], and something at the keys of [Q]. *)
Definition holds {A} (P : StateKey -> A -> Prop) (Q : StateKey -> Prop) (ws : gmap StateKey A) : Prop :=
  (forall k op, ws !! k = Some op -> P k op) /\ (forall k, Q k -> is_Some (ws !! k)).

Lemma holds_insert {A} (P : StateKey -> A -> Prop) (Q Q' : StateKey -> Prop) ws k op :
  holds P Q ws -> P k op -> (forall k', Q' k' -> k' = k \/ Q k') -> holds P Q' (<[k := op]> ws).
Proof.
  intros [HP HQ] Hk HQ'. split.
  - intros k' op'. destruct (decide (k' = k)) as [->|Hne].
    + rewrite lookup_insert_eq. by intros [= <-].
    + rewrite lookup_insert_ne by done. apply HP.
  - intros k' [->|Hq]%HQ'; [by rewrite lookup_insert_eq|].
    destruct (decide (k' = k)) as [->|Hne]; [by rewrite lookup_insert_eq|].
    rewrite lookup_insert_ne by done. by apply HQ.
Qed.

(** A loop that inserts: [Q'] are the keys that it is to insert. *)
Lemma holds_foldl {A B} (P : StateKey -> A -> Prop) (step : gmap StateKey A -> B -> gmap StateKey A)
  (Q' : B -> StateKey -> Prop) (l : list B) : forall (Q : StateKey -> Prop) ws,
  (forall x ws Q, x ∈ l -> holds P Q ws -> holds P (fun k => Q k \/ Q' x k) (step ws x)) ->
  holds P Q ws -> holds P (fun k => Q k \/ exists x, x ∈ l /\ Q' x k) (foldl step ws l).
Proof.
  induction l as [|x l IH]; intros Q ws Hstep Hws; simpl.
  - destruct Hws as [HP HQ]. split; [done|]. intros k [Hk|(x & []%elem_of_nil & _)]. by apply HQ.
  - destruct (IH (fun k => Q k \/ Q' x k) (step ws x)) as [HP HQ].
    + intros y ws' Q0 Hy. apply Hstep. by right.
    + apply Hstep; [by left|done].
    + split; [done|]. intros k Hk. apply HQ. destruct Hk as [Hk|(y & [->|Hy]%elem_of_cons & Hk)];
        [by left; left|by left; right|right; by exists y].
Qed.

Lemma holds_mono {A} (P : StateKey -> A -> Prop) (Q Q' : StateKey -> Prop) ws :
  holds P Q ws -> (forall k, Q' k -> Q k) -> holds P Q' ws.
Proof. intros [HP HQ] Hq. split; [done|]. auto. Qed.

Lemma holds_insert_ops {K} `{Countable K} (P : StateKey -> WriteOp -> Prop) (Q : StateKey -> Prop)
  (le : K -> K -> Prop) `{!RelDecision le} (key : K -> StateKey) (op : Op -> WriteOp)
  (m : gmap K Op) ws :
  (forall k o, m !! k = Some o -> P (key k) (op o)) -> holds P Q ws ->
  holds P (fun k => Q k \/ exists x, is_Some (m !! x) /\ k = key x)
    (insert_ops key op (btree_iter le m) ws).
Proof.
  intros Hm Hws. unfold insert_ops.
  eapply holds_mono; [apply (holds_foldl P _ (fun x k => k = key x.1) _ Q); [|done]|].
  - intros [x o] ws' Q' Hx Hws'. eapply holds_insert; [done|apply Hm; by apply btree_iter_elem in Hx|].
    simpl. intros k' [?| ->]; auto.
  - intros k [Hk|(x & [o Hx] & ->)]; [by left|right]. exists (x, o).
    split; [by apply btree_iter_elem|done].
Qed.

(** The keys of the changes of an output. *)
Definition account_key (x : AccountAddress * AccountChangeSet) (k : StateKey) : Prop :=
  (exists tag, is_Some (resources x.2 !! tag) /\ k = resource_key x.1 tag) \/
  (exists name, is_Some (modules x.2 !! name) /\ k = module_key x.1 name).
Definition table_key (x : TableHandle * TableChange) (k : StateKey) : Prop :=
  exists key, is_Some (entries x.2 !! key) /\ k = table_item x.1 key.
Definition aggregator_key (is_delta : bool)
  (x : (TableHandle * AccountAddress) * AggregatorChange) (k : StateKey) : Prop :=
  k = table_item x.1.1 (to_vec x.1.2) /\
  match x.2 with Merge _ => is_delta = true | _ => is_delta = false end.

Lemma holds_accounts self v (Q : StateKey -> Prop) ws :
  holds (change_at self v) Q ws ->
  holds (change_at self v)
    (fun k => Q k \/ exists x, x ∈ btree_iter addr_leb (out_change_set self) /\ account_key x k)
    (foldl (insert_account v) ws (btree_iter addr_leb (out_change_set self))).
Proof.
  apply holds_foldl. intros [addr acc] ws' Q' Hx Hws'. apply btree_iter_elem in Hx.
  eapply holds_mono.
  - apply holds_insert_ops; [intros; by eapply at_module, module_op_written|].
    apply holds_insert_ops; [intros; by eapply at_resource, resource_op_written|done].
  - unfold account_key. simpl. tauto.
Qed.

Lemma holds_tables self v (Q : StateKey -> Prop) ws :
  holds (change_at self v) Q ws ->
  holds (change_at self v)
    (fun k => Q k \/ exists x,
       x ∈ btree_iter handle_leb (table_changes (table_change_set self)) /\ table_key x k)
    (foldl insert_table ws (btree_iter handle_leb (table_changes (table_change_set self)))).
Proof.
  apply holds_foldl. intros [handle change] ws' Q' Hx Hws'. apply btree_iter_elem in Hx.
  apply holds_insert_ops; [intros; by eapply at_table, value_op_written|done].
Qed.

Lemma holds_aggregators self v l : forall (Q QD : StateKey -> Prop) ws ds ws' ds',
  (forall x, x ∈ l -> aggregator_change_set self !! x.1 = Some x.2) ->
  insert_aggregators l ws ds = Return (ws', ds') ->
  holds (change_at self v) Q ws -> holds (delta_at self) QD ds ->
  holds (change_at self v) (fun k => Q k \/ exists x, x ∈ l /\ aggregator_key false x k) ws' /\
  holds (delta_at self) (fun k => QD k \/ exists x, x ∈ l /\ aggregator_key true x k) ds'.
Proof.
  induction l as [|[[handle key] c] l IH]; intros Q QD ws ds ws' ds' Hl; cbn [insert_aggregators].
  { intros [= <- <-] Hws Hds. split; eapply holds_mono; try done;
      intros k [?|(x & []%elem_of_nil & _)]; done. }
  pose proof (Hl _ (list_elem_of_here _ _)) as Hc. simpl in Hc.
  assert (Hl' : forall x, x ∈ l -> aggregator_change_set self !! x.1 = Some x.2)
    by (intros x Hx; apply Hl; by right).
  assert (Hmono : forall A (P : StateKey -> A -> Prop) (Q Q' : StateKey -> Prop) b m,
    holds P (fun k => Q' k \/ exists x, x ∈ l /\ aggregator_key b x k) m ->
    (forall k, Q k \/ aggregator_key b (handle, key, c) k -> Q' k) ->
    holds P (fun k => Q k \/ exists x, x ∈ (handle, key, c) :: l /\ aggregator_key b x k) m).
  { intros A P Q0 Q' b m Hm Hq. eapply holds_mono; [done|]. simpl.
    intros k [Hk|(x & [->|Hx]%elem_of_cons & Hk)]; [left; auto|left; auto|right; by exists x]. }
  destruct c as [value|d|]; intros Hr Hws Hds.
  - apply comp_bind_Return in Hr as (data & Hs & Hr).
    destruct (serialize value) as [data'|] eqn:Hv; [|done]. injection Hs as ->.
    destruct (IH (fun k => Q k \/ k = table_item handle (to_vec key)) QD _ _ _ _ Hl' Hr) as [Hw' Hd'];
      [eapply holds_insert; [done|by eapply at_write|tauto]|done|].
    split; [eapply Hmono; [exact Hw'|]|eapply Hmono; [exact Hd'|]];
      unfold aggregator_key; simpl; intros k [Hk|[-> Hb]]; try done; auto.
  - destruct (IH Q (fun k => QD k \/ k = table_item handle (to_vec key)) _ _ _ _ Hl' Hr) as [Hw' Hd'];
      [done|eapply holds_insert; [done|by exists handle, key|tauto]|].
    split; [eapply Hmono; [exact Hw'|]|eapply Hmono; [exact Hd'|]];
      unfold aggregator_key; simpl; intros k [Hk|[-> Hb]]; try done; auto.
  - destruct (IH (fun k => Q k \/ k = table_item handle (to_vec key)) QD _ _ _ _ Hl' Hr) as [Hw' Hd'];
      [eapply holds_insert; [done|by eapply at_delete|tauto]|done|].
    split; [eapply Hmono; [exact Hw'|]|eapply Hmono; [exact Hd'|]];
      unfold aggregator_key; simpl; intros k [Hk|[-> Hb]]; try done; auto.
Qed.

Context `{!StateKeyLaws}.

(** The keys of different changes, told apart. *)
Ltac keys :=
  repeat match goal with
  | E : resource_key _ _ = resource_key _ _ |- _ => apply (inj2 resource_key) in E as [? ?]; subst
  | E : module_key _ _ = module_key _ _ |- _ => apply (inj2 module_key) in E as [? ?]; subst
  | E : table_item _ _ = table_item _ _ |- _ => apply (inj2 table_item) in E as [? ?]; subst
  | E : to_vec _ = to_vec _ |- _ => apply (inj to_vec) in E; subst
  | E : resource_key _ _ = module_key _ _ |- _ => destruct (resource_not_module _ _ _ _ E)
  | E : module_key _ _ = resource_key _ _ |- _ => destruct (resource_not_module _ _ _ _ (eq_sym E))
  | E : resource_key _ _ = table_item _ _ |- _ => destruct (resource_not_table _ _ _ _ E)
  | E : table_item _ _ = resource_key _ _ |- _ => destruct (resource_not_table _ _ _ _ (eq_sym E))
  | E : module_key _ _ = table_item _ _ |- _ => destruct (module_not_table _ _ _ _ E)
  | E : table_item _ _ = module_key _ _ |- _ => destruct (module_not_table _ _ _ _ (eq_sym E))
  end.

(** There is one operation at a key, and a delta only where there is none. *)
Lemma change_at_unique self v k op op' :
  separate self -> change_at self v k op -> change_at self v k op' -> op = op'.
Proof.
  intros Hsep Ho Ho'.
  destruct Ho as [? ? ? ? ? Ha Ht|? ? ? ? ? Ha Hm|? ? ? ? ? Hc He|? ? ? ? Hw Hs|? ? Hd];
    inversion Ho' as [? ? ? ? ? Ha' Ht'|? ? ? ? ? Ha' Hm'|? ? ? ? ? Hc' He'|? ? ? ? Hw' Hs'|? ? Hd'];
    subst; keys; simplify_eq; try done; try by eapply written_unique.
  all:
    match goal with
    | Hagg : aggregator_change_set _ !! _ = Some _, Htab : table_changes _ !! _ = Some _ |- _ =>
        pose proof (Hsep _ _ _ _ Hagg Htab); congruence
    end.
Qed.

Lemma delta_at_unique self k d d' : delta_at self k d -> delta_at self k d' -> d = d'.
Proof. intros (h & key & Hd & ->) (h' & key' & Hd' & E). keys. congruence. Qed.

Lemma change_not_delta self v k op d : separate self ->
  change_at self v k op -> delta_at self k d -> False.
Proof.
  intros Hsep Ho (h & key & Hagg & ->).
  inversion Ho as [? ? ? ? ? Ha Ht|? ? ? ? ? Ha Hm|? ? ? ? ? Hc He|? ? ? ? Hw Hs|? ? Hd]; keys;
    try congruence.
  pose proof (Hsep _ _ _ _ Hagg Hc). congruence.
Qed.

(** A map that holds the writes of a relation with one write at a key, at all keys of the
    relation, is the relation. *)
Lemma holds_exact {A} (P : StateKey -> A -> Prop) (Q : StateKey -> Prop) ws k op :
  (forall k op op', P k op -> P k op' -> op = op') -> (forall k op, P k op -> Q k) ->
  holds P Q ws -> ws !! k = Some op <-> P k op.
Proof.
  intros Hu Hq [HP HQ]. split; [apply HP|]. intros Hk.
  destruct (HQ k (Hq _ _ Hk)) as [op' Hop]. by rewrite Hop, (Hu _ _ _ (HP _ _ Hop) Hk).
Qed.

Lemma change_set_keys (self : SessionOutput) (v : Z) (cs : ChangeSetExt) :
  (forall ws ws', freeze ws = Some ws' -> ws' = ws) -> separate self ->
  SessionOutput_into_change_set self v = Return cs ->
  (forall k op, write_set (change_set cs) !! k = Some op <-> change_at self v k op) /\
  (forall k d, delta_change_set cs !! k = Some d <-> delta_at self k d) /\
  (forall k, is_Some (delta_change_set cs !! k) -> write_set (change_set cs) !! k = None) /\
  mapM contract_event (out_move_events self) = Some (events (change_set cs)).
Proof.
  intros Hfreeze Hsep. unfold SessionOutput_into_change_set.
  intros ([ws ds] & Hagg & Hr)%comp_bind_Return.
  apply comp_bind_Return in Hr as (ws' & Hf & (ev & Hev & (u & _ & [= <-])%comp_bind_Return)%comp_bind_Return).
  destruct (freeze ws) as [ws''|] eqn:Hws; [|done]. injection Hf as <-. apply Hfreeze in Hws as ->.
  destruct (mapM contract_event (out_move_events self)) as [ev'|] eqn:Hm; [|done].
  injection Hev as <-. cbn [change_set write_set delta_change_set events].
  assert (Hnil : forall A (P : StateKey -> A -> Prop), holds P (fun _ => False) ∅).
  { intros A P. split; [intros k op Hk; by rewrite lookup_empty in Hk|done]. }
  destruct (holds_aggregators self v _ _ _ _ _ _ _
    (fun x Hx => ltac:(destruct x; by apply btree_iter_elem in Hx)) Hagg
    (holds_tables self v _ _ (holds_accounts self v _ ∅ (Hnil _ _))) (Hnil _ _)) as [Hw Hd].
  assert (Hws : forall k op, ws !! k = Some op <-> change_at self v k op).
  { intros k op. eapply holds_exact; [intros; by eapply change_at_unique| |exact Hw].
    clear -Hsep. intros k op Ho.
    destruct Ho as [addr acc tag o w Ha Ht|addr acc name o w Ha Hm|h c key o w Hc He|h key x b Hg _|h key Hg].
    - left; left; right. exists (addr, acc). split; [by apply btree_iter_elem|]. left. by eexists.
    - left; left; right. exists (addr, acc). split; [by apply btree_iter_elem|]. right. by eexists.
    - left; right. exists (h, c). split; [by apply btree_iter_elem|]. by eexists.
    - right. exists (h, key, Write x). split; [by apply btree_iter_elem|done].
    - right. exists (h, key, Delete). split; [by apply btree_iter_elem|done]. }
  assert (Hds : forall k d, ds !! k = Some d <-> delta_at self k d).
  { intros k d. eapply holds_exact; [intros; by eapply delta_at_unique| |exact Hd].
    intros k' d' (h & key & Hg & ->). right. exists (h, key, Merge d').
    split; [by apply btree_iter_elem|done]. }
  split; [done|]. split; [done|]. split; [|done].
  intros k [d Hk%Hds]. destruct (ws !! k) as [op|] eqn:Hk'; [|done]. apply Hws in Hk'.
  by destruct (change_not_delta _ _ _ _ _ Hsep Hk' Hk).
Qed.

(** C17. The change set of a session has, at each key, exactly the write of the change that was
    made there: of a resource, a module, a table item, or an aggregator that was written or
    deleted.  What is new is created, what is modified modified and what is removed deleted, with
    the same data; but a new resource is a modification below feature version 3.  Its deltas are
    exactly those of the other aggregators, no key has both, and its events are those of the
    session. *)
Theorem into_change_set_exact_keys (self : SessionOutput) (v : Z) (cs : ChangeSetExt) :
  (forall ws ws', freeze ws = Some ws' -> ws' = ws) -> separate self ->
  SessionOutput_into_change_set self v = Return cs ->
  (forall k op, write_set (change_set cs) !! k = Some op <-> change_at self v k op) /\
  (forall k d, delta_change_set cs !! k = Some d <-> delta_at self k d) /\
  (forall k, is_Some (delta_change_set cs !! k) -> write_set (change_set cs) !! k = None) /\
  mapM contract_event (out_move_events self) = Some (events (change_set cs)).
Proof. apply change_set_keys. Qed.

(** ** Squashed tables *)

Lemma squash_changes_lookup (l : list (TableHandle * TableChange)) : forall (base : gmap TableHandle TableChange) handle,
  NoDup l.*1 ->
  foldl (fun (changes : gmap TableHandle TableChange) x =>
           let my_changes := default {| entries := ∅ |} (changes !! x.1) in
           <[x.1 := {| entries := extend (entries my_changes) (entries x.2) |}]> changes)
    base l !! handle =
  match (list_to_map l : gmap TableHandle TableChange) !! handle with
  | Some c => Some {| entries := extend (entries (default {| entries := ∅ |} (base !! handle))) (entries c) |}
  | None => base !! handle
  end.
Proof.
  induction l as [|[h c] l IH]; intros base handle Hnd; simpl; [by rewrite lookup_empty|].
  apply NoDup_cons in Hnd as [Hh Hnd]. rewrite IH by done. simpl.
  destruct (decide (h = handle)) as [<-|Hne].
  - rewrite !lookup_insert_eq, (proj1 (not_elem_of_list_to_map _ _) Hh). done.
  - by rewrite !lookup_insert_ne.
Qed.

(** The squashed change set has the last operation of each item. *)
Lemma squash_tables_last (base other : TableChangeSet) handle key :
  (change ← table_changes (squash_table_change_sets base other) !! handle;
   entries change !! key) =
  match change ← table_changes other !! handle; entries change !! key with
  | Some op => Some op
  | None => change ← table_changes base !! handle; entries change !! key
  end.
Proof.
  unfold squash_table_change_sets. cbn [table_changes].
  rewrite squash_changes_lookup by apply btree_iter_NoDup. rewrite (list_to_map_btree handle_leb).
  destruct (table_changes other !! handle) as [c|]; simpl; [|done]. unfold extend.
  rewrite lookup_union. destruct (entries c !! key) as [op|]; simpl;
    destruct (table_changes base !! handle) as [c'|]; simpl; try done;
    rewrite ?lookup_empty; try done; by destruct (entries c' !! key).
Qed.
End Session.

Module SessionExample.
#[local] Existing Instance LittleEndian.le_bcs.

(** Keys are resources, modules and table items of accounts and tables that are numbers. *)
Abbreviation Key := (nat * (nat * bytes))%type.
Definition resource_key (a : nat) (t : Z) : Key := (0%nat, (a, [t])).
Definition module_key (a : nat) (n : Z) : Key := (1%nat, (a, [n])).
Definition table_item (h : nat) (k : bytes) : Key := (2%nat, (h, k)).
Definition to_vec (a : nat) : bytes := [Z.of_nat a].
Definition any {A} (_ _ : A) : Prop := True.
#[export] Instance any_dec {A} : RelDecision (@any A) := fun _ _ => left I.

(** A new resource, a new table item, a delta and a deleted aggregator. *)
Definition out : SessionOutput (AccountAddress := nat) (Identifier := Z) (StructTag := Z)
  (TableHandle := nat) (TableInfo := unit) (MoveEvent := Z) :=
  {| out_change_set := {[1%nat := {| modules := ∅; resources := {[5 := New [7]]} |}]};
     out_move_events := [3];
     table_change_set := {| new_tables := {[9%nat := ()]}; removed_tables := ∅;
                            table_changes := {[9%nat := {| entries := {[ [1] := New [2] ]} |}]} |};
     aggregator_change_set :=
       {[(8%nat, 1%nat) := Merge (delta_add 3 10); (8%nat, 2%nat) := Delete]} |}.

Abbreviation into_change_set := (SessionOutput_into_change_set (ContractEvent := Z) any any any any any
  any resource_key module_key table_item to_vec Some (fun _ _ _ => Ok tt) Some).

#[local] Instance keys_ok : StateKeyLaws resource_key module_key table_item to_vec.
Proof.
  split; try done.
  - by intros a t a' t' [= -> ->].
  - by intros a t a' t' [= -> ->].
  - by intros h k h' k' [= -> ->].
  - intros a a' [= E]. lia.
Qed.

Lemma out_separate : separate to_vec out.
Proof.
  intros handle key agg change Ha Hc. cbn in Hc. apply lookup_singleton_Some in Hc as [<- <-].
  cbn [aggregator_change_set out] in Ha.
  by apply lookup_insert_Some in Ha as [[[= <- _] _]|[_ [[= <- _] _]%lookup_singleton_Some]].
Qed.

Lemma into_change_set_exact_keys_witness :
  exists cs, into_change_set out 2 = Return cs /\
    write_set (change_set cs) !! resource_key 1 5 = Some (Modification [7]) /\
    delta_change_set cs !! table_item 8 [1] = Some (delta_add 3 10).
Proof.
  assert (Hr : match into_change_set out 2 with Return _ => True | _ => False end)
    by (vm_compute; exact I).
  destruct (into_change_set out 2) as [cs|e|] eqn:Hcs; [clear Hr|done..].
  exists cs. split; [reflexivity|].
  destruct (into_change_set_exact_keys any any any any any any resource_key module_key table_item to_vec
    Some (fun _ _ _ => Ok tt) Some out 2 cs ltac:(congruence) out_separate Hcs) as (Hw & Hd & _).
  split.
  - apply Hw. eapply at_resource; [apply lookup_singleton_eq..|by apply written_new_before].
  - apply Hd. by exists 8%nat, 1%nat.
Defined.

(** A table that the first session makes and the second removes is still among the new tables
    after the squash: the removed tables of the second are added after the loop. *)
Lemma squash_keeps_removed_table :
  let base := {| new_tables := {[9%nat := ()]}; removed_tables := ∅; table_changes := ∅ |} in
  let other := {| new_tables := ∅; removed_tables := {[9%nat]}; table_changes := ∅ |} in
  let squashed := squash_table_change_sets Nat.le base other in
  new_tables squashed !! 9%nat = Some () /\ 9%nat ∈ removed_tables squashed.
Proof. split; [reflexivity|]. apply elem_of_union. right. by apply elem_of_singleton. Qed.
End SessionExample.
