(* ===== verification/Publish.v ===== *)
(** * Publishing code ([framework/src/natives/code.rs], [aptos-vm/src/aptos_vm.rs])

    [native_request_publish] remembers, in the context of a transaction, which bundle is to be
    published and what it may contain; after the transaction has run, the VM checks the bundle
    against the request.  The native takes the values that the code pops from its Move
    arguments. *)
From S2P Require Import Prelude GasSchedule GasSize.

#[local] Open Scope Z_scope.

(** [EALREADY_REQUESTED], and [CHECK_COMPAT_POLICY]. *)
Definition EALREADY_REQUESTED : Z := 0x030000.
Definition CHECK_COMPAT_POLICY : Z := 1.

Section Publish.
Context {AccountAddress : Type} `{Countable AccountAddress}.
Abbreviation ModuleId := (AccountAddress * string)%type.
Abbreviation AllowedDeps := (gmap AccountAddress (gset string)).

Record PublishRequest := {
  destination : AccountAddress;
  bundle : list bytes;
  expected_modules : gset string;
  allowed_deps : option AllowedDeps;
  check_compat : bool;
}.

(** ** The native *)

Record RequestPublishGasParameters := { base : Z; per_byte : Z }.

(** [allowed_deps.entry(account).or_default().insert(module_name)] *)
Definition allow (allowed_deps : AllowedDeps) (dep : ModuleId) : AllowedDeps :=
  <[dep.1 := {[dep.2]} ∪ default ∅ (allowed_deps !! dep.1)]> allowed_deps.

Section Native.
Context `{GasAlgebra}.

(** [iter().fold(NumBytes::new(0), |acc, x| acc + f(x))] *)
Definition sum_bytes {A} (f : A -> Z) (l : list A) : Z := foldl (fun acc x => acc + f x)%gas 0 l.
Definition str_bytes (s : string) : Z := num_args (String.length s).

Definition request_cost (gas_params : RequestPublishGasParameters) (code : list bytes)
  (expected_modules : gset string) (allowed_deps : AllowedDeps) : Z :=
  (base gas_params
   + per_byte gas_params * sum_bytes (fun m => num_args (length m)) code
   + per_byte gas_params * sum_bytes str_bytes (elements expected_modules)
   + per_byte gas_params *
       foldl (fun acc deps => acc + 32 + sum_bytes str_bytes (elements deps))%gas 0
         (map_to_list allowed_deps).*2)%gas.

(** [native_request_publish]: the cost, the abort code if there is one, and the request that the
    context holds afterwards. *)
Definition native_request_publish (gas_params : RequestPublishGasParameters)
  (requested_module_bundle : option PublishRequest) (policy : Z) (code : list bytes)
  (deps : option (list ModuleId)) (names : list string) (destination : AccountAddress)
  : (Z * option Z) * option PublishRequest :=
  let allowed_deps := foldl allow ∅ <$> deps in
  let expected_modules := list_to_set names : gset string in
  let cost := request_cost gas_params code expected_modules (default ∅ allowed_deps) in
  (* Add own modules to allowed deps *)
  let allowed_deps := (fun allowed : AllowedDeps =>
    <[destination := expected_modules ∪ default ∅ (allowed !! destination)]> allowed)
      <$> allowed_deps in
  match requested_module_bundle with
  | Some _ => (* Can't request second time. *)
      ((cost, Some EALREADY_REQUESTED), requested_module_bundle)
  | None =>
      ((cost, None),
       Some {| destination := destination; bundle := code;
               expected_modules := expected_modules; allowed_deps := allowed_deps;
               check_compat := (policy =? CHECK_COMPAT_POLICY) |})
  end.
End Native.

(** ** The validation of a bundle *)

(** [CompiledModule] of the Move binary format. *)
Context {CompiledModule : Type} (deserialize : bytes -> option CompiledModule).
Context (self_id : CompiledModule -> ModuleId).
Context (immediate_dependencies : CompiledModule -> list ModuleId).

(** [AptosVM::deserialize_module_bundle] *)
Fixpoint deserialize_module_bundle (modules : list bytes) : PartialVMResult (list CompiledModule) :=
  match modules with
  | [] => Ok []
  | module_blob :: modules =>
      match deserialize module_blob with
      | Some module => result ← deserialize_module_bundle modules; Ok (module :: result)
      | None => Err {| status := CODE_DESERIALIZATION_ERROR; sub_status := None |}
      end
  end.

Definition metadata_validation_error : PartialVMError :=
  {| status := CONSTRAINT_NOT_SATISFIED; sub_status := None |}.

(** The test of one dependency: an empty name allows all modules of an address. *)
Definition dep_allowed (allowed : AllowedDeps) (dep : ModuleId) : bool :=
  match allowed !! dep.1 with
  | Some modules => bool_decide (""%string ∈ modules) || bool_decide (dep.2 ∈ modules)
  | None => false
  end.

(** [AptosVM::validate_publish_request] *)
Fixpoint validate_publish_request (modules : list CompiledModule) (expected_modules : gset string)
  (allowed_deps : option AllowedDeps) : PartialVMResult unit :=
  match modules with
  | [] =>
      if bool_decide (expected_modules = ∅) then Ok tt else Err metadata_validation_error
  | m :: modules =>
      if bool_decide ((self_id m).2 ∈ expected_modules) then
        if match allowed_deps with
           | Some allowed => forallb (dep_allowed allowed) (immediate_dependencies m)
           | None => true
           end
        then validate_publish_request modules (expected_modules ∖ {[(self_id m).2]}) allowed_deps
        else Err metadata_validation_error
      else Err metadata_validation_error
  end.

(** ** What is allowed *)

Definition deps_ok (allowed_deps : option AllowedDeps) (m : CompiledModule) : Prop :=
  forall allowed dep, allowed_deps = Some allowed -> dep ∈ immediate_dependencies m ->
    dep_allowed allowed dep = true.

Lemma deps_decided allowed_deps m :
  match allowed_deps with
  | Some allowed => forallb (dep_allowed allowed) (immediate_dependencies m)
  | None => true
  end = true <-> deps_ok allowed_deps m.
Proof.
  unfold deps_ok. destruct allowed_deps as [allowed|]; [|by split].
  rewrite forallb_forall. split.
  - intros Hall a dep [= <-] Hin. apply Hall. by apply list_elem_of_In.
  - intros Hall dep Hin. apply Hall; [done|]. by apply list_elem_of_In.
Qed.

Lemma validate_exact modules : forall expected allowed_deps,
  validate_publish_request modules expected allowed_deps = Ok tt <->
  NoDup ((fun m => (self_id m).2) <$> modules) /\
  list_to_set ((fun m => (self_id m).2) <$> modules) = expected /\
  Forall (deps_ok allowed_deps) modules.
Proof.
  induction modules as [|m modules IH]; intros expected allowed_deps; cbn [validate_publish_request].
  { case_bool_decide as He; [subst; split; [by repeat constructor|done]|].
    split; [done|]. by intros (_ & <- & _). }
  rewrite fmap_cons, NoDup_cons, Forall_cons. set (name := (self_id m).2).
  set (names := (fun m => (self_id m).2) <$> modules) in *.
  assert (Hdeps : match allowed_deps with
      | Some allowed => forallb (dep_allowed allowed) (immediate_dependencies m)
      | None => true end = true <-> deps_ok allowed_deps m) by apply deps_decided.
  case_bool_decide as Hin.
  2: { split; [done|]. intros (_ & <- & _). destruct Hin. set_solver. }
  destruct (match allowed_deps with Some _ => _ | None => true end).
  2: { split; [done|]. intros (_ & _ & Hok & _). by apply Hdeps in Hok. }
  rewrite IH. split.
  - intros (Hnd & Heq & Hall). split; [split; [|done]|].
    + intros Hn. apply (elem_of_list_to_set (C := gset string)) in Hn. set_solver.
    + split; [|split; [by apply Hdeps|done]]. cbn [list_to_set]. rewrite Heq.
      apply set_eq. intros x. destruct (decide (x = name)); set_solver.
  - intros ([Hn Hnd] & <- & _ & Hall). split; [done|]. split; [|done]. cbn [list_to_set].
    apply (not_elem_of_list_to_set (C := gset string)) in Hn. set_solver.
Qed.

(** ** Properties *)

(** The dependencies that a request with [deps] allows: the names it lists, those of the
    address whose empty name it lists, and the modules it publishes itself. *)
Definition dep_requested (deps : list ModuleId) (names : list string)
  (destination : AccountAddress) (dep : ModuleId) : Prop :=
  dep ∈ deps \/ (dep.1, ""%string) ∈ deps \/
  dep.1 = destination /\ (dep.2 ∈ names \/ ""%string ∈ names).

(** The names that are allowed at an address. *)
Definition names_at (allowed : AllowedDeps) (a : AccountAddress) : gset string :=
  default ∅ (allowed !! a).

Lemma dep_allowed_names allowed dep :
  dep_allowed allowed dep = true <->
  ""%string ∈ names_at allowed dep.1 \/ dep.2 ∈ names_at allowed dep.1.
Proof.
  unfold dep_allowed, names_at. destruct (allowed !! dep.1) as [names|]; simpl.
  - by rewrite orb_true_iff, !bool_decide_eq_true.
  - split; [done|]. by intros [?%elem_of_empty|?%elem_of_empty].
Qed.

Lemma names_at_insert allowed a b (names : gset string) :
  names_at (<[a := names]> allowed) b = if decide (a = b) then names else names_at allowed b.
Proof.
  unfold names_at. destruct (decide (a = b)) as [<-|Hne];
    [by rewrite lookup_insert_eq|by rewrite lookup_insert_ne].
Qed.

Lemma allow_names l : forall allowed a n,
  n ∈ names_at (foldl allow allowed l) a <-> (a, n) ∈ l \/ n ∈ names_at allowed a.
Proof.
  induction l as [|[b s] l IH]; intros allowed a n; simpl.
  { split; [by right|]. by intros [?%elem_of_nil|]. }
  rewrite IH, elem_of_cons. unfold allow. simpl. fold (names_at allowed b).
  rewrite names_at_insert. destruct (decide (b = a)) as [->|Hne].
  - rewrite elem_of_union, elem_of_singleton. split; [intros [?|[->|?]]; auto|].
    intros [[[= ->]|?]|?]; auto.
  - split; [intros [?|?]; auto|]. intros [[[= -> _]|?]|?]; auto. done.
Qed.

(** C26. A bundle passes the validation against the request that the native made for it exactly
    when its modules are those that were registered, each once, and every dependency of a module
    is one that the request lists, or is in an address of which it lists the empty name, or is a
    module of the bundle's own address that was registered; without a list every dependency
    passes. *)
Theorem request_validates_exactly `{GasAlgebra} gas_params policy code
  (deps : option (list ModuleId)) names (destination : AccountAddress) cost r modules :
  native_request_publish gas_params None policy code deps names destination = (cost, Some r) ->
  validate_publish_request modules (expected_modules r) (allowed_deps r) = Ok tt <->
  NoDup ((fun m => (self_id m).2) <$> modules) /\
  (forall n, n ∈ (fun m => (self_id m).2) <$> modules <-> n ∈ names) /\
  (forall m dep l, m ∈ modules -> dep ∈ immediate_dependencies m -> deps = Some l ->
     dep_requested l names destination dep).
Proof.
  unfold native_request_publish. intros [= _ <-]. cbn [expected_modules allowed_deps].
  rewrite validate_exact. apply and_iff_compat_l.
  assert (Hset : list_to_set ((fun m => (self_id m).2) <$> modules) =@{gset string} list_to_set names <->
    forall n, n ∈ (fun m => (self_id m).2) <$> modules <-> n ∈ names).
  { rewrite set_eq. setoid_rewrite elem_of_list_to_set. done. }
  rewrite Hset, Forall_forall. apply and_iff_compat_l. clear Hset. unfold deps_ok.
  destruct deps as [l|]; simpl; [|by split].
  assert (Hdep : forall dep, dep_allowed
    (<[destination := list_to_set names ∪ names_at (foldl allow ∅ l) destination]> (foldl allow ∅ l))
    dep = true <-> dep_requested l names destination dep).
  { intros [a n]. rewrite dep_allowed_names, names_at_insert. unfold dep_requested. simpl.
    assert (Hempty : forall n, n ∉ names_at ∅ a)
      by (intros n'; unfold names_at; rewrite lookup_empty; apply not_elem_of_empty).
    case_decide as Hd; [subst a; rewrite !elem_of_union, !elem_of_list_to_set|];
      rewrite !allow_names; naive_solver. }
  split.
  - intros Hall m dep l' Hm Hin [= <-]. apply Hdep. by eapply Hall.
  - intros Hall m Hm allowed dep [= <-] Hin. apply Hdep. by eapply Hall.
Qed.
End Publish.

Module PublishExample.
(** Modules are their names, published at address 5; module "b" uses "a" and a module of 1. *)
Definition self_id (m : string) : nat * string := (5%nat, m).
Definition dependencies (m : string) : list (nat * string) :=
  if decide (m = "b"%string) then [(5%nat, "a"%string); (1%nat, "vector"%string)] else [].

Definition request : (Z * option Z) * option (PublishRequest (AccountAddress := nat)) :=
  native_request_publish (H0 := Saturating.saturating) {| base := 7; per_byte := 2 |} None 1 [[1; 2]; [3]]
    (Some [(1%nat, ""%string)]) ["a"%string; "b"%string] 5%nat.

Lemma request_validates_exactly_witness :
  exists r, request.2 = Some r /\ request.1 = (7 + 2 * 3 + 2 * 2 + 2 * 32, None) /\
    validate_publish_request self_id dependencies ["b"%string; "a"%string] (expected_modules r)
      (allowed_deps r) = Ok tt /\
    NoDup ((fun m => (self_id m).2) <$> ["b"%string; "a"%string]).
Proof.
  destruct request as [cost [r|]] eqn:Hr; [|discriminate Hr].
  exists r. split; [reflexivity|].
  assert (Hc : cost = request.1) by (by rewrite Hr). split; [rewrite Hc; reflexivity|].
  assert (Hv : validate_publish_request self_id dependencies ["b"%string; "a"%string]
    (expected_modules r) (allowed_deps r) = Ok tt).
  { unfold request, native_request_publish in Hr. injection Hr as _ <-. vm_compute. reflexivity. }
  split; [exact Hv|].
  apply (request_validates_exactly (H0 := Saturating.saturating) self_id dependencies _ _ _ _ _ _ _ _ _ Hr).
  exact Hv.
Defined.

(** A second request is refused, and the first one stays. *)
Example second_request :
  let second := native_request_publish (H0 := Saturating.saturating) {| base := 7; per_byte := 2 |}
                  request.2 1 [] None [] 6%nat in
  second.1.2 = Some EALREADY_REQUESTED /\ second.2 = request.2.
Proof. split; reflexivity. Qed.
End PublishExample.
