(* ===== verification/MoveVM.v ===== *)
(** * The Move VM as the adapter uses it ([aptos-vm/src/move_vm_ext/], external crates)

    The Move VM and the types of transactions come from crates outside of this repository.  The
    class [MoveVM] has the operations of a session that the adapter calls; each of them is a
    program that reads the state through a view, and those that are metered also act on the gas
    meter.  This file also has the two monads in which the adapter is written, the identifiers
    of sessions and the metadata of transactions. *)
From S2P Require Import Prelude StateView GasSchedule GasSize GasMeter GasProps.
From S2P Require Import AggregatorContext Session Publish TxnArgs AdapterCommon.

#[local] Open Scope Z_scope.

(** ** Data *)

Abbreviation AccountAddress := bytes.
Abbreviation ModuleId := (bytes * string)%type.

(** [move_core_types::value::MoveValue], as far as the adapter makes it. *)
Inductive MoveValue :=
  | MSigner (a : AccountAddress)
  | MU8 (n : Z)
  | MU64 (n : Z)
  | MBytes (b : bytes)
  | MAddresses (l : list AccountAddress)
  | MBytesVector (l : list bytes)
  | MU128 (n : Z)
  | MBool (b : bool).

(** [aptos_types::transaction::ExecutionStatus] *)
Inductive ExecutionStatus (AbortInfo : Type) : Type :=
  | StatusSuccess
  | StatusOutOfGas
  | StatusMoveAbort (location : AbortLocation) (code : Z) (info : option AbortInfo)
  | StatusExecutionFailure (location : AbortLocation) (function code_offset : Z)
  | StatusMiscellaneousError (code : option StatusCode).
Arguments StatusSuccess {AbortInfo}. Arguments StatusOutOfGas {AbortInfo}.
Arguments StatusMoveAbort {AbortInfo} location code info.
Arguments StatusExecutionFailure {AbortInfo} location function code_offset.
Arguments StatusMiscellaneousError {AbortInfo} code.

(** [SessionId] of [session.rs] *)
Inductive SessionId :=
  | SessionTxn (sender : AccountAddress) (sequence_number : Z) (script_hash : bytes)
  | SessionBlockMeta (id : bytes)
  | SessionGenesis (id : bytes)
  | SessionVoid.

(** [TransactionPayload], a script with its type arguments and arguments. *)
Record Script (TypeTag TransactionArgument : Type) := {
  code : bytes;
  ty_args : list TypeTag;
  script_args : list TransactionArgument;
}.
Arguments code {TypeTag TransactionArgument} _.
Arguments ty_args {TypeTag TransactionArgument} _.
Arguments script_args {TypeTag TransactionArgument} _.

Inductive TransactionPayload (TypeTag TransactionArgument : Type) : Type :=
  | PayloadScript (s : Script TypeTag TransactionArgument)
  | PayloadEntryFunction (module_id : ModuleId) (function : string) (ty_args : list TypeTag)
      (args : list bytes)
  | PayloadModuleBundle (modules : list bytes).
Arguments PayloadScript {TypeTag TransactionArgument} s.
Arguments PayloadEntryFunction {TypeTag TransactionArgument} module_id function ty_args args.
Arguments PayloadModuleBundle {TypeTag TransactionArgument} modules.

(** A [SignedTransaction], as its accessors show it; the field [signature_ok] is what
    [check_signature] and [signature_is_valid] find. *)
Record SignedTransaction (TypeTag TransactionArgument : Type) := {
  txn_sender : AccountAddress;
  sender_authentication_key : bytes;
  secondary_signer_addresses : list AccountAddress;
  secondary_signer_keys : list bytes;
  txn_sequence_number : Z;
  txn_max_gas_amount : Z;
  txn_gas_unit_price : Z;
  raw_txn_bytes_len : nat;
  txn_expiration_timestamp_secs : Z;
  txn_chain_id : Z;
  payload : TransactionPayload TypeTag TransactionArgument;
  signature_ok : bool;
  contains_duplicate_signers : bool;
}.
Arguments txn_sender {TypeTag TransactionArgument} _.
Arguments sender_authentication_key {TypeTag TransactionArgument} _.
Arguments secondary_signer_addresses {TypeTag TransactionArgument} _.
Arguments secondary_signer_keys {TypeTag TransactionArgument} _.
Arguments txn_sequence_number {TypeTag TransactionArgument} _.
Arguments txn_max_gas_amount {TypeTag TransactionArgument} _.
Arguments txn_gas_unit_price {TypeTag TransactionArgument} _.
Arguments raw_txn_bytes_len {TypeTag TransactionArgument} _.
Arguments txn_expiration_timestamp_secs {TypeTag TransactionArgument} _.
Arguments txn_chain_id {TypeTag TransactionArgument} _.
Arguments payload {TypeTag TransactionArgument} _.
Arguments signature_ok {TypeTag TransactionArgument} _.
Arguments contains_duplicate_signers {TypeTag TransactionArgument} _.

(** [TransactionMetadata] of [transaction_metadata.rs] *)
Record TransactionMetadata := {
  sender : AccountAddress;
  authentication_key : bytes;
  secondary_signers : list AccountAddress;
  secondary_authentication_keys : list bytes;
  sequence_number : Z;
  max_gas_amount : Z;
  gas_unit_price : Z;
  transaction_size : Z;
  expiration_timestamp_secs : Z;
  chain_id : Z;
  script_hash : bytes;
  script_size : Z;
}.

Definition is_multi_agent (txn_data : TransactionMetadata) : bool :=
  negb (bool_decide (secondary_signers txn_data = [])).

Section Metadata.
Context {TypeTag TransactionArgument : Type}.
(** [HashValue::sha3_256_of(code).to_vec()] *)
Context (sha3_256_of : bytes -> bytes).

Definition TransactionMetadata_new (txn : SignedTransaction TypeTag TransactionArgument)
  : TransactionMetadata :=
  {| sender := txn_sender txn;
     authentication_key := sender_authentication_key txn;
     secondary_signers := secondary_signer_addresses txn;
     secondary_authentication_keys := secondary_signer_keys txn;
     sequence_number := txn_sequence_number txn;
     max_gas_amount := txn_max_gas_amount txn;
     gas_unit_price := txn_gas_unit_price txn;
     transaction_size := num_args (raw_txn_bytes_len txn);
     expiration_timestamp_secs := txn_expiration_timestamp_secs txn;
     chain_id := txn_chain_id txn;
     script_hash := match payload txn with
                    | PayloadScript s => sha3_256_of (code s)
                    | PayloadEntryFunction _ _ _ _ | PayloadModuleBundle _ => []
                    end;
     script_size := match payload txn with
                    | PayloadScript s => num_args (length (code s))
                    | _ => 0
                    end |}.

(** [SessionId::txn_meta] and [SessionId::txn] *)
Definition SessionId_txn_meta (txn_data : TransactionMetadata) : SessionId :=
  SessionTxn (sender txn_data) (sequence_number txn_data) (script_hash txn_data).
Definition SessionId_txn (txn : SignedTransaction TypeTag TransactionArgument) : SessionId :=
  SessionId_txn_meta (TransactionMetadata_new txn).
End Metadata.

(** ** Programs over a view with writes laid over it *)

Section OverWrites.
Context {StateKey StateViewId Usage AnyError : Type} `{Countable StateKey}.
Abbreviation View := (StateView StateKey StateViewId Usage AnyError).

(** What a program that reads [DeltaStateView::new(storage, write_set)] reads of [storage]. *)
Fixpoint over_writes {R} (write_set : gmap StateKey WriteOp) (p : ViewProg StateKey AnyError R)
  : ViewProg StateKey AnyError R :=
  match p with
  | PDone r => PDone r
  | PRead key cont =>
      match write_set !! key with
      | Some op => over_writes write_set (cont (Ok (written_value op)))
      | None => PRead key (fun v => over_writes write_set (cont v))
      end
  | PPanic => PPanic
  end.

Lemma run_over_writes {R} (view : View) ws (p : ViewProg StateKey AnyError R) :
  run_prog view (over_writes ws p) = run_prog (delta_view {| StateView.base := view; StateView.write_set := ws |}) p.
Proof.
  induction p as [r|key cont IH|]; cbn [over_writes run_prog]; [done| |done].
  cbn [get_state_value delta_view]. cbn [StateView.write_set StateView.base].
  destruct (ws !! key) as [[]|]; cbn [run_prog]; apply IH.
Qed.
End OverWrites.

(** ** The two monads of the adapter *)

Section Monads.
Context {StateKey AnyError : Type}.
Abbreviation Prog := (ViewProg StateKey AnyError).

(** Code that reads storage and returns [Result<A, VMStatus>], and the same with [&mut] access
    to the gas meter, which keeps its state on an error. *)
Definition reading (A : Type) : Type := Prog (result VMStatus A).
Definition charging (A : Type) : Type := AptosGasMeter -> Prog (result VMStatus A * AptosGasMeter).

#[export] Instance reading_ret : MRet reading := fun A a => PDone (Ok a).
#[export] Instance reading_bind : MBind reading := fun A B f p =>
  prog_bind _ _ (fun r : result VMStatus A => match r with Ok a => f a | Err e => PDone (Err e) end) p.

#[export] Instance charging_ret : MRet charging := fun A a g => PDone (Ok a, g).
#[export] Instance charging_bind : MBind charging := fun A B f p g =>
  prog_bind _ _ (fun r : result VMStatus A * AptosGasMeter =>
    match r with (Ok a, g) => f a g | (Err e, g) => PDone (Err e, g) end) (p g).

(** A pure computation, one that only reads, an unmetered one, one that fails, and the state
    of the meter. *)
Definition of_comp {A} (c : comp VMStatus A) : reading A :=
  match c with Return a => PDone (Ok a) | Throw e => PDone (Err e) | Panic => PPanic end.
Definition lift_prog {A} (p : Prog A) : reading A := prog_bind _ _ (fun a => PDone (Ok a)) p.
Definition unmetered {A} (p : reading A) : charging A := fun g =>
  prog_bind _ _ (fun r => PDone (r, g)) p.
Definition throw {A} (code : StatusCode) : reading A := PDone (Err (VMStatus_Error code)).
Definition the_meter : charging AptosGasMeter := fun g => PDone (Ok g, g).

(** A charge; [to_status] is the status of its error. *)
Definition charges {A} (to_status : PartialVMError -> VMStatus) (p : meter A) : charging A := fun g =>
  match p g with
  | Some (g, r) => PDone (map_err to_status r, g)
  | None => PPanic
  end.
End Monads.
Arguments reading StateKey AnyError A : clear implicits.
Arguments charging StateKey AnyError A : clear implicits.

(** ** The Move VM *)

(** What a session ends with, and the operations on sessions.  An operation that takes [&mut]
    returns the session also on an error.  The operations that take a gas meter come in two
    versions, as the code runs them with [AptosGasMeter] and with [UnmeteredGasMeter]. *)
Class MoveVM (StateKey AnyError : Type) := {
  VM : Type;
  VMSession : Type;
  VMError : Type;
  TypeTag : Type;
  StructIndex : Type;
  CompiledModule : Type;
  StructTag : Type;
  struct_tag_eq :: EqDecision StructTag;
  struct_tag_countable :: Countable StructTag;
  TableInfo : Type;
  MoveEvent : Type;
  AbortInfo : Type;

  into_vm_status : VMError -> VMStatus;
  finish_error : PartialVMError -> VMError;
  status_from : VMStatus -> TransactionStatus (ExecutionStatus AbortInfo);

  (** [MoveVmExt::new] and [MoveVmExt::new_session]. *)
  vm_new_with : NativeGasParameters -> AbstractValueSizeGasParameters -> Z -> bool -> option VM;
  vm_new_session : VM -> SessionId -> VMSession;
  extract_abort_info : VM -> AbortLocation -> Z -> option AbortInfo;

  load_script : VMSession -> bytes -> list TypeTag ->
    ViewProg StateKey AnyError (result VMError (LoadedFunctionInstantiation (StructIndex := StructIndex)) * VMSession);
  load_function : VMSession -> ModuleId -> string -> list TypeTag ->
    ViewProg StateKey AnyError (result VMError (LoadedFunctionInstantiation (StructIndex := StructIndex)) * VMSession);
  get_struct_type : VMSession -> StructIndex -> option (StructType (ModuleId := ModuleId));
  exists_module : VMSession -> ModuleId -> ViewProg StateKey AnyError (result VMError bool * VMSession);
  load_module : VMSession -> ModuleId -> ViewProg StateKey AnyError (result VMError bytes * VMSession);

  execute_script : VMSession -> bytes -> list TypeTag -> list bytes -> AptosGasMeter ->
    ViewProg StateKey AnyError (result VMError unit * VMSession * AptosGasMeter);
  execute_entry_function : VMSession -> ModuleId -> string -> list TypeTag -> list bytes ->
    AptosGasMeter -> ViewProg StateKey AnyError (result VMError unit * VMSession * AptosGasMeter);
  execute_function : VMSession -> ModuleId -> string -> list bytes -> AptosGasMeter ->
    ViewProg StateKey AnyError (result VMError unit * VMSession * AptosGasMeter);
  publish_module_bundle : VMSession -> list bytes -> AccountAddress -> AptosGasMeter ->
    ViewProg StateKey AnyError (result VMError unit * VMSession * AptosGasMeter);
  execute_script_unmetered : VMSession -> bytes -> list TypeTag -> list bytes ->
    ViewProg StateKey AnyError (result VMError unit * VMSession);
  execute_function_unmetered : VMSession -> ModuleId -> string -> list bytes ->
    ViewProg StateKey AnyError (result VMError unit * VMSession);

  (** [finish_with_extensions], and what is taken from the extensions: the change set of the
      tables and of the aggregators; the publish request of the native code context. *)
  finish_with_extensions : VMSession ->
    ViewProg StateKey AnyError (result VMError (gmap AccountAddress (AccountChangeSet (Identifier := string) (StructTag := StructTag))
      * list MoveEvent * PartialVMResult (TableChangeSet (TableHandle := bytes) (TableInfo := TableInfo))
      * comp VMStatus (gmap (bytes * AccountAddress) AggregatorChange)));
  take_publish_request : VMSession -> option (PublishRequest (AccountAddress := AccountAddress)) * VMSession;

  (** [CompiledModule], [verify_module_init_function] and [serialize_values]. *)
  module_deserialize : bytes -> PartialVMResult CompiledModule;
  self_id : CompiledModule -> ModuleId;
  immediate_dependencies : CompiledModule -> list ModuleId;
  verify_module_init_function : CompiledModule -> bool;
  serialize_value : MoveValue -> option bytes;
  short_str_lossless : ModuleId -> string;
}.

(** ** The types of the chain *)

(** [TransactionValidation] of [account_config]: the names of the prologues and the epilogue. *)
Record TransactionValidation := {
  validation_module : ModuleId;
  script_prologue_name : string;
  module_prologue_name : string;
  multi_agent_prologue_name : string;
  user_epilogue_name : string;
}.

(** The on-chain configurations the adapter reads. *)
Inductive Config :=
  | GasScheduleV2Config
  | GasScheduleConfig
  | StorageGasScheduleConfig
  | FeaturesConfig
  | VersionConfig
  | TransactionValidationResource
  | ApprovedExecutionHashesResource.

(** What the adapter uses of [aptos-types] and of the hash and serialisation crates. *)
Class Chain (StateKey ContractEvent : Type) `{MoveVM StateKey AnyError} `{Countable StateKey} := {
  key_leb : StateKey -> StateKey -> Prop;
  key_leb_dec :: RelDecision key_leb;
  bytes_leb : bytes -> bytes -> Prop;
  bytes_leb_dec :: RelDecision bytes_leb;
  string_leb : string -> string -> Prop;
  string_leb_dec :: RelDecision string_leb;
  tag_leb : StructTag -> StructTag -> Prop;
  tag_leb_dec :: RelDecision tag_leb;
  id_leb : bytes * AccountAddress -> bytes * AccountAddress -> Prop;
  id_leb_dec :: RelDecision id_leb;

  (** State keys, their encoding and size, and the keys of configurations. *)
  resource_key : AccountAddress -> StructTag -> StateKey;
  module_key : AccountAddress -> string -> StateKey;
  table_item : bytes -> bytes -> StateKey;
  encode_key : StateKey -> option bytes;
  key_size : StateKey -> nat;
  config_key : Config -> StateKey;

  (** [WriteSetMut::freeze], the checks of [ChangeSet::new], events and their keys. *)
  freeze : gmap StateKey WriteOp -> option (gmap StateKey WriteOp);
  check_change_set : gmap StateKey WriteOp -> list ContractEvent -> Z -> result VMStatus unit;
  contract_event : MoveEvent -> option ContractEvent;
  is_new_epoch_event : ContractEvent -> bool;
  is_new_block_event : ContractEvent -> bool;

  (** The decoders of configurations: [to_btree_map] and the other conversions included. *)
  decode_gas_schedule_v2 : bytes -> option (Z * GasSchedule);
  decode_gas_schedule : bytes -> option GasSchedule;
  decode_storage_gas_schedule : bytes -> option StorageGasParameters;
  decode_treat_friend_as_private : bytes -> option bool;
  default_treat_friend_as_private : bool;
  decode_version : bytes -> option Z;
  decode_transaction_validation : bytes -> option TransactionValidation;
  decode_approved_hashes : bytes -> option (list (Z * bytes));
  APTOS_TRANSACTION_VALIDATION : TransactionValidation;
  GAS_UNIT_PRICE : Z;

  (** Statuses; [inr] of [keep_or_discard] is the code a transaction is discarded with. *)
  KeptVMStatus : Type;
  keep_or_discard : VMStatus -> KeptVMStatus + StatusCode;
  is_discarded : TransactionStatus (ExecutionStatus AbortInfo) -> bool;
  is_account_module_abort : TransactionValidation -> AbortLocation -> bool;
  expect_no_verification_errors : VMError -> VMError;

  (** Transactions, hashes and addresses. *)
  TransactionArgument : Type;
  convert_txn_args : list TransactionArgument -> list bytes;
  sha3_256_of : bytes -> bytes;
  hash_zero : bytes;
  reserved_vm_address : AccountAddress;
  BlockMetadata : Type;
  block_id : BlockMetadata -> bytes;
  get_prologue_move_args : BlockMetadata -> AccountAddress -> list MoveValue;
  default_authentication_key : bytes;
  test_chain_id : Z;
  BLOCK_MODULE : ModuleId;
  address_to_string : AccountAddress -> string;
  serialize_signed_transaction : SignedTransaction TypeTag TransactionArgument -> bytes;
}.
