(* ===== verification/Sdk.v ===== *)
(** * The conversions of the SDK builders ([framework/cached-packages/src/])

    The two files of builders, [aptos_framework_sdk_builder.rs] and [aptos_token_sdk_builder.rs],
    have the same form: an enum of the calls of entry functions, a function that builds the
    payload of each call, a decoder of each, and a map from names to decoders.  This file has
    what they share: the BCS encoding of their arguments, which is code of another crate, the
    steps of the builders and of the decoders, and the lemmas on them. *)
From S2P Require Import Prelude MoveVM.

#[local] Open Scope Z_scope.

(** ** Arguments *)

(** The Rust types of the arguments. *)
Inductive ArgType := U8 | U64 | Bool | Address | VecU8 | VecVecU8 | VecBool.

Definition denote (t : ArgType) : Type :=
  match t with
  | U8 | U64 => Z
  | Bool => bool
  | Address => AccountAddress
  | VecU8 => bytes
  | VecVecU8 => list bytes
  | VecBool => list bool
  end.

(** [bcs::to_bytes] and [bcs::from_bytes] at these types; a model value that the Rust type does
    not have has no encoding. *)
Class BcsArgs := {
  to_bcs : forall t, denote t -> option bytes;
  from_bcs : forall t, bytes -> option (denote t);
}.

(** BCS is canonical: bytes decode to a value exactly when they are its encoding. *)
Class BcsArgsLaws `{BcsArgs} : Prop :=
  bcs_exact t x b : to_bcs t x = Some b <-> from_bcs t b = Some x.

(** [AccountAddress::new([0, .., 0, n])] *)
Definition address_of (n : Z) : AccountAddress := replicate 31 0 ++ [n].

(** ** Builders and decoders *)

Section Builders.
Context `{BcsArgs} {TypeTag TransactionArgument : Type}.
Abbreviation Payload := (TransactionPayload TypeTag TransactionArgument).

(** [TransactionPayload::EntryFunction(EntryFunction::new(..))], with the [unwrap] of the
    encoding of each argument. *)
Definition entry_function (module : ModuleId) (function : string) (ty_args : list TypeTag)
  (args : list (option bytes)) : comp Empty_set Payload :=
  match mapM id args with
  | Some args => Return (PayloadEntryFunction module function ty_args args)
  | None => Panic
  end.

(** [bcs::from_bytes(script.args().get(i)?).ok()?] and [script.ty_args().get(i)?.clone()] *)
Definition arg (t : ArgType) (args : list bytes) (i : nat) : option (denote t) :=
  b ← args !! i; from_bcs t b.
Definition ty_arg (ty_args : list TypeTag) (i : nat) : option TypeTag := ty_args !! i.

(** [if let TransactionPayload::EntryFunction(script) = payload { .. } else { None }] *)
Definition if_entry_function {A} (payload : Payload) (f : list TypeTag -> list bytes -> option A)
  : option A :=
  match payload with
  | PayloadEntryFunction _ _ ty_args args => f ty_args args
  | _ => None
  end.

(** The key of an entry function in the map of decoders. *)
Definition decoder_key (module_name function : string) : string :=
  (module_name +:+ "_" +:+ function)%string.
End Builders.

(** [std::collections::HashMap::insert], one after the other. *)
Definition insert_all {V} (entries : list (string * V)) : gmap string V :=
  foldl (fun map '(name, v) => <[name := v]> map) ∅ entries.

(** ** Lemmas *)

Lemma insert_all_exact {V} (entries : list (string * V)) name v :
  NoDup entries.*1 -> insert_all entries !! name = Some v <-> (name, v) ∈ entries.
Proof.
  unfold insert_all. induction entries as [|[n w] l IH] using rev_ind; intros Hn.
  - simpl. by rewrite lookup_empty, elem_of_nil.
  - rewrite fmap_app, NoDup_app in Hn. destruct Hn as (Hl & Hnew & _). specialize (IH Hl).
    assert (Hfresh : forall u, (n, u) ∉ l).
    { intros u Hu. apply (Hnew n); [|by left]. by apply (list_elem_of_fmap_2 fst l (n, u)). }
    rewrite foldl_app, elem_of_app, list_elem_of_singleton. simpl.
    destruct (decide (name = n)) as [->|Hne].
    + rewrite lookup_insert_eq. split; [intros [= ->]; by right|].
      intros [Hv|[= ->]]; [by destruct (Hfresh v)|done].
    + rewrite lookup_insert_ne, IH by done. split; [by left|]. by intros [Hv|[= -> ->]].
Qed.

Section Exact.
Context `{BcsArgs, !BcsArgsLaws} {TypeTag TransactionArgument : Type}.
Abbreviation Payload := (TransactionPayload TypeTag TransactionArgument).

Lemma arg_exact t args i (x : denote t) :
  arg t args i = Some x <-> exists b, args !! i = Some b /\ to_bcs t x = Some b.
Proof.
  unfold arg. rewrite bind_Some. apply exist_proper. intros b. by rewrite bcs_exact.
Qed.

(** A builder gives a payload exactly when each argument has an encoding. *)
Lemma entry_function_exact module function (ty_args : list TypeTag) args (p : Payload) :
  entry_function module function ty_args args = Return p <->
  exists bs, args = Some <$> bs /\ p = PayloadEntryFunction module function ty_args bs.
Proof.
  unfold entry_function. destruct (mapM id args) as [bs|] eqn:Hm.
  - apply mapM_Some in Hm. assert (Hbs : args = Some <$> bs).
    { induction Hm as [|o b l bs' Ho _ IH]; [done|]. unfold id in Ho. subst o. by rewrite IH. }
    split; [intros [= <-]; by exists bs|]. intros (bs' & Ha & ->).
    rewrite Hbs in Ha. apply list_fmap_eq_inj in Ha; [by subst|]. apply Some_inj.
  - split; [done|]. intros (bs & -> & _). exfalso. revert Hm.
    induction bs as [|b bs IH]; [done|]. change (mapM id (Some <$> b :: bs)) with (bs ← mapM id (Some <$> bs); Some (b :: bs)).
    destruct (mapM id (Some <$> bs)); simpl; [done|]. intros _. by apply IH.
Qed.
End Exact.

(** ** What a decoder recognises *)

(** The list [l] is found in [args] from index [i] on. *)
Fixpoint found_at {A} (i : nat) (l args : list A) : Prop :=
  match l with
  | [] => True
  | a :: l => args !! i = Some a /\ found_at (S i) l args
  end.

Lemma found_at_drop {A} (l args : list A) i : found_at i l args <-> l `prefix_of` drop i args.
Proof.
  revert i. induction l as [|a l IH]; intros i; cbn; [split; [intros _; apply prefix_nil|done]|].
  rewrite IH. split.
  - intros [Ha Hl]. rewrite (drop_S _ _ _ Ha). by apply prefix_cons.
  - intros [k Hk]. assert (Ha : args !! i = Some a).
    { rewrite <- (Nat.add_0_r i), <- lookup_drop, Hk. done. }
    split; [done|]. rewrite (drop_S _ _ _ Ha) in Hk. exists k. by injection Hk.
Qed.

Lemma found_prefix {A} (l args : list A) : found_at 0 l args <-> l `prefix_of` args.
Proof. apply found_at_drop. Qed.

(** The builder of [call] makes the entry function with the key [name] and arguments that are the
    first ones of those given. *)
Definition recognises {Call TypeTag TransactionArgument}
  (encode : Call -> comp Empty_set (TransactionPayload TypeTag TransactionArgument))
  (name : string) (ty_args : list TypeTag) (args : list bytes) (call : Call) : Prop :=
  exists module function ty_args' args',
    encode call = Return (PayloadEntryFunction module function ty_args' args') /\
    decoder_key module.2 function = name /\
    ty_args' `prefix_of` ty_args /\ args' `prefix_of` args.

(** What a file of builders promises: its decoders have names of their own, and each of them
    undoes the builder of the same name. *)
Class SdkLaws {Call TypeTag TransactionArgument}
  (encode : Call -> comp Empty_set (TransactionPayload TypeTag TransactionArgument))
  (entries : list (string * (TransactionPayload TypeTag TransactionArgument -> option Call))) : Prop := {
  names_differ : NoDup entries.*1;
  decoders_exact : Forall (fun '(name, decoder) => forall module function ty_args args call,
    decoder (PayloadEntryFunction module function ty_args args) = Some call ->
    recognises encode name ty_args args call) entries;
  encoders_exact call p : encode call = Return p ->
    exists name decoder module function ty_args args,
      p = PayloadEntryFunction module function ty_args args /\
      (name, decoder) ∈ entries /\ decoder_key module.2 function = name /\
      forall module' function' ty_args' args',
        ty_args `prefix_of` ty_args' -> args `prefix_of` args' ->
        decoder (PayloadEntryFunction module' function' ty_args' args') = Some call;
}.

(** The decoder found in the map of a file that keeps the laws recognises what its builders make. *)
Lemma lookup_recognises {Call TypeTag TransactionArgument}
  (encode : Call -> comp Empty_set (TransactionPayload TypeTag TransactionArgument)) entries
  `{!SdkLaws encode entries} module function ty_args args call :
  (decoder ← insert_all entries !! decoder_key module.2 function;
   decoder (PayloadEntryFunction module function ty_args args)) = Some call <->
  recognises encode (decoder_key module.2 function) ty_args args call.
Proof.
  rewrite bind_Some. split.
  - intros (decoder & Hlook & Hd). apply insert_all_exact in Hlook; [|apply (names_differ (encode := encode))].
    pose proof decoders_exact as Hall. rewrite Forall_forall in Hall.
    exact (Hall _ Hlook _ _ _ _ _ Hd).
  - intros (m & f & tys & bs & Henc & Hkey & Htys & Hbs).
    destruct (encoders_exact _ _ Henc) as (name & d & m' & f' & tys' & bs' & [= -> -> -> ->] & Hin & Hk & Hd).
    exists d. rewrite insert_all_exact by apply (names_differ (encode := encode)).
    split; [by rewrite <- Hkey, Hk|]. by apply Hd.
Qed.

(** What [decode] of such a file recognises. *)
Lemma decode_exact {Call TypeTag TransactionArgument}
  (encode : Call -> comp Empty_set (TransactionPayload TypeTag TransactionArgument)) entries
  `{!SdkLaws encode entries}
  (decode : TransactionPayload TypeTag TransactionArgument -> option Call) payload call :
  (forall payload, decode payload =
     match payload with
     | PayloadEntryFunction module function _ _ =>
         decoder ← insert_all entries !! decoder_key module.2 function; decoder payload
     | _ => None
     end) ->
  (decode payload = Some call <->
   exists module function ty_args args,
     payload = PayloadEntryFunction module function ty_args args /\
    recognises encode (decoder_key module.2 function) ty_args args call) /\
 (encode call = Return payload -> decode payload = Some call).
Proof.
  intros Hdecode.
  assert (Hexact : forall p, decode p = Some call <->
    exists module function ty_args args, p = PayloadEntryFunction module function ty_args args /\
     recognises encode (decoder_key module.2 function) ty_args args call).
  { intros p. rewrite Hdecode. split.
    - destruct p as [|m f tys args|]; [done| |done]. intros Hr.
      exists m, f, tys, args. split; [done|]. by apply (lookup_recognises encode entries).
    - intros (m & f & tys & args & -> & Hr). by apply (lookup_recognises encode entries). }
  split; [apply Hexact|]. intros Henc. apply Hexact.
  destruct (encoders_exact _ _ Henc) as (name & d & m & f & tys & args & -> & _ & Hkey & _).
  exists m, f, tys, args. split; [done|]. exists m, f, tys, args. done.
Qed.

Lemma some_nil {A} : [] = Some <$> ([] : list A).
Proof. done. Qed.

Lemma some_cons {A} (a : A) l l' : l = Some <$> l' -> Some a :: l = Some <$> (a :: l').
Proof. by intros ->. Qed.

(** ** Automation for the files of builders *)

#[global] Arguments arg : simpl never.
#[global] Arguments ty_arg : simpl never.
#[global] Arguments to_bcs : simpl never.
#[global] Arguments entry_function : simpl never.

(** A decoder that gives a call. *)
Ltac decoder_case :=
  let H := fresh in
  intros ????? H; cbn in H;
  repeat (apply bind_Some in H as (? & ? & H)); injection H as <-;
  repeat match goal with
         | Ha : arg ?t ?l ?i = Some ?x |- _ =>
             pose proof (proj1 (arg_exact t l i x) Ha) as (? & ? & ?); clear Ha
         | Ha : ty_arg _ _ = Some _ |- _ => unfold ty_arg in Ha
         end;
  eexists _, _, _, _; split;
    [cbn; apply entry_function_exact; eexists; split; [|reflexivity];
     repeat match goal with Hb : to_bcs _ _ = Some _ |- _ => rewrite Hb; clear Hb end;
     repeat apply some_cons; apply some_nil
    |split; [reflexivity|]; rewrite <- !found_prefix; cbn; auto 20].

(** An entry of a list of decoders, by its name. *)
Ltac find_entry := first [apply list_elem_of_here | apply list_elem_of_further; find_entry].

(** The builder of a call. *)
Ltac encoder_case entries :=
  let H := fresh in
  intros H; cbn in H; apply entry_function_exact in H as (? & H & ->);
  repeat match goal with
         | Hc : _ :: _ = Some <$> _ |- _ =>
             symmetry in Hc; apply fmap_cons_inv in Hc as (? & ? & ? & Hc & ->)
         end;
  match goal with Hn : [] = Some <$> _ |- _ => symmetry in Hn; apply fmap_nil_inv in Hn as -> end;
  eexists _, _, _, _, _, _; refine (conj eq_refl (conj _ (conj eq_refl _)));
    [match goal with |- (?name, _) ∈ _ =>
       let key := eval vm_compute in name in change name with key; unfold entries; find_entry
     end|];
  intros ????; rewrite <- !found_prefix; cbn;
  intros; destruct_and?;
  repeat match goal with
         | Hb : Some _ = to_bcs _ _ |- _ => symmetry in Hb
         | Ha : ?args !! ?i = Some ?b, Hb : to_bcs ?t ?x = Some ?b |- _ =>
             pose proof (proj2 (arg_exact t args i x) (ex_intro _ b (conj Ha Hb))); clear Hb
         | Ha : ?l !! ?i = Some ?a |- context [ty_arg ?l ?i] => change (ty_arg l i) with (l !! i); rewrite Ha; cbn
         | Ha : arg ?t ?l ?i = Some ?a |- context [arg ?t ?l ?i] => rewrite Ha; clear Ha; cbn
         end;
  reflexivity.

(** ** BCS, for vectors of less than 128 elements: an instance of the interface above *)

Module ShortBcs.
Definition length_byte {A} (l : list A) : option bytes :=
  if (length l <? 128)%nat then Some [Z.of_nat (length l)] else None.

Definition encode_vec (l : bytes) : option bytes := n ← length_byte l; Some (n ++ l).

Definition encode (t : ArgType) : denote t -> option bytes :=
  match t with
  | U8 => fun n => if bool_decide (0 <= n < 256) then Some [n] else None
  | U64 => fun n => if bool_decide (is_u64 n) then Some (LittleEndian.encode 8 n) else None
  | Bool => fun b => Some [Z.b2z b]
  | Address => fun a => if (length a =? 32)%nat then Some a else None
  | VecU8 => encode_vec
  | VecVecU8 => fun l => n ← length_byte l; ls ← mapM encode_vec l; Some (n ++ concat ls)
  | VecBool => fun l => encode_vec (Z.b2z <$> l)
  end.

Fixpoint decode_vecs (n : nat) (b : bytes) : list bytes :=
  match n, b with
  | S n, k :: b => take (Z.to_nat k) b :: decode_vecs n (drop (Z.to_nat k) b)
  | _, _ => []
  end.

(** The value that the bytes can be the encoding of. *)
Definition candidate (t : ArgType) (b : bytes) : denote t :=
  match t with
  | U8 => hd 0 b
  | U64 => LittleEndian.decode b
  | Bool => hd 0 b =? 1
  | Address => b
  | VecU8 => tail b
  | VecVecU8 => decode_vecs (Z.to_nat (hd 0 b)) (tail b)
  | VecBool => (fun n => n =? 1) <$> tail b
  end.

Definition decode (t : ArgType) (b : bytes) : option (denote t) :=
  if bool_decide (encode t (candidate t b) = Some b) then Some (candidate t b) else None.

#[export] Instance short_bcs : BcsArgs := {| to_bcs := encode; from_bcs := decode |}.

Lemma encode_vec_Some l b : encode_vec l = Some b -> b = Z.of_nat (length l) :: l.
Proof. unfold encode_vec, length_byte. destruct (_ <? _)%nat; [by intros [= <-]|done]. Qed.

Lemma decode_vecs_encoded l ls : mapM encode_vec l = Some ls -> decode_vecs (length l) (concat ls) = l.
Proof.
  intros Hl%mapM_Some. induction Hl as [|v e l ls Hv%encode_vec_Some _ IH]; [done|]. subst e.
  cbn. by rewrite Nat2Z.id, take_app_length, drop_app_length, IH.
Qed.

Lemma bits_back (l : list bool) : (fun n => n =? 1) <$> (Z.b2z <$> l) = l.
Proof. induction l as [|[] l IH]; cbn; by rewrite ?IH. Qed.

Lemma candidate_encoded t x b : encode t x = Some b -> candidate t b = x.
Proof.
  destruct t; cbn [encode candidate].
  - case_bool_decide; [by intros [= <-]|done].
  - case_bool_decide as Hn; [|done]. intros Hb%(inj Some). rewrite <- Hb, LittleEndian.decode_encode.
    apply Z.mod_small. exact Hn.
  - intros [= <-]. by destruct x.
  - destruct (_ =? _)%nat; [by intros [= <-]|done].
  - by intros ->%encode_vec_Some.
  - unfold length_byte. destruct (_ <? _)%nat; cbn; [|done].
    destruct (mapM encode_vec x) as [ls|] eqn:Hl; cbn; [|done]. intros [= <-]. cbn.
    rewrite Nat2Z.id. by apply decode_vecs_encoded.
  - intros ->%encode_vec_Some. apply bits_back.
Qed.

#[export] Instance short_bcs_laws : BcsArgsLaws.
Proof.
  intros t x b. cbn. unfold decode. split.
  - intros Hx. rewrite (candidate_encoded _ _ _ Hx). by rewrite bool_decide_true.
  - case_bool_decide as Hb; [|done]. by intros [= <-].
Qed.
End ShortBcs.
