(* ===== verification/FrameworkSdk.v ===== *)
(** * The entry functions of the framework ([framework/cached-packages/src/aptos_framework_sdk_builder.rs])

    The calls, the builders of their payloads and their decoders, in the order of the file; what
    they share is in [Sdk].  The theorem says which payloads [decode] recognises, and as what. *)
From S2P Require Import Prelude MoveVM Sdk.

#[local] Open Scope Z_scope.

(** [EntryFunctionCall]: a call into a known Move entry function. *)
Inductive EntryFunctionCall (TypeTag : Type) : Type :=
  | AccountOfferSignerCapability (signer_capability_sig_bytes : bytes) (account_scheme : Z)
      (account_public_key_bytes : bytes) (recipient_address : AccountAddress)
  | AccountRevokeSignerCapability (to_be_revoked_address : AccountAddress)
  | AccountRotateAuthenticationKey (from_scheme : Z) (from_public_key_bytes : bytes)
      (to_scheme : Z) (to_public_key_bytes : bytes) (cap_rotate_key : bytes)
      (cap_update_table : bytes)
  | AptosAccountCreateAccount (auth_key : AccountAddress)
  | AptosAccountTransfer (to_ : AccountAddress) (amount : Z)
  | AptosCoinClaimMintCapability
  | AptosCoinDelegateMintCapability (to_ : AccountAddress)
  | AptosCoinMint (dst_addr : AccountAddress) (amount : Z)
  | AptosGovernanceAddApprovedScriptHashScript (proposal_id : Z)
  | AptosGovernanceCreateProposal (stake_pool : AccountAddress) (execution_hash : bytes)
      (metadata_location : bytes) (metadata_hash : bytes)
  | AptosGovernanceVote (stake_pool : AccountAddress) (proposal_id : Z) (should_pass : bool)
  | CodePublishPackageTxn (metadata_serialized : bytes) (code : list bytes)
  | CoinTransfer (coin_type : TypeTag) (to_ : AccountAddress) (amount : Z)
  | CoinUpgradeSupply (coin_type : TypeTag)
  | ManagedCoinBurn (coin_type : TypeTag) (amount : Z)
  | ManagedCoinInitialize (coin_type : TypeTag) (name : bytes) (symbol : bytes) (decimals : Z)
      (monitor_supply : bool)
  | ManagedCoinMint (coin_type : TypeTag) (dst_addr : AccountAddress) (amount : Z)
  | ManagedCoinRegister (coin_type : TypeTag)
  | ResourceAccountCreateResourceAccount (seed : bytes) (optional_auth_key : bytes)
  | ResourceAccountCreateResourceAccountAndFund (seed : bytes) (optional_auth_key : bytes)
      (fund_amount : Z)
  | ResourceAccountCreateResourceAccountAndPublishPackage (seed : bytes)
      (metadata_serialized : bytes) (code : list bytes)
  | StakeAddStake (amount : Z)
  | StakeIncreaseLockup
  | StakeInitializeStakeOwner (initial_stake_amount : Z) (operator : AccountAddress)
      (voter : AccountAddress)
  | StakeInitializeValidator (consensus_pubkey : bytes) (proof_of_possession : bytes)
      (network_addresses : bytes) (fullnode_addresses : bytes)
  | StakeJoinValidatorSet (pool_address : AccountAddress)
  | StakeLeaveValidatorSet (pool_address : AccountAddress)
  | StakeReactivateStake (amount : Z)
  | StakeRotateConsensusKey (pool_address : AccountAddress) (new_consensus_pubkey : bytes)
      (proof_of_possession : bytes)
  | StakeSetDelegatedVoter (new_voter : AccountAddress)
  | StakeSetOperator (new_operator : AccountAddress)
  | StakeUnlock (amount : Z)
  | StakeUpdateNetworkAndFullnodeAddresses (pool_address : AccountAddress)
      (new_network_addresses : bytes) (new_fullnode_addresses : bytes)
  | StakeWithdraw (withdraw_amount : Z)
  | StakingContractAddStake (operator : AccountAddress) (amount : Z)
  | StakingContractCreateStakingContract (operator : AccountAddress) (voter : AccountAddress)
      (amount : Z) (commission_percentage : Z) (contract_creation_seed : bytes)
  | StakingContractDistribute (staker : AccountAddress) (operator : AccountAddress)
  | StakingContractRequestCommission (staker : AccountAddress) (operator : AccountAddress)
  | StakingContractResetLockup (operator : AccountAddress)
  | StakingContractSwitchOperator (old_operator : AccountAddress) (new_operator : AccountAddress)
      (new_commission_percentage : Z)
  | StakingContractSwitchOperatorWithSameCommission (old_operator : AccountAddress)
      (new_operator : AccountAddress)
  | StakingContractUnlockRewards (operator : AccountAddress)
  | StakingContractUnlockStake (operator : AccountAddress) (amount : Z)
  | StakingContractUpdateVoter (operator : AccountAddress) (new_voter : AccountAddress)
  | StakingProxySetOperator (old_operator : AccountAddress) (new_operator : AccountAddress)
  | StakingProxySetStakePoolOperator (new_operator : AccountAddress)
  | StakingProxySetStakePoolVoter (new_voter : AccountAddress)
  | StakingProxySetStakingContractOperator (old_operator : AccountAddress)
      (new_operator : AccountAddress)
  | StakingProxySetStakingContractVoter (operator : AccountAddress) (new_voter : AccountAddress)
  | StakingProxySetVestingContractOperator (old_operator : AccountAddress)
      (new_operator : AccountAddress)
  | StakingProxySetVestingContractVoter (operator : AccountAddress) (new_voter : AccountAddress)
  | StakingProxySetVoter (operator : AccountAddress) (new_voter : AccountAddress)
  | VersionSetVersion (major : Z)
  | VestingAdminWithdraw (contract_address : AccountAddress)
  | VestingDistribute (contract_address : AccountAddress)
  | VestingResetBeneficiary (contract_address : AccountAddress) (shareholder : AccountAddress)
  | VestingResetLockup (contract_address : AccountAddress)
  | VestingSetBeneficiary (contract_address : AccountAddress) (shareholder : AccountAddress)
      (new_beneficiary : AccountAddress)
  | VestingSetBeneficiaryResetter (contract_address : AccountAddress)
      (beneficiary_resetter : AccountAddress)
  | VestingSetManagementRole (contract_address : AccountAddress) (role : bytes)
      (role_holder : AccountAddress)
  | VestingTerminateVestingContract (contract_address : AccountAddress)
  | VestingUnlockRewards (contract_address : AccountAddress)
  | VestingUpdateOperator (contract_address : AccountAddress) (new_operator : AccountAddress)
      (commission_percentage : Z)
  | VestingUpdateOperatorWithSameCommission (contract_address : AccountAddress)
      (new_operator : AccountAddress)
  | VestingUpdateVoter (contract_address : AccountAddress) (new_voter : AccountAddress)
  | VestingVest (contract_address : AccountAddress).
Arguments AccountOfferSignerCapability {TypeTag} signer_capability_sig_bytes account_scheme
  account_public_key_bytes recipient_address.
Arguments AccountRevokeSignerCapability {TypeTag} to_be_revoked_address.
Arguments AccountRotateAuthenticationKey {TypeTag} from_scheme from_public_key_bytes to_scheme
  to_public_key_bytes cap_rotate_key cap_update_table.
Arguments AptosAccountCreateAccount {TypeTag} auth_key.
Arguments AptosAccountTransfer {TypeTag} to_ amount.
Arguments AptosCoinClaimMintCapability {TypeTag}.
Arguments AptosCoinDelegateMintCapability {TypeTag} to_.
Arguments AptosCoinMint {TypeTag} dst_addr amount.
Arguments AptosGovernanceAddApprovedScriptHashScript {TypeTag} proposal_id.
Arguments AptosGovernanceCreateProposal {TypeTag} stake_pool execution_hash metadata_location
  metadata_hash.
Arguments AptosGovernanceVote {TypeTag} stake_pool proposal_id should_pass.
Arguments CodePublishPackageTxn {TypeTag} metadata_serialized code.
Arguments CoinTransfer {TypeTag} coin_type to_ amount.
Arguments CoinUpgradeSupply {TypeTag} coin_type.
Arguments ManagedCoinBurn {TypeTag} coin_type amount.
Arguments ManagedCoinInitialize {TypeTag} coin_type name symbol decimals monitor_supply.
Arguments ManagedCoinMint {TypeTag} coin_type dst_addr amount.
Arguments ManagedCoinRegister {TypeTag} coin_type.
Arguments ResourceAccountCreateResourceAccount {TypeTag} seed optional_auth_key.
Arguments ResourceAccountCreateResourceAccountAndFund {TypeTag} seed optional_auth_key
  fund_amount.
Arguments ResourceAccountCreateResourceAccountAndPublishPackage {TypeTag} seed metadata_serialized
  code.
Arguments StakeAddStake {TypeTag} amount.
Arguments StakeIncreaseLockup {TypeTag}.
Arguments StakeInitializeStakeOwner {TypeTag} initial_stake_amount operator voter.
Arguments StakeInitializeValidator {TypeTag} consensus_pubkey proof_of_possession
  network_addresses fullnode_addresses.
Arguments StakeJoinValidatorSet {TypeTag} pool_address.
Arguments StakeLeaveValidatorSet {TypeTag} pool_address.
Arguments StakeReactivateStake {TypeTag} amount.
Arguments StakeRotateConsensusKey {TypeTag} pool_address new_consensus_pubkey proof_of_possession.
Arguments StakeSetDelegatedVoter {TypeTag} new_voter.
Arguments StakeSetOperator {TypeTag} new_operator.
Arguments StakeUnlock {TypeTag} amount.
Arguments StakeUpdateNetworkAndFullnodeAddresses {TypeTag} pool_address new_network_addresses
  new_fullnode_addresses.
Arguments StakeWithdraw {TypeTag} withdraw_amount.
Arguments StakingContractAddStake {TypeTag} operator amount.
Arguments StakingContractCreateStakingContract {TypeTag} operator voter amount
  commission_percentage contract_creation_seed.
Arguments StakingContractDistribute {TypeTag} staker operator.
Arguments StakingContractRequestCommission {TypeTag} staker operator.
Arguments StakingContractResetLockup {TypeTag} operator.
Arguments StakingContractSwitchOperator {TypeTag} old_operator new_operator
  new_commission_percentage.
Arguments StakingContractSwitchOperatorWithSameCommission {TypeTag} old_operator new_operator.
Arguments StakingContractUnlockRewards {TypeTag} operator.
Arguments StakingContractUnlockStake {TypeTag} operator amount.
Arguments StakingContractUpdateVoter {TypeTag} operator new_voter.
Arguments StakingProxySetOperator {TypeTag} old_operator new_operator.
Arguments StakingProxySetStakePoolOperator {TypeTag} new_operator.
Arguments StakingProxySetStakePoolVoter {TypeTag} new_voter.
Arguments StakingProxySetStakingContractOperator {TypeTag} old_operator new_operator.
Arguments StakingProxySetStakingContractVoter {TypeTag} operator new_voter.
Arguments StakingProxySetVestingContractOperator {TypeTag} old_operator new_operator.
Arguments StakingProxySetVestingContractVoter {TypeTag} operator new_voter.
Arguments StakingProxySetVoter {TypeTag} operator new_voter.
Arguments VersionSetVersion {TypeTag} major.
Arguments VestingAdminWithdraw {TypeTag} contract_address.
Arguments VestingDistribute {TypeTag} contract_address.
Arguments VestingResetBeneficiary {TypeTag} contract_address shareholder.
Arguments VestingResetLockup {TypeTag} contract_address.
Arguments VestingSetBeneficiary {TypeTag} contract_address shareholder new_beneficiary.
Arguments VestingSetBeneficiaryResetter {TypeTag} contract_address beneficiary_resetter.
Arguments VestingSetManagementRole {TypeTag} contract_address role role_holder.
Arguments VestingTerminateVestingContract {TypeTag} contract_address.
Arguments VestingUnlockRewards {TypeTag} contract_address.
Arguments VestingUpdateOperator {TypeTag} contract_address new_operator commission_percentage.
Arguments VestingUpdateOperatorWithSameCommission {TypeTag} contract_address new_operator.
Arguments VestingUpdateVoter {TypeTag} contract_address new_voter.
Arguments VestingVest {TypeTag} contract_address.

(** ** The builders *)

Section Builders.
Context `{BcsArgs} {TypeTag TransactionArgument : Type}.
Abbreviation Payload := (TransactionPayload TypeTag TransactionArgument).

Definition account_offer_signer_capability (signer_capability_sig_bytes : bytes)
  (account_scheme : Z) (account_public_key_bytes : bytes) (recipient_address : AccountAddress) :
  comp Empty_set Payload :=
  entry_function (address_of 1, "account"%string) "offer_signer_capability" []
    [to_bcs VecU8 signer_capability_sig_bytes; to_bcs U8 account_scheme;
    to_bcs VecU8 account_public_key_bytes; to_bcs Address recipient_address].

Definition account_revoke_signer_capability (to_be_revoked_address : AccountAddress) : comp
  Empty_set Payload :=
  entry_function (address_of 1, "account"%string) "revoke_signer_capability" []
    [to_bcs Address to_be_revoked_address].

Definition account_rotate_authentication_key (from_scheme : Z) (from_public_key_bytes : bytes)
  (to_scheme : Z) (to_public_key_bytes : bytes) (cap_rotate_key : bytes)
  (cap_update_table : bytes) : comp Empty_set Payload :=
  entry_function (address_of 1, "account"%string) "rotate_authentication_key" []
    [to_bcs U8 from_scheme; to_bcs VecU8 from_public_key_bytes; to_bcs U8 to_scheme;
    to_bcs VecU8 to_public_key_bytes; to_bcs VecU8 cap_rotate_key; to_bcs VecU8 cap_update_table].

Definition aptos_account_create_account (auth_key : AccountAddress) : comp Empty_set Payload :=
  entry_function (address_of 1, "aptos_account"%string) "create_account" []
    [to_bcs Address auth_key].

Definition aptos_account_transfer (to_ : AccountAddress) (amount : Z) : comp Empty_set Payload :=
  entry_function (address_of 1, "aptos_account"%string) "transfer" [] [to_bcs Address to_;
    to_bcs U64 amount].

Definition aptos_coin_claim_mint_capability : comp Empty_set Payload :=
  entry_function (address_of 1, "aptos_coin"%string) "claim_mint_capability" [] [].

Definition aptos_coin_delegate_mint_capability (to_ : AccountAddress) : comp Empty_set Payload :=
  entry_function (address_of 1, "aptos_coin"%string) "delegate_mint_capability" []
    [to_bcs Address to_].

Definition aptos_coin_mint (dst_addr : AccountAddress) (amount : Z) : comp Empty_set Payload :=
  entry_function (address_of 1, "aptos_coin"%string) "mint" [] [to_bcs Address dst_addr;
    to_bcs U64 amount].

Definition aptos_governance_add_approved_script_hash_script (proposal_id : Z) : comp Empty_set
  Payload :=
  entry_function (address_of 1, "aptos_governance"%string) "add_approved_script_hash_script" []
    [to_bcs U64 proposal_id].

Definition aptos_governance_create_proposal (stake_pool : AccountAddress) (execution_hash : bytes)
  (metadata_location : bytes) (metadata_hash : bytes) : comp Empty_set Payload :=
  entry_function (address_of 1, "aptos_governance"%string) "create_proposal" []
    [to_bcs Address stake_pool; to_bcs VecU8 execution_hash; to_bcs VecU8 metadata_location;
    to_bcs VecU8 metadata_hash].

Definition aptos_governance_vote (stake_pool : AccountAddress) (proposal_id : Z)
  (should_pass : bool) : comp Empty_set Payload :=
  entry_function (address_of 1, "aptos_governance"%string) "vote" [] [to_bcs Address stake_pool;
    to_bcs U64 proposal_id; to_bcs Bool should_pass].

Definition code_publish_package_txn (metadata_serialized : bytes) (code : list bytes) : comp
  Empty_set Payload :=
  entry_function (address_of 1, "code"%string) "publish_package_txn" []
    [to_bcs VecU8 metadata_serialized; to_bcs VecVecU8 code].

Definition coin_transfer (coin_type : TypeTag) (to_ : AccountAddress) (amount : Z) : comp
  Empty_set Payload :=
  entry_function (address_of 1, "coin"%string) "transfer" [coin_type] [to_bcs Address to_;
    to_bcs U64 amount].

Definition coin_upgrade_supply (coin_type : TypeTag) : comp Empty_set Payload :=
  entry_function (address_of 1, "coin"%string) "upgrade_supply" [coin_type] [].

Definition managed_coin_burn (coin_type : TypeTag) (amount : Z) : comp Empty_set Payload :=
  entry_function (address_of 1, "managed_coin"%string) "burn" [coin_type] [to_bcs U64 amount].

Definition managed_coin_initialize (coin_type : TypeTag) (name : bytes) (symbol : bytes)
  (decimals : Z) (monitor_supply : bool) : comp Empty_set Payload :=
  entry_function (address_of 1, "managed_coin"%string) "initialize" [coin_type]
    [to_bcs VecU8 name; to_bcs VecU8 symbol; to_bcs U8 decimals; to_bcs Bool monitor_supply].

Definition managed_coin_mint (coin_type : TypeTag) (dst_addr : AccountAddress) (amount : Z) : comp
  Empty_set Payload :=
  entry_function (address_of 1, "managed_coin"%string) "mint" [coin_type]
    [to_bcs Address dst_addr; to_bcs U64 amount].

Definition managed_coin_register (coin_type : TypeTag) : comp Empty_set Payload :=
  entry_function (address_of 1, "managed_coin"%string) "register" [coin_type] [].

Definition resource_account_create_resource_account (seed : bytes) (optional_auth_key : bytes) :
  comp Empty_set Payload :=
  entry_function (address_of 1, "resource_account"%string) "create_resource_account" []
    [to_bcs VecU8 seed; to_bcs VecU8 optional_auth_key].

Definition resource_account_create_resource_account_and_fund (seed : bytes)
  (optional_auth_key : bytes) (fund_amount : Z) : comp Empty_set Payload :=
  entry_function (address_of 1, "resource_account"%string) "create_resource_account_and_fund" []
    [to_bcs VecU8 seed; to_bcs VecU8 optional_auth_key; to_bcs U64 fund_amount].

Definition resource_account_create_resource_account_and_publish_package (seed : bytes)
  (metadata_serialized : bytes) (code : list bytes) : comp Empty_set Payload :=
  entry_function (address_of 1, "resource_account"%string)
    "create_resource_account_and_publish_package" [] [to_bcs VecU8 seed;
    to_bcs VecU8 metadata_serialized; to_bcs VecVecU8 code].

Definition stake_add_stake (amount : Z) : comp Empty_set Payload :=
  entry_function (address_of 1, "stake"%string) "add_stake" [] [to_bcs U64 amount].

Definition stake_increase_lockup : comp Empty_set Payload :=
  entry_function (address_of 1, "stake"%string) "increase_lockup" [] [].

Definition stake_initialize_stake_owner (initial_stake_amount : Z) (operator : AccountAddress)
  (voter : AccountAddress) : comp Empty_set Payload :=
  entry_function (address_of 1, "stake"%string) "initialize_stake_owner" []
    [to_bcs U64 initial_stake_amount; to_bcs Address operator; to_bcs Address voter].

Definition stake_initialize_validator (consensus_pubkey : bytes) (proof_of_possession : bytes)
  (network_addresses : bytes) (fullnode_addresses : bytes) : comp Empty_set Payload :=
  entry_function (address_of 1, "stake"%string) "initialize_validator" []
    [to_bcs VecU8 consensus_pubkey; to_bcs VecU8 proof_of_possession;
    to_bcs VecU8 network_addresses; to_bcs VecU8 fullnode_addresses].

Definition stake_join_validator_set (pool_address : AccountAddress) : comp Empty_set Payload :=
  entry_function (address_of 1, "stake"%string) "join_validator_set" []
    [to_bcs Address pool_address].

Definition stake_leave_validator_set (pool_address : AccountAddress) : comp Empty_set Payload :=
  entry_function (address_of 1, "stake"%string) "leave_validator_set" []
    [to_bcs Address pool_address].

Definition stake_reactivate_stake (amount : Z) : comp Empty_set Payload :=
  entry_function (address_of 1, "stake"%string) "reactivate_stake" [] [to_bcs U64 amount].

Definition stake_rotate_consensus_key (pool_address : AccountAddress)
  (new_consensus_pubkey : bytes) (proof_of_possession : bytes) : comp Empty_set Payload :=
  entry_function (address_of 1, "stake"%string) "rotate_consensus_key" []
    [to_bcs Address pool_address; to_bcs VecU8 new_consensus_pubkey;
    to_bcs VecU8 proof_of_possession].

Definition stake_set_delegated_voter (new_voter : AccountAddress) : comp Empty_set Payload :=
  entry_function (address_of 1, "stake"%string) "set_delegated_voter" []
    [to_bcs Address new_voter].

Definition stake_set_operator (new_operator : AccountAddress) : comp Empty_set Payload :=
  entry_function (address_of 1, "stake"%string) "set_operator" [] [to_bcs Address new_operator].

Definition stake_unlock (amount : Z) : comp Empty_set Payload :=
  entry_function (address_of 1, "stake"%string) "unlock" [] [to_bcs U64 amount].

Definition stake_update_network_and_fullnode_addresses (pool_address : AccountAddress)
  (new_network_addresses : bytes) (new_fullnode_addresses : bytes) : comp Empty_set Payload :=
  entry_function (address_of 1, "stake"%string) "update_network_and_fullnode_addresses" []
    [to_bcs Address pool_address; to_bcs VecU8 new_network_addresses;
    to_bcs VecU8 new_fullnode_addresses].

Definition stake_withdraw (withdraw_amount : Z) : comp Empty_set Payload :=
  entry_function (address_of 1, "stake"%string) "withdraw" [] [to_bcs U64 withdraw_amount].

Definition staking_contract_add_stake (operator : AccountAddress) (amount : Z) : comp Empty_set
  Payload :=
  entry_function (address_of 1, "staking_contract"%string) "add_stake" []
    [to_bcs Address operator; to_bcs U64 amount].

Definition staking_contract_create_staking_contract (operator : AccountAddress)
  (voter : AccountAddress) (amount : Z) (commission_percentage : Z)
  (contract_creation_seed : bytes) : comp Empty_set Payload :=
  entry_function (address_of 1, "staking_contract"%string) "create_staking_contract" []
    [to_bcs Address operator; to_bcs Address voter; to_bcs U64 amount;
    to_bcs U64 commission_percentage; to_bcs VecU8 contract_creation_seed].

Definition staking_contract_distribute (staker : AccountAddress) (operator : AccountAddress) :
  comp Empty_set Payload :=
  entry_function (address_of 1, "staking_contract"%string) "distribute" [] [to_bcs Address staker;
    to_bcs Address operator].

Definition staking_contract_request_commission (staker : AccountAddress)
  (operator : AccountAddress) : comp Empty_set Payload :=
  entry_function (address_of 1, "staking_contract"%string) "request_commission" []
    [to_bcs Address staker; to_bcs Address operator].

Definition staking_contract_reset_lockup (operator : AccountAddress) : comp Empty_set Payload :=
  entry_function (address_of 1, "staking_contract"%string) "reset_lockup" []
    [to_bcs Address operator].

Definition staking_contract_switch_operator (old_operator : AccountAddress)
  (new_operator : AccountAddress) (new_commission_percentage : Z) : comp Empty_set Payload :=
  entry_function (address_of 1, "staking_contract"%string) "switch_operator" []
    [to_bcs Address old_operator; to_bcs Address new_operator;
    to_bcs U64 new_commission_percentage].

Definition staking_contract_switch_operator_with_same_commission (old_operator : AccountAddress)
  (new_operator : AccountAddress) : comp Empty_set Payload :=
  entry_function (address_of 1, "staking_contract"%string) "switch_operator_with_same_commission"
    [] [to_bcs Address old_operator; to_bcs Address new_operator].

Definition staking_contract_unlock_rewards (operator : AccountAddress) : comp Empty_set Payload :=
  entry_function (address_of 1, "staking_contract"%string) "unlock_rewards" []
    [to_bcs Address operator].

Definition staking_contract_unlock_stake (operator : AccountAddress) (amount : Z) : comp Empty_set
  Payload :=
  entry_function (address_of 1, "staking_contract"%string) "unlock_stake" []
    [to_bcs Address operator; to_bcs U64 amount].

Definition staking_contract_update_voter (operator : AccountAddress) (new_voter : AccountAddress)
  : comp Empty_set Payload :=
  entry_function (address_of 1, "staking_contract"%string) "update_voter" []
    [to_bcs Address operator; to_bcs Address new_voter].

Definition staking_proxy_set_operator (old_operator : AccountAddress)
  (new_operator : AccountAddress) : comp Empty_set Payload :=
  entry_function (address_of 1, "staking_proxy"%string) "set_operator" []
    [to_bcs Address old_operator; to_bcs Address new_operator].

Definition staking_proxy_set_stake_pool_operator (new_operator : AccountAddress) : comp Empty_set
  Payload :=
  entry_function (address_of 1, "staking_proxy"%string) "set_stake_pool_operator" []
    [to_bcs Address new_operator].

Definition staking_proxy_set_stake_pool_voter (new_voter : AccountAddress) : comp Empty_set
  Payload :=
  entry_function (address_of 1, "staking_proxy"%string) "set_stake_pool_voter" []
    [to_bcs Address new_voter].

Definition staking_proxy_set_staking_contract_operator (old_operator : AccountAddress)
  (new_operator : AccountAddress) : comp Empty_set Payload :=
  entry_function (address_of 1, "staking_proxy"%string) "set_staking_contract_operator" []
    [to_bcs Address old_operator; to_bcs Address new_operator].

Definition staking_proxy_set_staking_contract_voter (operator : AccountAddress)
  (new_voter : AccountAddress) : comp Empty_set Payload :=
  entry_function (address_of 1, "staking_proxy"%string) "set_staking_contract_voter" []
    [to_bcs Address operator; to_bcs Address new_voter].

Definition staking_proxy_set_vesting_contract_operator (old_operator : AccountAddress)
  (new_operator : AccountAddress) : comp Empty_set Payload :=
  entry_function (address_of 1, "staking_proxy"%string) "set_vesting_contract_operator" []
    [to_bcs Address old_operator; to_bcs Address new_operator].

Definition staking_proxy_set_vesting_contract_voter (operator : AccountAddress)
  (new_voter : AccountAddress) : comp Empty_set Payload :=
  entry_function (address_of 1, "staking_proxy"%string) "set_vesting_contract_voter" []
    [to_bcs Address operator; to_bcs Address new_voter].

Definition staking_proxy_set_voter (operator : AccountAddress) (new_voter : AccountAddress) : comp
  Empty_set Payload :=
  entry_function (address_of 1, "staking_proxy"%string) "set_voter" [] [to_bcs Address operator;
    to_bcs Address new_voter].

Definition version_set_version (major : Z) : comp Empty_set Payload :=
  entry_function (address_of 1, "version"%string) "set_version" [] [to_bcs U64 major].

Definition vesting_admin_withdraw (contract_address : AccountAddress) : comp Empty_set Payload :=
  entry_function (address_of 1, "vesting"%string) "admin_withdraw" []
    [to_bcs Address contract_address].

Definition vesting_distribute (contract_address : AccountAddress) : comp Empty_set Payload :=
  entry_function (address_of 1, "vesting"%string) "distribute" []
    [to_bcs Address contract_address].

Definition vesting_reset_beneficiary (contract_address : AccountAddress)
  (shareholder : AccountAddress) : comp Empty_set Payload :=
  entry_function (address_of 1, "vesting"%string) "reset_beneficiary" []
    [to_bcs Address contract_address; to_bcs Address shareholder].

Definition vesting_reset_lockup (contract_address : AccountAddress) : comp Empty_set Payload :=
  entry_function (address_of 1, "vesting"%string) "reset_lockup" []
    [to_bcs Address contract_address].

Definition vesting_set_beneficiary (contract_address : AccountAddress)
  (shareholder : AccountAddress) (new_beneficiary : AccountAddress) : comp Empty_set Payload :=
  entry_function (address_of 1, "vesting"%string) "set_beneficiary" []
    [to_bcs Address contract_address; to_bcs Address shareholder; to_bcs Address new_beneficiary].

Definition vesting_set_beneficiary_resetter (contract_address : AccountAddress)
  (beneficiary_resetter : AccountAddress) : comp Empty_set Payload :=
  entry_function (address_of 1, "vesting"%string) "set_beneficiary_resetter" []
    [to_bcs Address contract_address; to_bcs Address beneficiary_resetter].

Definition vesting_set_management_role (contract_address : AccountAddress) (role : bytes)
  (role_holder : AccountAddress) : comp Empty_set Payload :=
  entry_function (address_of 1, "vesting"%string) "set_management_role" []
    [to_bcs Address contract_address; to_bcs VecU8 role; to_bcs Address role_holder].

Definition vesting_terminate_vesting_contract (contract_address : AccountAddress) : comp Empty_set
  Payload :=
  entry_function (address_of 1, "vesting"%string) "terminate_vesting_contract" []
    [to_bcs Address contract_address].

Definition vesting_unlock_rewards (contract_address : AccountAddress) : comp Empty_set Payload :=
  entry_function (address_of 1, "vesting"%string) "unlock_rewards" []
    [to_bcs Address contract_address].

Definition vesting_update_operator (contract_address : AccountAddress)
  (new_operator : AccountAddress) (commission_percentage : Z) : comp Empty_set Payload :=
  entry_function (address_of 1, "vesting"%string) "update_operator" []
    [to_bcs Address contract_address; to_bcs Address new_operator;
    to_bcs U64 commission_percentage].

Definition vesting_update_operator_with_same_commission (contract_address : AccountAddress)
  (new_operator : AccountAddress) : comp Empty_set Payload :=
  entry_function (address_of 1, "vesting"%string) "update_operator_with_same_commission" []
    [to_bcs Address contract_address; to_bcs Address new_operator].

Definition vesting_update_voter (contract_address : AccountAddress) (new_voter : AccountAddress) :
  comp Empty_set Payload :=
  entry_function (address_of 1, "vesting"%string) "update_voter" []
    [to_bcs Address contract_address; to_bcs Address new_voter].

Definition vesting_vest (contract_address : AccountAddress) : comp Empty_set Payload :=
  entry_function (address_of 1, "vesting"%string) "vest" [] [to_bcs Address contract_address].

(** [EntryFunctionCall::encode] *)
Definition encode (self : EntryFunctionCall TypeTag) : comp Empty_set Payload :=
  match self with
  | AccountOfferSignerCapability signer_capability_sig_bytes account_scheme
      account_public_key_bytes recipient_address =>
      account_offer_signer_capability signer_capability_sig_bytes account_scheme
        account_public_key_bytes recipient_address
  | AccountRevokeSignerCapability to_be_revoked_address =>
      account_revoke_signer_capability to_be_revoked_address
  | AccountRotateAuthenticationKey from_scheme from_public_key_bytes to_scheme to_public_key_bytes
      cap_rotate_key cap_update_table =>
      account_rotate_authentication_key from_scheme from_public_key_bytes to_scheme
        to_public_key_bytes cap_rotate_key cap_update_table
  | AptosAccountCreateAccount auth_key =>
      aptos_account_create_account auth_key
  | AptosAccountTransfer to_ amount =>
      aptos_account_transfer to_ amount
  | AptosCoinClaimMintCapability =>
      aptos_coin_claim_mint_capability
  | AptosCoinDelegateMintCapability to_ =>
      aptos_coin_delegate_mint_capability to_
  | AptosCoinMint dst_addr amount =>
      aptos_coin_mint dst_addr amount
  | AptosGovernanceAddApprovedScriptHashScript proposal_id =>
      aptos_governance_add_approved_script_hash_script proposal_id
  | AptosGovernanceCreateProposal stake_pool execution_hash metadata_location metadata_hash =>
      aptos_governance_create_proposal stake_pool execution_hash metadata_location metadata_hash
  | AptosGovernanceVote stake_pool proposal_id should_pass =>
      aptos_governance_vote stake_pool proposal_id should_pass
  | CodePublishPackageTxn metadata_serialized code =>
      code_publish_package_txn metadata_serialized code
  | CoinTransfer coin_type to_ amount =>
      coin_transfer coin_type to_ amount
  | CoinUpgradeSupply coin_type =>
      coin_upgrade_supply coin_type
  | ManagedCoinBurn coin_type amount =>
      managed_coin_burn coin_type amount
  | ManagedCoinInitialize coin_type name symbol decimals monitor_supply =>
      managed_coin_initialize coin_type name symbol decimals monitor_supply
  | ManagedCoinMint coin_type dst_addr amount =>
      managed_coin_mint coin_type dst_addr amount
  | ManagedCoinRegister coin_type =>
      managed_coin_register coin_type
  | ResourceAccountCreateResourceAccount seed optional_auth_key =>
      resource_account_create_resource_account seed optional_auth_key
  | ResourceAccountCreateResourceAccountAndFund seed optional_auth_key fund_amount =>
      resource_account_create_resource_account_and_fund seed optional_auth_key fund_amount
  | ResourceAccountCreateResourceAccountAndPublishPackage seed metadata_serialized code =>
      resource_account_create_resource_account_and_publish_package seed metadata_serialized code
  | StakeAddStake amount =>
      stake_add_stake amount
  | StakeIncreaseLockup =>
      stake_increase_lockup
  | StakeInitializeStakeOwner initial_stake_amount operator voter =>
      stake_initialize_stake_owner initial_stake_amount operator voter
  | StakeInitializeValidator consensus_pubkey proof_of_possession network_addresses
      fullnode_addresses =>
      stake_initialize_validator consensus_pubkey proof_of_possession network_addresses
        fullnode_addresses
  | StakeJoinValidatorSet pool_address =>
      stake_join_validator_set pool_address
  | StakeLeaveValidatorSet pool_address =>
      stake_leave_validator_set pool_address
  | StakeReactivateStake amount =>
      stake_reactivate_stake amount
  | StakeRotateConsensusKey pool_address new_consensus_pubkey proof_of_possession =>
      stake_rotate_consensus_key pool_address new_consensus_pubkey proof_of_possession
  | StakeSetDelegatedVoter new_voter =>
      stake_set_delegated_voter new_voter
  | StakeSetOperator new_operator =>
      stake_set_operator new_operator
  | StakeUnlock amount =>
      stake_unlock amount
  | StakeUpdateNetworkAndFullnodeAddresses pool_address new_network_addresses
      new_fullnode_addresses =>
      stake_update_network_and_fullnode_addresses pool_address new_network_addresses
        new_fullnode_addresses
  | StakeWithdraw withdraw_amount =>
      stake_withdraw withdraw_amount
  | StakingContractAddStake operator amount =>
      staking_contract_add_stake operator amount
  | StakingContractCreateStakingContract operator voter amount commission_percentage
      contract_creation_seed =>
      staking_contract_create_staking_contract operator voter amount commission_percentage
        contract_creation_seed
  | StakingContractDistribute staker operator =>
      staking_contract_distribute staker operator
  | StakingContractRequestCommission staker operator =>
      staking_contract_request_commission staker operator
  | StakingContractResetLockup operator =>
      staking_contract_reset_lockup operator
  | StakingContractSwitchOperator old_operator new_operator new_commission_percentage =>
      staking_contract_switch_operator old_operator new_operator new_commission_percentage
  | StakingContractSwitchOperatorWithSameCommission old_operator new_operator =>
      staking_contract_switch_operator_with_same_commission old_operator new_operator
  | StakingContractUnlockRewards operator =>
      staking_contract_unlock_rewards operator
  | StakingContractUnlockStake operator amount =>
      staking_contract_unlock_stake operator amount
  | StakingContractUpdateVoter operator new_voter =>
      staking_contract_update_voter operator new_voter
  | StakingProxySetOperator old_operator new_operator =>
      staking_proxy_set_operator old_operator new_operator
  | StakingProxySetStakePoolOperator new_operator =>
      staking_proxy_set_stake_pool_operator new_operator
  | StakingProxySetStakePoolVoter new_voter =>
      staking_proxy_set_stake_pool_voter new_voter
  | StakingProxySetStakingContractOperator old_operator new_operator =>
      staking_proxy_set_staking_contract_operator old_operator new_operator
  | StakingProxySetStakingContractVoter operator new_voter =>
      staking_proxy_set_staking_contract_voter operator new_voter
  | StakingProxySetVestingContractOperator old_operator new_operator =>
      staking_proxy_set_vesting_contract_operator old_operator new_operator
  | StakingProxySetVestingContractVoter operator new_voter =>
      staking_proxy_set_vesting_contract_voter operator new_voter
  | StakingProxySetVoter operator new_voter =>
      staking_proxy_set_voter operator new_voter
  | VersionSetVersion major =>
      version_set_version major
  | VestingAdminWithdraw contract_address =>
      vesting_admin_withdraw contract_address
  | VestingDistribute contract_address =>
      vesting_distribute contract_address
  | VestingResetBeneficiary contract_address shareholder =>
      vesting_reset_beneficiary contract_address shareholder
  | VestingResetLockup contract_address =>
      vesting_reset_lockup contract_address
  | VestingSetBeneficiary contract_address shareholder new_beneficiary =>
      vesting_set_beneficiary contract_address shareholder new_beneficiary
  | VestingSetBeneficiaryResetter contract_address beneficiary_resetter =>
      vesting_set_beneficiary_resetter contract_address beneficiary_resetter
  | VestingSetManagementRole contract_address role role_holder =>
      vesting_set_management_role contract_address role role_holder
  | VestingTerminateVestingContract contract_address =>
      vesting_terminate_vesting_contract contract_address
  | VestingUnlockRewards contract_address =>
      vesting_unlock_rewards contract_address
  | VestingUpdateOperator contract_address new_operator commission_percentage =>
      vesting_update_operator contract_address new_operator commission_percentage
  | VestingUpdateOperatorWithSameCommission contract_address new_operator =>
      vesting_update_operator_with_same_commission contract_address new_operator
  | VestingUpdateVoter contract_address new_voter =>
      vesting_update_voter contract_address new_voter
  | VestingVest contract_address =>
      vesting_vest contract_address
  end.
End Builders.

(** ** The decoders *)

Module decoder.
Section Decoders.
Context `{BcsArgs} {TypeTag TransactionArgument : Type}.
Abbreviation Payload := (TransactionPayload TypeTag TransactionArgument).

Definition account_offer_signer_capability (payload : Payload)
  : option (EntryFunctionCall TypeTag) :=
  if_entry_function payload (fun _ args =>
    signer_capability_sig_bytes ← arg VecU8 args 0;
    account_scheme ← arg U8 args 1;
    account_public_key_bytes ← arg VecU8 args 2;
    recipient_address ← arg Address args 3;
    Some (AccountOfferSignerCapability signer_capability_sig_bytes account_scheme
      account_public_key_bytes recipient_address)).

Definition account_revoke_signer_capability (payload : Payload)
  : option (EntryFunctionCall TypeTag) :=
  if_entry_function payload (fun _ args =>
    to_be_revoked_address ← arg Address args 0;
    Some (AccountRevokeSignerCapability to_be_revoked_address)).

Definition account_rotate_authentication_key (payload : Payload)
  : option (EntryFunctionCall TypeTag) :=
  if_entry_function payload (fun _ args =>
    from_scheme ← arg U8 args 0;
    from_public_key_bytes ← arg VecU8 args 1;
    to_scheme ← arg U8 args 2;
    to_public_key_bytes ← arg VecU8 args 3;
    cap_rotate_key ← arg VecU8 args 4;
    cap_update_table ← arg VecU8 args 5;
    Some (AccountRotateAuthenticationKey from_scheme from_public_key_bytes to_scheme
      to_public_key_bytes cap_rotate_key cap_update_table)).

Definition aptos_account_create_account (payload : Payload)
  : option (EntryFunctionCall TypeTag) :=
  if_entry_function payload (fun _ args =>
    auth_key ← arg Address args 0;
    Some (AptosAccountCreateAccount auth_key)).

Definition aptos_account_transfer (payload : Payload)
  : option (EntryFunctionCall TypeTag) :=
  if_entry_function payload (fun _ args =>
    to_ ← arg Address args 0;
    amount ← arg U64 args 1;
    Some (AptosAccountTransfer to_ amount)).

Definition aptos_coin_claim_mint_capability (payload : Payload)
  : option (EntryFunctionCall TypeTag) :=
  if_entry_function payload (fun _ _ =>
    Some AptosCoinClaimMintCapability).

Definition aptos_coin_delegate_mint_capability (payload : Payload)
  : option (EntryFunctionCall TypeTag) :=
  if_entry_function payload (fun _ args =>
    to_ ← arg Address args 0;
    Some (AptosCoinDelegateMintCapability to_)).

Definition aptos_coin_mint (payload : Payload)
  : option (EntryFunctionCall TypeTag) :=
  if_entry_function payload (fun _ args =>
    dst_addr ← arg Address args 0;
    amount ← arg U64 args 1;
    Some (AptosCoinMint dst_addr amount)).

Definition aptos_governance_add_approved_script_hash_script (payload : Payload)
  : option (EntryFunctionCall TypeTag) :=
  if_entry_function payload (fun _ args =>
    proposal_id ← arg U64 args 0;
    Some (AptosGovernanceAddApprovedScriptHashScript proposal_id)).

Definition aptos_governance_create_proposal (payload : Payload)
  : option (EntryFunctionCall TypeTag) :=
  if_entry_function payload (fun _ args =>
    stake_pool ← arg Address args 0;
    execution_hash ← arg VecU8 args 1;
    metadata_location ← arg VecU8 args 2;
    metadata_hash ← arg VecU8 args 3;
    Some (AptosGovernanceCreateProposal stake_pool execution_hash metadata_location
      metadata_hash)).

Definition aptos_governance_vote (payload : Payload)
  : option (EntryFunctionCall TypeTag) :=
  if_entry_function payload (fun _ args =>
    stake_pool ← arg Address args 0;
    proposal_id ← arg U64 args 1;
    should_pass ← arg Bool args 2;
    Some (AptosGovernanceVote stake_pool proposal_id should_pass)).

Definition code_publish_package_txn (payload : Payload)
  : option (EntryFunctionCall TypeTag) :=
  if_entry_function payload (fun _ args =>
    metadata_serialized ← arg VecU8 args 0;
    code ← arg VecVecU8 args 1;
    Some (CodePublishPackageTxn metadata_serialized code)).

Definition coin_transfer (payload : Payload)
  : option (EntryFunctionCall TypeTag) :=
  if_entry_function payload (fun ty_args args =>
    coin_type ← ty_arg ty_args 0;
    to_ ← arg Address args 0;
    amount ← arg U64 args 1;
    Some (CoinTransfer coin_type to_ amount)).

Definition coin_upgrade_supply (payload : Payload)
  : option (EntryFunctionCall TypeTag) :=
  if_entry_function payload (fun ty_args _ =>
    coin_type ← ty_arg ty_args 0;
    Some (CoinUpgradeSupply coin_type)).

Definition managed_coin_burn (payload : Payload)
  : option (EntryFunctionCall TypeTag) :=
  if_entry_function payload (fun ty_args args =>
    coin_type ← ty_arg ty_args 0;
    amount ← arg U64 args 0;
    Some (ManagedCoinBurn coin_type amount)).

Definition managed_coin_initialize (payload : Payload)
  : option (EntryFunctionCall TypeTag) :=
  if_entry_function payload (fun ty_args args =>
    coin_type ← ty_arg ty_args 0;
    name ← arg VecU8 args 0;
    symbol ← arg VecU8 args 1;
    decimals ← arg U8 args 2;
    monitor_supply ← arg Bool args 3;
    Some (ManagedCoinInitialize coin_type name symbol decimals monitor_supply)).

Definition managed_coin_mint (payload : Payload)
  : option (EntryFunctionCall TypeTag) :=
  if_entry_function payload (fun ty_args args =>
    coin_type ← ty_arg ty_args 0;
    dst_addr ← arg Address args 0;
    amount ← arg U64 args 1;
    Some (ManagedCoinMint coin_type dst_addr amount)).

Definition managed_coin_register (payload : Payload)
  : option (EntryFunctionCall TypeTag) :=
  if_entry_function payload (fun ty_args _ =>
    coin_type ← ty_arg ty_args 0;
    Some (ManagedCoinRegister coin_type)).

Definition resource_account_create_resource_account (payload : Payload)
  : option (EntryFunctionCall TypeTag) :=
  if_entry_function payload (fun _ args =>
    seed ← arg VecU8 args 0;
    optional_auth_key ← arg VecU8 args 1;
    Some (ResourceAccountCreateResourceAccount seed optional_auth_key)).

Definition resource_account_create_resource_account_and_fund (payload : Payload)
  : option (EntryFunctionCall TypeTag) :=
  if_entry_function payload (fun _ args =>
    seed ← arg VecU8 args 0;
    optional_auth_key ← arg VecU8 args 1;
    fund_amount ← arg U64 args 2;
    Some (ResourceAccountCreateResourceAccountAndFund seed optional_auth_key fund_amount)).

Definition resource_account_create_resource_account_and_publish_package (payload : Payload)
  : option (EntryFunctionCall TypeTag) :=
  if_entry_function payload (fun _ args =>
    seed ← arg VecU8 args 0;
    metadata_serialized ← arg VecU8 args 1;
    code ← arg VecVecU8 args 2;
    Some (ResourceAccountCreateResourceAccountAndPublishPackage seed metadata_serialized code)).

Definition stake_add_stake (payload : Payload)
  : option (EntryFunctionCall TypeTag) :=
  if_entry_function payload (fun _ args =>
    amount ← arg U64 args 0;
    Some (StakeAddStake amount)).

Definition stake_increase_lockup (payload : Payload)
  : option (EntryFunctionCall TypeTag) :=
  if_entry_function payload (fun _ _ =>
    Some StakeIncreaseLockup).

Definition stake_initialize_stake_owner (payload : Payload)
  : option (EntryFunctionCall TypeTag) :=
  if_entry_function payload (fun _ args =>
    initial_stake_amount ← arg U64 args 0;
    operator ← arg Address args 1;
    voter ← arg Address args 2;
    Some (StakeInitializeStakeOwner initial_stake_amount operator voter)).

Definition stake_initialize_validator (payload : Payload)
  : option (EntryFunctionCall TypeTag) :=
  if_entry_function payload (fun _ args =>
    consensus_pubkey ← arg VecU8 args 0;
    proof_of_possession ← arg VecU8 args 1;
    network_addresses ← arg VecU8 args 2;
    fullnode_addresses ← arg VecU8 args 3;
    Some (StakeInitializeValidator consensus_pubkey proof_of_possession network_addresses
      fullnode_addresses)).

Definition stake_join_validator_set (payload : Payload)
  : option (EntryFunctionCall TypeTag) :=
  if_entry_function payload (fun _ args =>
    pool_address ← arg Address args 0;
    Some (StakeJoinValidatorSet pool_address)).

Definition stake_leave_validator_set (payload : Payload)
  : option (EntryFunctionCall TypeTag) :=
  if_entry_function payload (fun _ args =>
    pool_address ← arg Address args 0;
    Some (StakeLeaveValidatorSet pool_address)).

Definition stake_reactivate_stake (payload : Payload)
  : option (EntryFunctionCall TypeTag) :=
  if_entry_function payload (fun _ args =>
    amount ← arg U64 args 0;
    Some (StakeReactivateStake amount)).

Definition stake_rotate_consensus_key (payload : Payload)
  : option (EntryFunctionCall TypeTag) :=
  if_entry_function payload (fun _ args =>
    pool_address ← arg Address args 0;
    new_consensus_pubkey ← arg VecU8 args 1;
    proof_of_possession ← arg VecU8 args 2;
    Some (StakeRotateConsensusKey pool_address new_consensus_pubkey proof_of_possession)).

Definition stake_set_delegated_voter (payload : Payload)
  : option (EntryFunctionCall TypeTag) :=
  if_entry_function payload (fun _ args =>
    new_voter ← arg Address args 0;
    Some (StakeSetDelegatedVoter new_voter)).

Definition stake_set_operator (payload : Payload)
  : option (EntryFunctionCall TypeTag) :=
  if_entry_function payload (fun _ args =>
    new_operator ← arg Address args 0;
    Some (StakeSetOperator new_operator)).

Definition stake_unlock (payload : Payload)
  : option (EntryFunctionCall TypeTag) :=
  if_entry_function payload (fun _ args =>
    amount ← arg U64 args 0;
    Some (StakeUnlock amount)).

Definition stake_update_network_and_fullnode_addresses (payload : Payload)
  : option (EntryFunctionCall TypeTag) :=
  if_entry_function payload (fun _ args =>
    pool_address ← arg Address args 0;
    new_network_addresses ← arg VecU8 args 1;
    new_fullnode_addresses ← arg VecU8 args 2;
    Some (StakeUpdateNetworkAndFullnodeAddresses pool_address new_network_addresses
      new_fullnode_addresses)).

Definition stake_withdraw (payload : Payload)
  : option (EntryFunctionCall TypeTag) :=
  if_entry_function payload (fun _ args =>
    withdraw_amount ← arg U64 args 0;
    Some (StakeWithdraw withdraw_amount)).

Definition staking_contract_add_stake (payload : Payload)
  : option (EntryFunctionCall TypeTag) :=
  if_entry_function payload (fun _ args =>
    operator ← arg Address args 0;
    amount ← arg U64 args 1;
    Some (StakingContractAddStake operator amount)).

Definition staking_contract_create_staking_contract (payload : Payload)
  : option (EntryFunctionCall TypeTag) :=
  if_entry_function payload (fun _ args =>
    operator ← arg Address args 0;
    voter ← arg Address args 1;
    amount ← arg U64 args 2;
    commission_percentage ← arg U64 args 3;
    contract_creation_seed ← arg VecU8 args 4;
    Some (StakingContractCreateStakingContract operator voter amount commission_percentage
      contract_creation_seed)).

Definition staking_contract_distribute (payload : Payload)
  : option (EntryFunctionCall TypeTag) :=
  if_entry_function payload (fun _ args =>
    staker ← arg Address args 0;
    operator ← arg Address args 1;
    Some (StakingContractDistribute staker operator)).

Definition staking_contract_request_commission (payload : Payload)
  : option (EntryFunctionCall TypeTag) :=
  if_entry_function payload (fun _ args =>
    staker ← arg Address args 0;
    operator ← arg Address args 1;
    Some (StakingContractRequestCommission staker operator)).

Definition staking_contract_reset_lockup (payload : Payload)
  : option (EntryFunctionCall TypeTag) :=
  if_entry_function payload (fun _ args =>
    operator ← arg Address args 0;
    Some (StakingContractResetLockup operator)).

Definition staking_contract_switch_operator (payload : Payload)
  : option (EntryFunctionCall TypeTag) :=
  if_entry_function payload (fun _ args =>
    old_operator ← arg Address args 0;
    new_operator ← arg Address args 1;
    new_commission_percentage ← arg U64 args 2;
    Some (StakingContractSwitchOperator old_operator new_operator new_commission_percentage)).

Definition staking_contract_switch_operator_with_same_commission (payload : Payload)
  : option (EntryFunctionCall TypeTag) :=
  if_entry_function payload (fun _ args =>
    old_operator ← arg Address args 0;
    new_operator ← arg Address args 1;
    Some (StakingContractSwitchOperatorWithSameCommission old_operator new_operator)).

Definition staking_contract_unlock_rewards (payload : Payload)
  : option (EntryFunctionCall TypeTag) :=
  if_entry_function payload (fun _ args =>
    operator ← arg Address args 0;
    Some (StakingContractUnlockRewards operator)).

Definition staking_contract_unlock_stake (payload : Payload)
  : option (EntryFunctionCall TypeTag) :=
  if_entry_function payload (fun _ args =>
    operator ← arg Address args 0;
    amount ← arg U64 args 1;
    Some (StakingContractUnlockStake operator amount)).

Definition staking_contract_update_voter (payload : Payload)
  : option (EntryFunctionCall TypeTag) :=
  if_entry_function payload (fun _ args =>
    operator ← arg Address args 0;
    new_voter ← arg Address args 1;
    Some (StakingContractUpdateVoter operator new_voter)).

Definition staking_proxy_set_operator (payload : Payload)
  : option (EntryFunctionCall TypeTag) :=
  if_entry_function payload (fun _ args =>
    old_operator ← arg Address args 0;
    new_operator ← arg Address args 1;
    Some (StakingProxySetOperator old_operator new_operator)).

Definition staking_proxy_set_stake_pool_operator (payload : Payload)
  : option (EntryFunctionCall TypeTag) :=
  if_entry_function payload (fun _ args =>
    new_operator ← arg Address args 0;
    Some (StakingProxySetStakePoolOperator new_operator)).

Definition staking_proxy_set_stake_pool_voter (payload : Payload)
  : option (EntryFunctionCall TypeTag) :=
  if_entry_function payload (fun _ args =>
    new_voter ← arg Address args 0;
    Some (StakingProxySetStakePoolVoter new_voter)).

Definition staking_proxy_set_staking_contract_operator (payload : Payload)
  : option (EntryFunctionCall TypeTag) :=
  if_entry_function payload (fun _ args =>
    old_operator ← arg Address args 0;
    new_operator ← arg Address args 1;
    Some (StakingProxySetStakingContractOperator old_operator new_operator)).

Definition staking_proxy_set_staking_contract_voter (payload : Payload)
  : option (EntryFunctionCall TypeTag) :=
  if_entry_function payload (fun _ args =>
    operator ← arg Address args 0;
    new_voter ← arg Address args 1;
    Some (StakingProxySetStakingContractVoter operator new_voter)).

Definition staking_proxy_set_vesting_contract_operator (payload : Payload)
  : option (EntryFunctionCall TypeTag) :=
  if_entry_function payload (fun _ args =>
    old_operator ← arg Address args 0;
    new_operator ← arg Address args 1;
    Some (StakingProxySetVestingContractOperator old_operator new_operator)).

Definition staking_proxy_set_vesting_contract_voter (payload : Payload)
  : option (EntryFunctionCall TypeTag) :=
  if_entry_function payload (fun _ args =>
    operator ← arg Address args 0;
    new_voter ← arg Address args 1;
    Some (StakingProxySetVestingContractVoter operator new_voter)).

Definition staking_proxy_set_voter (payload : Payload)
  : option (EntryFunctionCall TypeTag) :=
  if_entry_function payload (fun _ args =>
    operator ← arg Address args 0;
    new_voter ← arg Address args 1;
    Some (StakingProxySetVoter operator new_voter)).

Definition version_set_version (payload : Payload)
  : option (EntryFunctionCall TypeTag) :=
  if_entry_function payload (fun _ args =>
    major ← arg U64 args 0;
    Some (VersionSetVersion major)).

Definition vesting_admin_withdraw (payload : Payload)
  : option (EntryFunctionCall TypeTag) :=
  if_entry_function payload (fun _ args =>
    contract_address ← arg Address args 0;
    Some (VestingAdminWithdraw contract_address)).

Definition vesting_distribute (payload : Payload)
  : option (EntryFunctionCall TypeTag) :=
  if_entry_function payload (fun _ args =>
    contract_address ← arg Address args 0;
    Some (VestingDistribute contract_address)).

Definition vesting_reset_beneficiary (payload : Payload)
  : option (EntryFunctionCall TypeTag) :=
  if_entry_function payload (fun _ args =>
    contract_address ← arg Address args 0;
    shareholder ← arg Address args 1;
    Some (VestingResetBeneficiary contract_address shareholder)).

Definition vesting_reset_lockup (payload : Payload)
  : option (EntryFunctionCall TypeTag) :=
  if_entry_function payload (fun _ args =>
    contract_address ← arg Address args 0;
    Some (VestingResetLockup contract_address)).

Definition vesting_set_beneficiary (payload : Payload)
  : option (EntryFunctionCall TypeTag) :=
  if_entry_function payload (fun _ args =>
    contract_address ← arg Address args 0;
    shareholder ← arg Address args 1;
    new_beneficiary ← arg Address args 2;
    Some (VestingSetBeneficiary contract_address shareholder new_beneficiary)).

Definition vesting_set_beneficiary_resetter (payload : Payload)
  : option (EntryFunctionCall TypeTag) :=
  if_entry_function payload (fun _ args =>
    contract_address ← arg Address args 0;
    beneficiary_resetter ← arg Address args 1;
    Some (VestingSetBeneficiaryResetter contract_address beneficiary_resetter)).

Definition vesting_set_management_role (payload : Payload)
  : option (EntryFunctionCall TypeTag) :=
  if_entry_function payload (fun _ args =>
    contract_address ← arg Address args 0;
    role ← arg VecU8 args 1;
    role_holder ← arg Address args 2;
    Some (VestingSetManagementRole contract_address role role_holder)).

Definition vesting_terminate_vesting_contract (payload : Payload)
  : option (EntryFunctionCall TypeTag) :=
  if_entry_function payload (fun _ args =>
    contract_address ← arg Address args 0;
    Some (VestingTerminateVestingContract contract_address)).

Definition vesting_unlock_rewards (payload : Payload)
  : option (EntryFunctionCall TypeTag) :=
  if_entry_function payload (fun _ args =>
    contract_address ← arg Address args 0;
    Some (VestingUnlockRewards contract_address)).

Definition vesting_update_operator (payload : Payload)
  : option (EntryFunctionCall TypeTag) :=
  if_entry_function payload (fun _ args =>
    contract_address ← arg Address args 0;
    new_operator ← arg Address args 1;
    commission_percentage ← arg U64 args 2;
    Some (VestingUpdateOperator contract_address new_operator commission_percentage)).

Definition vesting_update_operator_with_same_commission (payload : Payload)
  : option (EntryFunctionCall TypeTag) :=
  if_entry_function payload (fun _ args =>
    contract_address ← arg Address args 0;
    new_operator ← arg Address args 1;
    Some (VestingUpdateOperatorWithSameCommission contract_address new_operator)).

Definition vesting_update_voter (payload : Payload)
  : option (EntryFunctionCall TypeTag) :=
  if_entry_function payload (fun _ args =>
    contract_address ← arg Address args 0;
    new_voter ← arg Address args 1;
    Some (VestingUpdateVoter contract_address new_voter)).

Definition vesting_vest (payload : Payload)
  : option (EntryFunctionCall TypeTag) :=
  if_entry_function payload (fun _ args =>
    contract_address ← arg Address args 0;
    Some (VestingVest contract_address)).

End Decoders.
End decoder.

(** ** Decoding *)

Section Decode.
Context `{BcsArgs} {TypeTag TransactionArgument : Type}.
Abbreviation Payload := (TransactionPayload TypeTag TransactionArgument).

(** The entries of [SCRIPT_FUNCTION_DECODER_MAP], in the order in which they are inserted. *)
Definition decoder_entries : list (string * (Payload -> option (EntryFunctionCall TypeTag))) := [
  ("account_offer_signer_capability"%string, decoder.account_offer_signer_capability);
  ("account_revoke_signer_capability"%string, decoder.account_revoke_signer_capability);
  ("account_rotate_authentication_key"%string, decoder.account_rotate_authentication_key);
  ("aptos_account_create_account"%string, decoder.aptos_account_create_account);
  ("aptos_account_transfer"%string, decoder.aptos_account_transfer);
  ("aptos_coin_claim_mint_capability"%string, decoder.aptos_coin_claim_mint_capability);
  ("aptos_coin_delegate_mint_capability"%string, decoder.aptos_coin_delegate_mint_capability);
  ("aptos_coin_mint"%string, decoder.aptos_coin_mint);
  ("aptos_governance_add_approved_script_hash_script"%string, decoder.aptos_governance_add_approved_script_hash_script);
  ("aptos_governance_create_proposal"%string, decoder.aptos_governance_create_proposal);
  ("aptos_governance_vote"%string, decoder.aptos_governance_vote);
  ("code_publish_package_txn"%string, decoder.code_publish_package_txn);
  ("coin_transfer"%string, decoder.coin_transfer);
  ("coin_upgrade_supply"%string, decoder.coin_upgrade_supply);
  ("managed_coin_burn"%string, decoder.managed_coin_burn);
  ("managed_coin_initialize"%string, decoder.managed_coin_initialize);
  ("managed_coin_mint"%string, decoder.managed_coin_mint);
  ("managed_coin_register"%string, decoder.managed_coin_register);
  ("resource_account_create_resource_account"%string, decoder.resource_account_create_resource_account);
  ("resource_account_create_resource_account_and_fund"%string, decoder.resource_account_create_resource_account_and_fund);
  ("resource_account_create_resource_account_and_publish_package"%string, decoder.resource_account_create_resource_account_and_publish_package);
  ("stake_add_stake"%string, decoder.stake_add_stake);
  ("stake_increase_lockup"%string, decoder.stake_increase_lockup);
  ("stake_initialize_stake_owner"%string, decoder.stake_initialize_stake_owner);
  ("stake_initialize_validator"%string, decoder.stake_initialize_validator);
  ("stake_join_validator_set"%string, decoder.stake_join_validator_set);
  ("stake_leave_validator_set"%string, decoder.stake_leave_validator_set);
  ("stake_reactivate_stake"%string, decoder.stake_reactivate_stake);
  ("stake_rotate_consensus_key"%string, decoder.stake_rotate_consensus_key);
  ("stake_set_delegated_voter"%string, decoder.stake_set_delegated_voter);
  ("stake_set_operator"%string, decoder.stake_set_operator);
  ("stake_unlock"%string, decoder.stake_unlock);
  ("stake_update_network_and_fullnode_addresses"%string, decoder.stake_update_network_and_fullnode_addresses);
  ("stake_withdraw"%string, decoder.stake_withdraw);
  ("staking_contract_add_stake"%string, decoder.staking_contract_add_stake);
  ("staking_contract_create_staking_contract"%string, decoder.staking_contract_create_staking_contract);
  ("staking_contract_distribute"%string, decoder.staking_contract_distribute);
  ("staking_contract_request_commission"%string, decoder.staking_contract_request_commission);
  ("staking_contract_reset_lockup"%string, decoder.staking_contract_reset_lockup);
  ("staking_contract_switch_operator"%string, decoder.staking_contract_switch_operator);
  ("staking_contract_switch_operator_with_same_commission"%string, decoder.staking_contract_switch_operator_with_same_commission);
  ("staking_contract_unlock_rewards"%string, decoder.staking_contract_unlock_rewards);
  ("staking_contract_unlock_stake"%string, decoder.staking_contract_unlock_stake);
  ("staking_contract_update_voter"%string, decoder.staking_contract_update_voter);
  ("staking_proxy_set_operator"%string, decoder.staking_proxy_set_operator);
  ("staking_proxy_set_stake_pool_operator"%string, decoder.staking_proxy_set_stake_pool_operator);
  ("staking_proxy_set_stake_pool_voter"%string, decoder.staking_proxy_set_stake_pool_voter);
  ("staking_proxy_set_staking_contract_operator"%string, decoder.staking_proxy_set_staking_contract_operator);
  ("staking_proxy_set_staking_contract_voter"%string, decoder.staking_proxy_set_staking_contract_voter);
  ("staking_proxy_set_vesting_contract_operator"%string, decoder.staking_proxy_set_vesting_contract_operator);
  ("staking_proxy_set_vesting_contract_voter"%string, decoder.staking_proxy_set_vesting_contract_voter);
  ("staking_proxy_set_voter"%string, decoder.staking_proxy_set_voter);
  ("version_set_version"%string, decoder.version_set_version);
  ("vesting_admin_withdraw"%string, decoder.vesting_admin_withdraw);
  ("vesting_distribute"%string, decoder.vesting_distribute);
  ("vesting_reset_beneficiary"%string, decoder.vesting_reset_beneficiary);
  ("vesting_reset_lockup"%string, decoder.vesting_reset_lockup);
  ("vesting_set_beneficiary"%string, decoder.vesting_set_beneficiary);
  ("vesting_set_beneficiary_resetter"%string, decoder.vesting_set_beneficiary_resetter);
  ("vesting_set_management_role"%string, decoder.vesting_set_management_role);
  ("vesting_terminate_vesting_contract"%string, decoder.vesting_terminate_vesting_contract);
  ("vesting_unlock_rewards"%string, decoder.vesting_unlock_rewards);
  ("vesting_update_operator"%string, decoder.vesting_update_operator);
  ("vesting_update_operator_with_same_commission"%string, decoder.vesting_update_operator_with_same_commission);
  ("vesting_update_voter"%string, decoder.vesting_update_voter);
  ("vesting_vest"%string, decoder.vesting_vest)
].

Definition SCRIPT_FUNCTION_DECODER_MAP : gmap string (Payload -> option (EntryFunctionCall TypeTag)) :=
  insert_all decoder_entries.

(** [EntryFunctionCall::decode] *)
Definition decode (payload : Payload) : option (EntryFunctionCall TypeTag) :=
  match payload with
  | PayloadEntryFunction module function _ _ =>
      match SCRIPT_FUNCTION_DECODER_MAP !! decoder_key module.2 function with
      | Some decoder => decoder payload
      | None => None
      end
  | _ => None
  end.
End Decode.

(** ** What [decode] recognises *)

Section Exact.
Context `{BcsArgs, !BcsArgsLaws} {TypeTag TransactionArgument : Type}.
Abbreviation Payload := (TransactionPayload TypeTag TransactionArgument).

#[export] Instance sdk_laws :
  SdkLaws (TransactionArgument := TransactionArgument) (encode (TypeTag := TypeTag)) decoder_entries.
Proof.
  split.
  - cbn. apply (bool_decide_unpack _). vm_compute. exact I.
  - unfold decoder_entries. repeat (apply Forall_cons_2; [decoder_case|]). apply Forall_nil_2.
  - intros call p. destruct call; encoder_case @decoder_entries.
Qed.

(** C34. [decode] recognises a payload as a call exactly when it is an entry function with the
    same key [module_function] as the payload that [encode] builds for the call, and with
    arguments that start with those of that payload.  So every call comes back from its own
    payload, and of the payloads that are not built by [encode] only the extra arguments,
    the address and the split of the name are not looked at. *)
Theorem decode_recognises_exactly (payload : Payload) (call : EntryFunctionCall TypeTag) :
  (decode payload = Some call <->
   exists module function ty_args args,
     payload = PayloadEntryFunction module function ty_args args /\
     recognises (TransactionArgument := TransactionArgument) encode (decoder_key module.2 function)
       ty_args args call) /\
  (encode call = Return payload -> decode payload = Some call).
Proof. apply (decode_exact _ decoder_entries). intros []; reflexivity. Qed.
End Exact.

(** ** Examples *)

Section Example.
#[local] Existing Instance ShortBcs.short_bcs.
#[local] Existing Instance ShortBcs.short_bcs_laws.

Abbreviation transfer := (CoinTransfer (TypeTag := string) "0x1::aptos_coin::AptosCoin" (address_of 7) 500).

Lemma decode_recognises_exactly_witness : exists payload : TransactionPayload string unit,
  encode transfer = Return payload /\ decode payload = Some transfer.
Proof.
  eexists. split; [vm_compute; reflexivity|].
  apply (decode_recognises_exactly (TypeTag := string) (TransactionArgument := unit) _ transfer).
  vm_compute. reflexivity.
Defined.

(** The address of the module is not looked at: a call of [0xbad::coin::transfer], or of
    [0xbad::coin_transfer] when a module is named so, is shown as a transfer of the framework. *)
Example foreign_module_decoded (address : AccountAddress) : exists ty_args args,
  encode transfer = Return (PayloadEntryFunction (address_of 1, "coin") "transfer" ty_args args
                             : TransactionPayload string unit) /\
  decode (PayloadEntryFunction (address, "coin") "transfer" ty_args args
            : TransactionPayload string unit) = Some transfer.
Proof. eexists _, _. split; [vm_compute; reflexivity|]. vm_compute. reflexivity. Qed.
End Example.
