(* ===== verification/TokenSdk.v ===== *)
(** * The entry functions of the tokens ([framework/cached-packages/src/aptos_token_sdk_builder.rs])

    As in [FrameworkSdk], for the package [0x3]. *)
From S2P Require Import Prelude MoveVM Sdk.

#[local] Open Scope Z_scope.

(** [EntryFunctionCall]: a call into a known Move entry function. *)
Inductive EntryFunctionCall (TypeTag : Type) : Type :=
  | TokenBurn (creators_address : AccountAddress) (collection : bytes) (name : bytes)
      (property_version : Z) (amount : Z)
  | TokenBurnByCreator (owner : AccountAddress) (collection : bytes) (name : bytes)
      (property_version : Z) (amount : Z)
  | TokenCreateCollectionScript (name : bytes) (description : bytes) (uri : bytes) (maximum : Z)
      (mutate_setting : list bool)
  | TokenCreateTokenScript (collection : bytes) (name : bytes) (description : bytes) (balance : Z)
      (maximum : Z) (uri : bytes) (royalty_payee_address : AccountAddress)
      (royalty_points_denominator : Z) (royalty_points_numerator : Z) (mutate_setting : list bool)
      (property_keys : list bytes) (property_values : list bytes) (property_types : list bytes)
  | TokenDirectTransferScript (creators_address : AccountAddress) (collection : bytes)
      (name : bytes) (property_version : Z) (amount : Z)
  | TokenInitializeTokenScript
  | TokenMintScript (token_data_address : AccountAddress) (collection : bytes) (name : bytes)
      (amount : Z)
  | TokenMutateTokenProperties (token_owner : AccountAddress) (creator : AccountAddress)
      (collection_name : bytes) (token_name : bytes) (token_property_version : Z) (amount : Z)
      (keys : list bytes) (values : list bytes) (types : list bytes)
  | TokenOptInDirectTransfer (opt_in : bool)
  | TokenCoinSwapListTokenForSwap (coin_type : TypeTag) (_creators_address : AccountAddress)
      (_collection : bytes) (_name : bytes) (_property_version : Z) (_token_amount : Z)
      (_min_coin_per_token : Z) (_locked_until_secs : Z)
  | TokenTransfersCancelOfferScript (receiver : AccountAddress) (creator : AccountAddress)
      (collection : bytes) (name : bytes) (property_version : Z)
  | TokenTransfersClaimScript (sender : AccountAddress) (creator : AccountAddress)
      (collection : bytes) (name : bytes) (property_version : Z)
  | TokenTransfersOfferScript (receiver : AccountAddress) (creator : AccountAddress)
      (collection : bytes) (name : bytes) (property_version : Z) (amount : Z).
Arguments TokenBurn {TypeTag} creators_address collection name property_version amount.
Arguments TokenBurnByCreator {TypeTag} owner collection name property_version amount.
Arguments TokenCreateCollectionScript {TypeTag} name description uri maximum mutate_setting.
Arguments TokenCreateTokenScript {TypeTag} collection name description balance maximum uri
  royalty_payee_address royalty_points_denominator royalty_points_numerator mutate_setting
  property_keys property_values property_types.
Arguments TokenDirectTransferScript {TypeTag} creators_address collection name property_version
  amount.
Arguments TokenInitializeTokenScript {TypeTag}.
Arguments TokenMintScript {TypeTag} token_data_address collection name amount.
Arguments TokenMutateTokenProperties {TypeTag} token_owner creator collection_name token_name
  token_property_version amount keys values types.
Arguments TokenOptInDirectTransfer {TypeTag} opt_in.
Arguments TokenCoinSwapListTokenForSwap {TypeTag} coin_type _creators_address _collection _name
  _property_version _token_amount _min_coin_per_token _locked_until_secs.
Arguments TokenTransfersCancelOfferScript {TypeTag} receiver creator collection name
  property_version.
Arguments TokenTransfersClaimScript {TypeTag} sender creator collection name property_version.
Arguments TokenTransfersOfferScript {TypeTag} receiver creator collection name property_version
  amount.

(** ** The builders *)

Section Builders.
Context `{BcsArgs} {TypeTag TransactionArgument : Type}.
Abbreviation Payload := (TransactionPayload TypeTag TransactionArgument).

Definition token_burn (creators_address : AccountAddress) (collection : bytes) (name : bytes)
  (property_version : Z) (amount : Z) : comp Empty_set Payload :=
  entry_function (address_of 3, "token"%string) "burn" [] [to_bcs Address creators_address;
    to_bcs VecU8 collection; to_bcs VecU8 name; to_bcs U64 property_version; to_bcs U64 amount].

Definition token_burn_by_creator (owner : AccountAddress) (collection : bytes) (name : bytes)
  (property_version : Z) (amount : Z) : comp Empty_set Payload :=
  entry_function (address_of 3, "token"%string) "burn_by_creator" [] [to_bcs Address owner;
    to_bcs VecU8 collection; to_bcs VecU8 name; to_bcs U64 property_version; to_bcs U64 amount].

Definition token_create_collection_script (name : bytes) (description : bytes) (uri : bytes)
  (maximum : Z) (mutate_setting : list bool) : comp Empty_set Payload :=
  entry_function (address_of 3, "token"%string) "create_collection_script" [] [to_bcs VecU8 name;
    to_bcs VecU8 description; to_bcs VecU8 uri; to_bcs U64 maximum;
    to_bcs VecBool mutate_setting].

Definition token_create_token_script (collection : bytes) (name : bytes) (description : bytes)
  (balance : Z) (maximum : Z) (uri : bytes) (royalty_payee_address : AccountAddress)
  (royalty_points_denominator : Z) (royalty_points_numerator : Z) (mutate_setting : list bool)
  (property_keys : list bytes) (property_values : list bytes) (property_types : list bytes) : comp
  Empty_set Payload :=
  entry_function (address_of 3, "token"%string) "create_token_script" [] [to_bcs VecU8 collection;
    to_bcs VecU8 name; to_bcs VecU8 description; to_bcs U64 balance; to_bcs U64 maximum;
    to_bcs VecU8 uri; to_bcs Address royalty_payee_address; to_bcs U64 royalty_points_denominator;
    to_bcs U64 royalty_points_numerator; to_bcs VecBool mutate_setting;
    to_bcs VecVecU8 property_keys; to_bcs VecVecU8 property_values;
    to_bcs VecVecU8 property_types].

Definition token_direct_transfer_script (creators_address : AccountAddress) (collection : bytes)
  (name : bytes) (property_version : Z) (amount : Z) : comp Empty_set Payload :=
  entry_function (address_of 3, "token"%string) "direct_transfer_script" []
    [to_bcs Address creators_address; to_bcs VecU8 collection; to_bcs VecU8 name;
    to_bcs U64 property_version; to_bcs U64 amount].

Definition token_initialize_token_script : comp Empty_set Payload :=
  entry_function (address_of 3, "token"%string) "initialize_token_script" [] [].

Definition token_mint_script (token_data_address : AccountAddress) (collection : bytes)
  (name : bytes) (amount : Z) : comp Empty_set Payload :=
  entry_function (address_of 3, "token"%string) "mint_script" []
    [to_bcs Address token_data_address; to_bcs VecU8 collection; to_bcs VecU8 name;
    to_bcs U64 amount].

Definition token_mutate_token_properties (token_owner : AccountAddress) (creator : AccountAddress)
  (collection_name : bytes) (token_name : bytes) (token_property_version : Z) (amount : Z)
  (keys : list bytes) (values : list bytes) (types : list bytes) : comp Empty_set Payload :=
  entry_function (address_of 3, "token"%string) "mutate_token_properties" []
    [to_bcs Address token_owner; to_bcs Address creator; to_bcs VecU8 collection_name;
    to_bcs VecU8 token_name; to_bcs U64 token_property_version; to_bcs U64 amount;
    to_bcs VecVecU8 keys; to_bcs VecVecU8 values; to_bcs VecVecU8 types].

Definition token_opt_in_direct_transfer (opt_in : bool) : comp Empty_set Payload :=
  entry_function (address_of 3, "token"%string) "opt_in_direct_transfer" [] [to_bcs Bool opt_in].

Definition token_coin_swap_list_token_for_swap (coin_type : TypeTag)
  (_creators_address : AccountAddress) (_collection : bytes) (_name : bytes)
  (_property_version : Z) (_token_amount : Z) (_min_coin_per_token : Z) (_locked_until_secs : Z) :
  comp Empty_set Payload :=
  entry_function (address_of 3, "token_coin_swap"%string) "list_token_for_swap" [coin_type]
    [to_bcs Address _creators_address; to_bcs VecU8 _collection; to_bcs VecU8 _name;
    to_bcs U64 _property_version; to_bcs U64 _token_amount; to_bcs U64 _min_coin_per_token;
    to_bcs U64 _locked_until_secs].

Definition token_transfers_cancel_offer_script (receiver : AccountAddress)
  (creator : AccountAddress) (collection : bytes) (name : bytes) (property_version : Z) : comp
  Empty_set Payload :=
  entry_function (address_of 3, "token_transfers"%string) "cancel_offer_script" []
    [to_bcs Address receiver; to_bcs Address creator; to_bcs VecU8 collection; to_bcs VecU8 name;
    to_bcs U64 property_version].

Definition token_transfers_claim_script (sender : AccountAddress) (creator : AccountAddress)
  (collection : bytes) (name : bytes) (property_version : Z) : comp Empty_set Payload :=
  entry_function (address_of 3, "token_transfers"%string) "claim_script" []
    [to_bcs Address sender; to_bcs Address creator; to_bcs VecU8 collection; to_bcs VecU8 name;
    to_bcs U64 property_version].

Definition token_transfers_offer_script (receiver : AccountAddress) (creator : AccountAddress)
  (collection : bytes) (name : bytes) (property_version : Z) (amount : Z) : comp Empty_set Payload
  :=
  entry_function (address_of 3, "token_transfers"%string) "offer_script" []
    [to_bcs Address receiver; to_bcs Address creator; to_bcs VecU8 collection; to_bcs VecU8 name;
    to_bcs U64 property_version; to_bcs U64 amount].

(** [EntryFunctionCall::encode] *)
Definition encode (self : EntryFunctionCall TypeTag) : comp Empty_set Payload :=
  match self with
  | TokenBurn creators_address collection name property_version amount =>
      token_burn creators_address collection name property_version amount
  | TokenBurnByCreator owner collection name property_version amount =>
      token_burn_by_creator owner collection name property_version amount
  | TokenCreateCollectionScript name description uri maximum mutate_setting =>
      token_create_collection_script name description uri maximum mutate_setting
  | TokenCreateTokenScript collection name description balance maximum uri royalty_payee_address
      royalty_points_denominator royalty_points_numerator mutate_setting property_keys
      property_values property_types =>
      token_create_token_script collection name description balance maximum uri
        royalty_payee_address royalty_points_denominator royalty_points_numerator mutate_setting
        property_keys property_values property_types
  | TokenDirectTransferScript creators_address collection name property_version amount =>
      token_direct_transfer_script creators_address collection name property_version amount
  | TokenInitializeTokenScript =>
      token_initialize_token_script
  | TokenMintScript token_data_address collection name amount =>
      token_mint_script token_data_address collection name amount
  | TokenMutateTokenProperties token_owner creator collection_name token_name
      token_property_version amount keys values types =>
      token_mutate_token_properties token_owner creator collection_name token_name
        token_property_version amount keys values types
  | TokenOptInDirectTransfer opt_in =>
      token_opt_in_direct_transfer opt_in
  | TokenCoinSwapListTokenForSwap coin_type _creators_address _collection _name _property_version
      _token_amount _min_coin_per_token _locked_until_secs =>
      token_coin_swap_list_token_for_swap coin_type _creators_address _collection _name
        _property_version _token_amount _min_coin_per_token _locked_until_secs
  | TokenTransfersCancelOfferScript receiver creator collection name property_version =>
      token_transfers_cancel_offer_script receiver creator collection name property_version
  | TokenTransfersClaimScript sender creator collection name property_version =>
      token_transfers_claim_script sender creator collection name property_version
  | TokenTransfersOfferScript receiver creator collection name property_version amount =>
      token_transfers_offer_script receiver creator collection name property_version amount
  end.
End Builders.

(** ** The decoders *)

Module decoder.
Section Decoders.
Context `{BcsArgs} {TypeTag TransactionArgument : Type}.
Abbreviation Payload := (TransactionPayload TypeTag TransactionArgument).

Definition token_burn (payload : Payload)
  : option (EntryFunctionCall TypeTag) :=
  if_entry_function payload (fun _ args =>
    creators_address ← arg Address args 0;
    collection ← arg VecU8 args 1;
    name ← arg VecU8 args 2;
    property_version ← arg U64 args 3;
    amount ← arg U64 args 4;
    Some (TokenBurn creators_address collection name property_version amount)).

Definition token_burn_by_creator (payload : Payload)
  : option (EntryFunctionCall TypeTag) :=
  if_entry_function payload (fun _ args =>
    owner ← arg Address args 0;
    collection ← arg VecU8 args 1;
    name ← arg VecU8 args 2;
    property_version ← arg U64 args 3;
    amount ← arg U64 args 4;
    Some (TokenBurnByCreator owner collection name property_version amount)).

Definition token_create_collection_script (payload : Payload)
  : option (EntryFunctionCall TypeTag) :=
  if_entry_function payload (fun _ args =>
    name ← arg VecU8 args 0;
    description ← arg VecU8 args 1;
    uri ← arg VecU8 args 2;
    maximum ← arg U64 args 3;
    mutate_setting ← arg VecBool args 4;
    Some (TokenCreateCollectionScript name description uri maximum mutate_setting)).

Definition token_create_token_script (payload : Payload)
  : option (EntryFunctionCall TypeTag) :=
  if_entry_function payload (fun _ args =>
    collection ← arg VecU8 args 0;
    name ← arg VecU8 args 1;
    description ← arg VecU8 args 2;
    balance ← arg U64 args 3;
    maximum ← arg U64 args 4;
    uri ← arg VecU8 args 5;
    royalty_payee_address ← arg Address args 6;
    royalty_points_denominator ← arg U64 args 7;
    royalty_points_numerator ← arg U64 args 8;
    mutate_setting ← arg VecBool args 9;
    property_keys ← arg VecVecU8 args 10;
    property_values ← arg VecVecU8 args 11;
    property_types ← arg VecVecU8 args 12;
    Some (TokenCreateTokenScript collection name description balance maximum uri
      royalty_payee_address royalty_points_denominator royalty_points_numerator mutate_setting
      property_keys property_values property_types)).

Definition token_direct_transfer_script (payload : Payload)
  : option (EntryFunctionCall TypeTag) :=
  if_entry_function payload (fun _ args =>
    creators_address ← arg Address args 0;
    collection ← arg VecU8 args 1;
    name ← arg VecU8 args 2;
    property_version ← arg U64 args 3;
    amount ← arg U64 args 4;
    Some (TokenDirectTransferScript creators_address collection name property_version amount)).

Definition token_initialize_token_script (payload : Payload)
  : option (EntryFunctionCall TypeTag) :=
  if_entry_function payload (fun _ _ =>
    Some TokenInitializeTokenScript).

Definition token_mint_script (payload : Payload)
  : option (EntryFunctionCall TypeTag) :=
  if_entry_function payload (fun _ args =>
    token_data_address ← arg Address args 0;
    collection ← arg VecU8 args 1;
    name ← arg VecU8 args 2;
    amount ← arg U64 args 3;
    Some (TokenMintScript token_data_address collection name amount)).

Definition token_mutate_token_properties (payload : Payload)
  : option (EntryFunctionCall TypeTag) :=
  if_entry_function payload (fun _ args =>
    token_owner ← arg Address args 0;
    creator ← arg Address args 1;
    collection_name ← arg VecU8 args 2;
    token_name ← arg VecU8 args 3;
    token_property_version ← arg U64 args 4;
    amount ← arg U64 args 5;
    keys ← arg VecVecU8 args 6;
    values ← arg VecVecU8 args 7;
    types ← arg VecVecU8 args 8;
    Some (TokenMutateTokenProperties token_owner creator collection_name token_name
      token_property_version amount keys values types)).

Definition token_opt_in_direct_transfer (payload : Payload)
  : option (EntryFunctionCall TypeTag) :=
  if_entry_function payload (fun _ args =>
    opt_in ← arg Bool args 0;
    Some (TokenOptInDirectTransfer opt_in)).

Definition token_coin_swap_list_token_for_swap (payload : Payload)
  : option (EntryFunctionCall TypeTag) :=
  if_entry_function payload (fun ty_args args =>
    coin_type ← ty_arg ty_args 0;
    _creators_address ← arg Address args 0;
    _collection ← arg VecU8 args 1;
    _name ← arg VecU8 args 2;
    _property_version ← arg U64 args 3;
    _token_amount ← arg U64 args 4;
    _min_coin_per_token ← arg U64 args 5;
    _locked_until_secs ← arg U64 args 6;
    Some (TokenCoinSwapListTokenForSwap coin_type _creators_address _collection _name
      _property_version _token_amount _min_coin_per_token _locked_until_secs)).

Definition token_transfers_cancel_offer_script (payload : Payload)
  : option (EntryFunctionCall TypeTag) :=
  if_entry_function payload (fun _ args =>
    receiver ← arg Address args 0;
    creator ← arg Address args 1;
    collection ← arg VecU8 args 2;
    name ← arg VecU8 args 3;
    property_version ← arg U64 args 4;
    Some (TokenTransfersCancelOfferScript receiver creator collection name property_version)).

Definition token_transfers_claim_script (payload : Payload)
  : option (EntryFunctionCall TypeTag) :=
  if_entry_function payload (fun _ args =>
    sender ← arg Address args 0;
    creator ← arg Address args 1;
    collection ← arg VecU8 args 2;
    name ← arg VecU8 args 3;
    property_version ← arg U64 args 4;
    Some (TokenTransfersClaimScript sender creator collection name property_version)).

Definition token_transfers_offer_script (payload : Payload)
  : option (EntryFunctionCall TypeTag) :=
  if_entry_function payload (fun _ args =>
    receiver ← arg Address args 0;
    creator ← arg Address args 1;
    collection ← arg VecU8 args 2;
    name ← arg VecU8 args 3;
    property_version ← arg U64 args 4;
    amount ← arg U64 args 5;
    Some (TokenTransfersOfferScript receiver creator collection name property_version amount)).

End Decoders.
End decoder.

(** ** Decoding *)

Section Decode.
Context `{BcsArgs} {TypeTag TransactionArgument : Type}.
Abbreviation Payload := (TransactionPayload TypeTag TransactionArgument).

(** The entries of [SCRIPT_FUNCTION_DECODER_MAP], in the order in which they are inserted. *)
Definition decoder_entries : list (string * (Payload -> option (EntryFunctionCall TypeTag))) := [
  ("token_burn"%string, decoder.token_burn);
  ("token_burn_by_creator"%string, decoder.token_burn_by_creator);
  ("token_create_collection_script"%string, decoder.token_create_collection_script);
  ("token_create_token_script"%string, decoder.token_create_token_script);
  ("token_direct_transfer_script"%string, decoder.token_direct_transfer_script);
  ("token_initialize_token_script"%string, decoder.token_initialize_token_script);
  ("token_mint_script"%string, decoder.token_mint_script);
  ("token_mutate_token_properties"%string, decoder.token_mutate_token_properties);
  ("token_opt_in_direct_transfer"%string, decoder.token_opt_in_direct_transfer);
  ("token_coin_swap_list_token_for_swap"%string, decoder.token_coin_swap_list_token_for_swap);
  ("token_transfers_cancel_offer_script"%string, decoder.token_transfers_cancel_offer_script);
  ("token_transfers_claim_script"%string, decoder.token_transfers_claim_script);
  ("token_transfers_offer_script"%string, decoder.token_transfers_offer_script)
].

Definition SCRIPT_FUNCTION_DECODER_MAP : gmap string (Payload -> option (EntryFunctionCall TypeTag)) :=
  insert_all decoder_entries.

(** [EntryFunctionCall::decode] *)
Definition decode (payload : Payload) : option (EntryFunctionCall TypeTag) :=
  match payload with
  | PayloadEntryFunction module function _ _ =>
      match SCRIPT_FUNCTION_DECODER_MAP !! decoder_key module.2 function with
      | Some decoder => decoder payload
      | None => None
      end
  | _ => None
  end.
End Decode.

(** ** What [decode] recognises *)

Section Exact.
Context `{BcsArgs, !BcsArgsLaws} {TypeTag TransactionArgument : Type}.
Abbreviation Payload := (TransactionPayload TypeTag TransactionArgument).

#[export] Instance sdk_laws :
  SdkLaws (TransactionArgument := TransactionArgument) (encode (TypeTag := TypeTag)) decoder_entries.
Proof.
  split.
  - cbn. apply (bool_decide_unpack _). vm_compute. exact I.
  - unfold decoder_entries. repeat (apply Forall_cons_2; [decoder_case|]). apply Forall_nil_2.
  - intros call p. destruct call; encoder_case @decoder_entries.
Qed.

(** [decode] of the tokens recognises a payload as the one of the framework does. *)
Theorem token_decode_exact (payload : Payload) (call : EntryFunctionCall TypeTag) :
  (decode payload = Some call <->
   exists module function ty_args args,
     payload = PayloadEntryFunction module function ty_args args /\
     recognises (TransactionArgument := TransactionArgument) encode (decoder_key module.2 function)
       ty_args args call) /\
  (encode call = Return payload -> decode payload = Some call).
Proof. apply (decode_exact _ decoder_entries). intros []; reflexivity. Qed.
End Exact.
