(* ===== verification/VMImpl.v ===== *)
(** * The Aptos side of the VM ([aptos-vm/src/aptos_vm_impl.rs])

    [AptosVMImpl] holds the configuration that is read from the chain when the VM is made; its
    methods check the gas of a transaction, run the prologues and the epilogues, and make the
    output of a session.  Log messages are left out, and so is the cache of module metadata,
    which is behind [extract_abort_info]. *)
From S2P Require Import Prelude Delta ChangeSetExt StateView AdapterCommon.
From S2P Require Import GasSchedule GasSize GasMeter Session VMErrors MoveVM.

#[local] Open Scope Z_scope.

Definition MAXIMUM_APPROVED_TRANSACTION_SIZE : Z := 1024 * 1024.

Section Impl.
Context `{Bcs128, GasAlgebra} {StateKey ContractEvent AnyError : Type}.
Context `{Chain StateKey ContractEvent (AnyError := AnyError)}.
Abbreviation Prog := (ViewProg StateKey AnyError).
Abbreviation reading := (reading StateKey AnyError).
Abbreviation Status := (TransactionStatus (ExecutionStatus AbortInfo)).
Abbreviation Output := (TransactionOutput (StateKey := StateKey) (Event := ContractEvent)
                          (TransactionStatus := Status)).
Abbreviation OutputExt := (TransactionOutputExt (StateKey := StateKey) (Event := ContractEvent)
                             (TransactionStatus := Status)).
Abbreviation ChangeSetExt := (ChangeSetExt StateKey ContractEvent).
Abbreviation SessionOutput := (SessionOutput (AccountAddress := AccountAddress)
  (Identifier := string) (StructTag := StructTag) (TableHandle := bytes) (TableInfo := TableInfo)
  (MoveEvent := MoveEvent)).

Record AptosVMImpl := {
  move_vm : VM;
  gas_feature_version : Z;
  impl_gas_params : option AptosGasParameters;
  impl_storage_gas_params : option StorageGasParameters;
  version : option Z;
  impl_transaction_validation : option TransactionValidation;
}.

(** [T::fetch_config(&storage)], and [get_resource(..).ok()?] with the decoding of the blob. *)
Definition fetch {T} (config : Config) (decode : bytes -> option T) : Prog (option T) :=
  PRead (config_key config) (fun v => PDone (match v with Ok (Some blob) => decode blob | _ => None end)).

#[local] Existing Instance aptos_schedule.
Definition from_schedule (map : GasSchedule) : option AptosGasParameters :=
  from_on_chain_gas_schedule (OnChainGasSchedule := aptos_schedule GAS_UNIT_PRICE false) map.

(** From feature version 2, loading from a table is priced by the storage gas schedule. *)
Definition set_table_loads (storage_gas_params : StorageGasParameters)
  (gas_params : AptosGasParameters) : AptosGasParameters :=
  let table_params := table (natives gas_params) in
  let table_params := set_param "common.load_base" (per_item_read storage_gas_params) table_params in
  let table_params := set_param "common.load_per_byte" (per_byte_read storage_gas_params) table_params in
  let table_params := set_param "common.load_failure" 0 table_params in
  {| misc := misc gas_params; instr := instr gas_params; txn := txn gas_params;
     natives := {| move_stdlib := move_stdlib (natives gas_params);
                   aptos_framework := aptos_framework (natives gas_params);
                   table := table_params |} |}.

Definition native_zeros : NativeGasParameters :=
  {| move_stdlib := zeros; aptos_framework := zeros; table := zeros |}.

Definition AptosVMImpl_new : Prog AptosVMImpl :=
  v2 ← fetch GasScheduleV2Config decode_gas_schedule_v2;
  '(gas_params, gas_feature_version) ←
    match v2 with
    | Some (feature_version, map) => mret (from_schedule map, feature_version)
    | None =>
        v1 ← fetch GasScheduleConfig decode_gas_schedule;
        mret (match v1 with Some map => (from_schedule map, 0) | None => (None, 0) end)
    end;
  storage_gas_params ←
    (if gas_feature_version =? 0 then mret None
     else fetch StorageGasScheduleConfig decode_storage_gas_schedule);
  let gas_params :=
    if 2 <=? gas_feature_version then
      match gas_params, storage_gas_params with
      | Some gas_params, Some storage_gas_params => Some (set_table_loads storage_gas_params gas_params)
      | _, _ => gas_params
      end
    else gas_params in
  let '(native_gas_params, abs_val_size_gas_params) :=
    match gas_params with
    | Some gas_params => (natives gas_params, abs_val (misc gas_params))
    | None => (native_zeros, zeros)
    end in
  treat_friend_as_private ← fetch FeaturesConfig decode_treat_friend_as_private;
  inner ← match vm_new_with native_gas_params abs_val_size_gas_params gas_feature_version
                  (default default_treat_friend_as_private treat_friend_as_private) with
          | Some inner => mret inner
          | None => PPanic
          end;
  version ← fetch VersionConfig decode_version;
  transaction_validation ← fetch TransactionValidationResource decode_transaction_validation;
  mret {| move_vm := inner; gas_feature_version := gas_feature_version;
          impl_gas_params := gas_params; impl_storage_gas_params := storage_gas_params;
          version := version; impl_transaction_validation := transaction_validation |}.

Definition transaction_validation (self : AptosVMImpl) : TransactionValidation :=
  default APTOS_TRANSACTION_VALIDATION (impl_transaction_validation self).

Definition get_gas_parameters (self : AptosVMImpl) : result VMStatus AptosGasParameters :=
  ok_or (impl_gas_params self) (VMStatus_Error VM_STARTUP_FAILURE).

Definition get_storage_gas_parameters (self : AptosVMImpl)
  : result VMStatus (option StorageGasParameters) :=
  if gas_feature_version self =? 0 then Ok None
  else p ← ok_or (impl_storage_gas_params self) (VMStatus_Error VM_STARTUP_FAILURE); Ok (Some p).

Definition get_version (self : AptosVMImpl) : result VMStatus Z :=
  ok_or (version self) (VMStatus_Error VM_STARTUP_FAILURE).

(** ** Gas checks *)

(** A pure computation that cannot fail, in the monad. *)
Definition of_pure {A} (c : comp Empty_set A) : reading A :=
  match c with Return a => PDone (Ok a) | Throw e => match e with end | Panic => PPanic end.

(** Whether a transaction that is too large carries an approved script: the bound on its size
    is then on what it carries besides the script. *)
Definition approved_size (txn_gas_params : TransactionGasParameters)
  (txn_data : TransactionMetadata) (data : result AnyError (option bytes)) : bool :=
  match data with
  | Ok (Some data) =>
      match decode_approved_hashes data with
      | Some entries => existsb (fun x => bool_decide (x.2 = script_hash txn_data)) entries
      | None => false
      end
      && (transaction_size txn_data
            <? (script_size txn_data + txn_gas_params Txn.max_transaction_size_in_bytes)%gas)
      && (transaction_size txn_data <=? MAXIMUM_APPROVED_TRANSACTION_SIZE)
  | _ => false
  end.

Definition check_gas (self : AptosVMImpl) (txn_data : TransactionMetadata) : reading unit :=
  gas_params ← (PDone (get_gas_parameters self) : reading _);
  let txn_gas_params := txn gas_params in
  let raw_bytes_len := transaction_size txn_data in
  _ ← (if txn_gas_params Txn.max_transaction_size_in_bytes <? transaction_size txn_data then
         PRead (config_key ApprovedExecutionHashesResource) (fun data =>
           if approved_size txn_gas_params txn_data data then PDone (Ok tt)
           else throw EXCEEDED_MAX_TRANSACTION_SIZE)
       else PDone (Ok tt) : reading unit);
  if txn_gas_params Txn.maximum_number_of_gas_units <? max_gas_amount txn_data then
    throw MAX_GAS_UNITS_EXCEEDS_MAX_GAS_UNITS_BOUND
  else
  intrinsic ← of_pure (calculate_intrinsic_gas txn_gas_params raw_bytes_len);
  let intrinsic_gas := to_unit_round_up intrinsic (1, scaling_factor txn_gas_params) in
  if max_gas_amount txn_data <? intrinsic_gas then
    throw MAX_GAS_UNITS_BELOW_MIN_TRANSACTION_GAS_UNITS
  else if gas_unit_price txn_data <? txn_gas_params Txn.min_price_per_gas_unit then
    throw GAS_UNIT_PRICE_BELOW_MIN_BOUND
  else if txn_gas_params Txn.max_price_per_gas_unit <? gas_unit_price txn_data then
    throw GAS_UNIT_PRICE_ABOVE_MAX_BOUND
  else PDone (Ok tt).

(** ** Prologues and epilogues *)

(** The call of a function of the framework with serialised values, unmetered, and what is made
    of its error by [convert]; the session comes back also on an error. *)
Definition run_framework_function (convert : VMError -> result VMStatus unit)
  (session : VMSession) (module_id : ModuleId) (name : string) (args : list MoveValue)
  : Prog (result VMStatus unit * VMSession) :=
  match mapM serialize_value args with
  | None => PPanic
  | Some args =>
      '(r, session) ← execute_function_unmetered session module_id name args;
      mret (match r with
            | Ok _ => Ok tt
            | Err e => convert e
            end, session)
  end.

Definition prologue_args (txn_data : TransactionMetadata) : list MoveValue :=
  if is_multi_agent txn_data then
    [MSigner (sender txn_data); MU64 (sequence_number txn_data);
     MBytes (authentication_key txn_data); MAddresses (secondary_signers txn_data);
     MBytesVector (secondary_authentication_keys txn_data); MU64 (gas_unit_price txn_data);
     MU64 (max_gas_amount txn_data); MU64 (expiration_timestamp_secs txn_data);
     MU8 (chain_id txn_data)]
  else
    [MSigner (sender txn_data); MU64 (sequence_number txn_data);
     MBytes (authentication_key txn_data); MU64 (gas_unit_price txn_data);
     MU64 (max_gas_amount txn_data); MU64 (expiration_timestamp_secs txn_data);
     MU8 (chain_id txn_data); MBytes (script_hash txn_data)].

Definition convert_prologue (self : AptosVMImpl) (e : VMError) : result VMStatus unit :=
  convert_prologue_error into_vm_status is_account_module_abort (transaction_validation self)
    (expect_no_verification_errors e).

Definition run_script_prologue (self : AptosVMImpl) (session : VMSession)
  (txn_data : TransactionMetadata) : Prog (result VMStatus unit * VMSession) :=
  let tv := transaction_validation self in
  let prologue_function_name :=
    if is_multi_agent txn_data then multi_agent_prologue_name tv else script_prologue_name tv in
  run_framework_function (convert_prologue self) session (validation_module tv)
    prologue_function_name (prologue_args txn_data).

Definition run_module_prologue (self : AptosVMImpl) (session : VMSession)
  (txn_data : TransactionMetadata) : Prog (result VMStatus unit * VMSession) :=
  let tv := transaction_validation self in
  run_framework_function (convert_prologue self) session (validation_module tv)
    (module_prologue_name tv)
    [MSigner (sender txn_data); MU64 (sequence_number txn_data);
     MBytes (authentication_key txn_data); MU64 (gas_unit_price txn_data);
     MU64 (max_gas_amount txn_data); MU64 (expiration_timestamp_secs txn_data);
     MU8 (chain_id txn_data)].

Definition epilogue_args (gas_remaining : Z) (txn_data : TransactionMetadata) : list MoveValue :=
  [MSigner (sender txn_data); MU64 (sequence_number txn_data); MU64 (gas_unit_price txn_data);
   MU64 (max_gas_amount txn_data); MU64 gas_remaining].

Definition run_success_epilogue (self : AptosVMImpl) (session : VMSession) (gas_remaining : Z)
  (txn_data : TransactionMetadata) : Prog (result VMStatus unit * VMSession) :=
  let tv := transaction_validation self in
  run_framework_function
    (fun e => convert_epilogue_error into_vm_status is_account_module_abort tv
                (expect_no_verification_errors e))
    session (validation_module tv) (user_epilogue_name tv) (epilogue_args gas_remaining txn_data).

Definition run_failure_epilogue (self : AptosVMImpl) (session : VMSession) (gas_remaining : Z)
  (txn_data : TransactionMetadata) : Prog (result VMStatus unit * VMSession) :=
  let tv := transaction_validation self in
  run_framework_function
    (fun e => expect_only_successful_execution into_vm_status (expect_no_verification_errors e))
    session (validation_module tv) (user_epilogue_name tv) (epilogue_args gas_remaining txn_data).

(** ** The end of a session *)

(** [SessionExt::finish] *)
Definition session_finish (session : VMSession) : reading SessionOutput :=
  r ← lift_prog (finish_with_extensions session);
  match r with
  | Err e => PDone (Err (into_vm_status e))
  | Ok (change_set, events, tables, aggregators) =>
      match tables with
      | Err e => PDone (Err (into_vm_status (finish_error e)))
      | Ok table_change_set =>
          of_comp (aggregators ← aggregators;
                   Return {| out_change_set := change_set; out_move_events := events;
                             table_change_set := table_change_set;
                             aggregator_change_set := aggregators |})
      end
  end.

(** [into_change_set], with the access paths of the cache [()] that caches nothing. *)
Definition session_change_set (out : SessionOutput) (gas_feature_version : Z)
  : comp VMStatus ChangeSetExt :=
  SessionOutput_into_change_set bytes_leb string_leb tag_leb bytes_leb bytes_leb id_leb
    resource_key module_key table_item id freeze check_change_set contract_event out
    gas_feature_version.

Definition get_transaction_output (session : VMSession) (gas_left : Z)
  (txn_data : TransactionMetadata) (status : ExecutionStatus AbortInfo) (gas_feature_version : Z)
  : reading OutputExt :=
  gas_used ← of_pure (expect (checked_sub (max_gas_amount txn_data) gas_left));
  session_out ← session_finish session;
  change_set_ext ← of_comp (session_change_set session_out gas_feature_version);
  let '(delta_change_set, change_set) := into_inner change_set_ext in
  mret {| out_deltas := delta_change_set;
          output := {| out_write_set := ChangeSetExt.write_set change_set;
                       out_events := events change_set;
                       out_gas_used := gas_used; out_status := Keep status |} |}.
End Impl.
