(* ===== verification/AptosVM.v ===== *)
(** * The VM adapter ([aptos-vm/src/aptos_vm.rs])

    One transaction: the validation and the prologue, the execution of its payload under the
    gas meter, the publishing of code, the epilogue, and what is charged and kept when it
    fails; write sets of the genesis, block prologues and checkpoints; and the simulation of a
    transaction.  [AptosVM] implements the interface [VMAdapter] of the block executors.
    Metrics, logs and fail points are left out, and so is the invalidation of the loader cache
    of the Move VM, which is not part of the result of a transaction. *)
From S2P Require Import Prelude Delta ChangeSetExt StateView AdapterCommon.
From S2P Require Import GasSchedule GasSize GasMeter Session Publish TxnArgs VMErrors MoveVM VMImpl.

#[local] Open Scope Z_scope.

(** [WriteSetPayload] of [aptos-types]. *)
Inductive WriteSetPayload (ChangeSet Script : Type) : Type :=
  | Direct (change_set : ChangeSet)
  | WriteSetScript (execute_as : AccountAddress) (script : Script).
Arguments Direct {ChangeSet Script} change_set.
Arguments WriteSetScript {ChangeSet Script} execute_as script.

Section AptosVM.
Context `{Bcs128, GasAlgebra, Uleb128} {StateKey ContractEvent AnyError : Type}.
Context `{Chain StateKey ContractEvent (AnyError := AnyError)}.
(** The flag [MODULE_BUNDLE_DISALLOWED], which is set unless a test clears it. *)
Context (MODULE_BUNDLE_DISALLOWED : bool).
Abbreviation Prog := (ViewProg StateKey AnyError).
Abbreviation reading := (reading StateKey AnyError).
Abbreviation charging := (charging StateKey AnyError).
Abbreviation Status := (TransactionStatus (ExecutionStatus AbortInfo)).
Abbreviation Output := (TransactionOutput (StateKey := StateKey) (Event := ContractEvent)
                          (TransactionStatus := Status)).
Abbreviation OutputExt := (TransactionOutputExt (StateKey := StateKey) (Event := ContractEvent)
                             (TransactionStatus := Status)).
Abbreviation ChangeSetExt := (ChangeSetExt StateKey ContractEvent).
Abbreviation ChangeSet := (ChangeSet StateKey ContractEvent).
Abbreviation SignedTransaction := (SignedTransaction TypeTag TransactionArgument).
Abbreviation TransactionPayload := (TransactionPayload TypeTag TransactionArgument).
Abbreviation Script := (Script TypeTag TransactionArgument).
Abbreviation Payload := (WriteSetPayload ChangeSet Script).
Abbreviation LoadedFunctionInstantiation := (LoadedFunctionInstantiation (StructIndex := StructIndex)).

(** The error of [PartialVMError::finish(..)] and of a charge, as a status. *)
Definition partial_status (e : PartialVMError) : VMStatus := into_vm_status (finish_error e).

(** A call of an operation of a session, and a charge of the meter. *)
Definition call {A} (p : Prog (result VMError A * VMSession)) : reading (A * VMSession) :=
  '(r, session) ← lift_prog p;
  match r with
  | Ok a => mret (a, session)
  | Err e => PDone (Err (into_vm_status e))
  end.
Definition metered_call (p : AptosGasMeter -> Prog (result VMError unit * VMSession * AptosGasMeter))
  : charging VMSession := fun g =>
  '(r, session, g) ← p g;
  PDone (match r with Ok _ => Ok session | Err e => Err (into_vm_status e) end, g).

(** ** The arguments of a call *)

Definition serialize_signer (a : AccountAddress) : option bytes := serialize_value (MSigner a).

(** The arguments a function is called with; the validation always ends
    ([TxnArgs.validation_terminates]). *)
Definition combine_args (session : VMSession) (senders : list AccountAddress) (args : list bytes)
  (func : LoadedFunctionInstantiation) : reading (list bytes) :=
  match validate_combine_signer_and_txn_args (get_struct_type session) short_str_lossless
          serialize_signer senders args func with
  | Some r => of_comp r
  | None => PPanic
  end.

(** ** Publishing *)

(** [execute_module_initialization] *)
Fixpoint execute_module_initialization (session : VMSession) (modules : list CompiledModule)
  (exists_ : list ModuleId) (senders : list AccountAddress) : charging VMSession :=
  match modules with
  | [] => mret session
  | module :: modules =>
      if bool_decide (self_id module ∈ exists_) then
        (* Call initializer only on first publish. *)
        execute_module_initialization session modules exists_ senders
      else
      '(init_function, session) ←
        unmetered (lift_prog (load_function session (self_id module) "init_module" []));
      match init_function with
      | Ok _ =>
          if verify_module_init_function module then
            match mapM serialize_signer senders with
            | None => fun _ => PPanic
            | Some args =>
                session ← metered_call (execute_function session (self_id module) "init_module" args);
                execute_module_initialization session modules exists_ senders
            end
          else
            unmetered (PDone (Err (partial_status
              {| status := CONSTRAINT_NOT_SATISFIED; sub_status := None |})))
      | Err _ => execute_module_initialization session modules exists_ senders
      end
  end.

(** The modules of a bundle that exist before it is published. *)
Fixpoint existing_modules (session : VMSession) (modules : list CompiledModule)
  : reading (list ModuleId * VMSession) :=
  match modules with
  | [] => mret ([], session)
  | m :: modules =>
      '(b, session) ← call (exists_module session (self_id m));
      '(ids, session) ← existing_modules session modules;
      mret (if b : bool then self_id m :: ids else ids, session)
  end.

(** [resolve_pending_code_publish] *)
Definition resolve_pending_code_publish (session : VMSession) : charging VMSession :=
  match take_publish_request session with
  | (Some request, session) =>
      modules ← unmetered (of_comp (lift (map_err partial_status
                  (deserialize_module_bundle (fun b => ok (module_deserialize b)) (bundle request)))));
      _ ← unmetered (of_comp (lift (map_err partial_status
            (validate_publish_request self_id immediate_dependencies modules
               (expected_modules request) (allowed_deps request)))));
      '(exists_, session) ← unmetered (existing_modules session modules);
      session ← metered_call (publish_module_bundle session (bundle request) (destination request));
      execute_module_initialization session modules exists_ [destination request]
  | (None, session) => mret session
  end.

(** [verify_module_bundle]: none of the modules exists. *)
Fixpoint verify_module_bundle (session : VMSession) (module_bundle : list bytes) : reading VMSession :=
  match module_bundle with
  | [] => mret session
  | module_blob :: module_bundle =>
      match module_deserialize module_blob with
      | Ok module =>
          '(r, session) ← lift_prog (load_module session (self_id module));
          match r with
          | Ok _ => PDone (Err (partial_status {| status := DUPLICATE_MODULE_NAME; sub_status := None |}))
          | Err _ => verify_module_bundle session module_bundle
          end
      | Err err => PDone (Err (partial_status err))
      end
  end.

(** ** The epilogues *)

(** [try_into_write_set_mut(&storage)] with [expect]: reads the value of each delta. *)
Fixpoint materialize_deltas (l : list (StateKey * DeltaOp)) : reading (list (StateKey * WriteOp)) :=
  match l with
  | [] => mret []
  | (state_key, delta_op) :: l =>
      PRead state_key (fun v =>
        match try_into_write_op (fun _ => ok v) partial_status delta_op state_key with
        | Return write_op =>
            (rest ← materialize_deltas l; mret ((state_key, write_op) :: rest) : reading _)
        | Throw _ | Panic => PPanic  (* "something terrible happened when applying aggregator deltas" *)
        end)
  end.

Definition kept_output (change_set_ext : ChangeSetExt) (gas_used : Z)
  (status : ExecutionStatus AbortInfo) : OutputExt :=
  let '(delta_change_set, change_set) := into_inner change_set_ext in
  {| out_deltas := delta_change_set;
     output := {| out_write_set := ChangeSetExt.write_set change_set;
                  out_events := events change_set;
                  out_gas_used := gas_used; out_status := Keep status |} |}.

(** The checks of [ChangeSet::new] in [ChangeSetExt::squash]. *)
Definition change_set_ok (ws : gmap StateKey WriteOp) (ev : list ContractEvent) (version : Z) : bool :=
  match check_change_set ws ev version with Ok _ => true | Err _ => false end.

Definition invariant_violation {A} : result VMStatus A :=
  Err (VMStatus_Error UNKNOWN_INVARIANT_VIOLATION_ERROR).

(** The session of the success epilogue, which reads the storage under the writes of the
    transaction and under its materialised deltas. *)
Definition success_epilogue (self : AptosVMImpl) (gas_meter : AptosGasMeter)
  (txn_data : TransactionMetadata) : reading ChangeSetExt :=
  let session := vm_new_session (move_vm self) (SessionId_txn_meta txn_data) in
  '(r, session) ← lift_prog (run_success_epilogue self session (Gas_balance gas_meter) txn_data);
  _ ← of_comp (lift r);
  session_out ← session_finish session;
  of_comp (session_change_set session_out (feature_version gas_meter)).

Definition success_transaction_cleanup (self : AptosVMImpl) (user_txn_change_set_ext : ChangeSetExt)
  (txn_data : TransactionMetadata) (gas_meter : AptosGasMeter) : reading (VMStatus * OutputExt) :=
  delta_write_set_mut ←
    materialize_deltas (btree_iter key_leb (delta_change_set user_txn_change_set_ext));
  delta_write_set ← of_comp (lift (match freeze (list_to_map delta_write_set_mut) with
                                   | Some ws => Ok ws
                                   | None => invariant_violation
                                   end));
  epilogue_change_set_ext ←
    over_writes (ChangeSetExt.write_set (change_set user_txn_change_set_ext))
      (over_writes delta_write_set (success_epilogue self gas_meter txn_data));
  change_set_ext ←
    of_comp (match squash key_leb freeze change_set_ok user_txn_change_set_ext
                     epilogue_change_set_ext with
             | Ok cs => Return cs
             | Err _ => lift invariant_violation
             end);
  gas_used ← of_pure (expect (checked_sub (max_gas_amount txn_data) (Gas_balance gas_meter)));
  mret (VMStatus_Executed, kept_output change_set_ext gas_used StatusSuccess).

(** [discard_error_vm_status], whose debug assertion may fail. *)
Definition discard (err : VMStatus) : Prog (VMStatus * OutputExt) :=
  match discard_error_vm_status keep_or_discard err with
  | Some r => PDone r
  | None => PPanic
  end.

(** Inject abort info if available. *)
Definition inject_abort_info (self : AptosVMImpl) (status : ExecutionStatus AbortInfo)
  : ExecutionStatus AbortInfo :=
  match status with
  | StatusMoveAbort (AbortModule a n) code _ =>
      StatusMoveAbort (AbortModule a n) code (extract_abort_info (move_vm self) (AbortModule a n) code)
  | _ => status
  end.

Definition failed_transaction_cleanup_and_keep_vm_status (self : AptosVMImpl)
  (error_code : VMStatus) (gas_meter : AptosGasMeter) (txn_data : TransactionMetadata)
  : Prog (VMStatus * OutputExt) :=
  let session := vm_new_session (move_vm self) (SessionId_txn_meta txn_data) in
  match status_from error_code with
  | Keep status =>
      let status := inject_abort_info self status in
      '(r, session) ← run_failure_epilogue self session (Gas_balance gas_meter) txn_data;
      match r with
      | Err e => discard e
      | Ok _ =>
          r ← get_transaction_output session (Gas_balance gas_meter) txn_data status
                (feature_version gas_meter);
          match r with
          | Ok txn_output => mret (error_code, txn_output)
          | Err e => '(_, txn_output) ← discard e; mret (error_code, txn_output)
          end
      end
  | Discard status => mret (VMStatus_Error status, discard_error_output status)
  | Retry => PPanic
  end.

Definition failed_transaction_cleanup (self : AptosVMImpl) (error_code : VMStatus)
  (gas_meter : AptosGasMeter) (txn_data : TransactionMetadata) : Prog OutputExt :=
  r ← failed_transaction_cleanup_and_keep_vm_status self error_code gas_meter txn_data;
  mret r.2.

(** ** User transactions *)

(** The end of the session of a payload, in [execute_script_or_entry_function] and in
    [execute_modules]: its change set, with the charge for it. *)
Definition charged_change_set (session : VMSession) : charging ChangeSetExt :=
  session_output ← unmetered (session_finish session);
  gas_meter ← the_meter;
  change_set_ext ← unmetered (of_comp (session_change_set session_output (feature_version gas_meter)));
  (* Charge gas for write set *)
  _ ← charges partial_status (charge_write_set_gas encode_key key_size
        (btree_iter key_leb (ChangeSetExt.write_set (change_set change_set_ext))));
  mret change_set_ext.

(** Run the execution logic: all of [execute_script_or_entry_function] but its cleanup. *)
Definition script_or_entry_function_changes (session : VMSession) (txn_data : TransactionMetadata)
  (payload : TransactionPayload) : charging ChangeSetExt :=
  _ ← charges partial_status (charge_intrinsic_gas_for_transaction (transaction_size txn_data));
  let senders := sender txn_data :: secondary_signers txn_data in
  session ←
    match payload with
    | PayloadScript script =>
        '(loaded_func, session) ← unmetered (call (load_script session (code script) (ty_args script)));
        args ← unmetered (combine_args session senders (convert_txn_args (script_args script)) loaded_func);
        metered_call (execute_script session (code script) (ty_args script) args)
    | PayloadEntryFunction module_id name ty_args args =>
        '(function, session) ← unmetered (call (load_function session module_id name ty_args));
        args ← unmetered (combine_args session senders args function);
        metered_call (execute_entry_function session module_id name ty_args args)
    | PayloadModuleBundle _ => unmetered (throw UNREACHABLE)
    end;
  session ← resolve_pending_code_publish session;
  charged_change_set session.

(** All of [execute_modules] but its cleanup. *)
Definition modules_changes (session : VMSession) (txn_data : TransactionMetadata)
  (modules : list bytes) : charging ChangeSetExt :=
  if MODULE_BUNDLE_DISALLOWED then unmetered (throw FEATURE_UNDER_GATING) else
  _ ← charges partial_status (charge_intrinsic_gas_for_transaction (transaction_size txn_data));
  session ← unmetered (verify_module_bundle session modules);
  session ← metered_call (publish_module_bundle session modules (sender txn_data));
  compiled ← unmetered (of_comp (lift (map_err partial_status
               (deserialize_module_bundle (fun b => ok (module_deserialize b)) modules))));
  session ← execute_module_initialization session compiled [] [sender txn_data];
  charged_change_set session.

Definition cleanup (self : AptosVMImpl) (txn_data : TransactionMetadata)
  (change_set_ext : ChangeSetExt) : charging (VMStatus * OutputExt) :=
  gas_meter ← the_meter;
  unmetered (success_transaction_cleanup self change_set_ext txn_data gas_meter).

Definition execute_script_or_entry_function (self : AptosVMImpl) (session : VMSession)
  (txn_data : TransactionMetadata) (payload : TransactionPayload)
  : charging (VMStatus * OutputExt) :=
  change_set_ext ← script_or_entry_function_changes session txn_data payload;
  cleanup self txn_data change_set_ext.

Definition execute_modules (self : AptosVMImpl) (session : VMSession)
  (txn_data : TransactionMetadata) (modules : list bytes) : charging (VMStatus * OutputExt) :=
  change_set_ext ← modules_changes session txn_data modules;
  cleanup self txn_data change_set_ext.

(** [run_prologue_with_payload] *)
Definition run_prologue_with_payload (self : AptosVMImpl) (session : VMSession)
  (payload : TransactionPayload) (txn_data : TransactionMetadata)
  : Prog (result VMStatus unit * VMSession) :=
  let checked (prologue : Prog (result VMStatus unit * VMSession)) :=
    (r ← check_gas self txn_data;
     match r with Ok _ => prologue | Err e => mret (Err e, session) end : Prog _) in
  match payload with
  | PayloadScript _ => checked (run_script_prologue self session txn_data)
  | PayloadEntryFunction _ _ _ _ =>
      (* NOTE: Script and EntryFunction shares the same prologue *)
      checked (run_script_prologue self session txn_data)
  | PayloadModuleBundle _ =>
      if MODULE_BUNDLE_DISALLOWED then mret (Err (VMStatus_Error FEATURE_UNDER_GATING), session)
      else checked (run_module_prologue self session txn_data)
  end.

(** The part of [VMAdapter for AptosVM] that validates; a checked transaction is the
    transaction. *)
#[export] Instance aptos_prologue : VMPrologue (StateKey := StateKey) (AnyError := AnyError)
  (SignedTransaction := SignedTransaction) (SignatureChecked := SignedTransaction)
  (Session := VMSession) (SessionId := SessionId) AptosVMImpl := {|
  new_session self session_id := vm_new_session (move_vm self) session_id;
  check_signature txn := if signature_ok txn then Some txn else None;
  check_transaction_format _ txn :=
    if contains_duplicate_signers txn then Err (VMStatus_Error SIGNERS_CONTAIN_DUPLICATES) else Ok tt;
  run_prologue self session transaction :=
    run_prologue_with_payload self session (payload transaction)
      (TransactionMetadata_new sha3_256_of transaction);
|}.

(** [VMStatus::status_code], for [validate_signature_checked_transaction]. *)
Context (status_code : VMStatus -> StatusCode).

(** The gas parameters of the VM, or the error with which the transaction is discarded. *)
Definition all_gas_parameters (self : AptosVMImpl)
  : result VMStatus (AptosGasParameters * option StorageGasParameters) :=
  gas_params ← get_gas_parameters self;
  storage_gas_params ← get_storage_gas_parameters self;
  Ok (gas_params, storage_gas_params).

Definition execute_payload (self : AptosVMImpl) (session : VMSession)
  (txn_data : TransactionMetadata) (payload : TransactionPayload)
  : charging (VMStatus * OutputExt) :=
  match payload with
  | PayloadScript _ | PayloadEntryFunction _ _ _ _ =>
      execute_script_or_entry_function self session txn_data payload
  | PayloadModuleBundle m => execute_modules self session txn_data m
  end.

(** The [match result] that ends [execute_user_transaction] and the simulation. *)
Definition conclude (self : AptosVMImpl) (txn_data : TransactionMetadata)
  (result : result VMStatus (VMStatus * OutputExt)) (gas_meter : AptosGasMeter)
  : Prog (VMStatus * OutputExt) :=
  match result with
  | Ok output => mret output
  | Err err =>
      let txn_status := status_from err in
      if is_discarded txn_status then discard err
      else failed_transaction_cleanup_and_keep_vm_status self err gas_meter txn_data
  end.

Definition execute_user_transaction (self : AptosVMImpl) (txn : SignedTransaction)
  : Prog (VMStatus * OutputExt) :=
  (* Revalidate the transaction. *)
  let session := vm_new_session (move_vm self) (SessionId_txn sha3_256_of txn) in
  '(validated, session) ←
    validate_signature_checked_transaction status_code self session txn false;
  match validated with
  | Err err => discard err
  | Ok _ =>
      let session := if 1 <=? gas_feature_version self
                     then vm_new_session (move_vm self) (SessionId_txn sha3_256_of txn)
                     else session in
      match all_gas_parameters self with
      | Err e => discard e
      | Ok (gas_params, storage_gas_params) =>
          let txn_data := TransactionMetadata_new sha3_256_of txn in
          match AptosGasMeter_new (gas_feature_version self) gas_params storage_gas_params
                  (max_gas_amount txn_data) with
          | None => PPanic
          | Some gas_meter =>
              '(result, gas_meter) ← execute_payload self session txn_data (payload txn) gas_meter;
              match checked_sub (max_gas_amount txn_data) (Gas_balance gas_meter) with
              | None => PPanic  (* "Balance should always be less than or equal to max gas amount set" *)
              | Some _gas_usage => conclude self txn_data result gas_meter
              end
          end
      end
  end.

(** ** Other transactions *)

(** [execute_writeset]: the error may itself be the outcome of the transaction. *)
Definition execute_writeset (self : AptosVMImpl) (writeset_payload : Payload)
  (txn_sender : option AccountAddress) (session_id : SessionId)
  : Prog (result (result VMStatus (VMStatus * OutputExt)) ChangeSetExt) :=
  match writeset_payload with
  | Direct change_set =>
      mret (Ok {| delta_change_set := ∅; change_set := change_set;
                  ChangeSetExt.gas_feature_version := gas_feature_version self |})
  | WriteSetScript execute_as script =>
      let tmp_session := vm_new_session (move_vm self) session_id in
      let senders := match txn_sender with
                     | None => [execute_as]
                     | Some sender => [sender; execute_as]
                     end in
      loaded ← ('(loaded_func, session) ← call (load_script tmp_session (code script) (ty_args script));
                args ← combine_args session senders (convert_txn_args (script_args script)) loaded_func;
                mret (args, session) : reading _);
      match loaded with
      | Err e => mret (Err (Err e))
      | Ok (args, session) =>
          execution_result ←
            ('(_, session) ← call (execute_script_unmetered session (code script) (ty_args script) args);
             session_finish session : reading _);
          match execution_result with
          | Ok session_out =>
              cs ← of_comp (session_change_set session_out (gas_feature_version self));
              mret (match cs with Ok cs => Ok cs | Err e => Err (Err e) end)
          | Err e => mret (Err (Ok (e, discard_error_output INVALID_WRITE_SET)))
          end
      end
  end.

(** [read_writeset]: every key that is written is read. *)
Fixpoint read_writeset (write_set : list (StateKey * WriteOp)) : reading unit :=
  match write_set with
  | [] => mret tt
  | (state_key, _) :: write_set =>
      PRead state_key (fun v =>
        match v with
        | Ok _ => read_writeset write_set
        | Err _ => throw STORAGE_ERROR
        end)
  end.

Definition validate_waypoint_change_set (change_set : ChangeSet) : result VMStatus unit :=
  let has_new_block_event := existsb is_new_block_event (events change_set) in
  let has_new_epoch_event := existsb is_new_epoch_event (events change_set) in
  if has_new_block_event && has_new_epoch_event then Ok tt
  else Err (VMStatus_Error INVALID_WRITE_SET).

Definition process_waypoint_change_set (self : AptosVMImpl) (writeset_payload : Payload)
  : reading (VMStatus * OutputExt) :=
  r ← lift_prog (execute_writeset self writeset_payload (Some reserved_vm_address)
                   (SessionGenesis hash_zero));
  match r with
  | Err e => PDone e
  | Ok change_set_ext =>
      let '(delta_change_set, change_set) := into_inner change_set_ext in
      _ ← (PDone (validate_waypoint_change_set change_set) : reading _);
      _ ← read_writeset (btree_iter key_leb (ChangeSetExt.write_set change_set));
      mret (VMStatus_Executed,
            {| out_deltas := delta_change_set;
               output := {| out_write_set := ChangeSetExt.write_set change_set;
                            out_events := events change_set; out_gas_used := 0;
                            out_status := status_from VMStatus_Executed |} |})
  end.

(** The metadata of a block prologue: [..Default::default()] with the reserved sender. *)
Definition block_metadata_txn_data : TransactionMetadata :=
  {| sender := reserved_vm_address; authentication_key := default_authentication_key;
     secondary_signers := []; secondary_authentication_keys := []; sequence_number := 0;
     max_gas_amount := 0; gas_unit_price := 0; transaction_size := 0;
     expiration_timestamp_secs := 0; chain_id := test_chain_id; script_hash := [];
     script_size := 0 |}.

Definition process_block_prologue (self : AptosVMImpl) (block_metadata : BlockMetadata)
  : reading (VMStatus * OutputExt) :=
  let txn_data := block_metadata_txn_data in
  let session := vm_new_session (move_vm self) (SessionBlockMeta (block_id block_metadata)) in
  '(r, session) ← lift_prog
    (run_framework_function (expect_only_successful_execution into_vm_status) session
       BLOCK_MODULE "block_prologue" (get_prologue_move_args block_metadata (sender txn_data)));
  _ ← of_comp (lift r);
  output ← get_transaction_output session 0 txn_data StatusSuccess (gas_feature_version self);
  mret (VMStatus_Executed, output).

(** ** The interface of the block executors *)

Definition execute_single_transaction_impl (self : AptosVMImpl)
  (txn : PreprocessedTransaction SignedTransaction Payload BlockMetadata)
  : reading (VMStatus * OutputExt * option string) :=
  match txn with
  | BlockMetadata_ block_metadata =>
      '(vm_status, output) ← process_block_prologue self block_metadata;
      mret (vm_status, output, Some "block_prologue"%string)
  | WaypointWriteSet write_set_payload =>
      '(vm_status, output) ← process_waypoint_change_set self write_set_payload;
      mret (vm_status, output, Some "waypoint_write_set"%string)
  | UserTransaction txn =>
      '(vm_status, output) ← lift_prog (execute_user_transaction self txn);
      mret (vm_status, output, Some (address_to_string (txn_sender txn)))
  | InvalidSignature =>
      '(vm_status, output) ← lift_prog (discard (VMStatus_Error INVALID_SIGNATURE));
      mret (vm_status, output, None)
  | StateCheckpoint =>
      mret (VMStatus_Executed, from_output (empty_output (Keep StatusSuccess)),
            Some "state_checkpoint"%string)
  end.

Definition should_restart (vm_output : Output) : bool :=
  existsb is_new_epoch_event (out_events vm_output).

#[export] Instance aptos_adapter : VMAdapter (StateKey := StateKey) (AnyError := AnyError)
  (SignedTransaction := SignedTransaction) (SignatureChecked := SignedTransaction)
  (WriteSetPayload := Payload) (BlockMetadata := BlockMetadata) (Event := ContractEvent)
  (ExecutionStatus := ExecutionStatus AbortInfo) (Session := VMSession)
  (SessionId := SessionId) AptosVMImpl := {|
  vm_prologue := aptos_prologue;
  should_restart_execution := should_restart;
  execute_single_transaction self txn _ := execute_single_transaction_impl self txn;
|}.

(** ** Simulation *)

Definition validate_simulated_transaction (self : AptosVMImpl) (session : VMSession)
  (transaction : SignedTransaction) (txn_data : TransactionMetadata)
  : Prog (result VMStatus unit * VMSession) :=
  match check_transaction_format self transaction with
  | Err e => mret (Err e, session)
  | Ok _ => run_prologue_with_payload self session (payload transaction) txn_data
  end.

(** Executes a [SignedTransaction] without performing signature verification. *)
Definition simulate_signed_transaction (self : AptosVMImpl) (txn : SignedTransaction)
  : Prog (VMStatus * OutputExt) :=
  if signature_ok txn then discard (VMStatus_Error INVALID_SIGNATURE) else
  let txn_data := TransactionMetadata_new sha3_256_of txn in
  let session := vm_new_session (move_vm self) (SessionId_txn_meta txn_data) in
  '(validated, session) ← validate_simulated_transaction self session txn txn_data;
  match validated with
  | Err err => discard err
  | Ok _ =>
      match all_gas_parameters self with
      | Err e => discard e
      | Ok (gas_params, storage_gas_params) =>
          match AptosGasMeter_new (gas_feature_version self) gas_params storage_gas_params
                  (max_gas_amount txn_data) with
          | None => PPanic
          | Some gas_meter =>
              '(result, gas_meter) ← execute_payload self session txn_data (payload txn) gas_meter;
              conclude self txn_data result gas_meter
          end
      end
  end.
End AptosVM.
