(* ===== verification/Genesis.v ===== *)
(** * Genesis ([vm-genesis/src/{lib,genesis_context}.rs])

    The genesis transaction holds the changes of two sessions of the Move VM on an empty state:
    the first one calls the functions that set up the chain, the second one publishes the
    framework.  Errors are panics.  The sessions are those of [MoveVM]; [Session] puts their outputs
    together, and [ReleaseBundle] finds the order in which modules are published.  The random
    generator and the keys of test validators are other crates. *)
From S2P Require Import Prelude Delta ChangeSetExt StateView AdapterCommon.
From S2P Require Import GasSchedule GasSize GasMeter Session MoveVM VMImpl ReleaseBundle.

#[local] Open Scope Z_scope.

Definition GENESIS_MODULE_NAME : string := "genesis".
Definition GOVERNANCE_MODULE_NAME : string := "aptos_governance".
Definition CODE_MODULE_NAME : string := "code".
Definition VERSION_MODULE_NAME : string := "version".

Definition NUM_SECONDS_PER_YEAR : Z := 365 * 24 * 60 * 60.
Definition MICRO_SECONDS_PER_SECOND : Z := 1000000.
Definition APTOS_COINS_BASE_WITH_DECIMALS : Z := 10 ^ 8.

Record GenesisConfiguration := {
  allow_new_validators : bool;
  epoch_duration_secs : Z;
  is_test : bool;
  max_stake : Z;
  min_stake : Z;
  min_voting_threshold : Z;
  recurring_lockup_duration_secs : Z;
  required_proposer_stake : Z;
  rewards_apy_percentage : Z;
  voting_duration_secs : Z;
  voting_power_increase_limit : Z;
  employee_vesting_start : Z;
  employee_vesting_period_duration : Z;
}.

(** The assertions of [validate_genesis_config]. *)
Definition validate_genesis_config (c : GenesisConfiguration) : bool :=
  (min_stake c <=? max_stake c)
  && (0 <? epoch_duration_secs c)
  && (0 <? recurring_lockup_duration_secs c)
  && (epoch_duration_secs c <=? recurring_lockup_duration_secs c)
  && ((0 <? rewards_apy_percentage c) && (rewards_apy_percentage c <? 100))
  && (0 <? voting_duration_secs c)
  && (voting_duration_secs c <? recurring_lockup_duration_secs c)
  && ((0 <? voting_power_increase_limit c) && (voting_power_increase_limit c <=? 50)).

(** The rewards of an epoch as numerator and denominator, and its length in microseconds:
    [None] is a division by zero. *)
Definition rewards_rate_denominator : Z := 1000000000.

Definition rewards_rate_numerator (c : GenesisConfiguration) : option Z :=
  if epoch_duration_secs c =? 0 then None else
  let num_epochs_in_a_year := NUM_SECONDS_PER_YEAR / epoch_duration_secs c in
  if num_epochs_in_a_year =? 0 then None else
  Some ((rewards_apy_percentage c * rewards_rate_denominator) mod U64 / 100 / num_epochs_in_a_year).

Definition epoch_interval_usecs (c : GenesisConfiguration) : Z :=
  (epoch_duration_secs c * MICRO_SECONDS_PER_SECOND) mod U64.

Definition mainnet_genesis_config : GenesisConfiguration := {|
  allow_new_validators := true;
  epoch_duration_secs := 2 * 3600;
  is_test := false;
  min_stake := 1000000 * APTOS_COINS_BASE_WITH_DECIMALS;
  min_voting_threshold := 400000000 * APTOS_COINS_BASE_WITH_DECIMALS;
  max_stake := 50000000 * APTOS_COINS_BASE_WITH_DECIMALS;
  recurring_lockup_duration_secs := 30 * 24 * 3600;
  required_proposer_stake := 1000000 * APTOS_COINS_BASE_WITH_DECIMALS;
  rewards_apy_percentage := 10;
  voting_duration_secs := 7 * 24 * 3600;
  voting_power_increase_limit := 30;
  employee_vesting_start := 1663456089;
  employee_vesting_period_duration := 5 * 60;
|}.

(** The configuration of [generate_test_genesis]. *)
Definition test_genesis_config : GenesisConfiguration := {|
  allow_new_validators := true;
  epoch_duration_secs := 3600;
  is_test := true;
  min_stake := 0;
  min_voting_threshold := 0;
  max_stake := 100000000000000;
  recurring_lockup_duration_secs := 7200;
  required_proposer_stake := 0;
  rewards_apy_percentage := 10;
  voting_duration_secs := 3600;
  voting_power_increase_limit := 50;
  employee_vesting_start := 1663456089;
  employee_vesting_period_duration := 5 * 60;
|}.

(** Which framework a genesis is made of: there is none for mainnet yet. *)
Inductive GenesisOptions := Head | Testnet | Mainnet.

Record Validator := {
  owner_address : AccountAddress;
  operator_address : AccountAddress;
  voter_address : AccountAddress;
  stake_amount : Z;
  consensus_pubkey : bytes;
  proof_of_possession : bytes;
  network_addresses : bytes;
  full_node_network_addresses : bytes;
}.

Record AccountBalance := { account_address : AccountAddress; balance : Z }.

Record ValidatorWithCommissionRate := {
  validator : Validator;
  validator_commission_percentage : Z;
  join_during_genesis : bool;
}.

Record EmployeePool := {
  accounts : list AccountAddress;
  pool_validator : ValidatorWithCommissionRate;
  vesting_schedule_numerators : list Z;
  vesting_schedule_denominator : Z;
  beneficiary_resetter : AccountAddress;
}.

Section TestValidators.
Context {Rng PrivateKey ConsensusKey : Type}.
Context (generate_key : Rng -> PrivateKey * Rng) (generate_consensus_key : Rng -> ConsensusKey * Rng).
(** [AuthenticationKey::ed25519(&key.public_key()).derived_address()], and the encodings of the
    public key and of the proof of possession. *)
Context (derived_address : PrivateKey -> AccountAddress).
Context (public_key_bytes proof_of_possession_bytes : ConsensusKey -> bytes).
Context (seeded : Rng).

Record TestValidator := { key : PrivateKey; consensus_key : ConsensusKey; data : Validator }.

Definition TestValidator_gen (rng : Rng) (initial_stake : option Z) : TestValidator * Rng :=
  let '(key, rng) := generate_key rng in
  let owner_address := derived_address key in
  let '(consensus_key, rng) := generate_consensus_key rng in
  let stake_amount := default 1 initial_stake in
  ({| key := key; consensus_key := consensus_key;
      data := {| owner_address := owner_address;
                 operator_address := owner_address;
                 voter_address := owner_address;
                 stake_amount := stake_amount;
                 consensus_pubkey := public_key_bytes consensus_key;
                 proof_of_possession := proof_of_possession_bytes consensus_key;
                 network_addresses := [];
                 full_node_network_addresses := [] |} |}, rng).

Fixpoint gen_all (n : nat) (rng : Rng) (initial_stake : option Z) : list TestValidator :=
  match n with
  | O => []
  | S n => let '(v, rng) := TestValidator_gen rng initial_stake in v :: gen_all n rng initial_stake
  end.

Definition new_test_set (count : option nat) (initial_stake : option Z) : list TestValidator :=
  gen_all (default 10%nat count) seeded initial_stake.
End TestValidators.

Section Genesis.
Context `{Bcs128, GasAlgebra} {StateKey ContractEvent AnyError StateViewId Usage : Type}.
Context `{Chain StateKey ContractEvent (AnyError := AnyError)}.
Abbreviation Prog := (ViewProg StateKey AnyError).
Abbreviation View := (StateView StateKey StateViewId Usage AnyError).
Abbreviation ReleaseBundle := (ReleaseBundle (AccountAddress := AccountAddress)).
Abbreviation ReleasePackage := (ReleasePackage (AccountAddress := AccountAddress)).
Abbreviation PackageMetadata := (Metadata.PackageMetadata AccountAddress).
Abbreviation ChangeSet := (ChangeSet StateKey ContractEvent).

(** Addresses, the encodings of BCS, the order of [ModuleId], the accessors of events, the squash
    of the change sets of the Move VM, and the other constants of the crates that genesis uses;
    publishing with an [UnmeteredGasMeter]. *)
Context (CORE_CODE_ADDRESS aptos_test_root_address : AccountAddress).
Context (APTOS_MAX_KNOWN_VERSION : Z) (hash_one : bytes).
Context {ConsensusConfig Ed25519PublicKey : Type} (ConsensusConfigV1_default : ConsensusConfig).
Context (ed25519_authentication_key : Ed25519PublicKey -> bytes).
Context (gas_schedule_to_bytes : Z -> list (string * Z) -> option bytes).
Context (consensus_config_to_bytes : ConsensusConfig -> option bytes).
Context (u64s_to_bytes : list Z -> option bytes).
Context (accounts_to_bytes : list AccountBalance -> option bytes).
Context (employees_to_bytes : list EmployeePool -> option bytes).
Context (validators_to_bytes : list Validator -> option bytes).
Context (commission_validators_to_bytes : list ValidatorWithCommissionRate -> option bytes).
Context (package_metadata_to_bytes : PackageMetadata -> option bytes).
Context (module_id_leb : ModuleId -> ModuleId -> Prop) `{!RelDecision module_id_leb}.
Context (event_sequence_number : ContractEvent -> Z).
Context (squash_move : gmap AccountAddress (AccountChangeSet (Identifier := string) (StructTag := StructTag)) ->
  gmap AccountAddress (AccountChangeSet (Identifier := string) (StructTag := StructTag)) ->
  option (gmap AccountAddress (AccountChangeSet (Identifier := string) (StructTag := StructTag)))).
Context (publish_module_bundle_unmetered : VMSession -> list bytes -> AccountAddress ->
  Prog (result VMError unit * VMSession)).
Context (genesis_view_id : StateViewId) (usage_zero : Usage).

(** *** [genesis_context.rs] *)
Record GenesisStateView := { state_data : gmap StateKey bytes }.

Definition GenesisStateView_new : GenesisStateView := {| state_data := ∅ |}.

Definition add_module (self : GenesisStateView) (module_id : ModuleId) (blob : bytes) : GenesisStateView :=
  {| state_data := <[module_key module_id.1 module_id.2 := blob]> (state_data self) |}.

Definition genesis_view (self : GenesisStateView) : View := {|
  view_id := genesis_view_id;
  get_state_value state_key := Ok (state_data self !! state_key);
  is_genesis := true;
  get_usage := Ok usage_zero;
|}.

(** *** The calls *)

(** [unwrap] and [expect]: an error is a panic. *)
Definition unwrap {A} (o : option A) : Prog A :=
  match o with Some a => mret a | None => PPanic end.

Definition exec_function (session : VMSession) (module_name function_name : string)
    (args : list bytes) : Prog VMSession :=
  '(r, session) ← execute_function_unmetered session (CORE_CODE_ADDRESS, module_name) function_name args;
  match r with
  | Ok _ => mret session
  | Err _ => PPanic
  end.

(** [serialize_values], followed by the values that are encoded by BCS. *)
Definition serialized (values : list MoveValue) (pushed : list (option bytes)) : Prog (list bytes) :=
  serialized_values ← unwrap (mapM serialize_value values);
  pushed ← unwrap (mapM id pushed);
  mret (serialized_values ++ pushed).

Definition initialize (session : VMSession) (consensus_config : ConsensusConfig) (chain_id : Z)
    (c : GenesisConfiguration) : Prog VMSession :=
  gas_schedule_blob ← unwrap (gas_schedule_to_bytes LATEST_GAS_FEATURE_VERSION
    (to_on_chain_gas_schedule (OnChainGasSchedule := aptos_schedule GAS_UNIT_PRICE false)
       (initial (OnChainGasSchedule := aptos_schedule GAS_UNIT_PRICE false))));
  consensus_config_bytes ← unwrap (consensus_config_to_bytes consensus_config);
  rewards_rate_numerator ← unwrap (rewards_rate_numerator c);
  args ← serialized [MBytes gas_schedule_blob; MU8 chain_id; MU64 APTOS_MAX_KNOWN_VERSION;
    MBytes consensus_config_bytes; MU64 (epoch_interval_usecs c); MU64 (min_stake c);
    MU64 (max_stake c); MU64 (recurring_lockup_duration_secs c); MBool (allow_new_validators c);
    MU64 rewards_rate_numerator; MU64 rewards_rate_denominator;
    MU64 (voting_power_increase_limit c)] [];
  exec_function session GENESIS_MODULE_NAME "initialize" args.

Definition initialize_features (session : VMSession) : Prog VMSession :=
  args ← serialized [MSigner CORE_CODE_ADDRESS] [u64s_to_bytes [1; 2]; u64s_to_bytes []];
  exec_function session "features" "change_feature_flags" args.

Definition initialize_aptos_coin (session : VMSession) : Prog VMSession :=
  args ← serialized [MSigner CORE_CODE_ADDRESS] [];
  exec_function session GENESIS_MODULE_NAME "initialize_aptos_coin" args.

Definition set_genesis_end (session : VMSession) : Prog VMSession :=
  args ← serialized [MSigner CORE_CODE_ADDRESS] [];
  exec_function session GENESIS_MODULE_NAME "set_genesis_end" args.

Definition initialize_core_resources_and_aptos_coin (session : VMSession)
    (core_resources_key : Ed25519PublicKey) : Prog VMSession :=
  let core_resources_auth_key := ed25519_authentication_key core_resources_key in
  args ← serialized [MSigner CORE_CODE_ADDRESS; MBytes core_resources_auth_key] [];
  exec_function session GENESIS_MODULE_NAME "initialize_core_resources_and_aptos_coin" args.

Definition initialize_on_chain_governance (session : VMSession) (c : GenesisConfiguration)
    : Prog VMSession :=
  args ← serialized [MSigner CORE_CODE_ADDRESS; MU128 (min_voting_threshold c);
    MU64 (required_proposer_stake c); MU64 (voting_duration_secs c)] [];
  exec_function session GOVERNANCE_MODULE_NAME "initialize" args.

Definition create_accounts (session : VMSession) (accounts : list AccountBalance) : Prog VMSession :=
  args ← serialized [MSigner CORE_CODE_ADDRESS] [accounts_to_bytes accounts];
  exec_function session GENESIS_MODULE_NAME "create_accounts" args.

Definition create_employee_validators (session : VMSession) (employees : list EmployeePool)
    (c : GenesisConfiguration) : Prog VMSession :=
  args ← serialized [MU64 (employee_vesting_start c); MU64 (employee_vesting_period_duration c)]
           [employees_to_bytes employees];
  exec_function session GENESIS_MODULE_NAME "create_employee_validators" args.

Definition create_and_initialize_validators (session : VMSession) (validators : list Validator)
    : Prog VMSession :=
  args ← serialized [MSigner CORE_CODE_ADDRESS] [validators_to_bytes validators];
  exec_function session GENESIS_MODULE_NAME "create_initialize_validators" args.

Definition create_and_initialize_validators_with_commission (session : VMSession)
    (validators : list ValidatorWithCommissionRate) : Prog VMSession :=
  args ← serialized [MSigner CORE_CODE_ADDRESS; MBool true]
           [commission_validators_to_bytes validators];
  exec_function session GENESIS_MODULE_NAME "create_initialize_validators_with_commission" args.

Definition allow_core_resources_to_set_version (session : VMSession) : Prog VMSession :=
  args ← serialized [MSigner aptos_test_root_address] [];
  exec_function session VERSION_MODULE_NAME "initialize_for_test" args.

(** Trigger a reconfiguration. *)
Definition emit_new_block_and_epoch_event (session : VMSession) : Prog VMSession :=
  args ← serialized [MSigner reserved_vm_address] [];
  session ← exec_function session "block" "emit_genesis_block_event" args;
  exec_function session "reconfiguration" "emit_genesis_reconfiguration_event" [].

(** *** The framework *)
Definition publish_package (session : VMSession) (pack : ReleasePackage) : Prog VMSession :=
  modules ← unwrap (sorted_code_and_modules module_deserialize self_id immediate_dependencies
                      module_id_leb pack);
  first ← unwrap (head modules);
  let addr := (self_id first.2).1 in
  let code := modules.*1 in
  '(r, session) ← publish_module_bundle_unmetered session code addr;
  match r with
  | Err _ => PPanic
  | Ok _ =>
      args ← serialized [MSigner CORE_CODE_ADDRESS; MSigner addr]
               [package_metadata_to_bytes (metadata pack)];
      exec_function session CODE_MODULE_NAME "initialize" args
  end.

Fixpoint publish_packages (session : VMSession) (packages : list ReleasePackage) : Prog VMSession :=
  match packages with
  | [] => mret session
  | pack :: packages => session ← publish_package session pack; publish_packages session packages
  end.

Definition publish_framework (session : VMSession) (framework : ReleaseBundle) : Prog VMSession :=
  publish_packages session (ReleaseBundle.packages framework).

(** *** The change set *)

(** [session.finish().unwrap()] *)
Definition finish_unwrap (session : VMSession)
    : Prog (SessionOutput (AccountAddress := AccountAddress) (Identifier := string)
              (StructTag := StructTag) (TableHandle := bytes) (TableInfo := TableInfo)
              (MoveEvent := MoveEvent)) :=
  r ← session_finish session;
  match r with Ok out => mret out | Err _ => PPanic end.

(** Verify the consistency of the genesis [WriteSet]. *)
Definition verify_genesis_write_set (events : list ContractEvent) : bool :=
  match filter (fun e => is_new_epoch_event e = true) events with
  | [e] => event_sequence_number e =? 0
  | _ => false
  end.

Definition is_deletion (op : WriteOp) : bool :=
  match op with Deletion => true | _ => false end.

(** What the two [encode_*] functions share after the calls: [session1] makes the first session
    and makes its calls. *)
Definition genesis_change_set (framework : ReleaseBundle)
    (session1 : VMSession -> Prog VMSession) : option ChangeSet :=
  modules ← code_and_compiled_modules module_deserialize framework;
  let state_view := foldl (fun sv x => add_module sv (self_id x.2) x.1) GenesisStateView_new modules in
  let data_cache := cache_view (StateViewCache_new (genesis_view state_view)) in
  move_vm ← vm_new_with native_zeros zeros LATEST_GAS_FEATURE_VERSION default_treat_friend_as_private;
  let session := vm_new_session move_vm (SessionGenesis hash_zero) in
  session1_out ← run_prog data_cache (session ← session1 session; finish_unwrap session);
  let data_cache := cache_view (StateViewCache_new (genesis_view GenesisStateView_new)) in
  let session := vm_new_session move_vm (SessionGenesis hash_one) in
  session2_out ← run_prog data_cache (session ← publish_framework session framework; finish_unwrap session);
  session1_out ←
    match SessionOutput_squash bytes_leb id_leb squash_move (fun e => into_vm_status (finish_error e))
            session1_out session2_out with
    | Return out => Some out
    | _ => None
    end;
  change_set_ext ←
    match session_change_set session1_out LATEST_GAS_FEATURE_VERSION with
    | Return cs => Some cs
    | _ => None
    end;
  let '(delta_change_set, change_set) := into_inner change_set_ext in
  if negb (dcs_is_empty delta_change_set) then None
  else if existsb (fun x => is_deletion x.2) (map_to_list (ChangeSetExt.write_set change_set)) then None
  else if negb (verify_genesis_write_set (events change_set)) then None
  else Some change_set.

Definition encode_genesis_change_set (core_resources_key : Ed25519PublicKey)
    (validators : list Validator) (framework : ReleaseBundle) (consensus_config : ConsensusConfig)
    (chain_id : Z) (c : GenesisConfiguration) : option ChangeSet :=
  if negb (validate_genesis_config c) then None
  else
    genesis_change_set framework (fun session =>
      session ← initialize session consensus_config chain_id c;
      session ← initialize_features session;
      session ← (if is_test c
                 then initialize_core_resources_and_aptos_coin session core_resources_key
                 else initialize_aptos_coin session);
      session ← initialize_on_chain_governance session c;
      session ← create_and_initialize_validators session validators;
      session ← (if is_test c then allow_core_resources_to_set_version session else mret session);
      session ← set_genesis_end session;
      emit_new_block_and_epoch_event session).

(** [Transaction::GenesisTransaction(WriteSetPayload::Direct(..))] is left to the caller. *)
Definition encode_genesis_transaction (aptos_root_key : Ed25519PublicKey)
    (validators : list Validator) (framework : ReleaseBundle) (chain_id : Z)
    (c : GenesisConfiguration) : option ChangeSet :=
  encode_genesis_change_set aptos_root_key validators framework ConsensusConfigV1_default chain_id c.

Definition encode_aptos_mainnet_genesis_transaction (accounts : list AccountBalance)
    (employees : list EmployeePool) (validators : list ValidatorWithCommissionRate)
    (framework : ReleaseBundle) (chain_id : Z) (c : GenesisConfiguration) : option ChangeSet :=
  if is_test c then None
  else if negb (validate_genesis_config c) then None
  else
    genesis_change_set framework (fun session =>
      session ← initialize session ConsensusConfigV1_default chain_id c;
      session ← initialize_features session;
      session ← initialize_aptos_coin session;
      session ← initialize_on_chain_governance session c;
      session ← create_accounts session accounts;
      session ← create_employee_validators session employees c;
      session ← create_and_initialize_validators_with_commission session validators;
      session ← set_genesis_end session;
      emit_new_block_and_epoch_event session).

(** *** Generated genesis *)
Section Generated.
Context {Rng PrivateKey ConsensusKey : Type}.
Context (generate_key : Rng -> PrivateKey * Rng) (generate_consensus_key : Rng -> ConsensusKey * Rng).
Context (derived_address : PrivateKey -> AccountAddress).
Context (public_key_bytes proof_of_possession_bytes : ConsensusKey -> bytes) (seeded : Rng).
Context (GENESIS_PUBLIC_KEY : Ed25519PublicKey) (OnChainConsensusConfig_default : ConsensusConfig).
Context (head_release_bundle testnet_release_bundle : ReleaseBundle).

Abbreviation test_set := (new_test_set generate_key generate_consensus_key derived_address
  public_key_bytes proof_of_possession_bytes seeded).

Definition generate_test_genesis (framework : ReleaseBundle) (count : option nat)
    : option (ChangeSet * list TestValidator) :=
  let test_validators := test_set count (Some 100000000) in
  let validators := data <$> test_validators in
  genesis ← encode_genesis_change_set GENESIS_PUBLIC_KEY validators framework
              OnChainConsensusConfig_default test_chain_id test_genesis_config;
  Some (genesis, test_validators).

Definition generate_mainnet_genesis (framework : ReleaseBundle) (count : option nat)
    : option (ChangeSet * list TestValidator) :=
  let test_validators := test_set count (Some 1000000000000000) in
  let validators := data <$> test_validators in
  genesis ← encode_genesis_change_set GENESIS_PUBLIC_KEY validators framework
              OnChainConsensusConfig_default test_chain_id mainnet_genesis_config;
  Some (genesis, test_validators).

Definition framework_of (genesis_options : GenesisOptions) : ReleaseBundle :=
  match genesis_options with
  | Head => head_release_bundle
  | Testnet | Mainnet => testnet_release_bundle
  end.

Definition generate_genesis_change_set_for_testing_with_count (genesis_options : GenesisOptions)
    (count : Z) : option ChangeSet :=
  genesis ← generate_test_genesis (framework_of genesis_options) (Some (Z.to_nat count));
  Some genesis.1.

Definition generate_genesis_change_set_for_testing (genesis_options : GenesisOptions)
    : option ChangeSet :=
  generate_genesis_change_set_for_testing_with_count genesis_options 1.

Definition generate_genesis_change_set_for_mainnet (genesis_options : GenesisOptions)
    : option ChangeSet :=
  genesis ← generate_mainnet_genesis (framework_of genesis_options) (Some 1%nat);
  Some genesis.1.

Definition test_genesis_change_set_and_validators (count : option nat)
    : option (ChangeSet * list TestValidator) :=
  generate_test_genesis head_release_bundle count.

Definition test_genesis_transaction : option ChangeSet :=
  genesis ← test_genesis_change_set_and_validators None; Some genesis.1.
End Generated.

(** ** What genesis does, as a list of steps *)

(** A call of a function of the framework, or the publication of modules. *)
Inductive Step :=
  | Call (module_name function_name : string) (args : list bytes)
  | Publish (code : list bytes) (addr : AccountAddress).

Definition call (module_name function_name : string) (values : list MoveValue)
    (pushed : list (option bytes)) : option Step :=
  serialized_values ← mapM serialize_value values;
  pushed ← mapM id pushed;
  Some (Call module_name function_name (serialized_values ++ pushed)).

(** The steps in order; [None] is a step whose arguments cannot be made, or one that fails. *)
Fixpoint perform (view : View) (session : VMSession) (steps : list (option Step)) : option VMSession :=
  match steps with
  | [] => Some session
  | step :: steps =>
      step ← step;
      '(r, session) ←
        match step with
        | Call module_name function_name args =>
            run_prog view (execute_function_unmetered session (CORE_CODE_ADDRESS, module_name)
                             function_name args)
        | Publish code addr => run_prog view (publish_module_bundle_unmetered session code addr)
        end;
      match r with
      | Ok _ => perform view session steps
      | Err _ => None
      end
  end.

Definition initialize_step (consensus_config : ConsensusConfig) (chain_id : Z)
    (c : GenesisConfiguration) : option Step :=
  gas_schedule_blob ← gas_schedule_to_bytes LATEST_GAS_FEATURE_VERSION
    (to_on_chain_gas_schedule (OnChainGasSchedule := aptos_schedule GAS_UNIT_PRICE false)
       (initial (OnChainGasSchedule := aptos_schedule GAS_UNIT_PRICE false)));
  consensus_config_bytes ← consensus_config_to_bytes consensus_config;
  rewards_rate_numerator ← rewards_rate_numerator c;
  call GENESIS_MODULE_NAME "initialize"
    [MBytes gas_schedule_blob; MU8 chain_id; MU64 APTOS_MAX_KNOWN_VERSION;
     MBytes consensus_config_bytes; MU64 (epoch_interval_usecs c); MU64 (min_stake c);
     MU64 (max_stake c); MU64 (recurring_lockup_duration_secs c); MBool (allow_new_validators c);
     MU64 rewards_rate_numerator; MU64 rewards_rate_denominator;
     MU64 (voting_power_increase_limit c)] [].

Abbreviation core := (MSigner CORE_CODE_ADDRESS).

Definition features_step : option Step :=
  call "features" "change_feature_flags" [core] [u64s_to_bytes [1; 2]; u64s_to_bytes []].
Definition governance_step (c : GenesisConfiguration) : option Step :=
  call GOVERNANCE_MODULE_NAME "initialize"
    [core; MU128 (min_voting_threshold c); MU64 (required_proposer_stake c);
     MU64 (voting_duration_secs c)] [].
Definition end_steps : list (option Step) :=
  [call GENESIS_MODULE_NAME "set_genesis_end" [core] [];
   call "block" "emit_genesis_block_event" [MSigner reserved_vm_address] [];
   call "reconfiguration" "emit_genesis_reconfiguration_event" [] []].

(** The steps of the first session: the events come last. *)
Definition genesis_steps (core_resources_key : Ed25519PublicKey) (validators : list Validator)
    (consensus_config : ConsensusConfig) (chain_id : Z) (c : GenesisConfiguration)
    : list (option Step) :=
  [initialize_step consensus_config chain_id c;
   features_step;
   if is_test c
   then call GENESIS_MODULE_NAME "initialize_core_resources_and_aptos_coin"
          [core; MBytes (ed25519_authentication_key core_resources_key)] []
   else call GENESIS_MODULE_NAME "initialize_aptos_coin" [core] [];
   governance_step c;
   call GENESIS_MODULE_NAME "create_initialize_validators" [core] [validators_to_bytes validators]]
  ++ (if is_test c
      then [call VERSION_MODULE_NAME "initialize_for_test" [MSigner aptos_test_root_address] []]
      else [])
  ++ end_steps.

Definition mainnet_steps (accounts : list AccountBalance) (employees : list EmployeePool)
    (validators : list ValidatorWithCommissionRate) (chain_id : Z) (c : GenesisConfiguration)
    : list (option Step) :=
  [initialize_step ConsensusConfigV1_default chain_id c;
   features_step;
   call GENESIS_MODULE_NAME "initialize_aptos_coin" [core] [];
   governance_step c;
   call GENESIS_MODULE_NAME "create_accounts" [core] [accounts_to_bytes accounts];
   call GENESIS_MODULE_NAME "create_employee_validators"
     [MU64 (employee_vesting_start c); MU64 (employee_vesting_period_duration c)]
     [employees_to_bytes employees];
   call GENESIS_MODULE_NAME "create_initialize_validators_with_commission"
     [core; MBool true] [commission_validators_to_bytes validators]]
  ++ end_steps.

(** The steps of a package: its modules, dependencies first, then its metadata. *)
Definition package_steps (pack : ReleasePackage) : list (option Step) :=
  let modules := sorted_code_and_modules module_deserialize self_id immediate_dependencies
                   module_id_leb pack in
  let addr := modules ← modules; first ← head modules; Some (self_id first.2).1 in
  [modules ← modules; addr ← addr; Some (Publish modules.*1 addr);
   addr ← addr; call CODE_MODULE_NAME "initialize" [core; MSigner addr]
                  [package_metadata_to_bytes (metadata pack)]].

Definition framework_steps (framework : ReleaseBundle) : list (option Step) :=
  concat (package_steps <$> ReleaseBundle.packages framework).

(** *** Every procedure performs its steps *)

Lemma run_unwrap {A B} (view : View) (o : option A) (f : A -> Prog B) :
  run_prog view (x ← unwrap o; f x) = (x ← o; run_prog view (f x)).
Proof. by destruct o. Qed.

Lemma perform_app view l1 l2 : forall session,
  perform view session (l1 ++ l2) = (session ← perform view session l1; perform view session l2).
Proof.
  induction l1 as [|step l1 IH]; intros session; [done|]. cbn [app perform].
  destruct step as [[m f args|code addr]|]; cbn [mbind option_bind]; [| |done];
    (destruct (run_prog view _) as [[[] s]|]; cbn [mbind option_bind]; [apply IH | done | done]).
Qed.

Lemma perform_call view session m f args :
  perform view session [Some (Call m f args)] = run_prog view (exec_function session m f args).
Proof.
  cbn [perform mbind option_bind]. unfold exec_function. rewrite run_prog_bind.
  by destruct (run_prog view (execute_function_unmetered _ _ _ _)) as [[[] s]|].
Qed.

Lemma run_serialized view session m f values pushed :
  run_prog view (args ← serialized values pushed; exec_function session m f args) =
  perform view session [call m f values pushed].
Proof.
  unfold serialized, call. rewrite run_prog_bind, run_unwrap.
  destruct (mapM serialize_value values) as [vs|]; cbn [mbind option_bind]; [|done].
  rewrite run_unwrap. destruct (mapM id pushed) as [ps|]; cbn [mbind option_bind]; [|done].
  symmetry. apply perform_call.
Qed.

(** A procedure followed by the rest. *)
Lemma run_then view session p l (k : VMSession -> Prog VMSession) rest :
  run_prog view p = perform view session l ->
  (forall session, run_prog view (k session) = perform view session rest) ->
  run_prog view (session ← p; k session) = perform view session (l ++ rest).
Proof.
  intros Hp Hk. rewrite run_prog_bind, Hp, perform_app.
  destruct (perform view session l); cbn [mbind option_bind]; [apply Hk | done].
Qed.

Lemma run_initialize view session consensus_config chain_id c :
  run_prog view (initialize session consensus_config chain_id c) =
  perform view session [initialize_step consensus_config chain_id c].
Proof.
  unfold initialize, initialize_step. rewrite run_unwrap.
  destruct (gas_schedule_to_bytes _ _); cbn [mbind option_bind]; [|done].
  rewrite run_unwrap. destruct (consensus_config_to_bytes _); cbn [mbind option_bind]; [|done].
  rewrite run_unwrap. destruct (rewards_rate_numerator c); cbn [mbind option_bind]; [|done].
  apply run_serialized.
Qed.

Lemma run_no_args view session m f :
  run_prog view (exec_function session m f []) = perform view session [call m f [] []].
Proof. symmetry. apply perform_call. Qed.

Lemma run_call_then view session m f values pushed (k : VMSession -> Prog VMSession) rest :
  (forall session, run_prog view (k session) = perform view session rest) ->
  run_prog view (args ← serialized values pushed; session ← exec_function session m f args; k session) =
  perform view session (call m f values pushed :: rest).
Proof.
  intros Hk. change (call m f values pushed :: rest) with ([call m f values pushed] ++ rest).
  rewrite perform_app, <- run_serialized, !run_prog_bind.
  destruct (run_prog view (serialized values pushed)) as [args|]; cbn [mbind option_bind]; [|done].
  rewrite run_prog_bind. by destruct (run_prog view (exec_function _ _ _ _)); cbn.
Qed.

Lemma run_end view session :
  run_prog view (session ← set_genesis_end session; emit_new_block_and_epoch_event session) =
  perform view session end_steps.
Proof.
  apply (run_then view session _ [_]); [apply run_serialized|]. intros s.
  apply run_call_then. intros s'. apply run_no_args.
Qed.

(** The branches that depend on whether this is a test. *)
Lemma run_if view session (b : bool) p q l l' :
  run_prog view p = perform view session l -> run_prog view q = perform view session l' ->
  run_prog view (if b then p else q) = perform view session (if b then l else l').
Proof. by destruct b. Qed.

Lemma run_genesis_session view session core_resources_key validators consensus_config chain_id c :
  run_prog view
    (session ← initialize session consensus_config chain_id c;
     session ← initialize_features session;
     session ← (if is_test c
                then initialize_core_resources_and_aptos_coin session core_resources_key
                else initialize_aptos_coin session);
     session ← initialize_on_chain_governance session c;
     session ← create_and_initialize_validators session validators;
     session ← (if is_test c then allow_core_resources_to_set_version session else mret session);
     session ← set_genesis_end session;
     emit_new_block_and_epoch_event session) =
  perform view session (genesis_steps core_resources_key validators consensus_config chain_id c).
Proof.
  apply (run_then view session _ [_]); [apply run_initialize | intros s1].
  apply (run_then view s1 _ [_]); [apply run_serialized | intros s2].
  apply (run_then view s2 _ [_]).
  { destruct (is_test c); apply run_serialized. }
  intros s3. apply (run_then view s3 _ [_]); [apply run_serialized | intros s4].
  apply (run_then view s4 _ [_]); [apply run_serialized | intros s5].
  apply run_then; [|apply run_end]. apply run_if; [apply run_serialized | done].
Qed.

Lemma run_mainnet_session view session accounts employees validators chain_id c :
  run_prog view
    (session ← initialize session ConsensusConfigV1_default chain_id c;
     session ← initialize_features session;
     session ← initialize_aptos_coin session;
     session ← initialize_on_chain_governance session c;
     session ← create_accounts session accounts;
     session ← create_employee_validators session employees c;
     session ← create_and_initialize_validators_with_commission session validators;
     session ← set_genesis_end session;
     emit_new_block_and_epoch_event session) =
  perform view session (mainnet_steps accounts employees validators chain_id c).
Proof.
  apply (run_then view session _ [_]); [apply run_initialize | intros s1].
  do 6 (apply (run_then view _ _ [_]); [apply run_serialized | intros ?]). apply run_end.
Qed.

Lemma run_publish_package view session pack :
  run_prog view (publish_package session pack) = perform view session (package_steps pack).
Proof.
  unfold publish_package, package_steps. rewrite run_unwrap.
  destruct (sorted_code_and_modules _ _ _ _ _) as [modules|]; cbn [mbind option_bind]; [|done].
  rewrite run_unwrap. destruct modules as [|first modules]; [done|].
  cbn [head mbind option_bind perform]. rewrite run_prog_bind.
  destruct (run_prog view (publish_module_bundle_unmetered _ _ _)) as [[[] s]|];
    cbn [mbind option_bind]; [|done|done].
  rewrite run_serialized. done.
Qed.

Lemma run_publish_framework view framework : forall session,
  run_prog view (publish_framework session framework) =
  perform view session (framework_steps framework).
Proof.
  unfold publish_framework, framework_steps.
  induction (ReleaseBundle.packages framework) as [|pack packs IH]; intros session; [done|].
  cbn [publish_packages]. rewrite fmap_cons. cbn [concat].
  apply run_then; [apply run_publish_package | exact IH].
Qed.

(** *** The change set *)

(** The state of the first session holds the modules of the framework, that of the second one
    nothing. *)
Definition framework_state (modules : list (bytes * CompiledModule)) : View :=
  cache_view (StateViewCache_new (genesis_view
    (foldl (fun sv x => add_module sv (self_id x.2) x.1) GenesisStateView_new modules))).
Definition empty_state : View := cache_view (StateViewCache_new (genesis_view GenesisStateView_new)).

(** The changes of the two sessions together, which hold no delta and no deletion, and one event
    for a new epoch, the first one. *)
Record made_from (framework : ReleaseBundle) (steps : list (option Step)) (cs : ChangeSet) : Prop := {
  made : exists modules vm s1 out1 s2 out2 out ext,
    code_and_compiled_modules module_deserialize framework = Some modules /\
    vm_new_with native_zeros zeros LATEST_GAS_FEATURE_VERSION default_treat_friend_as_private = Some vm /\
    perform (framework_state modules) (vm_new_session vm (SessionGenesis hash_zero)) steps = Some s1 /\
    run_prog (framework_state modules) (session_finish s1) = Some (Ok out1) /\
    perform empty_state (vm_new_session vm (SessionGenesis hash_one)) (framework_steps framework) = Some s2 /\
    run_prog empty_state (session_finish s2) = Some (Ok out2) /\
    SessionOutput_squash bytes_leb id_leb squash_move (fun e => into_vm_status (finish_error e)) out1 out2
      = Return out /\
    session_change_set out LATEST_GAS_FEATURE_VERSION = Return ext /\
    delta_change_set ext = ∅ /\ change_set ext = cs;
  no_deletion k op : ChangeSetExt.write_set cs !! k = Some op -> op <> Deletion;
  one_epoch : exists e, filter (fun e => is_new_epoch_event e = true) (events cs) = [e] /\
    event_sequence_number e = 0;
}.

Lemma run_finish (view : View) (p : Prog VMSession) out :
  run_prog view (session ← p; finish_unwrap session) = Some out <->
  exists s, run_prog view p = Some s /\ run_prog view (session_finish s) = Some (Ok out).
Proof.
  rewrite run_prog_bind, bind_Some. split; intros (s & Hs & Hf); exists s; (split; [done|]);
    unfold finish_unwrap in *; rewrite run_prog_bind in *.
  - apply bind_Some in Hf as ([o|e] & Hr & Ho); [|done]. cbn in Ho. congruence.
  - by rewrite Hf.
Qed.

Lemma no_deletions (ws : gmap StateKey WriteOp) :
  existsb (fun x => is_deletion x.2) (map_to_list ws) = false <->
  (forall k op, ws !! k = Some op -> op <> Deletion).
Proof.
  rewrite <- not_true_iff_false, existsb_exists. split.
  - intros Hd k op Hk ->. apply Hd. exists (k, Deletion). split; [|done].
    apply list_elem_of_In. by apply elem_of_map_to_list.
  - intros Hd ([k op] & Hin & Hop). apply list_elem_of_In, elem_of_map_to_list in Hin.
    apply (Hd k op Hin). by destruct op.
Qed.

Lemma verify_exact events : verify_genesis_write_set events = true <->
  exists e, filter (fun e => is_new_epoch_event e = true) events = [e] /\ event_sequence_number e = 0.
Proof.
  unfold verify_genesis_write_set. destruct (filter _ events) as [|e [|]].
  - split; [done | by intros (? & ? & _)].
  - rewrite Z.eqb_eq. split; [eauto | by intros (? & [= <-] & ?)].
  - split; [done | by intros (? & ? & _)].
Qed.

Lemma genesis_change_set_exact framework session1 steps cs :
  (forall view session, run_prog view (session1 session) = perform view session steps) ->
  genesis_change_set framework session1 = Some cs <-> made_from framework steps cs.
Proof.
  intros Hrun. unfold genesis_change_set. split.
  - intros (modules & Hm & Hs)%bind_Some. cbn beta zeta in Hs.
    apply bind_Some in Hs as (vm & Hvm & Hs). cbn beta zeta in Hs.
    apply bind_Some in Hs as (out1 & Ho1 & Hs). apply run_finish in Ho1 as (s1 & H1s & Hf1).
    apply bind_Some in Hs as (out2 & Ho2 & Hs). apply run_finish in Ho2 as (s2 & H2s & Hf2).
    rewrite run_publish_framework in H2s. rewrite Hrun in H1s.
    destruct (SessionOutput_squash _ _ _ _ out1 out2) as [out| |] eqn:Hsq; [|done|done].
    cbn [mbind option_bind] in Hs.
    destruct (session_change_set out _) as [ext| |] eqn:Hext; [|done|done].
    cbn [mbind option_bind into_inner] in Hs.
    unfold dcs_is_empty in Hs. case_bool_decide as Hd; cbn [negb] in Hs; [|done].
    destruct (existsb _ _) eqn:Hdel; [done|]. destruct (verify_genesis_write_set _) eqn:Hev; [|done].
    cbn [negb] in Hs. injection Hs as <-. split; [|by apply no_deletions | by apply verify_exact].
    exists modules, vm, s1, out1, s2, out2, out, ext. split_and!; done.
  - intros [(modules & vm & s1 & out1 & s2 & out2 & out & ext & Hm & Hvm & H1s & Hf1 & H2s & Hf2 &
      Hsq & Hext & Hd & <-) Hdel Hev].
    apply bind_Some. exists modules. split; [done|]. cbn beta zeta.
    apply bind_Some. exists vm. split; [done|]. cbn beta zeta.
    apply bind_Some. exists out1. split; [apply run_finish; exists s1; by rewrite Hrun|].
    apply bind_Some. exists out2. split; [apply run_finish; exists s2; by rewrite run_publish_framework|].
    rewrite Hsq. cbn [mbind option_bind]. rewrite Hext.
    cbn [mbind option_bind into_inner]. unfold dcs_is_empty. rewrite bool_decide_true by done.
    cbn [negb]. rewrite (proj2 (no_deletions _) Hdel). by rewrite (proj2 (verify_exact _) Hev).
Qed.

(** What the configuration has to satisfy. *)
Record valid_config (c : GenesisConfiguration) : Prop := {
  valid_stake : min_stake c <= max_stake c;
  valid_epoch : 0 < epoch_duration_secs c <= recurring_lockup_duration_secs c;
  valid_apy : 0 < rewards_apy_percentage c < 100;
  valid_voting : 0 < voting_duration_secs c < recurring_lockup_duration_secs c;
  valid_power : 0 < voting_power_increase_limit c <= 50;
}.

Lemma validate_genesis_exact c : validate_genesis_config c = true <-> valid_config c.
Proof.
  unfold validate_genesis_config. rewrite !andb_true_iff, !Z.leb_le, !Z.ltb_lt.
  split; [split; lia | intros []; lia].
Qed.

(** C25. Making a genesis change set succeeds exactly when the configuration is valid and every step
    does: the calls that set up the chain, in this order and with these arguments, then, in a
    session of its own on an empty state, the packages of the framework, each with its modules
    sorted by dependencies; the changes of the two sessions go together without deltas and
    deletions, and hold one event for a new epoch, with the sequence number 0.  For mainnet the
    configuration is not that of a test, and accounts and employees are created as well. *)
Theorem genesis_exact core_resources_key validators framework consensus_config chain_id c cs
    accounts employees commission_validators :
  (encode_genesis_change_set core_resources_key validators framework consensus_config chain_id c
     = Some cs <->
   valid_config c /\
   made_from framework (genesis_steps core_resources_key validators consensus_config chain_id c) cs) /\
  (encode_aptos_mainnet_genesis_transaction accounts employees commission_validators framework
     chain_id c = Some cs <->
   is_test c = false /\ valid_config c /\
   made_from framework (mainnet_steps accounts employees commission_validators chain_id c) cs).
Proof.
  unfold encode_genesis_change_set, encode_aptos_mainnet_genesis_transaction.
  rewrite <- validate_genesis_exact. split.
  - destruct (validate_genesis_config c); cbn [negb]; [|naive_solver].
    rewrite (genesis_change_set_exact _ _ _ _ (fun view s => run_genesis_session view s _ _ _ _ _)).
    naive_solver.
  - destruct (is_test c); [naive_solver|]. destruct (validate_genesis_config c); cbn [negb]; [|naive_solver].
    rewrite (genesis_change_set_exact _ _ _ _ (fun view s => run_mainnet_session view s _ _ _ _ _)).
    naive_solver.
Qed.
End Genesis.

(** ** Rewards *)

(** The yearly rate of a valid configuration, if an epoch is not longer than a year: what all the
    epochs of a year pay is at most the annual percentage, and less than it by less than one unit
    of the denominator for each epoch. *)
Lemma rewards_rate_exact c : valid_config c -> epoch_duration_secs c <= NUM_SECONDS_PER_YEAR ->
  exists numerator, rewards_rate_numerator c = Some numerator /\
    let n := NUM_SECONDS_PER_YEAR / epoch_duration_secs c in
    0 < n /\
    100 * (numerator * n) <= rewards_apy_percentage c * rewards_rate_denominator
      < 100 * ((numerator + 1) * n).
Proof.
  intros [_ He Ha _ _] Hy. unfold rewards_rate_numerator. rewrite (proj2 (Z.eqb_neq _ _)) by lia.
  set (n := NUM_SECONDS_PER_YEAR / epoch_duration_secs c).
  assert (Hn : 0 < n) by (apply Z.div_str_pos; lia). rewrite (proj2 (Z.eqb_neq _ _)) by lia.
  eexists. split; [reflexivity|]. cbn zeta. split; [done|].
  set (r := rewards_apy_percentage c * rewards_rate_denominator) in *.
  assert (Hr : r mod U64 = r).
  { apply Z.mod_small. unfold r, rewards_rate_denominator, U64. lia. }
  rewrite Hr. pose proof (Z.div_mod r 100). pose proof (Z.mod_pos_bound r 100).
  assert (Hd : r = 100 * (r / 100)).
  { unfold r, rewards_rate_denominator.
    replace (rewards_apy_percentage c * 1000000000) with (rewards_apy_percentage c * 10000000 * 100) by lia.
    rewrite Z.div_mul by lia. lia. }
  pose proof (Z.div_mod (r / 100) n). pose proof (Z.mod_pos_bound (r / 100) n Hn). nia.
Qed.

(** A valid configuration with epochs of more than a year: the rate is a division by zero. *)
Lemma long_epoch_panics c : NUM_SECONDS_PER_YEAR < epoch_duration_secs c ->
  rewards_rate_numerator c = None.
Proof.
  intros Hy. unfold rewards_rate_numerator. rewrite (proj2 (Z.eqb_neq _ _)) by (unfold NUM_SECONDS_PER_YEAR in Hy; lia).
  rewrite Z.div_small by (unfold NUM_SECONDS_PER_YEAR in *; lia). done.
Qed.

Lemma genesis_configs_valid :
  validate_genesis_config mainnet_genesis_config = true /\
  validate_genesis_config test_genesis_config = true.
Proof. by split. Qed.
