(* ===== verification/AdapterWp.v ===== *)
(** * Reasoning on the programs of the adapter

    Postconditions of programs that read a view, in the three monads of the adapter, and meters
    that have been charged. *)
From S2P Require Import Prelude Delta ChangeSetExt StateView AdapterCommon.
From S2P Require Import GasSchedule GasSize GasMeter GasProps Session Publish TxnArgs VMErrors MoveVM.
From S2P Require Import VMImpl AptosVM.

#[local] Open Scope Z_scope.

(** ** Postconditions *)

Section Wp.
Context {StateKey AnyError : Type}.
Abbreviation Prog := (ViewProg StateKey AnyError).
Abbreviation reading := (reading StateKey AnyError).
Abbreviation charging := (charging StateKey AnyError).

(** The answers that a program may get for a key.  A view gives each key one answer; under
    speculation a key may be answered differently each time. *)
Definition Answers : Type := StateKey -> result AnyError (option bytes) -> Prop.
Definition anything : Answers := fun _ _ => True.
Context (R : Answers).

(** The program does not panic on these answers, and its results have the property. *)
Fixpoint wp {A} (p : Prog A) (Q : A -> Prop) : Prop :=
  match p with
  | PDone a => Q a
  | PRead key cont => forall v, R key v -> wp (cont v) Q
  | PPanic => False
  end.

Lemma wp_done {A} (a : A) (Q : A -> Prop) : Q a -> wp (PDone a) Q.
Proof. done. Qed.

Lemma wp_weaken {A} (p : Prog A) (P Q : A -> Prop) : wp p P -> (forall a, P a -> Q a) -> wp p Q.
Proof. intros Hp HPQ. induction p as [a|key cont IH|]; simpl in *; eauto. Qed.

Lemma wp_seq {A B} (p : Prog A) (f : A -> Prog B) (Q : B -> Prop) :
  wp p (fun a => wp (f a) Q) -> wp (p ≫= f) Q.
Proof. induction p as [a|key cont IH|]; simpl in *; eauto. Qed.

Lemma wp_and {A} (p : Prog A) (P Q : A -> Prop) : wp p P -> wp p Q -> wp p (fun a => P a /\ Q a).
Proof. induction p as [a|key cont IH|]; simpl in *; eauto. Qed.

Lemma wp_read {A} key (cont : result AnyError (option bytes) -> Prog A) (Q : A -> Prop) :
  (forall v, R key v -> wp (cont v) Q) -> wp (PRead key cont) Q.
Proof. done. Qed.

(** The same for the two monads of the adapter. *)
Definition on_ok {A B} (f : A -> Prog (result VMStatus B)) (Q : result VMStatus B -> Prop)
  (r : result VMStatus A) : Prop :=
  match r with Ok a => wp (f a) Q | Err e => Q (Err e) end.

Lemma wp_reading {A B} (p : reading A) (f : A -> reading B) (Q : result VMStatus B -> Prop) :
  wp p (on_ok f Q) -> wp (p ≫= f) Q.
Proof.
  intros Hp. apply (wp_seq p). eapply wp_weaken; [exact Hp|]. intros [a|e]; simpl; [done|apply wp_done].
Qed.

Definition on_charged {A B} (f : A -> charging B)
  (Q : result VMStatus B * AptosGasMeter -> Prop) (r : result VMStatus A * AptosGasMeter) : Prop :=
  match r with (Ok a, g) => wp (f a g) Q | (Err e, g) => Q (Err e, g) end.

Lemma wp_charging {A B} (p : charging A) (f : A -> charging B) g
  (Q : result VMStatus B * AptosGasMeter -> Prop) :
  wp (p g) (on_charged f Q) -> wp ((p ≫= f) g) Q.
Proof.
  intros Hp. apply (wp_seq (p g)). eapply wp_weaken; [exact Hp|].
  intros [[a|e] g']; simpl; [done|apply wp_done].
Qed.

Lemma wp_unmetered {A} (p : reading A) g (Q : result VMStatus A * AptosGasMeter -> Prop) :
  wp p (fun r => Q (r, g)) -> wp (unmetered p g) Q.
Proof. intros Hp. apply wp_seq. eapply wp_weaken; [exact Hp|]. intros r Hr. by apply wp_done. Qed.

Lemma wp_lift {A} (p : Prog A) (Q : result VMStatus A -> Prop) :
  wp p (fun a => Q (Ok a)) -> wp (lift_prog p) Q.
Proof. intros Hp. apply wp_seq. eapply wp_weaken; [exact Hp|]. intros r Hr. by apply wp_done. Qed.
End Wp.

(** The value that a program of the adapter ends with, when it does not fail. *)
Definition on_value {A} (Q : A -> Prop) (r : result VMStatus A) : Prop :=
  match r with Ok a => Q a | Err _ => True end.

Arguments Answers : clear implicits.

Lemma wp_narrow {StateKey AnyError A} (R R' : Answers StateKey AnyError) (p : ViewProg StateKey AnyError A) Q :
  (forall key v, R' key v -> R key v) -> wp R p Q -> wp R' p Q.
Proof. intros HR Hp. induction p as [a|key cont IH|]; simpl in *; eauto. Qed.

(** ** The answers of a view *)

Section Shown.
Context {StateKey StateViewId Usage AnyError : Type}.
Abbreviation View := (StateView StateKey StateViewId Usage AnyError).

Definition shown (view : View) : Answers StateKey AnyError :=
  fun key v => v = get_state_value view key.

Lemma wp_shown (view : View) {A} (p : ViewProg StateKey AnyError A) Q :
  wp (shown view) p Q <-> exists a, run_prog view p = Some a /\ Q a.
Proof.
  induction p as [a|key cont IH|]; simpl.
  - split; [by exists a|by intros (? & [= <-] & ?)].
  - rewrite <- IH. unfold shown. split; [by auto|by intros Hp v ->].
  - split; [done|by intros (? & ? & _)].
Qed.

(** The run of a sequence, in the two monads of the adapter. *)
Lemma run_reading_bind (view : View) {A B} (p : reading StateKey AnyError A)
  (f : A -> reading StateKey AnyError B) :
  run_prog view (p ≫= f) =
  match run_prog view p with
  | Some (Ok a) => run_prog view (f a)
  | Some (Err e) => Some (Err e)
  | None => None
  end.
Proof. etransitivity; [apply (run_prog_bind view p)|]. by destruct (run_prog view p) as [[]|]. Qed.

Lemma run_charging_bind (view : View) {A B} (p : charging StateKey AnyError A)
  (f : A -> charging StateKey AnyError B) g :
  run_prog view ((p ≫= f) g) =
  match run_prog view (p g) with
  | Some (Ok a, g) => run_prog view (f a g)
  | Some (Err e, g) => Some (Err e, g)
  | None => None
  end.
Proof.
  etransitivity; [apply (run_prog_bind view (p g))|].
  by destruct (run_prog view (p g)) as [[[]]|].
Qed.

Lemma wp_run (view : View) {A} (p : ViewProg StateKey AnyError A) a :
  wp (shown view) p (fun r => r = a) -> run_prog view p = Some a.
Proof. by intros (r & Hr & ->)%wp_shown. Qed.
End Shown.

(** A program over the writes of a transaction gets them as answers. *)
Definition under {StateKey AnyError} `{Countable StateKey} (ws : gmap StateKey WriteOp)
  (R : Answers StateKey AnyError) : Answers StateKey AnyError :=
  fun key v => match ws !! key with Some op => v = Ok (written_value op) | None => R key v end.

Lemma wp_over_writes {StateKey AnyError} `{Countable StateKey} {A} (R : Answers StateKey AnyError)
  ws (p : ViewProg StateKey AnyError A) Q :
  wp (under ws R) p Q -> wp R (over_writes ws p) Q.
Proof.
  induction p as [a|key cont IH|]; cbn [wp over_writes]; [done| |done].
  intros Hp. unfold under in Hp at 1. destruct (ws !! key) as [op|]; cbn [wp].
  - by apply IH, Hp.
  - intros v Hv. by apply IH, Hp.
Qed.

(** On a view, these are the answers of the view with the writes laid over it. *)
Lemma wp_over_view {StateKey StateViewId Usage AnyError} `{Countable StateKey} {A}
  (view : StateView StateKey StateViewId Usage AnyError) ws (p : ViewProg StateKey AnyError A) Q :
  wp (shown (delta_view {| StateView.base := view; StateView.write_set := ws |})) p Q ->
  wp (shown view) (over_writes ws p) Q.
Proof. rewrite !wp_shown. by rewrite run_over_writes. Qed.

(** ** Meters that have been charged *)

Section Meters.
Context `{GasAlgebra, !GasAlgebraLaws}.

(** [g'] is what is left of [g]. *)
Definition spent (g g' : AptosGasMeter) : Prop :=
  meter_wf g' /\ same_config g g' /\ balance g' <= balance g.

Lemma spent_refl g : meter_wf g -> spent g g.
Proof. by split; [|split; [|lia]]. Qed.

Lemma spent_trans g1 g2 g3 : spent g1 g2 -> spent g2 g3 -> spent g1 g3.
Proof.
  intros (_ & Hc & Hb) (Hw & Hc' & Hb'). split; [done|]. split; [by eapply same_config_trans|lia].
Qed.

Lemma Gas_balance_u64 g : meter_wf g -> is_u64 (Gas_balance g) /\
  Gas_balance g = balance g / scaling_factor (txn (gas_params g)).
Proof.
  intros Hg. unfold Gas_balance.
  destruct (scaling_factor_pos (txn (gas_params g)) (txn_u64 _ (wf_params _ Hg))) as [Hs Hsu].
  pose proof (wf_balance _ Hg) as Hb.
  rewrite to_unit_round_down_spec, Z.mul_1_r by (apply is_u64_1 || done || lia).
  unfold is_u64, U64_MAX, Prelude.U64 in *. set (sf := scaling_factor _) in *.
  assert (0 <= balance g / sf <= balance g).
  { split; [apply Z.div_pos; lia|]. apply Z.div_le_upper_bound; [lia|]. nia. }
  rewrite Z.min_l by lia. lia.
Qed.

Lemma spent_balance g g' : meter_wf g -> spent g g' -> Gas_balance g' <= Gas_balance g.
Proof.
  intros Hg (Hg' & (_ & Hp & _) & Hb).
  rewrite (proj2 (Gas_balance_u64 g Hg)), (proj2 (Gas_balance_u64 g' Hg')), Hp.
  destruct (scaling_factor_pos (txn (gas_params g)) (txn_u64 _ (wf_params _ Hg))) as [Hs _].
  apply Z.div_le_mono; lia.
Qed.

(** A charge that cannot panic spends. *)
Lemma metered_spends {A} (p : meter A) (P : A -> Prop) g :
  metered p P -> meter_wf g -> exists g' r, p g = Some (g', r) /\ spent g g'.
Proof.
  intros Hp Hg. specialize (Hp g Hg). destruct (p g) as [[g' [a|e]]|]; [..|done].
  - destruct Hp as (Hw & Hc & _ & c & Hc0 & Hb & _). exists g', (Ok a). split; [done|].
    split; [done|]. split; [done|lia].
  - destruct Hp as (Hw & Hc & _ & Hb). exists g', (Err e). split; [done|]. by split.
Qed.
End Meters.
