(* ===== verification/GasChecks.v ===== *)
(** * The gas checks of a transaction ([check_gas] of [aptos_vm_impl.rs])

    The intrinsic gas of a transaction, the five rules that its gas keeps, and the theorem that
    [check_gas] decides them. *)
From S2P Require Import Prelude Delta ChangeSetExt StateView AdapterCommon.
From S2P Require Import GasSchedule GasSize GasMeter GasProps Session Publish TxnArgs VMErrors MoveVM.
From S2P Require Import VMImpl AdapterWp.

#[local] Open Scope Z_scope.

(** The intrinsic gas of a transaction of this size, in internal units. *)
Definition intrinsic_gas (p : TransactionGasParameters) (size : Z) : Z :=
  Z.min (p Txn.min_transaction_gas_units
         + Z.max 0 (size - p Txn.large_transaction_cutoff) * p Txn.intrinsic_gas_per_byte) U64_MAX.

Lemma intrinsic_gas_u64 p size : (forall f, is_u64 (p f)) -> is_u64 (intrinsic_gas p size).
Proof.
  intros Hp. unfold intrinsic_gas, is_u64, U64_MAX.
  pose proof (Hp Txn.min_transaction_gas_units). pose proof (Hp Txn.intrinsic_gas_per_byte).
  unfold is_u64 in *. nia.
Qed.

(** Rounding up to external units compares as the exact amount does. *)
Lemma round_up_le `{GasAlgebra, !GasAlgebraLaws} gas factor max_gas :
  is_u64 gas -> is_u64 factor -> 1 <= factor -> is_u64 max_gas ->
  (max_gas <? to_unit_round_up gas (1, factor)) = negb (gas <=? max_gas * factor).
Proof.
  intros Hg Hf Hf1 Hm. rewrite to_unit_round_up_spec, Z.mul_1_r by (done || apply is_u64_1 || lia).
  unfold is_u64, U64_MAX in *. set (q := (gas + factor - 1) / factor).
  assert (Hq : q <= gas).
  { unfold q. apply Z.lt_succ_r, Z.div_lt_upper_bound; nia. }
  rewrite Z.min_l by lia.
  assert (Hiff : q <= max_gas <-> gas <= max_gas * factor).
  { unfold q. split.
    - intros Hle. pose proof (Z.div_mod (gas + factor - 1) factor ltac:(lia)).
      pose proof (Z.mod_pos_bound (gas + factor - 1) factor ltac:(lia)). nia.
    - intros Hle. apply Z.lt_succ_r, Z.div_lt_upper_bound; nia. }
  destruct (Z.leb_spec gas (max_gas * factor)); simpl; [apply Z.ltb_ge|apply Z.ltb_lt]; lia.
Qed.

Section Checks.
Context `{Bcs128, !Bcs128Laws, GasAlgebra, !GasAlgebraLaws}.
Context {StateKey ContractEvent AnyError StateViewId Usage : Type}.
Context `{Chain StateKey ContractEvent (AnyError := AnyError)}.
Abbreviation View := (StateView StateKey StateViewId Usage AnyError).

(** The rules for the gas of a transaction, with the code for breaking each. *)
Definition gas_rules (p : TransactionGasParameters) (txn_data : TransactionMetadata)
  (approved : bool) : list (StatusCode * bool) :=
  [(EXCEEDED_MAX_TRANSACTION_SIZE,
     (transaction_size txn_data <=? p Txn.max_transaction_size_in_bytes) || approved);
   (MAX_GAS_UNITS_EXCEEDS_MAX_GAS_UNITS_BOUND,
     max_gas_amount txn_data <=? p Txn.maximum_number_of_gas_units);
   (MAX_GAS_UNITS_BELOW_MIN_TRANSACTION_GAS_UNITS,
     intrinsic_gas p (transaction_size txn_data) <=? max_gas_amount txn_data * scaling_factor p);
   (GAS_UNIT_PRICE_BELOW_MIN_BOUND, p Txn.min_price_per_gas_unit <=? gas_unit_price txn_data);
   (GAS_UNIT_PRICE_ABOVE_MAX_BOUND, gas_unit_price txn_data <=? p Txn.max_price_per_gas_unit)].

Definition first_broken (rules : list (StatusCode * bool)) : result VMStatus unit :=
  match find (fun rule => negb rule.2) rules with
  | Some (code, _) => Err (VMStatus_Error code)
  | None => Ok tt
  end.

(** Whatever is answered, the check finds the first rule that is broken; the hashes of the
    approved scripts are read only for a transaction that is too large otherwise. *)
Definition approval_read (R : Answers StateKey AnyError) (txn_data : TransactionMetadata)
  (p : AptosGasParameters) (approved : bool) : Prop :=
  txn p Txn.max_transaction_size_in_bytes < transaction_size txn_data ->
  exists v, R (config_key ApprovedExecutionHashesResource) v /\
    approved = approved_size (txn p) txn_data v.

Lemma wp_check_gas_rules (R : Answers StateKey AnyError) (self : AptosVMImpl)
  (txn_data : TransactionMetadata) (p : AptosGasParameters) :
  impl_gas_params self = Some p -> params_wf p ->
  is_u64 (transaction_size txn_data) -> is_u64 (max_gas_amount txn_data) ->
  wp R (check_gas self txn_data) (fun r => exists approved,
    r = first_broken (gas_rules (txn p) txn_data approved) /\ approval_read R txn_data p approved).
Proof.
  intros Hgp Hp Hsize Hmax. unfold check_gas, get_gas_parameters. rewrite Hgp.
  cbn [ok_or]. apply wp_reading, wp_done. cbn [on_ok].
  destruct (scaling_factor_pos (txn p) (txn_u64 _ Hp)) as [Hsf Hsfu]. apply wp_reading.
  apply (wp_weaken _ _ (fun r => exists approved,
    r = (if (txn p Txn.max_transaction_size_in_bytes <? transaction_size txn_data) && negb approved
         then Err (VMStatus_Error EXCEEDED_MAX_TRANSACTION_SIZE) else Ok tt) /\
    approval_read R txn_data p approved)).
  { unfold approval_read.
    destruct (Z.ltb_spec (txn p Txn.max_transaction_size_in_bytes) (transaction_size txn_data)).
    2: { apply wp_done. exists true. split; [done|lia]. }
    apply wp_read. intros v Hv. destruct (approved_size _ _ v) eqn:Ha; apply wp_done;
      [exists true|exists false]; (split; [done|intros _; by exists v]). }
  intros r (approved & -> & Hread).
  assert (Hfirst : first_broken (gas_rules (txn p) txn_data approved) =
    if (txn p Txn.max_transaction_size_in_bytes <? transaction_size txn_data) && negb approved
    then Err (VMStatus_Error EXCEEDED_MAX_TRANSACTION_SIZE)
    else first_broken (tail (gas_rules (txn p) txn_data approved))).
  { unfold first_broken, gas_rules. cbn [find fst snd tail].
    rewrite negb_orb, <- !Z.ltb_antisym. by destruct (_ && _). }
  destruct (_ && _); cbn [on_ok]; [by exists approved|].
  apply (wp_weaken _ _ (fun r => r = first_broken (tail (gas_rules (txn p) txn_data approved))));
    [|intros r ->; by exists approved].
  clear Hfirst.
  unfold first_broken, gas_rules. cbn [find fst snd tail]. rewrite <- !Z.ltb_antisym.
  destruct (_ <? max_gas_amount txn_data); [by apply wp_done|].
  rewrite intrinsic_exact by (done || apply (txn_u64 _ Hp)). apply wp_reading, wp_done. cbn [on_ok].
  rewrite round_up_le; [|by apply intrinsic_gas_u64, (txn_u64 _ Hp)|done..].
  change (Saturating.sat _) with (intrinsic_gas (txn p) (transaction_size txn_data)).
  rewrite <- Z.ltb_antisym. repeat (destruct (_ <? _); [by apply wp_done|]). by apply wp_done.
Qed.

Lemma check_gas_run (self : AptosVMImpl) (txn_data : TransactionMetadata) (view : View)
  (p : AptosGasParameters) :
  impl_gas_params self = Some p -> params_wf p ->
  is_u64 (transaction_size txn_data) -> is_u64 (max_gas_amount txn_data) ->
  run_prog view (check_gas self txn_data) =
  Some (first_broken (gas_rules (txn p) txn_data
    (approved_size (txn p) txn_data (get_state_value view (config_key ApprovedExecutionHashesResource))))).
Proof.
  intros Hgp Hp Hsize Hmax.
  destruct (proj1 (wp_shown view _ _) (wp_check_gas_rules (shown view) self txn_data p Hgp Hp Hsize Hmax))
    as (r & -> & approved & -> & Hread).
  f_equal. destruct (Z.leb_spec (transaction_size txn_data) (txn p Txn.max_transaction_size_in_bytes)).
  - unfold gas_rules. by rewrite (proj2 (Z.leb_le _ _)).
  - by destruct (Hread ltac:(done)) as (v & -> & ->).
Qed.

Lemma gas_rules_pay p txn_data approved : first_broken (gas_rules p txn_data approved) = Ok tt ->
  intrinsic_gas p (transaction_size txn_data) <= max_gas_amount txn_data * scaling_factor p.
Proof.
  unfold first_broken, gas_rules. cbn [find fst snd]. do 2 (destruct (negb _); [done|]).
  destruct (negb _) eqn:Hle; [done|]. intros _. by apply negb_false_iff, Z.leb_le in Hle.
Qed.

(** ** The same rules, in terms of the transaction and of the state *)

(** The resource of the approved hashes, as it is read, has this hash. *)
Definition hash_approved (data : result AnyError (option bytes)) (hash : bytes) : Prop :=
  exists blob entries id, data = Ok (Some blob) /\ decode_approved_hashes blob = Some entries /\
    (id, hash) ∈ entries.

(** The size is within the bound; or the script is approved, what comes with it is smaller than
    the bound, and all of it is at most a mebibyte. *)
Definition size_rule (p : TransactionGasParameters) (txn_data : TransactionMetadata)
  (data : result AnyError (option bytes)) : Prop :=
  transaction_size txn_data <= p Txn.max_transaction_size_in_bytes \/
  hash_approved data (script_hash txn_data) /\
  transaction_size txn_data - script_size txn_data < p Txn.max_transaction_size_in_bytes /\
  transaction_size txn_data <= 1048576.

Definition transaction_rules (p : TransactionGasParameters) (txn_data : TransactionMetadata)
  (data : result AnyError (option bytes)) : list (StatusCode * Prop) :=
  [(EXCEEDED_MAX_TRANSACTION_SIZE, size_rule p txn_data data);
   (MAX_GAS_UNITS_EXCEEDS_MAX_GAS_UNITS_BOUND,
     max_gas_amount txn_data <= p Txn.maximum_number_of_gas_units);
   (MAX_GAS_UNITS_BELOW_MIN_TRANSACTION_GAS_UNITS,
     intrinsic_gas p (transaction_size txn_data)
       <= max_gas_amount txn_data * Z.max 1 (p Txn.gas_unit_scaling_factor));
   (GAS_UNIT_PRICE_BELOW_MIN_BOUND, p Txn.min_price_per_gas_unit <= gas_unit_price txn_data);
   (GAS_UNIT_PRICE_ABOVE_MAX_BOUND, gas_unit_price txn_data <= p Txn.max_price_per_gas_unit)].

(** The verdict of rules that are checked in order: the error of the first that does not hold. *)
Inductive verdict : list (StatusCode * Prop) -> result VMStatus unit -> Prop :=
  | verdict_ok : verdict [] (Ok tt)
  | verdict_holds code (rule : Prop) rules r :
      rule -> verdict rules r -> verdict ((code, rule) :: rules) r
  | verdict_broken code (rule : Prop) rules :
      ~ rule -> verdict ((code, rule) :: rules) (Err (VMStatus_Error code)).

Lemma first_broken_verdict tests rules :
  Forall2 (fun t r => t.1 = r.1 /\ (t.2 = true <-> r.2)) tests rules ->
  verdict rules (first_broken tests).
Proof.
  induction 1 as [|[c b] [code rule] tests rules [Hc Hb] _ IH]; [apply verdict_ok|].
  cbn [fst snd] in *. subst c. unfold first_broken in *. cbn [find snd]. destruct b; cbn [negb].
  - by apply verdict_holds; [apply Hb|].
  - apply verdict_broken. by intros Hr%Hb.
Qed.

Lemma approved_size_exact (p : TransactionGasParameters) (txn_data : TransactionMetadata)
  (data : result AnyError (option bytes)) :
  is_u64 (p Txn.max_transaction_size_in_bytes) -> is_u64 (transaction_size txn_data) ->
  is_u64 (script_size txn_data) ->
  approved_size p txn_data data = true <->
  hash_approved data (script_hash txn_data) /\
  transaction_size txn_data - script_size txn_data < p Txn.max_transaction_size_in_bytes /\
  transaction_size txn_data <= 1048576.
Proof.
  intros Hp Hsize Hscript. unfold approved_size.
  assert (Hhash : hash_approved data (script_hash txn_data) <->
    exists blob, data = Ok (Some blob) /\
      match decode_approved_hashes blob with
      | Some entries => existsb (fun x => bool_decide (x.2 = script_hash txn_data)) entries
      | None => false
      end = true).
  { split.
    - intros (blob & entries & id & -> & Hd & Hin). exists blob. split; [done|]. rewrite Hd.
      apply existsb_exists. exists (id, script_hash txn_data).
      split; [by apply list_elem_of_In|by apply bool_decide_eq_true_2].
    - intros (blob & -> & Hb). destruct (decode_approved_hashes blob) as [entries|] eqn:Hd; [|done].
      apply existsb_exists in Hb as ([id h] & Hin & <-%bool_decide_eq_true_1).
      exists blob, entries, id. by split; [|split; [|apply list_elem_of_In]]. }
  rewrite Hhash. destruct data as [[blob|]|e]; [|by split; [|intros [(? & [=] & _) _]]..].
  rewrite !andb_true_iff, Z.ltb_lt, Z.leb_le, gas_add_spec by done.
  change MAXIMUM_APPROVED_TRANSACTION_SIZE with 1048576. unfold is_u64, U64_MAX, Prelude.U64 in *.
  split.
  - intros [[He Hlt] Hle]. split; [by exists blob|]. lia.
  - intros [(blob' & [= <-] & He) [Hlt Hle]]. split; [split; [done|]|]; lia.
Qed.

Lemma scaling_factor_max (p : TransactionGasParameters) :
  is_u64 (p Txn.gas_unit_scaling_factor) -> scaling_factor p = Z.max 1 (p Txn.gas_unit_scaling_factor).
Proof.
  unfold is_u64, scaling_factor. intros Hu. destruct (Z.eqb_spec (p Txn.gas_unit_scaling_factor) 0); lia.
Qed.

(** C19. [check_gas] does not panic, and its verdict is that of five rules, checked in order: the
    size of the transaction is within the bound, or its script has an approved hash, the rest of
    it is smaller than the bound and all of it at most a mebibyte; its gas is at most the maximum;
    its gas is enough for the intrinsic gas of its size, compared without a loss by rounding;
    and its price is not below and not above the bounds.  The error is that of the first rule
    that does not hold. *)
Theorem check_gas_exact (self : AptosVMImpl) (txn_data : TransactionMetadata) (view : View)
  (p : AptosGasParameters) :
  impl_gas_params self = Some p -> params_wf p ->
  is_u64 (transaction_size txn_data) -> is_u64 (script_size txn_data) ->
  is_u64 (max_gas_amount txn_data) ->
  exists r, run_prog view (check_gas self txn_data) = Some r /\
    verdict (transaction_rules (txn p) txn_data
      (get_state_value view (config_key ApprovedExecutionHashesResource))) r.
Proof.
  intros Hgp Hp Hsize Hscript Hmax. pose proof (txn_u64 _ Hp) as Htp.
  eexists. split; [by apply check_gas_run|]. apply first_broken_verdict.
  repeat apply Forall2_cons_2; try apply Forall2_nil_2; (split; [done|]); cbn [fst snd];
    try apply Z.leb_le.
  - by rewrite orb_true_iff, Z.leb_le, approved_size_exact.
  - by rewrite Z.leb_le, scaling_factor_max.
Qed.
End Checks.
