(* ===== verification/AptosVMProps.v ===== *)
(** * What the VM adapter does with a transaction

    The laws of the Move VM; everything that the adapter runs returns, and only spends gas; and
    the outcomes of the payload, of the cleanups and of a user transaction. *)
From S2P Require Import Prelude Delta ChangeSetExt StateView AdapterCommon.
From S2P Require Import GasSchedule GasSize GasMeter GasProps Session Publish TxnArgs VMErrors MoveVM.
From S2P Require Import VMImpl AptosVM AdapterWp GasChecks.

#[local] Open Scope Z_scope.

(** ** The laws of the Move VM and of the chain *)

(** The codes with which the adapter discards transactions. *)
Definition discarded_codes : list StatusCode :=
  [INVALID_SIGNATURE; SIGNERS_CONTAIN_DUPLICATES; FEATURE_UNDER_GATING; VM_STARTUP_FAILURE;
   EXCEEDED_MAX_TRANSACTION_SIZE; MAX_GAS_UNITS_EXCEEDS_MAX_GAS_UNITS_BOUND;
   MAX_GAS_UNITS_BELOW_MIN_TRANSACTION_GAS_UNITS; GAS_UNIT_PRICE_BELOW_MIN_BOUND;
   GAS_UNIT_PRICE_ABOVE_MAX_BOUND; UNEXPECTED_ERROR_FROM_KNOWN_MOVE_FUNCTION;
   EVENT_KEY_MISMATCH] ++ prologue_codes.*2.

Section Laws.
Context `{Bcs128, GasAlgebra, Uleb128} {StateKey ContractEvent AnyError : Type}.
Context `{Chain StateKey ContractEvent (AnyError := AnyError)}.
Abbreviation Prog := (ViewProg StateKey AnyError).

Definition discardable (e : VMStatus) : Prop := exists code, keep_or_discard e = inr code.

(** A metered operation of a session returns, with a meter that has only been charged. *)
Definition spends_gas (p : AptosGasMeter -> Prog (result VMError unit * VMSession * AptosGasMeter)) : Prop :=
  forall g (R : Answers StateKey AnyError), meter_wf g ->
    wp R (p g) (fun r => spent g r.2).

(** The operations of a session do not panic and only charge the meter, aggregators hold
    [u128] values, and statuses are kept or discarded as documented. *)
Class VMLaws : Prop := {
  load_script_total s c t (R : Answers StateKey AnyError) : wp R (load_script s c t) (fun _ => True);
  load_function_total s m f t (R : Answers StateKey AnyError) : wp R (load_function s m f t) (fun _ => True);
  exists_module_total s m (R : Answers StateKey AnyError) : wp R (exists_module s m) (fun _ => True);
  load_module_total s m (R : Answers StateKey AnyError) : wp R (load_module s m) (fun _ => True);
  execute_script_unmetered_total s c t a (R : Answers StateKey AnyError) :
    wp R (execute_script_unmetered s c t a) (fun _ => True);
  execute_function_unmetered_total s m f a (R : Answers StateKey AnyError) :
    wp R (execute_function_unmetered s m f a) (fun _ => True);
  execute_script_spends s c t a : spends_gas (execute_script s c t a);
  execute_entry_function_spends s m f t a : spends_gas (execute_entry_function s m f t a);
  execute_function_spends s m f a : spends_gas (execute_function s m f a);
  publish_spends s b a : spends_gas (publish_module_bundle s b a);
  finish_total s (R : Answers StateKey AnyError) : wp R (finish_with_extensions s) (fun r =>
    match r with
    | Ok (_, _, tables, aggs) =>
        (exists m, aggs = Return m /\ forall id v, m !! id = Some (AggregatorContext.Write v) -> is_u128 v) /\
        match tables with Ok _ => True | Err e => discardable (into_vm_status (finish_error e)) end
    | Err e => discardable (into_vm_status e)
    end);
  not_executed e : into_vm_status e <> VMStatus_Executed;
  serialize_signer_ok a : exists b, serialize_value (MSigner a) = Some b /\ length b = 32%nat;
  serialize_total v : is_Some (serialize_value v);
  encode_key_total key : is_Some (encode_key key);
  freeze_same ws : freeze ws = Some ws;
  check_errors ws ev v e : check_change_set ws ev v = Err e -> discardable e;
  status_from_spec s :
    match status_from s with
    | Discard code => keep_or_discard s = inr code
    | Keep _ => exists kept, keep_or_discard s = inl kept
    | Retry => False
    end;
  is_discarded_spec st : is_discarded st = match st with Keep _ => false | _ => true end;
  codes_discarded code : code ∈ discarded_codes -> keep_or_discard (VMStatus_Error code) = inr code;
}.
End Laws.

(** ** Everything that runs returns, and only spends *)

Create HintDb adapter.

Section Spending.
Context `{Bcs128, !Bcs128Laws, GasAlgebra, !GasAlgebraLaws, Uleb128, !Uleb128Laws}.
Context {StateKey ContractEvent AnyError StateViewId Usage : Type}.
Context `{Chain StateKey ContractEvent (AnyError := AnyError)}.
Context `{!VMLaws (StateKey := StateKey) (ContractEvent := ContractEvent) (AnyError := AnyError)}.
Abbreviation View := (StateView StateKey StateViewId Usage AnyError).
Abbreviation Prog := (ViewProg StateKey AnyError).
Abbreviation reading := (reading StateKey AnyError).
Abbreviation charging := (charging StateKey AnyError).

Definition total {A} (p : Prog A) : Prop := forall R : Answers StateKey AnyError, wp R p (fun _ => True).
Definition spending {A} (p : charging A) : Prop := forall g (R : Answers StateKey AnyError),
  meter_wf g -> wp R (p g) (fun r => spent g r.2).

Lemma total_ret {A} (r : result VMStatus A) : total (PDone r : reading A).
Proof. intros R. by apply wp_done. Qed.

Lemma total_throw {A} code : total (throw code : reading A).
Proof. apply total_ret. Qed.

Lemma total_bind {A B} (p : reading A) (f : A -> reading B) :
  total p -> (forall a, total (f a)) -> total (p ≫= f).
Proof.
  intros Hp Hf view. apply wp_reading. eapply wp_weaken; [apply Hp|].
  intros [a|e] _; simpl; [apply Hf|done].
Qed.

Lemma total_lift {A} (p : Prog A) : total p -> total (lift_prog p).
Proof. intros Hp view. apply wp_lift. eapply wp_weaken; [apply Hp|done]. Qed.

Lemma total_comp {A} (c : comp VMStatus A) : c <> Panic -> total (of_comp c).
Proof. intros Hc. destruct c; [apply total_ret..|done]. Qed.

Lemma total_result {A} (r : result VMStatus A) : total (of_comp (lift r)).
Proof. apply total_comp. by destruct r. Qed.

Lemma total_call {A} (p : Prog (result VMError A * VMSession)) : total p -> total (call p).
Proof.
  intros Hp. apply total_bind; [by apply total_lift|]. intros [[a|e] s]; apply total_ret.
Qed.

Lemma spending_ret {A} (a : A) : spending (mret a).
Proof. intros g R Hg. apply wp_done. by apply spent_refl. Qed.

Lemma spending_bind {A B} (p : charging A) (f : A -> charging B) :
  spending p -> (forall a, spending (f a)) -> spending (p ≫= f).
Proof.
  intros Hp Hf g R Hg. apply wp_charging. eapply wp_weaken; [by apply Hp|].
  intros [[a|e] g1] Hs; simpl in *; [|done]. eapply wp_weaken; [apply Hf, Hs|].
  intros r Hr. by eapply spent_trans.
Qed.

Lemma spending_unmetered {A} (p : reading A) : total p -> spending (unmetered p).
Proof.
  intros Hp g R Hg. apply wp_unmetered. eapply wp_weaken; [apply Hp|].
  intros r _. by apply spent_refl.
Qed.

Lemma spending_charges {A} st (p : meter A) P : metered p P -> spending (charges st p).
Proof.
  intros Hp g R Hg. destruct (metered_spends p P g Hp Hg) as (g' & r & Hr & Hs).
  unfold charges. rewrite Hr. by apply wp_done.
Qed.

Lemma spending_call p : spends_gas p ->
  spending (metered_call p).
Proof.
  intros Hp g R Hg. apply wp_seq. eapply wp_weaken; [by apply Hp|].
  intros [[[u|e] s] g1] Hs; by apply wp_done.
Qed.

Lemma spending_the_meter : spending the_meter.
Proof. intros g R Hg. apply wp_done. by apply spent_refl. Qed.

Lemma load_script_ok s c t : total (load_script s c t).
Proof. intros R. apply load_script_total. Qed.
Lemma load_function_ok s m f t : total (load_function s m f t).
Proof. intros R. apply load_function_total. Qed.
Lemma exists_module_ok s m : total (exists_module s m).
Proof. intros R. apply exists_module_total. Qed.
Lemma load_module_ok s m : total (load_module s m).
Proof. intros R. apply load_module_total. Qed.
Lemma execute_script_unmetered_ok s c t a : total (execute_script_unmetered s c t a).
Proof. intros R. apply execute_script_unmetered_total. Qed.
Lemma execute_script_ok s c t a : spending (metered_call (execute_script s c t a)).
Proof. apply spending_call, execute_script_spends. Qed.
Lemma execute_entry_function_ok s m f t a :
  spending (metered_call (execute_entry_function s m f t a)).
Proof. apply spending_call, execute_entry_function_spends. Qed.
Lemma execute_function_ok s m f a : spending (metered_call (execute_function s m f a)).
Proof. apply spending_call, execute_function_spends. Qed.
Lemma publish_ok s b a : spending (metered_call (publish_module_bundle s b a)).
Proof. apply spending_call, publish_spends. Qed.

Hint Resolve spending_ret spending_unmetered spending_the_meter
  total_ret total_throw total_result total_call total_lift : adapter.
Hint Resolve load_script_ok load_function_ok exists_module_ok load_module_ok
  execute_script_unmetered_ok : adapter.
Hint Resolve execute_script_ok execute_entry_function_ok execute_function_ok publish_ok : adapter.

(** The arguments of a call fit in the address space. *)
Definition args_fit (args : list bytes) : Prop := Forall usize_long args.

Lemma total_combine s senders args func : args_fit args -> total (combine_args s senders args func).
Proof.
  intros Hargs. unfold combine_args.
  destruct (validation_terminates (get_struct_type s) short_str_lossless serialize_signer senders args
    func serialize_signer_ok Hargs) as (r & -> & Hr).
  apply total_comp. destruct Hr as [[c ->]|(e & -> & _)]; done.
Qed.

Lemma spending_initialization modules : forall session ids senders,
  spending (execute_module_initialization session modules ids senders).
Proof.
  induction modules as [|m modules IH]; intros session ids senders; cbn [execute_module_initialization].
  { apply spending_ret. }
  case_bool_decide; [apply IH|]. apply spending_bind; [auto with adapter|]. intros [[f|e] s]; [|apply IH].
  destruct (verify_module_init_function m); [|auto with adapter].
  destruct (signer_args_total serialize_signer senders serialize_signer_ok) as (args & Hargs & _).
  unfold signer_args in Hargs. rewrite Hargs. apply spending_bind; [auto with adapter|].
  intros s'. apply IH.
Qed.

Lemma total_existing modules : forall session, total (existing_modules session modules).
Proof.
  induction modules as [|m modules IH]; intros session; cbn [existing_modules]; [apply total_ret|].
  apply total_bind; [auto with adapter|]. intros [b s]. apply total_bind; [apply IH|].
  intros [ids s']. apply total_ret.
Qed.

Lemma total_verify_bundle bundle : forall session, total (verify_module_bundle session bundle).
Proof.
  induction bundle as [|m bundle IH]; intros session; cbn [verify_module_bundle]; [apply total_ret|].
  destruct (module_deserialize m); [|apply total_ret].
  apply total_bind; [auto with adapter|]. intros [[r|e] s]; [apply total_ret|apply IH].
Qed.

Lemma spending_publish session : spending (resolve_pending_code_publish session).
Proof.
  unfold resolve_pending_code_publish. destruct (take_publish_request session) as [[request|] s].
  2: apply spending_ret.
  apply spending_bind; [auto with adapter|]. intros modules.
  apply spending_bind; [auto with adapter|]. intros _.
  apply spending_bind; [apply spending_unmetered, total_existing|]. intros [ids s1].
  apply spending_bind; [auto with adapter|]. intros s2. apply spending_initialization.
Qed.

(** ** The end of a session *)

Definition finished (r : result VMStatus (SessionOutput (AccountAddress := AccountAddress)
  (Identifier := string) (StructTag := StructTag) (TableHandle := bytes) (TableInfo := TableInfo)
  (MoveEvent := MoveEvent))) : Prop :=
  match r with
  | Ok out => forall id v,
      aggregator_change_set out !! id = Some (AggregatorContext.Write v) -> is_u128 v
  | Err e => discardable e
  end.

Lemma wp_finish session (R : Answers StateKey AnyError) : wp R (session_finish session) finished.
Proof.
  unfold session_finish. apply wp_reading, wp_lift. eapply wp_weaken; [apply finish_total|].
  intros [[[[cs ev] tables] aggs]|e]; [|by intros Hd; apply wp_done].
  intros [(m & -> & Hm) Ht]. cbn [on_ok]. destruct tables as [t|e]; apply wp_done; [|done]. exact Hm.
Qed.

Lemma insert_aggregators_total (l : list ((bytes * AccountAddress) * AggregatorContext.AggregatorChange)) :
  forall ws ds, (forall id v, (id, AggregatorContext.Write v) ∈ l -> is_u128 v) ->
  exists r, insert_aggregators (StateKey := StateKey) table_item id l ws ds = Return r.
Proof.
  induction l as [|[[h key] c] l IH]; intros ws ds Hl; cbn [insert_aggregators]; [by eexists|].
  assert (Hl' : forall id v, (id, AggregatorContext.Write v) ∈ l -> is_u128 v)
    by (intros id v Hin; apply (Hl id); by right).
  destruct c as [v|d|]; [|by apply IH..].
  destruct (bcs_roundtrip v) as (b & Hb & _); [apply (Hl (h, key)); left|].
  unfold serialize. rewrite Hb. by apply IH.
Qed.

Lemma change_set_outcome out v : finished (Ok out) ->
  match session_change_set out v with
  | Return _ => True
  | Throw e => discardable e
  | Panic => False
  end.
Proof.
  intros Hout. unfold session_change_set, SessionOutput_into_change_set.
  match goal with |- context [insert_aggregators _ _ ?l ?ws ?ds] =>
    destruct (insert_aggregators_total l ws ds) as [[ws' ds'] ->] end.
  { intros id x Hin. apply btree_iter_elem in Hin. by apply (Hout id). }
  cbn [mbind comp_bind]. rewrite freeze_same. cbn [ok_or lift mbind comp_bind].
  destruct (mapM contract_event (out_move_events out)) as [ev|]; cbn [ok_or lift mbind comp_bind].
  2: { eexists. apply codes_discarded. do 10 right. left. }
  destruct (check_change_set ws' ev v) as [u|e] eqn:He; cbn [lift mbind comp_bind]; [done|].
  by eapply check_errors.
Qed.

Lemma spending_change_set session : spending (charged_change_set session).
Proof.
  intros g R Hg. unfold charged_change_set.
  apply wp_charging, wp_unmetered. eapply wp_weaken; [apply wp_finish|].
  intros [out|e] Hout; cbn [on_charged]; [|by apply spent_refl].
  apply wp_charging, wp_done. cbn [on_charged].
  apply wp_charging, wp_unmetered. pose proof (change_set_outcome out (feature_version g) Hout) as Hcs.
  destruct (session_change_set out (feature_version g)) as [cs|e|]; [| |done];
    apply wp_done; cbn [on_charged]; [|by apply spent_refl].
  apply (spending_bind (charges _ _)); [|intros _; apply spending_ret|done].
  eapply spending_charges, metered_write_set, Forall_forall. intros kv _. apply encode_key_total.
Qed.

(** ** The payload *)

Definition payload_fits (p : TransactionPayload TypeTag TransactionArgument) : Prop :=
  match p with
  | PayloadScript script => args_fit (convert_txn_args (script_args script))
  | PayloadEntryFunction _ _ _ args => args_fit args
  | PayloadModuleBundle _ => True
  end.

(** What charges the intrinsic gas of a size, if the meter has it. *)
Definition pays {A} (size : Z) (p : charging A) : Prop := forall g (R : Answers StateKey AnyError), meter_wf g ->
  wp R (p g) (fun r => spent g r.2 /\
    (intrinsic_gas (txn (gas_params g)) size <= balance g ->
     balance r.2 <= balance g - intrinsic_gas (txn (gas_params g)) size)).

Lemma pays_spending {A} size (p : charging A) : pays size p -> spending p.
Proof. intros Hp g R Hg. eapply wp_weaken; [by apply Hp|]. by intros r []. Qed.

Lemma pays_first {A} size (f : unit -> charging A) : is_u64 size -> (forall u, spending (f u)) ->
  pays size (u ← charges partial_status (charge_intrinsic_gas_for_transaction size); f u).
Proof.
  intros Hsize Hf g R Hg. apply wp_charging.
  destruct (metered_spends _ _ g (metered_intrinsic size Hsize) Hg) as (g1 & r & Hr & Hs).
  unfold charges. rewrite Hr. apply wp_done.
  assert (Hpaid : intrinsic_gas (txn (gas_params g)) size <= balance g ->
    r = Ok tt /\ balance g1 = balance g - intrinsic_gas (txn (gas_params g)) size).
  { intros Hle. revert Hr. unfold charge_intrinsic_gas_for_transaction, mbind, meter_bind, self, pure.
    rewrite intrinsic_exact by (done || apply (txn_u64 _ (wf_params _ Hg))).
    change (Saturating.sat _) with (intrinsic_gas (txn (gas_params g)) size).
    unfold charge, mbind, meter_bind, self.
    rewrite checked_sub_spec by (apply (wf_balance _ Hg) || apply intrinsic_gas_u64, (wf_params _ Hg)).
    rewrite bool_decide_true by done. by intros [= <- <-]. }
  destruct r as [u|e]; cbn [map_err on_charged].
  2: { split; [done|]. by intros [? _]%Hpaid. }
  eapply wp_weaken; [apply Hf, Hs|]. intros r Hr'. split; [by eapply spent_trans|].
  intros [_ <-]%Hpaid. apply Hr'.
Qed.

(** The call that a payload makes. *)
Lemma spending_entry session txn_data p : payload_fits p ->
  spending (match p with
    | PayloadScript script =>
        '(loaded_func, session) ← unmetered (call (load_script session (code script) (ty_args script)));
        args ← unmetered (combine_args session (sender txn_data :: secondary_signers txn_data)
                 (convert_txn_args (script_args script)) loaded_func);
        metered_call (execute_script session (code script) (ty_args script) args)
    | PayloadEntryFunction module_id name ty_args args =>
        '(function, session) ← unmetered (call (load_function session module_id name ty_args));
        args ← unmetered (combine_args session (sender txn_data :: secondary_signers txn_data)
                 args function);
        metered_call (execute_entry_function session module_id name ty_args args)
    | PayloadModuleBundle _ => unmetered (throw UNREACHABLE)
    end).
Proof.
  intros Hp. destruct p as [script|m f t args|bundle]; [| |auto with adapter].
  all: apply spending_bind; [auto with adapter|]; intros [func s];
    apply spending_bind; [by apply spending_unmetered, total_combine|]; auto with adapter.
Qed.

Lemma pays_script session txn_data p : is_u64 (transaction_size txn_data) -> payload_fits p ->
  pays (transaction_size txn_data) (script_or_entry_function_changes session txn_data p).
Proof.
  intros Hsize Hp. unfold script_or_entry_function_changes. apply pays_first; [done|]. intros _.
  apply spending_bind; [by apply spending_entry|]. intros s.
  apply spending_bind; [apply spending_publish|]. intros s'. apply spending_change_set.
Qed.

Lemma pays_modules session txn_data bundle : is_u64 (transaction_size txn_data) ->
  pays (transaction_size txn_data) (modules_changes false session txn_data bundle).
Proof.
  intros Hsize. unfold modules_changes. apply pays_first; [done|]. intros _.
  apply spending_bind; [apply spending_unmetered, total_verify_bundle|]. intros s.
  apply spending_bind; [auto with adapter|]. intros s1.
  apply spending_bind; [auto with adapter|]. intros modules.
  apply spending_bind; [apply spending_initialization|]. intros s2. apply spending_change_set.
Qed.

(** ** The prologue *)

Definition discards {A} (r : result VMStatus A) : Prop :=
  match r with Ok _ => True | Err e => discardable e end.

Lemma code_discardable code : code ∈ discarded_codes -> discardable (VMStatus_Error code).
Proof. intros Hc. exists code. by apply codes_discarded. Qed.

(** The parameters that the VM has read are [u64]s. *)
Record impl_wf (self : AptosVMImpl) : Prop := {
  impl_params_wf p : impl_gas_params self = Some p -> params_wf p;
  impl_storage_wf p : impl_storage_gas_params self = Some p -> storage_wf p;
  impl_version : 0 <= gas_feature_version self;
}.

(** The fields of a transaction are machine integers. *)
Record txn_wf (txn_data : TransactionMetadata) : Prop := {
  size_u64 : is_u64 (transaction_size txn_data);
  max_gas_u64 : is_u64 (max_gas_amount txn_data);
}.

Lemma gas_rules_discard p txn_data approved : discards (first_broken (gas_rules p txn_data approved)).
Proof.
  unfold first_broken, gas_rules. cbn [find fst snd].
  destruct (negb _); [apply code_discardable; do 4 right; left|].
  destruct (negb _); [apply code_discardable; do 5 right; left|].
  destruct (negb _); [apply code_discardable; do 6 right; left|].
  destruct (negb _); [apply code_discardable; do 7 right; left|].
  destruct (negb _); [apply code_discardable; do 8 right; left|]. done.
Qed.

Lemma wp_check_gas self txn_data (R : Answers StateKey AnyError) : impl_wf self -> txn_wf txn_data ->
  wp R (check_gas self txn_data) discards.
Proof.
  intros Hself Htxn. destruct (impl_gas_params self) as [p|] eqn:Hp.
  - eapply wp_weaken; [eapply wp_check_gas_rules; [done|by eapply impl_params_wf|apply Htxn..]|].
    intros r (approved & -> & _). apply gas_rules_discard.
  - unfold check_gas, get_gas_parameters. rewrite Hp. apply wp_reading, wp_done.
    apply code_discardable. do 3 right. left.
Qed.

Lemma serialize_values args : exists l, mapM serialize_value args = Some l.
Proof.
  induction args as [|v args [l IH]]; [by eexists|]. destruct (serialize_total v) as [b Hb].
  exists (b :: l). cbn [mapM]. rewrite Hb. cbn [mbind option_bind]. by rewrite IH.
Qed.

Lemma wp_framework convert session m name args (R : Answers StateKey AnyError) :
  wp R (run_framework_function convert session m name args)
    (fun r => match r.1 with Ok _ => True | Err e => exists e', convert e' = Err e end).
Proof.
  unfold run_framework_function. destruct (serialize_values args) as [l ->].
  apply wp_seq. eapply wp_weaken; [apply execute_function_unmetered_total|].
  intros [[u|e] s] _; apply wp_done; simpl; [done|].
  destruct (convert e) eqn:He; [done|]. by exists e.
Qed.

Lemma prologue_discardable self e s :
  convert_prologue self e = Err s -> discardable s.
Proof.
  intros (c & -> & [->|Hc])%prologue_error_code; [|..|apply not_executed]; apply code_discardable.
  - do 9 right. left.
  - do 11 right. exact Hc.
Qed.

Definition not_gated (disallowed : bool) (p : TransactionPayload TypeTag TransactionArgument) : Prop :=
  match p with PayloadModuleBundle _ => disallowed = false | _ => True end.

(** The gas of a transaction is right, and its payload is not under gating. *)
Definition accepted (disallowed : bool) (view : View) (self : AptosVMImpl)
  (txn_data : TransactionMetadata) (p : TransactionPayload TypeTag TransactionArgument) : Prop :=
  run_prog view (check_gas self txn_data) = Some (Ok tt) /\
  not_gated disallowed p.

(** What is known of a transaction that the prologue lets pass: the gas checks do, in the sense of
    [gas_ok], and it is not under gating. *)
Definition validated (disallowed : bool) (gas_ok : Prop)
  (p : TransactionPayload TypeTag TransactionArgument) (r : result VMStatus unit) : Prop :=
  match r with Ok _ => gas_ok /\ not_gated disallowed p | Err e => discardable e end.

Definition gas_checked (R : Answers StateKey AnyError) (self : AptosVMImpl)
  (txn_data : TransactionMetadata) (gas_ok : Prop) : Prop :=
  wp R (check_gas self txn_data) (fun r => match r with Ok _ => gas_ok | Err e => discardable e end).

Lemma wp_prologue (R : Answers StateKey AnyError) gas_ok disallowed self session p txn_data :
  gas_checked R self txn_data gas_ok ->
  wp R (run_prologue_with_payload disallowed self session p txn_data)
    (fun r => validated disallowed gas_ok p r.1).
Proof.
  intros Hgas.
  assert (Hchecked : forall prologue : Prog (result VMStatus unit * VMSession),
    not_gated disallowed p -> wp R prologue (fun r => discards r.1) ->
    wp R (r ← check_gas self txn_data;
          match r with Ok _ => prologue | Err e => mret (Err e, session) end)
      (fun r => validated disallowed gas_ok p r.1)).
  { intros prologue Hgate Hp. apply wp_seq. eapply wp_weaken; [exact Hgas|].
    intros [[]|e] Hr; [|by apply wp_done]. eapply wp_weaken; [exact Hp|].
    intros [[u|e] s]; simpl; [by split|done]. }
  assert (Hrun : forall m name args, wp R
    (run_framework_function (convert_prologue self) session m name args) (fun r => discards r.1)).
  { intros m name args. eapply wp_weaken; [apply wp_framework|]. intros [[u|e] s]; simpl; [done|].
    intros [e' He]. by eapply prologue_discardable. }
  unfold run_prologue_with_payload.
  destruct p as [script|m f t args|bundle]; [by apply Hchecked; [|apply Hrun]..|].
  destruct disallowed; [|by apply Hchecked; [|apply Hrun]].
  apply wp_done, code_discardable. do 2 right. left.
Qed.

(** The validation of a transaction for its execution: nothing that it lets pass is too new. *)
Lemma wp_validation (R : Answers StateKey AnyError) gas_ok disallowed status_code self session txn :
  gas_checked R self (TransactionMetadata_new sha3_256_of txn) gas_ok ->
  wp R (validate_signature_checked_transaction (H1 := aptos_prologue disallowed)
             status_code self session txn false)
    (fun r => validated disallowed gas_ok (payload txn) r.1).
Proof.
  intros Hgas. unfold validate_signature_checked_transaction.
  cbn [check_transaction_format run_prologue aptos_prologue].
  destruct (contains_duplicate_signers txn).
  { apply wp_done, code_discardable. do 1 right. left. }
  apply wp_seq. eapply wp_weaken; [by apply wp_prologue|].
  intros [[u|e] s] He; by apply wp_done.
Qed.

(** On a view, the gas checks pass when they do on its values. *)
Lemma gas_checked_view self txn_data (view : View) : impl_wf self -> txn_wf txn_data ->
  gas_checked (shown view) self txn_data (run_prog view (check_gas self txn_data) = Some (Ok tt)).
Proof.
  intros Hself Htxn. apply wp_shown.
  destruct (proj1 (wp_shown view _ _) (wp_check_gas self txn_data (shown view) Hself Htxn))
    as (r & Hr & Hd). exists r. split; [done|]. by destruct r as [[]|e].
Qed.

Lemma gas_checked_any (R : Answers StateKey AnyError) self txn_data : impl_wf self -> txn_wf txn_data ->
  gas_checked R self txn_data True.
Proof. intros Hself Htxn. eapply wp_weaken; [by apply wp_check_gas|]. by intros []. Qed.

(** ** The cleanup *)

(** The adapter discards an error that it may discard. *)
Lemma wp_discard e (R : Answers StateKey AnyError) : discardable e ->
  wp R (discard e) (fun r => exists code, keep_or_discard e = inr code /\
    r = (e, discard_error_output code)).
Proof.
  intros [code Hc]. unfold discard, discard_error_vm_status. rewrite Hc. apply wp_done.
  by exists code.
Qed.

(** The gas that a meter has spent of the maximum. *)
Definition within_max (txn_data : TransactionMetadata) (g : AptosGasMeter) : Prop :=
  meter_wf g /\ Gas_balance g <= max_gas_amount txn_data.

Lemma gas_used txn_data g : txn_wf txn_data -> within_max txn_data g ->
  checked_sub (max_gas_amount txn_data) (Gas_balance g) =
  Some (max_gas_amount txn_data - Gas_balance g).
Proof.
  intros Htxn [Hg Hle]. rewrite checked_sub_spec; [|apply Htxn|by apply Gas_balance_u64].
  by rewrite bool_decide_true.
Qed.

(** The output of a session that is kept with a status. *)
Definition session_output (view : View) (session : VMSession) (txn_data : TransactionMetadata)
  (g : AptosGasMeter) (status : ExecutionStatus AbortInfo)
  (ext : TransactionOutputExt (StateKey := StateKey) (Event := ContractEvent)
           (TransactionStatus := TransactionStatus (ExecutionStatus AbortInfo))) : Prop :=
  exists out cs, run_prog view (session_finish session) = Some (Ok out) /\
    session_change_set out (feature_version g) = Return cs /\
    ext = kept_output cs (max_gas_amount txn_data - Gas_balance g) status.

Lemma wp_output session txn_data g status (view : View) :
  txn_wf txn_data -> within_max txn_data g ->
  wp (shown view) (get_transaction_output session (Gas_balance g) txn_data status (feature_version g))
    (fun r => match r with
              | Ok ext => session_output view session txn_data g status ext
              | Err e => discardable e
              end).
Proof.
  intros Htxn Hg. unfold get_transaction_output. apply wp_reading.
  rewrite gas_used by done. apply wp_done. cbn [on_ok]. apply wp_reading.
  destruct (proj1 (wp_shown view _ _) (wp_finish session (shown view))) as (r & Hr & Hout).
  apply wp_shown. exists r. split; [done|].
  destruct r as [out|e]; cbn [on_ok]; [|done]. apply wp_reading.
  pose proof (change_set_outcome out (feature_version g) Hout) as Hcs.
  destruct (session_change_set out (feature_version g)) as [cs|e|] eqn:Hc; [| |done];
    apply wp_done; cbn [on_ok]; [|done].
  apply wp_done. by exists out, cs.
Qed.

(** The error of an epilogue. *)
Lemma epilogue_discardable e' e :
  expect_only_successful_execution into_vm_status (expect_no_verification_errors e') = Err e ->
  discardable e.
Proof.
  unfold expect_only_successful_execution. intros He.
  pose proof (not_executed (expect_no_verification_errors e')) as Hne.
  destruct (into_vm_status (expect_no_verification_errors e')); [done|..]; injection He as <-;
    apply code_discardable; do 9 right; left.
Qed.

Definition failure_session (self : AptosVMImpl) (txn_data : TransactionMetadata) : VMSession :=
  vm_new_session (move_vm self) (SessionId_txn_meta txn_data).

(** What the cleanup makes of an error that is kept: the output of a session in which only the
    failure epilogue ran, or nothing. *)
Definition failed_outcome (view : View) (self : AptosVMImpl) (txn_data : TransactionMetadata)
  (err : VMStatus) (g : AptosGasMeter) (vm_status : VMStatus)
  (ext : TransactionOutputExt (StateKey := StateKey) (Event := ContractEvent)
           (TransactionStatus := TransactionStatus (ExecutionStatus AbortInfo))) : Prop :=
  exists status, status_from err = Keep status /\
  ((exists session,
      run_prog view (run_failure_epilogue self (failure_session self txn_data) (Gas_balance g) txn_data)
        = Some (Ok tt, session) /\
      session_output view session txn_data g (inject_abort_info self status) ext /\
      vm_status = err) \/
   (exists e code, keep_or_discard e = inr code /\ ext = discard_error_output code /\
      (vm_status = err \/ vm_status = e))).

Lemma wp_failed self err g txn_data (view : View) :
  txn_wf txn_data -> within_max txn_data g -> is_discarded (status_from err) = false ->
  wp (shown view) (failed_transaction_cleanup_and_keep_vm_status self err g txn_data)
    (fun r => failed_outcome view self txn_data err g r.1 r.2).
Proof.
  intros Htxn Hg Hkept. unfold failed_transaction_cleanup_and_keep_vm_status.
  rewrite is_discarded_spec in Hkept. destruct (status_from err) as [code|status|] eqn:Hs; [done| |done].
  apply wp_seq.
  destruct (proj1 (wp_shown view _ _) (wp_framework
    (fun e => expect_only_successful_execution into_vm_status (expect_no_verification_errors e))
    (failure_session self txn_data) (validation_module (transaction_validation self))
    (user_epilogue_name (transaction_validation self))
    (epilogue_args (Gas_balance g) txn_data) (shown view))) as ([r s] & Hrun & Hr).
  apply wp_shown. exists (r, s). split; [exact Hrun|]. destruct r as [[]|e].
  - apply wp_seq. eapply wp_weaken; [by apply (wp_output s txn_data g)|].
    intros [ext|e] Ho.
    + apply wp_done. exists status. split; [done|]. left. exists s. by split; [|split].
    + apply wp_seq. eapply wp_weaken; [by apply wp_discard|]. intros [e' ext] (code & Hc & [= -> ->]).
      apply wp_done. exists status. split; [done|]. right. exists e, code. auto.
  - simpl in Hr. destruct Hr as [e' He].
    eapply wp_weaken; [by eapply wp_discard, epilogue_discardable|]. intros [e1 ext] (code & Hc & [= -> ->]).
    exists status. split; [done|]. right. exists e, code. auto.
Qed.

(** A delta applies to the value of the view at its key; the deltas of a change set do. *)
Definition delta_applies (view : View) (key : StateKey) (d : DeltaOp) : Prop :=
  exists op, try_into_write_op (fun k => ok (get_state_value view k)) partial_status d key = Return op.
Definition deltas_apply (view : View) (cs : ChangeSetExt StateKey ContractEvent) : Prop :=
  forall key d, delta_change_set cs !! key = Some d -> delta_applies view key d.

(** Deltas are materialised when they apply, and one that does not is a panic. *)
Lemma materialize_cases (view : View) l :
  (exists ws, run_prog view (materialize_deltas l) = Some (Ok ws)) /\
    (forall key d, (key, d) ∈ l -> delta_applies view key d) \/
  run_prog view (materialize_deltas l) = None /\
    (exists key d, (key, d) ∈ l /\ ~ delta_applies view key d).
Proof.
  induction l as [|[key d] l IH]; cbn [materialize_deltas].
  { left. split; [by eexists|by intros ?? ?%elem_of_nil]. }
  cbn [run_prog]. change (try_into_write_op (fun _ => ok (get_state_value view key)) partial_status d key)
    with (try_into_write_op (fun k => ok (get_state_value view k)) partial_status d key).
  destruct (try_into_write_op _ _ d key) as [op|e|] eqn:Hop.
  2, 3: right; split; [done|]; exists key, d; split; [left|intros [op Hop']; congruence].
  assert (Hd : delta_applies view key d) by (by exists op).
  rewrite run_reading_bind. destruct IH as [[[ws ->] Hl]|[-> Hl]]; [left|right].
  - split; [by eexists|]. by intros k d' [[= -> ->]|Hin]%elem_of_cons; [|apply Hl].
  - split; [done|]. destruct Hl as (k & d' & Hin & Hd'). exists k, d'. by split; [right|].
Qed.

Lemma deltas_apply_cases (view : View) cs :
  (exists ws, run_prog view (materialize_deltas (btree_iter key_leb (delta_change_set cs))) = Some (Ok ws)) /\
    deltas_apply view cs \/
  run_prog view (materialize_deltas (btree_iter key_leb (delta_change_set cs))) = None /\
    ~ deltas_apply view cs.
Proof.
  destruct (materialize_cases view (btree_iter key_leb (delta_change_set cs))) as [[Hr Hl]|[Hr Hl]].
  - left. split; [done|]. intros key d Hk. by apply Hl, btree_iter_elem.
  - right. split; [done|]. intros Hall. destruct Hl as (key & d & Hin & Hd).
    apply btree_iter_elem in Hin. by apply Hd, Hall.
Qed.

(** What the success epilogue reads: the storage, under the writes and materialised deltas. *)
Definition epilogue_view (view : View) (cs : ChangeSetExt StateKey ContractEvent)
  (delta_writes : list (StateKey * WriteOp)) : View :=
  delta_view {| StateView.base := delta_view {| StateView.base := view;
                  StateView.write_set := ChangeSetExt.write_set (change_set cs) |};
                StateView.write_set := list_to_map delta_writes |}.

(** The output of a success: the changes of the payload squashed with those of the epilogue. *)
Definition executed_outcome (view : View) (self : AptosVMImpl) (txn_data : TransactionMetadata)
  (user_cs : ChangeSetExt StateKey ContractEvent) (g : AptosGasMeter) (vm_status : VMStatus)
  (ext : TransactionOutputExt (StateKey := StateKey) (Event := ContractEvent)
           (TransactionStatus := TransactionStatus (ExecutionStatus AbortInfo))) : Prop :=
  exists delta_writes epilogue_cs cs,
    run_prog view (materialize_deltas (btree_iter key_leb (delta_change_set user_cs)))
      = Some (Ok delta_writes) /\
    run_prog (epilogue_view view user_cs delta_writes) (success_epilogue self g txn_data)
      = Some (Ok epilogue_cs) /\
    squash key_leb freeze change_set_ok user_cs epilogue_cs = Ok cs /\
    vm_status = VMStatus_Executed /\
    ext = kept_output cs (max_gas_amount txn_data - Gas_balance g) StatusSuccess.

Lemma total_success_epilogue self g txn_data : total (success_epilogue self g txn_data).
Proof.
  intros view. unfold success_epilogue. apply wp_reading, wp_lift.
  eapply wp_weaken; [apply wp_framework|]. intros [r s] _. cbn [on_ok].
  apply wp_reading. eapply wp_weaken; [apply total_result|]. intros [[]|e] _; cbn [on_ok]; [|done].
  apply wp_reading. eapply wp_weaken; [apply wp_finish|].
  intros [out|e] Hout; cbn [on_ok]; [|done].
  pose proof (change_set_outcome out (feature_version g) Hout) as Hcs.
  destruct (session_change_set out (feature_version g)); [by apply wp_done..|done].
Qed.

Lemma wp_cleanup self txn_data user_cs g (view : View) :
  txn_wf txn_data -> within_max txn_data g -> deltas_apply view user_cs ->
  wp (shown view) (success_transaction_cleanup self user_cs txn_data g) (fun r =>
    match r with Ok (s, ext) => executed_outcome view self txn_data user_cs g s ext | Err e => True end).
Proof.
  intros Htxn Hg Hd. unfold success_transaction_cleanup. apply wp_reading.
  destruct (deltas_apply_cases view user_cs) as [[[ws Hr] _]|[_ Hno]]; [|done]. apply wp_shown. exists (Ok ws). split; [done|]. cbn [on_ok]. rewrite freeze_same. apply wp_reading, wp_done.
  cbn [on_ok]. apply wp_reading, wp_over_view, wp_over_view.
  destruct (proj1 (wp_shown _ _ _) (total_success_epilogue self g txn_data
    (shown (epilogue_view view user_cs ws)))) as (r & He & _).
  apply wp_shown. exists r. split; [exact He|]. destruct r as [epi|e]; cbn [on_ok]; [|done].
  destruct (squash key_leb freeze change_set_ok user_cs epi) as [cs|e] eqn:Hsq;
    apply wp_reading, wp_done; cbn [on_ok]; [|done].
  apply wp_reading. rewrite gas_used by done. apply wp_done. cbn [on_ok].
  apply wp_done. by exists ws, epi, cs.
Qed.

Lemma cleanup_panics self txn_data cs g (view : View) : ~ deltas_apply view cs ->
  run_prog view (success_transaction_cleanup self cs txn_data g) = None.
Proof.
  intros Hno. unfold success_transaction_cleanup. rewrite run_reading_bind.
  by destruct (deltas_apply_cases view cs) as [[_ Hd]|[-> _]].
Qed.

(** ** The outcome of a user transaction *)

(** The changes of the payload of a transaction, with their charges. *)
Definition payload_changes (disallowed : bool) (session : VMSession) (txn_data : TransactionMetadata)
  (p : TransactionPayload TypeTag TransactionArgument) : charging (ChangeSetExt StateKey ContractEvent) :=
  match p with
  | PayloadScript _ | PayloadEntryFunction _ _ _ _ =>
      script_or_entry_function_changes session txn_data p
  | PayloadModuleBundle m => modules_changes disallowed session txn_data m
  end.

Lemma execute_payload_changes disallowed self session txn_data p :
  execute_payload disallowed self session txn_data p =
  (cs ← payload_changes disallowed session txn_data p; cleanup self txn_data cs).
Proof. by destruct p. Qed.

Lemma pays_payload disallowed session txn_data p :
  is_u64 (transaction_size txn_data) -> payload_fits p -> not_gated disallowed p ->
  pays (transaction_size txn_data) (payload_changes disallowed session txn_data p).
Proof.
  intros Hs Hp Hgate. destruct p; [by apply pays_script..|]. rewrite Hgate. by apply pays_modules.
Qed.

Lemma spent_within txn_data g g' : within_max txn_data g -> spent g g' -> within_max txn_data g'.
Proof.
  intros [Hg Hle] Hs. split; [apply Hs|]. pose proof (spent_balance g g' Hg Hs). lia.
Qed.

(** The gas that is spent of the maximum pays the intrinsic gas. *)
Definition paid (txn_data : TransactionMetadata) (g : AptosGasMeter) : Prop :=
  intrinsic_gas (txn (gas_params g)) (transaction_size txn_data)
  <= (max_gas_amount txn_data - Gas_balance g) * scaling_factor (txn (gas_params g)).

(** A meter that can pay it. *)
Definition can_pay (txn_data : TransactionMetadata) (g : AptosGasMeter) : Prop :=
  balance g <= max_gas_amount txn_data * scaling_factor (txn (gas_params g)) /\
  intrinsic_gas (txn (gas_params g)) (transaction_size txn_data) <= balance g.

Lemma can_pay_paid txn_data g g' : can_pay txn_data g -> spent g g' ->
  balance g' <= balance g - intrinsic_gas (txn (gas_params g)) (transaction_size txn_data) ->
  paid txn_data g'.
Proof.
  intros [Hmax _] (Hg' & (_ & Hp & _) & _) Hle. unfold paid. rewrite Hp in *.
  rewrite (proj2 (Gas_balance_u64 g' Hg')), Hp.
  destruct (scaling_factor_pos (txn (gas_params g)) ltac:(rewrite <- Hp; apply (wf_params _ Hg'))) as [Hs _].
  pose proof (Z.mul_div_le (balance g') (scaling_factor (txn (gas_params g))) ltac:(lia)). nia.
Qed.

(** The execution of the payload, with its cleanup. *)
Definition payload_outcome (disallowed : bool) (view : View) (self : AptosVMImpl)
  (session : VMSession) (txn_data : TransactionMetadata)
  (p : TransactionPayload TypeTag TransactionArgument) (g0 : AptosGasMeter)
  (r : result VMStatus (VMStatus * TransactionOutputExt (StateKey := StateKey) (Event := ContractEvent)
         (TransactionStatus := TransactionStatus (ExecutionStatus AbortInfo))) * AptosGasMeter) : Prop :=
  spent g0 r.2 /\ (can_pay txn_data g0 -> paid txn_data r.2) /\
  match r.1 with
  | Ok (s, ext) => exists cs,
      run_prog view (payload_changes disallowed session txn_data p g0) = Some (Ok cs, r.2) /\
      executed_outcome view self txn_data cs r.2 s ext
  | Err e => True
  end.

Lemma wp_execute_payload disallowed self session txn_data p g0 (view : View) :
  txn_wf txn_data -> payload_fits p -> not_gated disallowed p -> within_max txn_data g0 ->
  (forall cs g, run_prog view (payload_changes disallowed session txn_data p g0) = Some (Ok cs, g) ->
     deltas_apply view cs) ->
  wp (shown view) (execute_payload disallowed self session txn_data p g0)
    (payload_outcome disallowed view self session txn_data p g0).
Proof.
  intros Htxn Hp Hgate Hg0 Hd. rewrite execute_payload_changes. apply wp_charging.
  destruct (proj1 (wp_shown view _ _) (pays_payload disallowed session txn_data p (size_u64 _ Htxn) Hp
    Hgate g0 (shown view) (proj1 Hg0))) as ([r g1] & Hr & Hs & Hpays).
  apply wp_shown. exists (r, g1). split; [exact Hr|]. simpl in *. pose proof (spent_within _ _ _ Hg0 Hs) as Hg1.
  assert (Hpaid : can_pay txn_data g0 -> paid txn_data g1).
  { intros Hcan. eapply can_pay_paid; [done..|]. apply Hpays, Hcan. }
  destruct r as [cs|e]; cbn [on_charged]; [|done].
  unfold cleanup. apply wp_charging, wp_done. cbn [on_charged]. apply wp_unmetered.
  eapply wp_weaken; [apply wp_cleanup; [done..|by eapply Hd]|].
  intros [[s ext]|e] Ho; split; simpl; try done. split; [done|]. by exists cs.
Qed.

Lemma payload_panics disallowed self session txn_data p g0 cs g (view : View) :
  run_prog view (payload_changes disallowed session txn_data p g0) = Some (Ok cs, g) ->
  ~ deltas_apply view cs ->
  run_prog view (execute_payload disallowed self session txn_data p g0) = None.
Proof.
  intros Hr Hno. rewrite execute_payload_changes, run_charging_bind, Hr. unfold cleanup.
  rewrite run_charging_bind. cbn [the_meter run_prog].
  etransitivity; [apply (run_prog_bind view)|]. by rewrite cleanup_panics.
Qed.

(** What a payload leaves of its meter, when it does not panic. *)
Lemma payload_spends disallowed self session txn_data p g0 r g (view : View) :
  txn_wf txn_data -> payload_fits p -> not_gated disallowed p -> within_max txn_data g0 ->
  run_prog view (execute_payload disallowed self session txn_data p g0) = Some (r, g) ->
  within_max txn_data g.
Proof.
  intros Htxn Hp Hgate Hg0 Hr.
  assert (Hd : forall cs g', run_prog view (payload_changes disallowed session txn_data p g0) = Some (Ok cs, g') ->
    deltas_apply view cs).
  { intros cs g' Hc. destruct (deltas_apply_cases view cs) as [[_ ?]|[_ Hno]]; [done|].
    by rewrite (payload_panics _ _ _ _ _ _ _ _ _ Hc Hno) in Hr. }
  destruct (proj1 (wp_shown view _ _) (wp_execute_payload disallowed self session txn_data p g0 view Htxn Hp
    Hgate Hg0 Hd)) as (r' & Hr' & Ho).
  rewrite Hr in Hr'. injection Hr' as <-. eapply spent_within; [done|apply Ho].
Qed.

Lemma wp_conclude self txn_data r g (view : View) :
  txn_wf txn_data -> within_max txn_data g ->
  wp (shown view) (conclude self txn_data r g) (fun out =>
    match r with
    | Ok o => out = o
    | Err err => (exists code, keep_or_discard out.1 = inr code /\ out.2 = discard_error_output code) \/
                 failed_outcome view self txn_data err g out.1 out.2
    end).
Proof.
  intros Htxn Hg. destruct r as [o|err]; cbn [conclude]; [by apply wp_done|].
  destruct (is_discarded (status_from err)) eqn:Hd.
  - pose proof (status_from_spec err) as Hs. rewrite is_discarded_spec in Hd.
    destruct (status_from err) as [code|st|]; [|done..].
    eapply wp_weaken; [apply wp_discard; by exists code|]. intros out (code' & Hc & ->).
    left. by exists code'.
  - eapply wp_weaken; [by apply wp_failed|]. intros out Hout. by right.
Qed.

(** ** The meter of a transaction *)

Lemma initial_meter self txn_data p s : impl_wf self -> txn_wf txn_data ->
  all_gas_parameters self = Ok (p, s) ->
  exists g0, AptosGasMeter_new (gas_feature_version self) p s (max_gas_amount txn_data) = Some g0 /\
    within_max txn_data g0 /\ impl_gas_params self = Some p /\ gas_params g0 = p /\
    balance g0 = Z.min (max_gas_amount txn_data * scaling_factor (txn p)) U64_MAX.
Proof.
  intros Hself Htxn. unfold all_gas_parameters, get_gas_parameters, get_storage_gas_parameters.
  destruct (impl_gas_params self) as [p'|] eqn:Hp; cbn [ok_or mbind result_bind]; [|done].
  pose proof (impl_params_wf _ Hself _ Hp) as Hpw. pose proof (impl_version _ Hself) as Hv.
  intros Hs.
  assert (Hnew : exists g0, AptosGasMeter_new (gas_feature_version self) p s (max_gas_amount txn_data)
    = Some g0 /\ p = p' /\ (if gas_feature_version self =? 0 then True
                            else exists s', s = Some s' /\ storage_wf s')).
  { unfold AptosGasMeter_new. destruct (Z.eqb_spec (gas_feature_version self) 0) as [Hz|Hz].
    - injection Hs as <- <-. rewrite bool_decide_true by done. by eexists.
    - destruct (impl_storage_gas_params self) as [s'|] eqn:Hs'; cbn [ok_or mbind result_bind] in Hs; [|done].
      injection Hs as <- <-. rewrite (proj2 (Z.ltb_lt _ _)) by lia. rewrite bool_decide_false by done.
      eexists. split; [done|]. split; [done|]. exists s'. split; [done|]. by eapply impl_storage_wf. }
  destruct Hnew as (g0 & Hg0 & -> & Hst). exists g0. split; [done|].
  destruct (scaling_factor_pos (txn p') (txn_u64 _ Hpw)) as [Hsf Hsfu].
  pose proof (max_gas_u64 _ Htxn) as Hm.
  pose proof (proj1 (new_balance _ _ _ _ _ Hpw Hm Hg0)) as Hle.
  unfold AptosGasMeter_new in Hg0. destruct (_ || _); [|done]. injection Hg0 as <-.
  split; [split; [|done]|by rewrite <- to_unit_spec].
  split; simpl; [done|done|by destruct (gas_feature_version self =? 0)| |apply (txn_u64 _ Hpw)].
  rewrite to_unit_spec by done. unfold is_u64, U64_MAX in *. nia.
Qed.

(** What passes the gas checks can pay its intrinsic gas from its first meter. *)
Lemma accepted_can_pay disallowed self txn_data p g0 (view : View) :
  impl_wf self -> txn_wf txn_data -> accepted disallowed view self txn_data p ->
  impl_gas_params self = Some (gas_params g0) ->
  balance g0 = Z.min (max_gas_amount txn_data * scaling_factor (txn (gas_params g0))) U64_MAX ->
  can_pay txn_data g0.
Proof.
  intros Hself Htxn [Hrun _] Hp Hb. pose proof (impl_params_wf _ Hself _ Hp) as Hpw.
  rewrite (check_gas_run self txn_data view (gas_params g0)) in Hrun
    by (done || apply Htxn).
  apply (inj Some), gas_rules_pay in Hrun.
  pose proof (intrinsic_gas_u64 (txn (gas_params g0)) (transaction_size txn_data) (txn_u64 _ Hpw)) as Hi.
  unfold can_pay, is_u64, U64_MAX in *. lia.
Qed.

(** What became of a payload, run in a session with the gas of the transaction: it succeeded with
    its changes and those of its epilogue, or failed and keeps what the failure epilogue changes
    on the state before it; it paid its intrinsic gas. *)
Definition execution_outcome (disallowed : bool) (view : View) (self : AptosVMImpl)
  (session : VMSession) (txn_data : TransactionMetadata)
  (p : TransactionPayload TypeTag TransactionArgument) (vm_status : VMStatus)
  (ext : TransactionOutputExt (StateKey := StateKey) (Event := ContractEvent)
           (TransactionStatus := TransactionStatus (ExecutionStatus AbortInfo))) : Prop :=
  exists params s g0 r g,
    all_gas_parameters self = Ok (params, s) /\
    AptosGasMeter_new (gas_feature_version self) params s (max_gas_amount txn_data) = Some g0 /\
    run_prog view (execute_payload disallowed self session txn_data p g0) = Some (r, g) /\
    spent g0 g /\ within_max txn_data g /\ paid txn_data g /\
    match r with
    | Ok out => out = (vm_status, ext) /\ exists cs,
        run_prog view (payload_changes disallowed session txn_data p g0) = Some (Ok cs, g) /\
        executed_outcome view self txn_data cs g vm_status ext
    | Err err => failed_outcome view self txn_data err g vm_status ext
    end.

Definition discarded_outcome (vm_status : VMStatus)
  (ext : TransactionOutputExt (StateKey := StateKey) (Event := ContractEvent)
           (TransactionStatus := TransactionStatus (ExecutionStatus AbortInfo))) : Prop :=
  exists code, keep_or_discard vm_status = inr code /\ ext = discard_error_output code.

(** The session in which the payload of a transaction that passed its validation runs: from feature
    version 1 a new one, that holds nothing of the prologue, and before the one of the prologue. *)
Definition payload_session (disallowed : bool) (status_code : VMStatus -> StatusCode) (view : View)
  (self : AptosVMImpl) (txn : SignedTransaction TypeTag TransactionArgument) (session : VMSession) : Prop :=
  exists prologue_session,
    run_prog view (validate_signature_checked_transaction (H1 := aptos_prologue disallowed) status_code self
      (vm_new_session (move_vm self) (SessionId_txn sha3_256_of txn)) txn false)
    = Some (Ok tt, prologue_session) /\
    session = if 1 <=? gas_feature_version self
              then vm_new_session (move_vm self) (SessionId_txn sha3_256_of txn) else prologue_session.

(** The payload succeeds with deltas that do not apply to the state. *)
Definition deltas_fail (disallowed : bool) (view : View) (self : AptosVMImpl) (session : VMSession)
  (txn_data : TransactionMetadata) (p : TransactionPayload TypeTag TransactionArgument) : Prop :=
  exists params s g0 cs g,
    all_gas_parameters self = Ok (params, s) /\
    AptosGasMeter_new (gas_feature_version self) params s (max_gas_amount txn_data) = Some g0 /\
    run_prog view (payload_changes disallowed session txn_data p g0) = Some (Ok cs, g) /\
    ~ deltas_apply view cs.

Definition user_panics (disallowed : bool) (status_code : VMStatus -> StatusCode) (view : View)
  (self : AptosVMImpl) (txn : SignedTransaction TypeTag TransactionArgument) : Prop :=
  exists session, payload_session disallowed status_code view self txn session /\
    deltas_fail disallowed view self session (TransactionMetadata_new sha3_256_of txn) (payload txn).

(** A transaction is discarded, with an empty output; or it was accepted and its payload ran. *)
Definition user_outcome (disallowed : bool) (status_code : VMStatus -> StatusCode) (view : View)
  (self : AptosVMImpl) (txn : SignedTransaction TypeTag TransactionArgument) (vm_status : VMStatus)
  (ext : TransactionOutputExt (StateKey := StateKey) (Event := ContractEvent)
           (TransactionStatus := TransactionStatus (ExecutionStatus AbortInfo))) : Prop :=
  discarded_outcome vm_status ext \/
  accepted disallowed view self (TransactionMetadata_new sha3_256_of txn) (payload txn) /\
  exists session, payload_session disallowed status_code view self txn session /\
    execution_outcome disallowed view self session (TransactionMetadata_new sha3_256_of txn)
      (payload txn) vm_status ext.

(** The run of the payload in a session: its result and its meter. *)
Lemma wp_run_payload disallowed self session txn_data p params s (view : View) :
  impl_wf self -> txn_wf txn_data -> payload_fits p ->
  accepted disallowed view self txn_data p -> all_gas_parameters self = Ok (params, s) ->
  ~ deltas_fail disallowed view self session txn_data p ->
  exists g0 r g,
    AptosGasMeter_new (gas_feature_version self) params s (max_gas_amount txn_data) = Some g0 /\
    run_prog view (execute_payload disallowed self session txn_data p g0) = Some (r, g) /\
    within_max txn_data g /\
    wp (shown view) (conclude self txn_data r g) (fun out => discarded_outcome out.1 out.2 \/
      execution_outcome disallowed view self session txn_data p out.1 out.2).
Proof.
  intros Hself Htxn Hp Hacc Hgp Hd.
  destruct (initial_meter self txn_data params s Hself Htxn Hgp) as (g0 & Hg0 & Hm & Hi & <- & Hb).
  assert (Hd0 : forall cs g, run_prog view (payload_changes disallowed session txn_data p g0) = Some (Ok cs, g) ->
    deltas_apply view cs).
  { intros cs g Hr. destruct (deltas_apply_cases view cs) as [[_ ?]|[_ Hno]]; [done|].
    destruct Hd. by exists (gas_params g0), s, g0, cs, g. }
  destruct (proj1 (wp_shown view _ _) (wp_execute_payload disallowed self session txn_data p g0 view Htxn
    Hp (proj2 Hacc) Hm Hd0)) as ([r g] & Hr & Hs & Hpaid & Hout).
  simpl in Hs, Hpaid, Hout. pose proof (spent_within _ _ _ Hm Hs) as Hg. exists g0, r, g. do 3 (split; [done|]).
  assert (Hpd : paid txn_data g) by (eapply Hpaid, accepted_can_pay; done).
  eapply wp_weaken; [by apply wp_conclude|]. intros out Ho.
  destruct r as [[status ext]|err]; [subst out|destruct Ho as [Ho|Ho]; [by left|]]; right;
    [exists (gas_params g0), s, g0, (Ok (status, ext)), g|exists (gas_params g0), s, g0, (Err err), g];
    repeat (split; [done|]); done.
Qed.

Lemma missing_parameters self e : all_gas_parameters self = Err e -> e = VMStatus_Error VM_STARTUP_FAILURE.
Proof.
  unfold all_gas_parameters, get_gas_parameters, get_storage_gas_parameters.
  destruct (impl_gas_params self); [|by intros [= <-]]. cbn [ok_or mbind result_bind].
  destruct (_ =? _); [done|]. destruct (impl_storage_gas_params self); [done|by intros [= <-]].
Qed.

Lemma wp_user disallowed status_code self txn (view : View) :
  let txn_data := TransactionMetadata_new sha3_256_of txn in
  impl_wf self -> txn_wf txn_data -> payload_fits (payload txn) ->
  ~ user_panics disallowed status_code view self txn ->
  wp (shown view) (execute_user_transaction disallowed status_code self txn)
    (fun r => user_outcome disallowed status_code view self txn r.1 r.2).
Proof.
  intros txn_data Hself Htxn Hp Hd. unfold execute_user_transaction.
  assert (Hdiscard : forall e, discardable e ->
    wp (shown view) (discard e) (fun r => user_outcome disallowed status_code view self txn r.1 r.2)).
  { intros e He. eapply wp_weaken; [by apply wp_discard|]. intros r (code & Hc & ->).
    left. by exists code. }
  apply wp_seq.
  destruct (proj1 (wp_shown view _ _) (wp_validation (shown view) _ disallowed status_code self
    (vm_new_session (move_vm self) (SessionId_txn sha3_256_of txn)) txn
    (gas_checked_view _ _ view Hself Htxn))) as ([[[]|e] session] & Hv & He);
    apply wp_shown; (eexists; split; [exact Hv|]); cbn beta iota; [|by apply Hdiscard].
  fold txn_data.
  set (session' := if _ <=? _ then _ else _).
  assert (Hs : payload_session disallowed status_code view self txn session') by (by exists session).
  destruct (all_gas_parameters self) as [[p s]|e] eqn:Hgp.
  2: { apply missing_parameters in Hgp as ->. apply Hdiscard, code_discardable. do 3 right. left. }
  destruct (wp_run_payload disallowed self session' txn_data (payload txn) p s view Hself Htxn Hp He Hgp)
    as (g0 & r & g & -> & Hr & Hg & Hout); [intros Hf; apply Hd; by exists session'|].
  apply wp_seq, wp_shown. exists (r, g). split; [exact Hr|]. rewrite (gas_used txn_data g Htxn Hg).
  eapply wp_weaken; [exact Hout|]. intros out [Ho|Ho]; [by left|]. right. split; [done|].
  by exists session'.
Qed.

(** A payload whose deltas do not apply makes the execution of the transaction panic. *)
Lemma user_panics_run disallowed status_code self txn (view : View) :
  user_panics disallowed status_code view self txn ->
  run_prog view (execute_user_transaction disallowed status_code self txn) = None.
Proof.
  intros (session & (s0 & Hv & ->) & params & s & g0 & cs & g & Hgp & Hg0 & Hr & Hno).
  unfold execute_user_transaction. rewrite run_prog_bind, Hv. cbn [mbind option_bind].
  rewrite Hgp, Hg0, run_prog_bind. by erewrite payload_panics.
Qed.

Lemma deltas_fail_dec disallowed self session txn_data p (view : View) :
  deltas_fail disallowed view self session txn_data p \/ ~ deltas_fail disallowed view self session txn_data p.
Proof.
  unfold deltas_fail. destruct (all_gas_parameters self) as [[params s]|e]; [|right; naive_solver].
  destruct (AptosGasMeter_new (gas_feature_version self) params s (max_gas_amount txn_data)) as [g0|] eqn:Hg0.
  2: { right. intros (? & ? & ? & ? & ? & [= <- <-] & Hg & _). congruence. }
  destruct (run_prog view (payload_changes disallowed session txn_data p g0)) as [[[cs|e] g]|] eqn:Hr.
  2, 3: right; intros (? & ? & ? & ? & ? & [= <- <-] & Hg & Hr' & _); congruence.
  destruct (deltas_apply_cases view cs) as [[_ Hd]|[_ Hd]]; [right|left; by exists params, s, g0, cs, g].
  intros (? & ? & ? & ? & ? & [= <- <-] & Hg & Hr' & Hd'). by simplify_eq.
Qed.

Lemma user_panics_dec disallowed status_code self txn (view : View) :
  user_panics disallowed status_code view self txn \/ ~ user_panics disallowed status_code view self txn.
Proof.
  assert (Hcases : forall prologue, {s0 | prologue = Some (Ok (E := VMStatus) tt, s0)} +
    {forall s0 : VMSession, prologue <> Some (Ok tt, s0)}).
  { intros [[[[]|e] s0]|]; [left; by exists s0|by right..]. }
  destruct (Hcases (run_prog view (validate_signature_checked_transaction (H1 := aptos_prologue disallowed)
    status_code self (vm_new_session (move_vm self) (SessionId_txn sha3_256_of txn)) txn false)))
    as [[s0 Hv]|Hno].
  2: { right. by intros (session & (s0 & Hv & _) & _); apply (Hno s0). }
  set (session := if 1 <=? gas_feature_version self
    then vm_new_session (move_vm self) (SessionId_txn sha3_256_of txn) else s0).
  assert (Hf : deltas_fail disallowed view self session (TransactionMetadata_new sha3_256_of txn) (payload txn) \/
    ~ deltas_fail disallowed view self session (TransactionMetadata_new sha3_256_of txn) (payload txn)).
  { apply deltas_fail_dec. }
  destruct Hf as [Hf|Hf]; [left|right].
  - exists session. split; [by exists s0|done].
  - intros (session' & (s0' & Hv' & ->) & Hf'). rewrite Hv in Hv'. by injection Hv' as <-.
Qed.
End Spending.
