(* ===== verification/VMConfig.v ===== *)
(** * What the VM reads when it is made

    [AptosVMImpl::new] reads its configuration from the chain.  Whatever is there, the VM that it
    makes has gas parameters that are machine integers, if the decoders give such. *)
From S2P Require Import Prelude StateView GasSchedule GasSize GasMeter GasProps MoveVM.
From S2P Require Import VMImpl AptosVMProps.

#[local] Open Scope Z_scope.

(** ** Schedules *)

Abbreviation schedule_wf m := (map_Forall (fun (_ : string) v => is_u64 v) m).

Lemma set_param_u64 {F} `{EqDecision F} (name : F) v p :
  is_u64 v -> (forall f, is_u64 (p f)) -> forall f, is_u64 (set_param name v p f).
Proof. intros Hv Hp f. unfold set_param. by case_decide. Qed.

Lemma from_entries_u64 {F} `{EqDecision F} prefix (table : list (ParamEntry F)) m q :
  schedule_wf m -> from_entries prefix table m = Some q -> forall f, is_u64 (q f).
Proof.
  intros Hm. unfold from_entries.
  assert (Hz : forall f : F, is_u64 (zeros f)) by (intros f; apply is_u64_0).
  revert Hz. generalize (zeros (F := F)).
  induction table as [|e table IH]; intros p Hp; cbn [expand_gets]; [by intros [= <-]|].
  intros (p' & He & Hq)%bind_Some. eapply IH; [|exact Hq]. unfold expand_get in He.
  destruct (m !! full_key prefix e) as [v|] eqn:Hv.
  - injection He as <-. apply set_param_u64; [by eapply Hm|done].
  - destruct (p_optional e); [|done]. by injection He as <-.
Qed.

Section Config.
Context `{GasAlgebra, !GasAlgebraLaws} {StateKey ContractEvent AnyError StateViewId Usage : Type}.
Context `{Chain StateKey ContractEvent (AnyError := AnyError)}.
Abbreviation View := (StateView StateKey StateViewId Usage AnyError).

(** The configurations hold [u64]s. *)
Class ConfigLaws : Prop := {
  gas_schedule_v2_wf b v m : decode_gas_schedule_v2 b = Some (v, m) -> 0 <= v /\ schedule_wf m;
  gas_schedule_wf b m : decode_gas_schedule b = Some m -> schedule_wf m;
  storage_gas_schedule_wf b s : decode_storage_gas_schedule b = Some s -> storage_wf s;
}.
Context `{!ConfigLaws}.

Lemma from_schedule_wf m p : schedule_wf m -> from_schedule m = Some p -> params_wf p.
Proof.
  intros Hm. unfold from_schedule. cbn [from_on_chain_gas_schedule aptos_schedule misc_schedule
    instr_schedule txn_schedule abs_val_schedule].
  intros (mi & (a & Ha & [= <-])%bind_Some & (i & Hi & (t & Ht & (n & _ & [= <-])%bind_Some)%bind_Some)%bind_Some)%bind_Some.
  split; cbn; by eapply from_entries_u64.
Qed.

Lemma set_table_loads_wf s p : params_wf p -> params_wf (set_table_loads s p).
Proof. intros [Ha Hi Ht]. by split. Qed.

Lemma run_fetch {T} (view : View) config (decode : bytes -> option T) :
  exists r, run_prog view (fetch config decode) = Some r /\
    forall x, r = Some x -> exists b, decode b = Some x.
Proof.
  unfold fetch. cbn [run_prog].
  destruct (get_state_value view (config_key config)) as [[b|]|e]; eexists; (split; [reflexivity|]);
    [by exists b|done..].
Qed.

Lemma new_impl_wf (view : View) vm : run_prog view AptosVMImpl_new = Some vm -> impl_wf vm.
Proof.
  unfold AptosVMImpl_new. rewrite run_prog_bind.
  destruct (run_fetch view GasScheduleV2Config decode_gas_schedule_v2) as (v2 & -> & Hv2).
  cbn [mbind option_bind]. rewrite run_prog_bind.
  assert (Hgas : exists params v,
    run_prog view (match v2 with
      | Some (feature_version, map) => mret (from_schedule map, feature_version)
      | None => v1 ← fetch GasScheduleConfig decode_gas_schedule;
                mret (match v1 with Some map => (from_schedule map, 0) | None => (None, 0) end)
      end) = Some (params, v) /\ 0 <= v /\ (forall p, params = Some p -> params_wf p)).
  { destruct v2 as [[v m]|].
    - destruct (Hv2 _ eq_refl) as (b & [Hv Hm]%gas_schedule_v2_wf). eexists _, _.
      split; [reflexivity|]. split; [done|]. intros p. by apply from_schedule_wf.
    - rewrite run_prog_bind.
      destruct (run_fetch view GasScheduleConfig decode_gas_schedule) as (v1 & -> & Hv1).
      destruct v1 as [m|]; eexists _, _; (split; [reflexivity|]); (split; [done|]); [|done].
      destruct (Hv1 _ eq_refl) as (b & Hm%gas_schedule_wf). intros p. by apply from_schedule_wf. }
  destruct Hgas as (params & v & -> & Hv & Hp). cbn [mbind option_bind]. rewrite run_prog_bind.
  assert (Hst : exists s, run_prog view (if v =? 0 then mret None
      else fetch StorageGasScheduleConfig decode_storage_gas_schedule) = Some s /\
    forall x, s = Some x -> storage_wf x).
  { destruct (v =? 0); [by eexists|].
    destruct (run_fetch view StorageGasScheduleConfig decode_storage_gas_schedule) as (s & -> & Hs).
    eexists. split; [reflexivity|]. intros x (b & Hb)%Hs. by eapply storage_gas_schedule_wf. }
  destruct Hst as (s & -> & Hs). cbn [mbind option_bind].
  match goal with |- context [if 2 <=? v then ?x else params] =>
    set (params' := if 2 <=? v then x else params) end.
  assert (Hp' : forall p, params' = Some p -> params_wf p).
  { subst params'. intros p. destruct (2 <=? v); [|apply Hp].
    destruct params as [q|]; [|apply Hp]. destruct s as [x|]; [|apply Hp].
    intros [= <-]. by apply set_table_loads_wf, Hp. }
  clearbody params'. destruct (match params' with Some _ => _ | None => _ end) as [nat_params abs_params].
  rewrite run_prog_bind. intros (friend & _ & Hr)%bind_Some. rewrite run_prog_bind in Hr.
  apply bind_Some in Hr as (inner & _ & Hr). rewrite run_prog_bind in Hr.
  apply bind_Some in Hr as (version & _ & Hr). rewrite run_prog_bind in Hr.
  apply bind_Some in Hr as (validation & _ & [= <-]). split; cbn; [done|done|done].
Qed.
End Config.
