(* ===== verification/AptosBlock.v ===== *)
(** * A block of the VM adapter, executed in parallel

    [BlockExecution] shows that a block does not depend on the concurrency level, for any VM
    that does not panic on speculative reads and whose outputs are right.  This file shows that
    the adapter of [AptosVM] is such a VM for transactions whose payloads leave no deltas, whatever
    it is answered, even if it is answered differently each time: under speculation the reads of a
    transaction need not be consistent.  The condition is needed.  A payload that adds to an
    aggregator without reading it leaves a delta, which [success_transaction_cleanup] applies to
    the value that the storage shows; a value read under speculation may be stale, and the adapter
    then panics where the sequential execution does not
    ([TransactionExample.stale_delta_panics]). *)
From S2P Require Import Prelude Delta ChangeSetExt MVMap Conc LastInputOutput Versions.
From S2P Require Import StateView AdapterCommon ParallelVM BlockEquivalence BlockExecution.
From S2P Require Import GasSchedule GasSize GasMeter GasProps Session Publish TxnArgs VMErrors MoveVM.
From S2P Require Import VMImpl AptosVM AdapterWp GasChecks AptosVMProps VMConfig.

#[local] Open Scope Z_scope.

(** ** Change sets whose writes and deltas fit the aggregators *)

Section Changes.
Context `{Bcs128, !Bcs128Laws} {StateKey ContractEvent : Type} `{Countable StateKey}.
(** The limits of the aggregators, by their keys. *)
Context (agg : StateKey -> option Z).
Implicit Types (ws : gmap StateKey WriteOp) (ds : gmap StateKey DeltaOp).

(** What is written to an aggregator is a [u128]. *)
Definition op_ok (key : StateKey) (op : WriteOp) : Prop :=
  is_Some (agg key) -> forall b, written_value op = Some b -> is_Some (bcs_from_bytes b).

(** No key has a write and a delta, and both fit the aggregators. *)
Record maps_ok ws ds : Prop := {
  maps_disjoint k : ws !! k = None \/ ds !! k = None;
  maps_writes k op : ws !! k = Some op -> op_ok k op;
  maps_deltas k d : ds !! k = Some d -> delta_ok agg k d;
}.

Definition changes_ok (cs : ChangeSetExt StateKey ContractEvent) : Prop :=
  maps_ok (ChangeSetExt.write_set (change_set cs)) (delta_change_set cs).

Lemma maps_ok_insert ws ds k op :
  maps_ok ws ds -> op_ok k op -> maps_ok (<[k := op]> ws) (delete k ds).
Proof.
  intros [Hdis Hw Hd] Hop. split.
  - intros k'. destruct (decide (k' = k)) as [->|Hne]; [right; apply lookup_delete_eq|].
    rewrite lookup_insert_ne, lookup_delete_ne by done. apply Hdis.
  - intros k' op'. destruct (decide (k' = k)) as [->|Hne].
    + rewrite lookup_insert_eq. by intros [= <-].
    + rewrite lookup_insert_ne by done. apply Hw.
  - intros k' d [_ Hk]%lookup_delete_Some. by apply Hd.
Qed.

(** The steps of the squash keep this. *)
Lemma maps_ok_write ws ds k op ws' ds' :
  maps_ok ws ds -> op_ok k op -> squash_write ws ds k op = Ok (ws', ds') -> maps_ok ws' ds'.
Proof.
  intros Hm Hop. unfold squash_write. destruct (ws !! k) as [r|] eqn:Hk.
  2: { intros [= <- <-]. by apply maps_ok_insert. }
  assert (Hds : ds !! k = None) by (destruct (maps_disjoint _ _ Hm k); congruence).
  assert (Hput : forall op', op_ok k op' -> maps_ok (<[k := op']> ws) ds).
  { intros op' Hop'. rewrite <- (delete_id ds k Hds). by apply maps_ok_insert. }
  intros (r' & Hr & [= <- <-])%result_bind_Ok.
  destruct r as [b|b|], op as [b'|b'|]; cbn in Hr; simplify_eq; cbn; try (by apply Hput; intros Ha b0;
    cbn; intros [= <-]; by apply (Hop Ha)).
  destruct Hm as [Hdis Hw Hd]. split; [|by intros k' op' [_ Hk']%lookup_delete_Some; apply Hw|done].
  intros k'. destruct (decide (k' = k)) as [->|Hne]; [by right|].
  rewrite lookup_delete_ne by done. apply Hdis.
Qed.

Lemma maps_ok_delta ws ds k d ws' ds' :
  maps_ok ws ds -> delta_ok agg k d -> squash_delta ws ds k d = Ok (ws', ds') -> maps_ok ws' ds'.
Proof.
  intros Hm [Hlim Hwf]. unfold squash_delta. destruct (ws !! k) as [op|] eqn:Hk.
  - assert (Hds : ds !! k = None) by (destruct (maps_disjoint _ _ Hm k); congruence).
    assert (Hput : forall con b, con = Creation \/ con = Modification ->
      (new ← apply_bytes d b; Ok (<[k := con new]> ws, ds)) = Ok (ws', ds') -> maps_ok ws' ds').
    { intros con b Hcon (new & Hnew%ok_Some & [= <- <-])%result_bind_Ok.
      apply apply_bytes_Ok in Hnew as (v & r & _ & _ & _ & Hr & Hto); [|done].
      rewrite <- (delete_id ds k Hds). apply maps_ok_insert; [done|]. intros _ b' Hb'.
      assert (b' = new) as -> by (destruct Hcon as [-> | ->]; by injection Hb').
      destruct (bcs_roundtrip r Hr) as (b'' & Hb & Hv). rewrite Hto in Hb. injection Hb as <-.
      by exists r. }
    destruct op as [b|b|]; [apply (Hput Creation b); by left|apply (Hput Modification b); by right|done].
  - assert (Hput : forall d', delta_ok agg k d' -> maps_ok ws (<[k := d']> ds)).
    { intros d' Hd'. destruct Hm as [Hdis Hw Hd]. split; [|done|].
      - intros k'. destruct (decide (k' = k)) as [->|Hne]; [by left|].
        rewrite lookup_insert_ne by done. apply Hdis.
      - intros k' d0 [[-> <-]|[_ Hk']]%lookup_insert_Some; [done|by apply Hd]. }
    destruct (ds !! k) as [entry|] eqn:Hd; [|by intros [= <- <-]; apply Hput].
    destruct (maps_deltas _ _ Hm k entry Hd) as [Hlim' Hwf'].
    intros (d' & Hd' & [= <- <-])%result_bind_Ok. apply Hput.
    destruct (merge_onto d entry) as [m|] eqn:Hmerge; [|done]. injection Hd' as ->.
    destruct (merge_onto_Ok d entry d' Hwf' Hwf ltac:(congruence) Hmerge) as (_ & Hw' & Hl' & _).
    split; [congruence|done].
Qed.

Lemma for_each_maps_ok {A} (step : gmap StateKey WriteOp -> gmap StateKey DeltaOp -> StateKey -> A -> _)
  (P : StateKey -> A -> Prop) l : forall ws ds ws' ds',
  (forall k x ws ds ws' ds', P k x -> maps_ok ws ds -> step ws ds k x = Ok (ws', ds') -> maps_ok ws' ds') ->
  (forall k x, (k, x) ∈ l -> P k x) -> maps_ok ws ds ->
  for_each step l ws ds = Ok (ws', ds') -> maps_ok ws' ds'.
Proof.
  induction l as [|[k x] l IH]; intros ws ds ws' ds' Hstep Hl Hm; cbn [for_each].
  { by intros [= <- <-]. }
  intros ([ws1 ds1] & Hs & Hr)%result_bind_Ok. eapply IH; [done|by intros; apply Hl; right| |exact Hr].
  eapply Hstep; [apply Hl; left|exact Hm|exact Hs].
Qed.

Context (key_leb : StateKey -> StateKey -> Prop) `{!RelDecision key_leb}.
Context (freeze : gmap StateKey WriteOp -> option (gmap StateKey WriteOp)).
Context (change_set_ok : gmap StateKey WriteOp -> list ContractEvent -> Z -> bool).
Context (freeze_id : forall ws ws', freeze ws = Some ws' -> ws' = ws).

Lemma squash_changes_ok a b c :
  changes_ok a -> changes_ok b -> squash key_leb freeze change_set_ok a b = Ok c -> changes_ok c.
Proof.
  intros Ha Hb. unfold squash, into_inner.
  intros (c1 & ([ws1 ds1] & Hw & Hf1)%result_bind_Ok &
    ([ws2 ds2] & Hd & Hf2)%result_bind_Ok)%result_bind_Ok.
  apply (finish_Ok _ _ freeze_id) in Hf1 as (Hw1 & _ & Hd1 & _), Hf2 as (Hw2 & _ & Hd2 & _).
  unfold changes_ok. rewrite Hw2, Hd2. cbn [fst snd] in *. rewrite Hw1, Hd1 in Hd.
  eapply (for_each_maps_ok squash_delta (fun k d => delta_ok agg k d)); [|
    by intros k d Hin%(btree_iter_elem key_leb); apply (maps_deltas _ _ Hb)| |exact Hd].
  { intros. by eapply maps_ok_delta. }
  eapply (for_each_maps_ok squash_write op_ok); [|
    by intros k d Hin%(btree_iter_elem key_leb); apply (maps_writes _ _ Hb)|exact Ha|exact Hw].
  intros. by eapply maps_ok_write.
Qed.
End Changes.

(** ** What the adapter makes of its sessions *)

Section Adapter.
Context `{Bcs128, !Bcs128Laws, GasAlgebra, !GasAlgebraLaws, Uleb128, !Uleb128Laws}.
Context {StateKey ContractEvent AnyError : Type}.
Context `{Chain StateKey ContractEvent (AnyError := AnyError)}.
Context `{!VMLaws (StateKey := StateKey) (ContractEvent := ContractEvent) (AnyError := AnyError)}.
Abbreviation Prog := (ViewProg StateKey AnyError).
Abbreviation reading := (reading StateKey AnyError).
Abbreviation charging := (charging StateKey AnyError).
Abbreviation Answers := (Answers StateKey AnyError).
Abbreviation SignedTransaction := (SignedTransaction TypeTag TransactionArgument).
Abbreviation Payload := (WriteSetPayload (ChangeSet StateKey ContractEvent) (Script TypeTag TransactionArgument)).
Abbreviation SessionOutput := (SessionOutput (AccountAddress := AccountAddress)
  (Identifier := string) (StructTag := StructTag) (TableHandle := bytes) (TableInfo := TableInfo)
  (MoveEvent := MoveEvent)).
Abbreviation OutputExt := (TransactionOutputExt (StateKey := StateKey) (Event := ContractEvent)
                             (TransactionStatus := TransactionStatus (ExecutionStatus AbortInfo))).
Context (agg : StateKey -> option Z).
Abbreviation changes_ok := (changes_ok (ContractEvent := ContractEvent) agg).

(** What a session leaves: aggregators at the keys of aggregators, with deltas that are well formed
    and have their limits, and table items elsewhere. *)
Record session_ok (out : SessionOutput) : Prop := {
  aggregators_known handle key c : aggregator_change_set out !! (handle, key) = Some c ->
    is_Some (agg (table_item handle key));
  aggregators_deltas handle key d :
    aggregator_change_set out !! (handle, key) = Some (AggregatorContext.Merge d) ->
    delta_ok agg (table_item handle key) d;
  items_apart handle change key op : table_changes (table_change_set out) !! handle = Some change ->
    entries change !! key = Some op -> agg (table_item handle key) = None;
}.

(** The keys of the state are told apart, aggregators are table items, and sessions keep them
    apart from the other items. *)
Class BlockLaws : Prop := {
  keys_apart : StateKeyLaws resource_key module_key table_item id;
  resources_apart a t : agg (resource_key a t) = None;
  modules_apart a n : agg (module_key a n) = None;
  finish_apart s (R : Answers) : wp R (session_finish s) (on_value session_ok);
}.
Context `{!BlockLaws}.

Lemma op_ok_apart key op : agg key = None -> op_ok agg key op.
Proof. intros Hk. unfold op_ok. rewrite Hk. by intros []. Qed.

Lemma session_changes_ok out v cs : session_ok out -> finished (Ok out) ->
  session_change_set out v = Return cs -> changes_ok cs.
Proof.
  intros Hout Hfin Hcs. pose proof keys_apart.
  assert (Hsep : separate id out).
  { intros handle key c change Hc Hch. destruct (entries change !! id key) as [op|] eqn:Hop; [|done].
    pose proof (items_apart _ Hout _ _ _ _ Hch Hop) as Hnone.
    destruct (aggregators_known _ Hout _ _ _ Hc) as [l Hl]. unfold id in *. congruence. }
  assert (Hfreeze : forall ws ws' : gmap StateKey WriteOp, freeze ws = Some ws' -> ws' = ws).
  { intros ws ws'. rewrite freeze_same. by intros [= ->]. }
  destruct (change_set_keys _ _ _ _ _ _ _ _ _ _ _ _ _ out v cs Hfreeze Hsep Hcs) as (Hw & Hd & Hdis & _).
  split.
  - intros k. destruct (delta_change_set cs !! k) eqn:Hk; [left|by right]. apply Hdis. by rewrite Hk.
  - intros k op Hop%Hw. destruct Hop as [| |h c key o w Hc He|h key v' b Hv Hs|h key Hdel].
    + apply op_ok_apart, resources_apart.
    + apply op_ok_apart, modules_apart.
    + apply op_ok_apart. by eapply items_apart.
    + intros _ b' [= <-]. unfold serialize in Hs. destruct (bcs_roundtrip v') as (b' & Hb & Hr).
      { by apply (Hfin (h, key)). }
      rewrite Hb in Hs. injection Hs as <-. by exists v'.
    + by intros _ b.
  - intros k d Hk%Hd. destruct Hk as (h & key & Hm & ->). by apply (aggregators_deltas _ Hout).
Qed.

(** The change set of a session, after its end. *)
Lemma wp_session_changes session v (R : Answers) :
  wp R (out ← session_finish session; of_comp (session_change_set out v)) (on_value changes_ok).
Proof.
  apply wp_reading. eapply wp_weaken; [apply wp_and; [apply finish_apart|apply wp_finish]|].
  intros [out|e] [Hok Hfin]; cbn [on_ok on_value] in *; [|done].
  pose proof (change_set_outcome out v Hfin) as Hcs.
  destruct (session_change_set out v) as [cs|e|] eqn:Hr; [|by apply wp_done|done].
  apply wp_done. by eapply session_changes_ok.
Qed.

(** What only charges and, if it does not fail, ends with good changes. *)
Definition ends_ok (p : charging (ChangeSetExt StateKey ContractEvent)) : Prop :=
  forall g (R : Answers), meter_wf g -> wp R (p g) (fun r => spent g r.2 /\ on_value changes_ok r.1).

Lemma ends_bind {A} (p : charging A) f : spending p -> (forall a, ends_ok (f a)) -> ends_ok (p ≫= f).
Proof.
  intros Hp Hf g R Hg. apply wp_charging. eapply wp_weaken; [by apply Hp|].
  intros [[a|e] g1] Hs; cbn [on_charged snd] in *; [|done].
  eapply wp_weaken; [apply Hf, Hs|]. intros r [Hs' Hr]. split; [by eapply spent_trans|done].
Qed.

Lemma ends_change_set session : ends_ok (charged_change_set session).
Proof.
  intros g R Hg. apply wp_and; [by apply spending_change_set|]. unfold charged_change_set.
  apply wp_charging, wp_unmetered.
  eapply wp_weaken; [apply wp_and; [apply finish_apart|apply wp_finish]|].
  intros [out|e] [Hok Hfin]; cbn [on_charged on_value] in *; [|done].
  apply wp_charging, wp_done. cbn [on_charged]. apply wp_charging, wp_unmetered.
  pose proof (change_set_outcome out (feature_version g) Hfin) as Hcs.
  destruct (session_change_set out (feature_version g)) as [cs|e|] eqn:Hr; [|by apply wp_done|done].
  apply wp_done. cbn [on_charged]. apply wp_charging. eapply wp_weaken.
  { eapply spending_charges; [eapply metered_write_set, Forall_forall; intros kv _; apply encode_key_total|done]. }
  intros [[u|e] g'] _; cbn [on_charged]; [|done]. apply wp_done. by eapply session_changes_ok.
Qed.

Lemma ends_payload disallowed session txn_data p :
  is_u64 (transaction_size txn_data) -> payload_fits p ->
  ends_ok (payload_changes disallowed session txn_data p).
Proof.
  intros Hsize Hp. assert (Hfirst : spending (charges partial_status
    (charge_intrinsic_gas_for_transaction (transaction_size txn_data)) : charging unit)).
  { by eapply spending_charges, metered_intrinsic. }
  assert (Hcall : forall q, payload_fits q -> ends_ok (script_or_entry_function_changes session txn_data q)).
  { intros q Hq. apply ends_bind; [done|]. intros _.
    apply ends_bind; [by apply spending_entry|]. intros s.
    apply ends_bind; [apply spending_publish|]. intros s'. apply ends_change_set. }
  destruct p as [script|m f t args|bundle]; [by apply Hcall..|]. cbn [payload_changes].
  unfold modules_changes. destruct disallowed.
  { intros g R Hg. apply wp_done. split; [by apply spent_refl|done]. }
  apply ends_bind; [done|]. intros _.
  apply ends_bind; [apply spending_unmetered, total_verify_bundle|]. intros s.
  apply ends_bind; [apply publish_ok|]. intros s1.
  apply ends_bind; [apply spending_unmetered, total_result|]. intros modules.
  apply ends_bind; [apply spending_initialization|]. intros s2. apply ends_change_set.
Qed.

(** ** Outputs *)

Definition ext_ok (out : OutputExt) : Prop :=
  maps_ok agg (out_write_set (output out)) (out_deltas out) /\
  (is_discarded (out_status (output out)) = true ->
   out_write_set (output out) = ∅ /\ out_deltas out = ∅).

Lemma maps_ok_empty : maps_ok agg (∅ : gmap StateKey WriteOp) ∅.
Proof. split; [by left|intros k op; by rewrite lookup_empty..]. Qed.

Lemma ext_ok_empty (st : TransactionStatus (ExecutionStatus AbortInfo)) : ext_ok (from_output (empty_output st)).
Proof. split; [apply maps_ok_empty|done]. Qed.

Lemma ext_ok_kept cs used status : changes_ok cs -> ext_ok (kept_output cs used status).
Proof. intros Hcs. split; [exact Hcs|]. cbn. by rewrite is_discarded_spec. Qed.

Lemma wp_discard_ok e (R : Answers) : discardable e -> wp R (discard e) (fun o => ext_ok o.2).
Proof.
  intros He. eapply wp_weaken; [by apply wp_discard|]. intros o (code & _ & ->). apply ext_ok_empty.
Qed.

Lemma wp_output_ok session gas used txn_data status v (R : Answers) :
  checked_sub (max_gas_amount txn_data) gas = Some used ->
  wp R (get_transaction_output session gas txn_data status v) (fun r =>
    match r with Ok ext => ext_ok ext | Err e => discardable e end).
Proof.
  intros Hused. unfold get_transaction_output. apply wp_reading. rewrite Hused. apply wp_done.
  cbn [on_ok]. apply wp_reading.
  eapply wp_weaken; [apply wp_and; [apply finish_apart|apply wp_finish]|].
  intros [out|e] [Hok Hfin]; cbn [on_ok on_value] in *; [|done]. apply wp_reading.
  pose proof (change_set_outcome out v Hfin) as Hcs.
  destruct (session_change_set out v) as [cs|e|] eqn:Hr; apply wp_done || done; cbn [on_ok]; [|done].
  apply wp_done, (ext_ok_kept cs). by eapply session_changes_ok.
Qed.

Lemma wp_failed_ok self err g txn_data (R : Answers) :
  txn_wf txn_data -> within_max txn_data g -> is_discarded (status_from err) = false ->
  wp R (failed_transaction_cleanup_and_keep_vm_status self err g txn_data) (fun o => ext_ok o.2).
Proof.
  intros Htxn Hg Hkept. unfold failed_transaction_cleanup_and_keep_vm_status.
  rewrite is_discarded_spec in Hkept. destruct (status_from err) as [code|status|] eqn:Hs; [done| |done].
  apply wp_seq. eapply wp_weaken; [apply wp_framework|]. intros [[[]|e] s] Hr; cbn [fst] in Hr.
  - apply wp_seq. eapply wp_weaken; [by eapply wp_output_ok, gas_used|].
    intros [ext|e] Ho; [by apply wp_done|]. apply wp_seq. eapply wp_weaken; [by apply wp_discard_ok|].
    by intros [s' ext].
  - apply wp_discard_ok. destruct Hr as [e' He]. by eapply epilogue_discardable.
Qed.

Lemma wp_epilogue_ok self g txn_data (R : Answers) :
  wp R (success_epilogue self g txn_data) (on_value changes_ok).
Proof.
  unfold success_epilogue. apply wp_reading, wp_lift.
  eapply wp_weaken; [apply wp_framework|]. intros [r s] _. cbn [on_ok].
  apply wp_reading. eapply wp_weaken; [apply total_result|]. intros [[]|e] _; cbn [on_ok]; [|done].
  apply wp_session_changes.
Qed.

(** The payload left no deltas, so that there are none to materialise for the epilogue. *)
Lemma wp_cleanup_ok self txn_data cs g (R : Answers) :
  txn_wf txn_data -> within_max txn_data g -> changes_ok cs -> delta_change_set cs = ∅ ->
  wp R (success_transaction_cleanup self cs txn_data g) (on_value (fun o => ext_ok o.2)).
Proof.
  intros Htxn Hg Hcs Hnone. unfold success_transaction_cleanup. rewrite Hnone.
  apply wp_reading. rewrite (btree_iter_empty key_leb). apply wp_done. cbn [on_ok].
  rewrite freeze_same. apply wp_reading, wp_done. cbn [on_ok].
  apply wp_reading, wp_over_writes, wp_over_writes. eapply wp_weaken; [apply wp_epilogue_ok|].
  intros [epi|e] Hepi; cbn [on_ok on_value] in *; [|done].
  destruct (squash key_leb freeze change_set_ok cs epi) as [cs'|e] eqn:Hsq;
    apply wp_reading, wp_done; cbn [on_ok]; [|done].
  apply wp_reading. rewrite gas_used by done. apply wp_done. cbn [on_ok].
  apply wp_done, ext_ok_kept. eapply (squash_changes_ok agg key_leb); [|exact Hcs|exact Hepi|exact Hsq].
  intros ws ws'. rewrite freeze_same. by intros [= ->].
Qed.

(** ** Transactions *)

Context (disallowed : bool) (status_code : VMStatus -> StatusCode).

(** The payload of a transaction leaves no deltas, in a session: only the epilogue acts on
    aggregators that the transaction has not read, which is what [success_transaction_cleanup]
    says and relies on. *)
Definition leaves_no_deltas (txn_data : TransactionMetadata)
  (p : TransactionPayload TypeTag TransactionArgument) (session : VMSession) : Prop :=
  forall g, meter_wf g -> wp anything (payload_changes disallowed session txn_data p g)
    (fun r => on_value (fun cs => delta_change_set cs = ∅) r.1).

(** The same in the sessions in which the adapter runs it: a new one, and the one in which the
    transaction was validated. *)
Definition no_deltas (self : AptosVMImpl) (t : SignedTransaction) : Prop :=
  let txn_data := TransactionMetadata_new sha3_256_of t in
  let session := vm_new_session (move_vm self) (SessionId_txn sha3_256_of t) in
  leaves_no_deltas txn_data (payload t) session /\
  wp anything (validate_signature_checked_transaction (H1 := aptos_prologue disallowed)
                 status_code self session t false)
    (fun r => leaves_no_deltas txn_data (payload t) r.2).

(** A user transaction of machine integers, with arguments that fit in memory and a payload that
    leaves no deltas; a write set that fits the aggregators. *)
Definition txn_ok (self : AptosVMImpl) (txn : PreprocessedTransaction SignedTransaction Payload BlockMetadata) : Prop :=
  match txn with
  | UserTransaction t =>
      txn_wf (TransactionMetadata_new sha3_256_of t) /\ payload_fits (payload t) /\
      no_deltas self t
  | WaypointWriteSet (Direct cs) => maps_ok agg (ChangeSetExt.write_set cs) ∅
  | WaypointWriteSet (WriteSetScript _ script) => args_fit (convert_txn_args (script_args script))
  | BlockMetadata_ _ | InvalidSignature | StateCheckpoint => True
  end.

Lemma wp_payload_ok self session txn_data p g :
  txn_wf txn_data -> payload_fits p -> leaves_no_deltas txn_data p session -> within_max txn_data g ->
  wp anything (execute_payload disallowed self session txn_data p g)
    (fun r => within_max txn_data r.2 /\ on_value (fun o => ext_ok o.2) r.1).
Proof.
  intros Htxn Hp Hnone Hg. rewrite execute_payload_changes. apply wp_charging.
  eapply wp_weaken; [apply wp_and; [apply (ends_payload disallowed session txn_data p); [apply Htxn|done|apply Hg]|
    by apply Hnone, Hg]|].
  intros [r g1] [[Hs Hok] Hd]. pose proof (spent_within _ _ _ Hg Hs) as Hg1.
  destruct r as [cs|e]; cbn [on_charged on_value fst snd] in *; [|done].
  unfold cleanup. apply wp_charging, wp_done. cbn [on_charged]. apply wp_unmetered.
  eapply wp_weaken; [by apply wp_cleanup_ok|]. by intros r Hr.
Qed.

Lemma wp_conclude_ok self txn_data r g :
  txn_wf txn_data -> within_max txn_data g -> on_value (fun o => ext_ok o.2) r ->
  wp anything (conclude self txn_data r g) (fun o => ext_ok o.2).
Proof.
  intros Htxn Hg Hr. destruct r as [o|err]; cbn [conclude]; [by apply wp_done|].
  destruct (is_discarded (status_from err)) eqn:Hd; [|by apply wp_failed_ok].
  pose proof (status_from_spec err) as Hs. rewrite is_discarded_spec in Hd.
  destruct (status_from err) as [code|st|]; [|done..]. apply wp_discard_ok. by exists code.
Qed.

Lemma wp_user_ok self t :
  impl_wf self -> txn_ok self (UserTransaction t) ->
  wp anything (execute_user_transaction disallowed status_code self t) (fun o => ext_ok o.2).
Proof.
  intros Hself (Htxn & Hp & Hnew & Hval). unfold execute_user_transaction. apply wp_seq.
  eapply wp_weaken; [apply wp_and; [by eapply wp_validation, gas_checked_any|exact Hval]|].
  intros [[u|e] session] [He Hnone]; [|by apply wp_discard_ok].
  set (session' := if _ <=? _ then _ else _).
  assert (Hnone' : leaves_no_deltas (TransactionMetadata_new sha3_256_of t) (payload t) session')
    by (by unfold session'; destruct (_ <=? _)).
  clearbody session'.
  destruct (all_gas_parameters self) as [[params s]|e] eqn:Hgp.
  2: { apply missing_parameters in Hgp as ->. apply wp_discard_ok, code_discardable. do 3 right. left. }
  destruct (initial_meter self _ params s Hself Htxn Hgp) as (g0 & -> & Hm & _).
  apply wp_seq. eapply wp_weaken; [by apply wp_payload_ok|]. intros [r g] [Hg Hr].
  cbn [fst snd] in *. rewrite (gas_used _ g Htxn Hg). by apply wp_conclude_ok.
Qed.

(** What [execute_writeset] gives up with is an output as well. *)
Lemma wp_writeset_ok self p sender id :
  txn_ok self (WaypointWriteSet p) ->
  wp anything (execute_writeset self p sender id) (fun r =>
    match r with Ok cs => changes_ok cs | Err (Ok o) => ext_ok o.2 | Err (Err _) => True end).
Proof.
  intros Hp. unfold execute_writeset. destruct p as [cs|execute_as script]; [by apply wp_done|].
  apply wp_seq. eapply wp_weaken.
  { apply total_bind; [apply total_call, load_script_ok|]. intros [func s].
    apply total_bind; [by apply total_combine|]. intros args. apply total_ret. }
  intros [[args s]|e] _; [|done]. apply wp_seq, wp_reading.
  eapply wp_weaken; [apply total_call, execute_script_unmetered_ok|].
  intros [[u s']|e] _; cbn [on_ok]; [|apply wp_done, ext_ok_empty].
  eapply wp_weaken; [apply wp_and; [apply finish_apart|apply wp_finish]|].
  intros [out|e] [Hok Hfin]; cbn [on_value] in *; [|apply wp_done, ext_ok_empty]. apply wp_seq.
  pose proof (change_set_outcome out (gas_feature_version self) Hfin) as Hcs.
  destruct (session_change_set out (gas_feature_version self)) as [cs|e|] eqn:Hr; [|by apply wp_done|done].
  do 2 apply wp_done. by eapply session_changes_ok.
Qed.

Lemma total_read_writeset l : total (StateKey := StateKey) (AnyError := AnyError) (read_writeset l).
Proof.
  intros R. induction l as [|[key op] l IH]; [done|]. apply wp_read. intros [v|e] _; [apply IH|done].
Qed.

Hypothesis executed_is_kept : exists status, status_from VMStatus_Executed = Keep status.

Lemma wp_waypoint_ok self p : txn_ok self (WaypointWriteSet p) ->
  wp anything (process_waypoint_change_set self p) (on_value (fun o => ext_ok o.2)).
Proof.
  intros Hp. unfold process_waypoint_change_set. apply wp_reading, wp_lift.
  eapply wp_weaken; [by apply wp_writeset_ok|]. intros [cs|[o|e]] Hr; [|exact Hr|exact I].
  cbn [on_ok into_inner]. apply wp_reading, wp_done.
  destruct (validate_waypoint_change_set _) as [u|e]; cbn [on_ok]; [|done].
  apply wp_reading. eapply wp_weaken; [apply total_read_writeset|].
  intros [[]|e] _; cbn [on_ok]; [|done]. apply wp_done. split; [exact Hr|]. cbn.
  destruct executed_is_kept as [st ->]. by rewrite is_discarded_spec.
Qed.

Lemma wp_block_prologue_ok self b :
  wp anything (process_block_prologue self b) (on_value (fun o => ext_ok o.2)).
Proof.
  unfold process_block_prologue. apply wp_reading, wp_lift.
  eapply wp_weaken; [apply wp_framework|]. intros [r s] _. cbn [on_ok].
  apply wp_reading. eapply wp_weaken; [apply total_result|]. intros [[]|e] _; cbn [on_ok]; [|done].
  assert (Hused : checked_sub (max_gas_amount block_metadata_txn_data) 0 = Some 0).
  { cbn. rewrite checked_sub_spec by apply is_u64_0. by rewrite bool_decide_true. }
  apply wp_reading. eapply wp_weaken; [by eapply wp_output_ok|]. by intros [o|e].
Qed.

Lemma wp_single_ok self txn : impl_wf self -> txn_ok self txn ->
  wp anything (execute_single_transaction_impl disallowed status_code self txn)
    (on_value (fun r => ext_ok r.1.2)).
Proof.
  intros Hself Htxn.
  assert (Hnamed : forall (p : reading (VMStatus * OutputExt)) (name : option string),
    wp anything p (on_value (fun o => ext_ok o.2)) ->
    wp anything ('(s, o) ← p; mret (s, o, name) : reading (VMStatus * OutputExt * option string))
      (on_value (fun r => ext_ok r.1.2))).
  { intros p name Hp. apply wp_reading. eapply wp_weaken; [exact Hp|].
    by intros [[s o]|e] Ho. }
  destruct txn as [t|p|b| |]; cbn [execute_single_transaction_impl].
  - apply Hnamed, wp_lift. by apply wp_user_ok.
  - apply Hnamed. by apply wp_waypoint_ok.
  - apply Hnamed. apply wp_block_prologue_ok.
  - apply Hnamed, wp_lift, wp_discard_ok, code_discardable. left.
  - apply wp_done, ext_ok_empty.
Qed.
End Adapter.

(** ** The block *)

Section Block.
Context `{Bcs128, !Bcs128Laws, GasAlgebra, !GasAlgebraLaws, Uleb128, !Uleb128Laws}.
Context {StateKey ContractEvent AnyError StateViewId Usage Hash P : Type}.
Context `{Chain StateKey ContractEvent (AnyError := AnyError)}.
Context `{!VMLaws (StateKey := StateKey) (ContractEvent := ContractEvent) (AnyError := AnyError)}.
Context `{!ConfigLaws (StateKey := StateKey) (ContractEvent := ContractEvent) (AnyError := AnyError)}.
Context `{Countable P} `{ModulePath StateKey P} `{TransactionWrite WriteOp, !WriteOpBytes}.
Abbreviation Payload := (WriteSetPayload (ChangeSet StateKey ContractEvent) (Script TypeTag TransactionArgument)).
Context (agg : StateKey -> option Z) `{!BlockLaws (ContractEvent := ContractEvent) agg}.
Context (disallowed : bool) (status_code : VMStatus -> StatusCode).
Context (any_of_status : VMStatus -> AnyError).
Context (ws_squash : gmap StateKey WriteOp -> list (StateKey * WriteOp) ->
                     option (gmap StateKey WriteOp)).

Lemma wp_prog_ok (p : ViewProg StateKey AnyError
    (result VMStatus (VMStatus * TransactionOutputExt (StateKey := StateKey) (Event := ContractEvent)
       (TransactionStatus := TransactionStatus (ExecutionStatus AbortInfo)) * option string))) :
  wp anything p (on_value (fun r => ext_ok agg r.1.2)) -> prog_ok is_discarded agg p.
Proof.
  induction p as [[[[s out] name]|e]|key cont IH|]; cbn; [|done| |done].
  - intros [Hm Hd]. split; [apply Hm| |apply Hm|exact Hd].
    intros k op Hop Ha b [= Hb]. by apply (maps_writes _ _ _ Hm k op Hop Ha).
  - intros Hc r _. by apply IH, Hc.
Qed.

(** [WriteSetMut::squash] of sets with no key in common is their union. *)
Definition squash_is_union : Prop := forall ws l,
  NoDup l.*1 -> (forall k, k ∈ l.*1 -> ws !! k = None) -> ws_squash ws l = Some (list_to_map l ∪ ws).

Lemma write_set_laws : squash_is_union ->
  WriteSetLaws (VMAdapter0 := aptos_adapter disallowed status_code) ws_squash freeze.
Proof.
  intros Hsquash. split; [exact Hsquash| |].
  - intros ws ws'. rewrite freeze_same. by intros [= ->].
  - intros o o' He. cbn. unfold should_restart. by rewrite He.
Qed.

(** C3. [AptosVM::execute_block], with the adapter of [aptos_vm.rs] as the VM, does not depend on
    the concurrency level, provided that the payloads of its transactions leave no deltas, whatever
    they are answered ([txn_ok]: only the epilogues act on aggregators without reading them), and
    that the deltas of the epilogues apply in the sequential execution ([deltas_apply]).  A block of
    such transactions gives in parallel exactly the outputs, or the error, of its sequential
    execution, with the deltas materialised.  In particular it returns, and no thread panics,
    although the storage may answer a transaction under speculation with stale values, and
    differently from one read of a key to the next.  For payloads that leave deltas this does not
    hold: the adapter may panic on a stale value. *)
Theorem aptos_block_any_level (hash_iter : gset StateKey -> list StateKey)
  (hash_map_iter : gmap StateKey (option (option bytes)) -> list (StateKey * option (option bytes)))
  (transactions : list (Transaction (SignedTransaction TypeTag TransactionArgument) Payload BlockMetadata Hash))
  (state_view : StateView StateKey StateViewId Usage AnyError) (vm : AptosVMImpl) concurrency_level res :
  (forall s, hash_iter s ≡ₚ base.elements s) ->
  (forall keys, hash_map_iter keys ≡ₚ map_to_list keys) ->
  squash_is_union ->
  (exists status, status_from VMStatus_Executed = Keep status) ->
  run_prog state_view AptosVMImpl_new = Some vm ->
  (forall key, BlockEquivalence.value_ok agg key (get_state_value state_view key)) ->
  (forall txn, txn ∈ (preprocess_transaction (H1 := aptos_adapter disallowed status_code) <$> transactions) ->
     txn_ok agg disallowed status_code vm txn) ->
  BlockEquivalence.deltas_apply (VMAdapter0 := aptos_adapter disallowed status_code) key_leb partial_status is_discarded
    ws_squash freeze vm state_view
    (preprocess_transaction (H1 := aptos_adapter disallowed status_code) <$> transactions) ->
  execute_block (P := P) (VMAdapter0 := aptos_adapter disallowed status_code) key_leb partial_status
    any_of_status is_discarded ws_squash freeze hash_iter hash_map_iter AptosVMImpl_new transactions
    state_view concurrency_level res <->
  res = (output ← execute_block_and_keep_vm_status (H1 := aptos_adapter disallowed status_code) key_leb
                    partial_status is_discarded ws_squash freeze AptosVMImpl_new transactions state_view;
         Return output.*2).
Proof.
  intros Hiter Hmap Hsquash Hexec Hnew Hstate Htxns Hdeltas.
  eapply block_any_level; [done..|by apply write_set_laws|exact Hnew|exact Hstate| |exact Hdeltas].
  intros idx txn Ht. apply wp_prog_ok. apply wp_single_ok; [apply _|exact Hexec|exact (new_impl_wf state_view vm Hnew)|].
  apply Htxns. by eapply list_elem_of_lookup_2.
Qed.
End Block.
