(* ===== verification/AptosBlockExample.v ===== *)
(** * A block of two transactions that count, on two threads

    A small Move VM whose entry function reads a table item and writes the next number, and whose
    epilogue adds a fee to an aggregator without reading it.  Two such transactions conflict on
    the item and not on the fees; the theorem of [AptosBlock] applies to their block. *)
From stdpp Require Import relations.
From S2P Require Import Prelude Delta ChangeSetExt MVMap Conc Scheduler LastInputOutput Executor.
From S2P Require Import StateView AdapterCommon ParallelVM BlockEquivalence.
From S2P Require Import GasSchedule GasSize GasMeter GasProps Session Publish TxnArgs VMErrors MoveVM.
From S2P Require Import VMImpl AptosVM AdapterWp GasChecks AptosVMProps VMConfig AptosBlock.

#[local] Open Scope Z_scope.

Module CountingVM.
#[export] Existing Instances Saturating.saturating Saturating.saturating_laws.
#[export] Existing Instances LittleEndian.le_bcs LittleEndian.le_bcs_laws.
#[export] Existing Instances Uleb.uleb128 Uleb.uleb128_laws.

(** Keys of resources, of modules, of table items and of configurations. *)
Abbreviation Key := ((bytes * nat) + ((bytes * string) + ((bytes * bytes) + nat)))%type.
Definition at_resource (a : bytes) (t : nat) : Key := inl (a, t).
Definition at_module (a : bytes) (n : string) : Key := inr (inl (a, n)).
Definition at_item (h k : bytes) : Key := inr (inr (inl (h, k))).
Definition at_config (c : nat) : Key := inr (inr (inr c)).

(** What a session has changed: the counter, and the fees. *)
Record Session := { counter : option Z; fees : bool }.
Definition counter_key : Key := at_item [1] [1].
Definition fees_id : bytes * bytes := ([9], [9]).
Definition fees_key : Key := at_item [9] [9].
Definition limits (k : Key) : option Z := if decide (k = fees_key) then Some 1000 else None.

Definition keep_code (code : StatusCode) : bool := bool_decide (code = OUT_OF_GAS).
Definition count_status (s : VMStatus) : TransactionStatus (ExecutionStatus unit) :=
  match s with
  | VMStatus_Executed => Keep StatusSuccess
  | VMStatus_Error code => if keep_code code then Keep StatusOutOfGas else Discard code
  | VMStatus_MoveAbort l code => Keep (StatusMoveAbort l code None)
  | VMStatus_ExecutionFailure _ l f o => Keep (StatusExecutionFailure l f o)
  end.
Definition count_keep (s : VMStatus) : unit + StatusCode :=
  match s with VMStatus_Error code => if keep_code code then inl tt else inr code | _ => inl tt end.

Abbreviation Prog := (ViewProg Key unit).
Definition no_function : LoadedFunctionInstantiation (StructIndex := unit) :=
  {| parameters := []; return_ := [] |}.

(** The epilogue owes a fee. *)
Definition framework (s : Session) (name : string) : Prog (result StatusCode unit * Session) :=
  PDone (Ok tt, {| counter := counter s; fees := String.eqb name "epilogue" || fees s |}).

(** The entry function. *)
Definition count (s : Session) (g : AptosGasMeter)
  : Prog (result StatusCode unit * Session * AptosGasMeter) :=
  PRead counter_key (fun v =>
    PDone (Ok tt, {| counter := Some (match v with Ok (Some (n :: _)) => n + 1 | _ => 1 end);
                     fees := fees s |}, g)).

Definition count_finish (s : Session) :=
  PDone (StateKey := Key) (AnyError := unit) (Ok (E := StatusCode) (
    ∅ : gmap bytes (AccountChangeSet (Identifier := string) (StructTag := nat)), [] : list unit,
    Ok {| new_tables := ∅; removed_tables := ∅;
          table_changes := match counter s with
                           | Some n => {[ [1] := {| entries := {[ [1] := Modify [n] ]} |} ]}
                           | None => ∅
                           end |}
      : PartialVMResult (TableChangeSet (TableHandle := bytes) (TableInfo := unit)),
    Return (E := VMStatus) (if fees s then {[fees_id := AggregatorContext.Merge (delta_add 2 1000)]} else ∅
      : gmap (bytes * bytes) AggregatorContext.AggregatorChange))).

#[export] Instance counting_vm : MoveVM Key unit := {|
  VM := unit; VMSession := Session; VMError := StatusCode; TypeTag := unit;
  StructIndex := unit; CompiledModule := unit; StructTag := nat; TableInfo := unit;
  MoveEvent := unit; AbortInfo := unit;
  into_vm_status := VMStatus_Error; finish_error e := status e; status_from := count_status;
  vm_new_with _ _ _ _ := Some tt;
  vm_new_session _ _ := {| counter := None; fees := false |};
  extract_abort_info _ _ _ := None;
  load_script s _ _ := PDone (Ok no_function, s);
  load_function s _ _ _ := PDone (Ok no_function, s);
  get_struct_type _ _ := None;
  exists_module s _ := PDone (Ok false, s);
  load_module s _ := PDone (Err STORAGE_ERROR, s);
  execute_script s _ _ _ g := PDone (Ok tt, s, g);
  execute_entry_function s _ _ _ _ g := count s g;
  execute_function s _ _ _ g := PDone (Ok tt, s, g);
  publish_module_bundle s _ _ g := PDone (Ok tt, s, g);
  execute_script_unmetered s _ _ _ := PDone (Ok tt, s);
  execute_function_unmetered s _ name _ := framework s name;
  finish_with_extensions s := count_finish s;
  take_publish_request s := (None, s);
  module_deserialize _ := Ok tt;
  self_id _ := ([], "m"%string);
  immediate_dependencies _ := [];
  verify_module_init_function _ := true;
  serialize_value v := Some (match v with MSigner a => resize 32 0 a | _ => [] end);
  short_str_lossless _ := "m"%string;
|}.

Definition any_order {A} (x y : A) : Prop := True.
Definition any_order_dec {A} : RelDecision (@any_order A) := fun x y => left I.

Definition count_validation : TransactionValidation :=
  {| validation_module := ([], "transaction_validation"%string);
     script_prologue_name := "script_prologue"; module_prologue_name := "module_prologue";
     multi_agent_prologue_name := "multi_agent_script_prologue"; user_epilogue_name := "epilogue" |}.

Definition count_schedule : list (string * Z) :=
  to_on_chain_gas_schedule (OnChainGasSchedule := aptos_schedule 100 false) example_params.

#[export] Instance counting_chain : Chain Key unit := {|
  key_leb := any_order; key_leb_dec := any_order_dec;
  bytes_leb := any_order; bytes_leb_dec := any_order_dec;
  string_leb := any_order; string_leb_dec := any_order_dec;
  tag_leb := any_order; tag_leb_dec := any_order_dec;
  id_leb := any_order; id_leb_dec := any_order_dec;
  resource_key := at_resource; module_key := at_module; table_item := at_item;
  encode_key _ := Some []; key_size _ := 1%nat;
  config_key c := at_config (match c with GasScheduleConfig => 0 | _ => 1 end)%nat;
  freeze := Some; check_change_set _ _ _ := Ok tt; contract_event _ := Some tt;
  is_new_epoch_event _ := false; is_new_block_event _ := false;
  decode_gas_schedule_v2 _ := None;
  decode_gas_schedule _ := Some (list_to_map count_schedule);
  decode_storage_gas_schedule _ := None; decode_treat_friend_as_private _ := None;
  default_treat_friend_as_private := false; decode_version _ := None;
  decode_transaction_validation _ := None; decode_approved_hashes _ := None;
  APTOS_TRANSACTION_VALIDATION := count_validation; GAS_UNIT_PRICE := 100;
  KeptVMStatus := unit; keep_or_discard := count_keep;
  is_discarded st := match st with Keep _ => false | _ => true end;
  is_account_module_abort _ _ := true; expect_no_verification_errors e := e;
  TransactionArgument := unit; convert_txn_args l := (fun _ => []) <$> l;
  sha3_256_of b := b; hash_zero := []; reserved_vm_address := [];
  BlockMetadata := unit; block_id _ := []; get_prologue_move_args _ _ := [];
  default_authentication_key := []; test_chain_id := 4;
  BLOCK_MODULE := ([], "block"%string); address_to_string _ := "a"%string;
  serialize_signed_transaction _ := [];
|}.

#[export] Instance counting_laws :
  VMLaws (StateKey := Key) (ContractEvent := unit) (AnyError := unit).
Proof.
  split; try (intros; by apply wp_done); try done.
  - intros s R. apply wp_done. split; [|done]. eexists. split; [done|].
    intros id v. destruct (fees s); [|by rewrite lookup_empty].
    by intros [_ [=]]%lookup_singleton_Some.
  - intros a. cbn. eexists. split; [done|]. apply length_resize.
  - intros [|code| |]; cbn; [by eexists| |by eexists..]. unfold count_keep.
    destruct (keep_code code); [by eexists|done].
  - intros code Hc. cbn. unfold keep_code. case_bool_decide as Hk; [|done]. subst code.
    exfalso. apply (bool_decide_eq_false_1 (OUT_OF_GAS ∈ discarded_codes)); [|done]. by vm_compute.
Qed.

#[export] Instance counting_block_laws : BlockLaws (ContractEvent := unit) (AnyError := unit) limits.
Proof.
  split.
  - split; try done; intros ??; (by intros ?? [= -> ->]) || by intros E.
  - intros a t. unfold limits. by case_decide.
  - intros a n. unfold limits. by case_decide.
  - intros s R. apply wp_done. split; cbn; destruct s as [n b]; cbn.
    + intros handle key c. destruct b; [|by rewrite lookup_empty].
      intros [[= <- <-] _]%lookup_singleton_Some. by eexists.
    + intros handle key d. destruct b; [|by rewrite lookup_empty].
      intros [[= <- <-] [= <-]]%lookup_singleton_Some. split; [done|]. vm_compute. intuition discriminate.
    + intros handle change key op. destruct n as [n|]; [|by rewrite lookup_empty].
      intros [<- <-]%lookup_singleton_Some He. cbn in He.
      by apply lookup_singleton_Some in He as [<- _].
Qed.
Lemma count_schedule_wf : schedule_wf (list_to_map count_schedule : gmap string Z).
Proof.
  intros name v Hv%elem_of_list_to_map_2.
  assert (Hall : Forall (fun kv => is_u64 kv.2) count_schedule).
  { apply (bool_decide_unpack _). by vm_compute. }
  rewrite Forall_forall in Hall. exact (Hall _ Hv).
Qed.

#[export] Instance counting_config :
  ConfigLaws (StateKey := Key) (ContractEvent := unit) (AnyError := unit).
Proof.
  split; [done| |done]. intros b m Hm. rewrite <- (Some_inj _ _ Hm). apply count_schedule_wf.
Qed.
End CountingVM.

Section Example.
Import CountingVM.
#[local] Instance count_write : TransactionWrite WriteOp := written_value.
#[local] Instance count_bytes : WriteOpBytes := fun op => eq_refl.
#[local] Instance count_path : ModulePath Key nat := fun _ => None.

(** A transaction of a sender that counts, with 1000 units of gas. *)
Definition count_txn (sender : Z) : SignedTransaction unit unit :=
  {| txn_sender := [sender]; sender_authentication_key := []; secondary_signer_addresses := [];
     secondary_signer_keys := []; txn_sequence_number := 0; txn_max_gas_amount := 1000;
     txn_gas_unit_price := 1000; raw_txn_bytes_len := 10; txn_expiration_timestamp_secs := 0;
     txn_chain_id := 4; payload := PayloadEntryFunction ([], "m"%string) "count" [] [];
     signature_ok := true; contains_duplicate_signers := false |}.
Definition count_block : list (Transaction (SignedTransaction unit unit)
  (WriteSetPayload (ChangeSet Key unit) (Script unit unit)) unit unit) :=
  [TUserTransaction (count_txn 7); TUserTransaction (count_txn 8)].

(** The counter is at 5, the fees at 100, and the gas schedule is on the chain. *)
Definition count_view : StateView Key unit unit unit :=
  {| view_id := tt;
     get_state_value := fun k =>
       if decide (k = counter_key) then Ok (Some [5])
       else if decide (k = fees_key) then Ok (Some (LittleEndian.encode 16 100))
       else if decide (k = at_config 0) then Ok (Some [])
       else Ok None;
     is_genesis := false; get_usage := Ok tt |}.
Definition count_code (s : VMStatus) : StatusCode :=
  match s with VMStatus_Error code => code | _ => UNKNOWN_STATUS end.

Definition count_impl : option AptosVMImpl := run_prog count_view AptosVMImpl_new.
Definition count_squash (ws : gmap Key WriteOp) (l : list (Key * WriteOp)) : option (gmap Key WriteOp) :=
  Some (list_to_map l ∪ ws).
Definition count_sequential :=
  output ← execute_block_and_keep_vm_status (H1 := aptos_adapter false count_code) key_leb partial_status
    is_discarded count_squash freeze AptosVMImpl_new count_block count_view;
  Return output.*2.
Definition final_values (r : comp VMStatus _) :=
  match r with
  | Return outs => (fun o => (out_write_set (Event := unit) (TransactionStatus := TransactionStatus (ExecutionStatus unit)) o !! counter_key,
       out_write_set o !! fees_key)) <$> outs
  | _ => []
  end.

Abbreviation CountExt := (TransactionOutputExt (StateKey := Key) (Event := unit)
  (TransactionStatus := TransactionStatus (ExecutionStatus unit))).
#[local] Instance count_outputs : TransactionOutput Key WriteOp CountExt :=
  AptosTransactionOutput key_leb.
Abbreviation CountTxn := (PreprocessedTransaction (SignedTransaction unit unit)
  (WriteSetPayload (ChangeSet Key unit) (Script unit unit)) unit).

Definition count_run : TxnIndex -> CountTxn -> VMRun Key WriteOp CountExt VMStatus :=
  execute_transaction (VMAdapter0 := aptos_adapter false count_code) partial_status (fun _ => tt)
    AptosVMImpl_new count_view.
Definition count_preprocess : Transaction (SignedTransaction unit unit)
    (WriteSetPayload (ChangeSet Key unit) (Script unit unit)) unit unit -> CountTxn :=
  preprocess_transaction (H1 := aptos_adapter (StateKey := Key) (ContractEvent := unit) false count_code).
Definition count_txns : list CountTxn := count_preprocess <$> count_block.

(** The first thread stops after a few steps; the second one executes the second transaction too
    early, on the old counter, and it is executed again. *)
Definition count_end :=
  play (replicate 18 0 ++ replicate 300 1 ++ concat (replicate 300 [1; 0]))%nat
    (spawn (P := nat) base.elements count_run 2 count_txns).

Definition count_vm : AptosVMImpl :=
  {| move_vm := tt; gas_feature_version := 0;
     impl_gas_params := from_schedule (list_to_map count_schedule);
     impl_storage_gas_params := None; version := None; impl_transaction_validation := None |}.

Lemma count_vm_new : run_prog count_view AptosVMImpl_new = Some count_vm.
Proof. reflexivity. Qed.

(** A session without fees leaves no deltas. *)
Lemma count_change_set s v : fees s = false -> exists out,
  session_finish s = PDone (Ok out) /\
  match session_change_set out v with Return cs => delta_change_set cs = ∅ | _ => False end.
Proof.
  intros Hs. eexists. split; [reflexivity|]. rewrite Hs. by destruct (counter s).
Qed.

Lemma count_session_leaves s g : fees s = false -> meter_wf g ->
  wp anything (charged_change_set s g) (fun r => on_value (fun cs => delta_change_set cs = ∅) r.1).
Proof.
  intros Hs Hg. unfold charged_change_set. apply wp_charging, wp_unmetered.
  destruct (count_change_set s (feature_version g) Hs) as (out & -> & Hcs). apply wp_done. cbn [on_charged].
  apply wp_charging, wp_done. cbn [on_charged]. apply wp_charging, wp_unmetered.
  destruct (session_change_set out (feature_version g)) as [cs| |]; [|done..].
  apply wp_done. cbn [on_charged]. apply wp_charging. eapply wp_weaken.
  { eapply spending_charges; [eapply metered_write_set, Forall_forall; intros kv _; apply encode_key_total|done]. }
  intros [[u|e] g'] _; cbn [on_charged]; [|done]. by apply wp_done.
Qed.

Lemma count_leaves txn_data m f s : is_u64 (transaction_size txn_data) -> fees s = false ->
  leaves_no_deltas false txn_data (PayloadEntryFunction m f [] []) s.
Proof.
  intros Hsize Hs g Hg. cbn [payload_changes]. unfold script_or_entry_function_changes.
  apply wp_charging. eapply wp_weaken; [by eapply spending_charges; [apply metered_intrinsic|]|].
  intros [[[]|e] g1] [Hg1 _]; cbn [on_charged]; [|done]. apply wp_charging.
  eapply wp_weaken with (P := fun r => meter_wf r.2 /\ on_value (fun s' => fees s' = false) r.1).
  2: { intros [[s'|e] g2] [Hg2 Hs']; cbn [on_charged]; [|done]. apply wp_charging, wp_done.
       cbn [on_charged]. by apply count_session_leaves. }
  apply wp_charging, wp_unmetered, wp_done. cbn [on_charged].
  apply wp_charging, wp_unmetered. eapply wp_weaken; [apply total_combine; constructor|].
  intros [args|e] _; cbn [on_charged]; [|done]. by apply wp_seq; cbn; intros v _.
Qed.

Lemma count_no_deltas n : is_u64 n -> no_deltas false count_code count_vm (count_txn n).
Proof.
  intros Hn. assert (Hwf : impl_wf count_vm) by apply (new_impl_wf count_view), count_vm_new.
  split; [by apply count_leaves|].
  unfold validate_signature_checked_transaction. cbn [contains_duplicate_signers count_txn].
  apply wp_seq. eapply wp_weaken with (P := fun r => fees r.2 = false).
  { apply wp_seq. eapply wp_weaken; [by apply wp_check_gas|]. intros [[]|e] _; by apply wp_done. }
  intros [r s] Hs. apply wp_done. by apply count_leaves.
Qed.

Lemma count_txn_ok n : is_u64 n -> txn_ok limits false count_code count_vm (UserTransaction (count_txn n)).
Proof. intros Hn. split; [done|]. split; [constructor|by apply count_no_deltas]. Qed.

Lemma count_deltas :
  BlockEquivalence.deltas_apply (VMAdapter0 := aptos_adapter false count_code) key_leb partial_status
    is_discarded count_squash freeze count_vm count_view count_txns.
Proof. apply deltas_applied. by vm_compute. Qed.

Lemma count_values key : BlockEquivalence.value_ok limits key (get_state_value count_view key).
Proof.
  unfold BlockEquivalence.value_ok, limits. case_decide as Hk; [subst key|by intros []].
  intros _ b Hb. injection Hb as <-. vm_compute. by eexists.
Qed.

Lemma count_squash_union : squash_is_union count_squash.
Proof. by intros ws l _ _. Qed.

Abbreviation count_execute_block := (execute_block (P := nat) (VMAdapter0 := aptos_adapter false count_code)
  key_leb partial_status (fun _ => tt) is_discarded count_squash freeze base.elements map_to_list
  AptosVMImpl_new count_block count_view 2).

(** Two threads run the block. *)
Lemma count_parallel : exists res, count_execute_block res.
Proof.
  assert (Hend : bool_decide (is_Some (block_result count_end.2)) = true) by (vm_compute; reflexivity).
  destruct (block_result count_end.2) as [r|] eqn:Hr; [clear Hend|discriminate Hend].
  assert (Hf : Conc.finished count_end) by (vm_compute; repeat constructor).
  assert (Hreach : rtc pool_step (spawn (P := nat) base.elements count_run 2 count_txns) count_end)
    by apply play_reaches.
  eexists. apply BlockParallel; [lia|]. exists r. split; [|reflexivity].
  exact (ExecuteBlock (P := nat) base.elements count_run 2 count_txns count_end r
    ltac:(discriminate) Hreach Hf Hr).
Qed.

Lemma count_block_ok txn : txn ∈ count_txns -> txn_ok limits false count_code count_vm txn.
Proof.
  intros [->|[->|[]%elem_of_nil]%elem_of_cons]%elem_of_cons; by apply count_txn_ok.
Qed.

Lemma count_sequential_values : final_values count_sequential =
  [(Some (Modification [6]), Some (Modification (LittleEndian.encode 16 102)));
   (Some (Modification [7]), Some (Modification (LittleEndian.encode 16 104)))].
Proof. vm_compute. reflexivity. Qed.

(** The counter goes from 5 to 7, and the fees from 100 to 104. *)
Lemma aptos_block_any_level_witness : exists res, count_execute_block res /\ final_values res =
  [(Some (Modification [6]), Some (Modification (LittleEndian.encode 16 102)));
   (Some (Modification [7]), Some (Modification (LittleEndian.encode 16 104)))].
Proof.
  destruct count_parallel as [res Hres]. exists res. split; [exact Hres|].
  pose proof (aptos_block_any_level (StateKey := Key) (ContractEvent := unit) (AnyError := unit)
    (StateViewId := unit) (Usage := unit) (Hash := unit) (P := nat) limits false count_code
    (fun _ => tt) count_squash base.elements map_to_list) as Hblock.
  rewrite (proj1 (Hblock count_block count_view count_vm 2%nat res (fun s => reflexivity _)
    (fun m => reflexivity _) count_squash_union (ex_intro _ StatusSuccess eq_refl) count_vm_new
    count_values count_block_ok count_deltas) Hres).
  exact count_sequential_values.
Defined.
End Example.
