(* ===== verification/Transactions.v ===== *)
(** * What a transaction pays, writes and shows in a simulation

    The theorems on [AptosVM]: the outcome of a user transaction, when its execution panics, and the
    gas it pays; the outputs that are discarded; and the simulation of a transaction. *)
From S2P Require Import Prelude Delta ChangeSetExt StateView AdapterCommon.
From S2P Require Import GasSchedule GasSize GasMeter GasProps Session Publish TxnArgs VMErrors MoveVM.
From S2P Require Import VMImpl AptosVM AdapterWp GasChecks AptosVMProps.

#[local] Open Scope Z_scope.

(** ** User transactions *)

Section Users.
Context `{Bcs128, !Bcs128Laws, GasAlgebra, !GasAlgebraLaws, Uleb128, !Uleb128Laws}.
Context {StateKey ContractEvent AnyError StateViewId Usage : Type}.
Context `{Chain StateKey ContractEvent (AnyError := AnyError)}.
Context `{!VMLaws (StateKey := StateKey) (ContractEvent := ContractEvent) (AnyError := AnyError)}.
Abbreviation View := (StateView StateKey StateViewId Usage AnyError).
Abbreviation SignedTransaction := (SignedTransaction TypeTag TransactionArgument).
Context (disallowed : bool) (status_code : VMStatus -> StatusCode).
Context (self : AptosVMImpl) (transaction : SignedTransaction) (view : View).
Abbreviation txn_data := (TransactionMetadata_new sha3_256_of transaction).

(** The parameters of the VM and the fields of the transaction are machine integers, and the
    arguments fit in memory. *)
Record user_hyps : Prop := {
  self_wf : impl_wf self;
  data_wf : txn_wf txn_data;
  args_wf : payload_fits (payload transaction);
}.
Hypothesis Hyps : user_hyps.

Lemma user_runs s ext :
  run_prog view (execute_user_transaction disallowed status_code self transaction) = Some (s, ext) ->
  user_outcome disallowed status_code view self transaction s ext.
Proof.
  intros Hr. destruct (user_panics_dec disallowed status_code self transaction view) as [Hp|Hp].
  { apply user_panics_run in Hp. congruence. }
  destruct (proj1 (wp_shown view _ _) (wp_user disallowed status_code self transaction view
    (self_wf Hyps) (data_wf Hyps) (args_wf Hyps) Hp)) as (r & Hr' & Ho).
  by rewrite Hr in Hr'; injection Hr' as <-.
Qed.

(** The gas of an output that is kept. *)
Lemma outcome_gas session vm_status ext :
  execution_outcome disallowed view self session txn_data (payload transaction) vm_status ext ->
  (exists status, out_status (output ext) = Keep status) ->
  exists p g, impl_gas_params self = Some p /\ gas_params g = p /\ within_max txn_data g /\
    paid txn_data g /\ out_gas_used (output ext) = max_gas_amount txn_data - Gas_balance g.
Proof.
  intros (params & s & g0 & r & g & Hgp & Hg0 & Hr & Hs & Hw & Hpaid & Ho) [status Hst].
  destruct (initial_meter self txn_data params s) as (g0' & Hg0' & _ & Hi & Hgp0 & _);
    [apply Hyps..|exact Hgp|]. rewrite Hg0 in Hg0'. injection Hg0' as <-.
  exists params, g. split; [done|]. destruct Hs as (_ & (_ & Hsame & _) & _).
  split; [congruence|]. split; [done|]. split; [done|]. destruct r as [out|err].
  - by destruct Ho as (_ & cs & _ & (ws & epi & cs' & _ & _ & _ & _ & ->)).
  - destruct Ho as (st & _ & [(session' & _ & (out & cs & _ & _ & ->) & _)|(e & code & _ & -> & _)]);
      [done|discriminate Hst].
Qed.

(** C4. Executing a user transaction panics exactly when its validation lets it pass and its
    payload succeeds with deltas of aggregators that do not apply to the state, the [expect] of
    [success_transaction_cleanup] on which the code comments "this should never happen".
    Otherwise it is discarded, with an empty output, or it passed the gas checks and its payload
    ran in its session; then its output is the changes of the payload squashed with those of the
    success epilogue, run over the state with these changes and its deltas materialised, or, when
    the payload failed, the changes of the failure epilogue alone on the state before the
    transaction; or else the failed transaction is discarded.  The gas it used is the maximum less
    what its meter has left. *)
Theorem user_transaction_outcome :
  (run_prog view (execute_user_transaction disallowed status_code self transaction) = None <->
   user_panics disallowed status_code view self transaction) /\
  forall vm_status ext,
    run_prog view (execute_user_transaction disallowed status_code self transaction) = Some (vm_status, ext) ->
    user_outcome disallowed status_code view self transaction vm_status ext.
Proof.
  split; [split; [|apply user_panics_run]|apply user_runs]. intros Hnone.
  destruct (user_panics_dec disallowed status_code self transaction view) as [|Hp]; [done|].
  destruct (proj1 (wp_shown view _ _) (wp_user disallowed status_code self transaction view
    (self_wf Hyps) (data_wf Hyps) (args_wf Hyps) Hp)) as (r & Hr & _). congruence.
Qed.

(** C7. A transaction that is kept pays: the gas that its output charges covers the intrinsic
    gas of its size, in internal units, and is at most the maximum of the transaction.  The
    gas checks see to it before the payload runs, and no failure of the payload avoids it. *)
Theorem kept_transaction_pays vm_status ext status p :
  run_prog view (execute_user_transaction disallowed status_code self transaction) = Some (vm_status, ext) ->
  out_status (output ext) = Keep status -> impl_gas_params self = Some p ->
  intrinsic_gas (txn p) (transaction_size txn_data)
    <= out_gas_used (output ext) * scaling_factor (txn p) /\
  0 <= out_gas_used (output ext) <= max_gas_amount txn_data.
Proof.
  intros Hrun Hkept Hp. pose proof (user_runs _ _ Hrun) as Ho.
  destruct Ho as [(code & _ & ->)|(_ & session & _ & Ho)]; [done|].
  apply outcome_gas in Ho as (p' & g & Hp' & Hg & Hwithin & Hpaid & Hused); [|by eexists].
  rewrite Hp in Hp'. injection Hp' as ->. rewrite Hused. unfold paid in Hpaid. rewrite Hg in Hpaid.
  split; [done|]. destruct Hwithin as [Hw Hle]. destruct (Gas_balance_u64 g Hw) as [[? _] _]. lia.
Qed.
End Users.

(** ** Simulation *)

Section Simulation.
Context `{Bcs128, !Bcs128Laws, GasAlgebra, !GasAlgebraLaws, Uleb128, !Uleb128Laws}.
Context {StateKey ContractEvent AnyError StateViewId Usage : Type}.
Context `{Chain StateKey ContractEvent (AnyError := AnyError)}.
Context `{!VMLaws (StateKey := StateKey) (ContractEvent := ContractEvent) (AnyError := AnyError)}.
Abbreviation View := (StateView StateKey StateViewId Usage AnyError).
Abbreviation SignedTransaction := (SignedTransaction TypeTag TransactionArgument).
Context (disallowed : bool) (status_code : VMStatus -> StatusCode).
Context (self : AptosVMImpl) (transaction : SignedTransaction) (view : View).
Abbreviation txn_data := (TransactionMetadata_new sha3_256_of transaction).

(** The transaction with a signature that is valid, or not. *)
Definition with_signature (valid : bool) (t : SignedTransaction) : SignedTransaction :=
  {| txn_sender := txn_sender t; sender_authentication_key := sender_authentication_key t;
     secondary_signer_addresses := secondary_signer_addresses t;
     secondary_signer_keys := secondary_signer_keys t; txn_sequence_number := txn_sequence_number t;
     txn_max_gas_amount := txn_max_gas_amount t; txn_gas_unit_price := txn_gas_unit_price t;
     raw_txn_bytes_len := raw_txn_bytes_len t;
     txn_expiration_timestamp_secs := txn_expiration_timestamp_secs t;
     txn_chain_id := txn_chain_id t; payload := payload t; signature_ok := valid;
     contains_duplicate_signers := contains_duplicate_signers t |}.

(** The session of a transaction before the prologue, and the one that the prologue leaves. *)
Definition fresh_session : VMSession := vm_new_session (move_vm self) (SessionId_txn sha3_256_of transaction).
Definition after_prologue (session : VMSession) : Prop :=
  run_prog view (run_prologue_with_payload disallowed self fresh_session (payload transaction) txn_data)
  = Some (Ok tt, session).

(** Both validate a transaction in the same way. *)
Lemma same_validation session :
  run_prog view (validate_signature_checked_transaction (H1 := aptos_prologue disallowed)
    status_code self session (with_signature true transaction) false)
  = run_prog view (validate_simulated_transaction disallowed self session
      (with_signature false transaction) txn_data).
Proof.
  unfold validate_signature_checked_transaction, validate_simulated_transaction.
  cbn [check_transaction_format run_prologue aptos_prologue with_signature contains_duplicate_signers
       payload].
  destruct (contains_duplicate_signers transaction); [done|]. rewrite run_prog_bind.
  change (TransactionMetadata_new sha3_256_of (with_signature true transaction)) with txn_data.
  destruct (run_prog view _) as [[[[]|e] s]|]; done.
Qed.

(** C18. The simulation of a transaction with an invalid signature gives what executing it with a
    valid one gives, the status, the changes and the gas, provided that its payload runs in the
    session that the prologue leaves as it runs in a new one: this is all that the simulation
    does not do of the execution.  At gas feature version 0 the execution does not make a new
    session, and they agree with no such condition. *)
Theorem simulation_is_execution :
  user_hyps self transaction ->
  gas_feature_version self = 0 \/
  (forall session g, after_prologue session ->
     run_prog view (execute_payload disallowed self session txn_data (payload transaction) g)
     = run_prog view (execute_payload disallowed self fresh_session txn_data (payload transaction) g)) ->
  run_prog view (simulate_signed_transaction disallowed self (with_signature false transaction))
  = run_prog view (execute_user_transaction disallowed status_code self (with_signature true transaction)).
Proof.
  intros Hyps Hsame. unfold simulate_signed_transaction, execute_user_transaction.
  cbn [with_signature signature_ok].
  change (SessionId_txn sha3_256_of (with_signature true transaction)) with (SessionId_txn sha3_256_of transaction).
  change (TransactionMetadata_new sha3_256_of (with_signature true transaction)) with txn_data.
  change (TransactionMetadata_new sha3_256_of (with_signature false transaction)) with txn_data.
  change (vm_new_session _ _) with fresh_session.
  rewrite !run_prog_bind, same_validation.
  destruct (proj1 (wp_shown view _ _) (wp_validation (shown view) _ disallowed status_code self
    fresh_session (with_signature true transaction)
    (gas_checked_view _ _ view (self_wf _ _ Hyps) (data_wf _ _ Hyps))))
    as ([[u|e] session] & Hr & Hacc);
    rewrite same_validation in Hr; rewrite Hr; cbn [mbind option_bind fst snd] in Hacc |- *; [|done].
  assert (Hafter : after_prologue session).
  { unfold validate_simulated_transaction in Hr. cbn [check_transaction_format aptos_prologue with_signature
      contains_duplicate_signers payload] in Hr.
    destruct (contains_duplicate_signers transaction); [done|]. by destruct u. }
  set (session' := if _ <=? _ then _ else _).
  assert (Hrun : forall g,
    run_prog view (execute_payload disallowed self session txn_data (payload transaction) g)
    = run_prog view (execute_payload disallowed self session' txn_data (payload transaction) g)).
  { intros g. unfold session'. destruct Hsame as [->|Hsame]; [done|].
    destruct (_ <=? _); [|done]. by apply Hsame. }
  clearbody session'. destruct (all_gas_parameters self) as [[p s]|e] eqn:Hgp; [|done].
  destruct (initial_meter self txn_data p s (self_wf _ _ Hyps) (data_wf _ _ Hyps) Hgp)
    as (g0 & -> & Hg0 & _).
  rewrite !run_prog_bind. cbn [payload with_signature]. rewrite Hrun.
  destruct (run_prog view (execute_payload disallowed self session' txn_data (payload transaction) g0))
    as [[r g]|] eqn:Hr0; [|done]. cbn [mbind option_bind].
  pose proof (payload_spends _ _ _ _ _ _ _ _ _ (data_wf _ _ Hyps) (args_wf _ _ Hyps) (proj2 Hacc) Hg0 Hr0) as Hg.
  by rewrite (gas_used txn_data g (data_wf _ _ Hyps) Hg).
Qed.
End Simulation.

(** ** Outputs that are discarded *)

Section Discarded.
Context `{Bcs128, GasAlgebra, Uleb128} {StateKey ContractEvent AnyError StateViewId Usage : Type}.
Context `{Chain StateKey ContractEvent (AnyError := AnyError)}.
Abbreviation View := (StateView StateKey StateViewId Usage AnyError).
Abbreviation Prog := (ViewProg StateKey AnyError).
Abbreviation reading := (reading StateKey AnyError).
Abbreviation charging := (charging StateKey AnyError).
Abbreviation OutputExt := (TransactionOutputExt (StateKey := StateKey) (Event := ContractEvent)
                             (TransactionStatus := TransactionStatus (ExecutionStatus AbortInfo))).
Context (disallowed : bool) (status_code : VMStatus -> StatusCode).

(** Every result of a program, on any view, has the property. *)
Definition always {A} (p : Prog A) (Q : A -> Prop) : Prop :=
  forall (view : View) a, run_prog view p = Some a -> Q a.

Lemma always_done {A} (a : A) (Q : A -> Prop) : Q a -> always (PDone a) Q.
Proof. by intros HQ view b [= <-]. Qed.

Lemma always_panic {A} (Q : A -> Prop) : always PPanic Q.
Proof. done. Qed.

Lemma always_read {A} key (cont : _ -> Prog A) (Q : A -> Prop) :
  (forall v, always (cont v) Q) -> always (PRead key cont) Q.
Proof. intros Hc view a Hr. exact (Hc _ view a Hr). Qed.

Lemma always_bind {A B} (p : Prog A) (f : A -> Prog B) (P : A -> Prop) (Q : B -> Prop) :
  always p P -> (forall a, P a -> always (f a) Q) -> always (p ≫= f) Q.
Proof.
  intros Hp Hf view b. rewrite run_prog_bind. destruct (run_prog view p) as [a|] eqn:Hr; [|done].
  intros Hb. by eapply Hf; [eapply Hp|].
Qed.

Lemma always_then {A B} (p : Prog A) (f : A -> Prog B) (Q : B -> Prop) :
  (forall a, always (f a) Q) -> always (p ≫= f) Q.
Proof. intros Hf. by apply (always_bind p f (fun _ => True)). Qed.

Lemma value_then {A B} (p : reading A) (f : A -> reading B) (Q : B -> Prop) :
  (forall a, always (f a) (on_value Q)) -> always (p ≫= f) (on_value Q).
Proof. intros Hf. apply always_then. intros [a|e]; [apply Hf|by apply always_done]. Qed.

Lemma charged_then {A B} (p : charging A) (f : A -> charging B) (Q : B -> Prop) g :
  (forall a g, always (f a g) (fun r => on_value Q r.1)) ->
  always ((p ≫= f) g) (fun r => on_value Q r.1).
Proof. intros Hf. apply always_then. intros [[a|e] g']; [apply Hf|by apply always_done]. Qed.

(** An output is kept, or it is the empty output of a discarded transaction. *)
Definition clean (ext : OutputExt) : Prop :=
  match out_status (output ext) with
  | Keep _ => True
  | Discard code => ext = discard_error_output code
  | Retry => False
  end.

Lemma clean_discard e : always (discard e) (fun r => clean r.2).
Proof.
  unfold discard, discard_error_vm_status. destruct (keep_or_discard e) as [|code]; [done|].
  by apply always_done.
Qed.

Lemma clean_output session gas txn_data status v :
  always (get_transaction_output session gas txn_data status v) (on_value clean).
Proof.
  unfold get_transaction_output. apply value_then. intros used. apply value_then. intros out.
  apply value_then. intros cs. by apply always_done.
Qed.

Lemma clean_success self cs txn_data g :
  always (success_transaction_cleanup self cs txn_data g) (on_value (fun r => clean r.2)).
Proof. unfold success_transaction_cleanup. do 5 (apply value_then; intros ?). by apply always_done. Qed.

Lemma clean_payload self session txn_data p g :
  always (execute_payload disallowed self session txn_data p g) (fun r => on_value (fun o => clean o.2) r.1).
Proof.
  assert (Hclean : forall cs g, always (cleanup self txn_data cs g) (fun r => on_value (fun o => clean o.2) r.1)).
  { intros cs g'. unfold cleanup. apply charged_then. intros m g1. unfold unmetered.
    eapply always_bind; [apply clean_success|]. intros r Hr. by apply always_done. }
  destruct p; apply charged_then; intros cs g'; apply Hclean.
Qed.

Lemma clean_failed self e g txn_data :
  always (failed_transaction_cleanup_and_keep_vm_status self e g txn_data) (fun r => clean r.2).
Proof.
  unfold failed_transaction_cleanup_and_keep_vm_status.
  destruct (status_from e); [by apply always_done| |done].
  apply always_then. intros [[u|e'] s]; [|apply clean_discard].
  eapply always_bind; [apply clean_output|]. intros [o|e'] Ho; [by apply always_done|].
  eapply always_bind; [apply clean_discard|]. intros [s' o] Hs. by apply always_done.
Qed.

Lemma clean_conclude self txn_data r g : on_value (fun o => clean o.2) r ->
  always (conclude self txn_data r g) (fun o => clean o.2).
Proof.
  intros Hr. destruct r as [o|e]; cbn [conclude]; [by apply always_done|].
  destruct (is_discarded _); [apply clean_discard|apply clean_failed].
Qed.

Lemma clean_user self txn :
  always (execute_user_transaction disallowed status_code self txn) (fun o => clean o.2).
Proof.
  unfold execute_user_transaction. apply always_then. intros [[u|e] s]; [|apply clean_discard].
  destruct (all_gas_parameters self) as [[p sp]|e]; [|apply clean_discard].
  destruct (AptosGasMeter_new _ _ _ _) as [m|]; [|done].
  eapply always_bind; [apply clean_payload|]. intros [r g] Hr.
  destruct (checked_sub _ _); [by apply clean_conclude|done].
Qed.

Abbreviation Payload := (WriteSetPayload (ChangeSet StateKey ContractEvent) (Script TypeTag TransactionArgument)).
Abbreviation SignedTransaction := (SignedTransaction TypeTag TransactionArgument).

(** The outputs with which [execute_writeset] gives up are discarded ones. *)
Lemma clean_writeset self (p : Payload) sender id :
  always (execute_writeset self p sender id) (fun r =>
    match r with Err (Ok o) => clean o.2 | _ => True end).
Proof.
  unfold execute_writeset. destruct p as [cs|execute_as script]; [by apply always_done|].
  apply always_then. intros [[args s]|e]; [|by apply always_done].
  apply always_then. intros [out|e]; [|by apply always_done].
  apply always_then. intros [cs|e]; by apply always_done.
Qed.

Hypothesis executed_is_kept : exists status, status_from VMStatus_Executed = Keep status.

Lemma clean_waypoint self (p : Payload) :
  always (process_waypoint_change_set self p) (on_value (fun o => clean o.2)).
Proof.
  unfold process_waypoint_change_set.
  eapply (always_bind _ _ (on_value (fun r => match r with Err (Ok o) => clean o.2 | _ => True end))).
  - eapply always_bind; [apply clean_writeset|]. intros r Hr. by apply always_done.
  - intros [[cs|e]|e] Hr; [| |by apply always_done].
    + do 2 (apply value_then; intros ?). apply always_done. cbn.
      destruct executed_is_kept as [st Hst]. unfold clean. cbn. by rewrite Hst.
    + by apply always_done.
Qed.

Lemma clean_block_prologue self b :
  always (process_block_prologue self b) (on_value (fun o => clean o.2)).
Proof.
  unfold process_block_prologue. apply value_then. intros [r s]. apply value_then. intros _.
  eapply always_bind; [apply clean_output|]. intros [o|e] Ho; by apply always_done.
Qed.

Lemma clean_single self (txn : PreprocessedTransaction SignedTransaction Payload BlockMetadata) :
  always (execute_single_transaction_impl disallowed status_code self txn)
    (on_value (fun r => clean r.1.2)).
Proof.
  assert (Hnamed : forall (p : reading (VMStatus * OutputExt)) name,
    always p (on_value (fun o => clean o.2)) ->
    always ('(s, o) ← p; mret (s, o, name) : reading (VMStatus * OutputExt * option string))
      (on_value (fun r => clean r.1.2))).
  { intros p name Hp. eapply always_bind; [exact Hp|]. intros [[s o]|e] Ho; by apply always_done. }
  assert (Hlift : forall p : Prog (VMStatus * OutputExt), always p (fun o => clean o.2) ->
    always (lift_prog p) (on_value (fun o => clean o.2))).
  { intros p Hp. eapply always_bind; [exact Hp|]. intros o Ho. by apply always_done. }
  destruct txn as [txn|p|b| |]; cbn [execute_single_transaction_impl].
  - apply Hnamed, Hlift, clean_user.
  - apply Hnamed, clean_waypoint.
  - apply Hnamed, clean_block_prologue.
  - apply Hnamed, Hlift, clean_discard.
  - by apply always_done.
Qed.

(** An output of [AptosVM::execute_block] that is not kept has no effect. *)
Definition no_effect (out : TransactionOutput (StateKey := StateKey) (Event := ContractEvent)
  (TransactionStatus := TransactionStatus (ExecutionStatus AbortInfo))) : Prop :=
  out_write_set out = ∅ /\ out_events out = [] /\ out_gas_used out = 0.

Hypothesis is_discarded_exact : forall st, is_discarded st = match st with Keep _ => false | _ => true end.
Context (ws_squash : gmap StateKey WriteOp -> list (StateKey * WriteOp) ->
                     option (gmap StateKey WriteOp)).

(** The output that a block gets of a clean one has no effect unless it is kept. *)
Lemma clean_no_effect (cache : StateViewCache StateKey StateViewId Usage AnyError) ext out :
  clean ext ->
  transaction_output key_leb partial_status is_discarded ws_squash freeze cache ext = Return out ->
  is_discarded (out_status out) = true -> no_effect out.
Proof.
  unfold clean, transaction_output, into_transaction_output. intros Hc Ho Hd.
  destruct (out_status (output ext)) as [code|st|] eqn:Hst; [| |done].
  - subst ext. cbn in Ho. rewrite is_discarded_exact in Ho. by injection Ho as <-.
  - rewrite is_discarded_exact in Ho. cbn [orb] in Ho.
    assert (Hkept : out_status out = Keep st); [|by rewrite Hkept, is_discarded_exact in Hd].
    destruct (dcs_is_empty (out_deltas ext)); [by injection Ho as <-|].
    apply comp_bind_Return in Ho as (ws & _ & Ho). unfold merge_delta_writes in Ho.
    apply comp_bind_Return in Ho as (ws' & _ & Ho).
    apply comp_bind_Return in Ho as (ws'' & _ & [= <-]). done.
Qed.

(** C8. The outputs of a block that are discarded or to be retried have no effect: no writes,
    no events and no gas, as the documentation of [VMExecutor::execute_block] promises.  This
    holds of every kind of transaction, and on every path of the adapter that discards one. *)
Theorem discarded_outputs_have_no_effect (Hash : Type)
  (transactions : list (Transaction SignedTransaction Payload BlockMetadata Hash))
  (state_view : View) outs vm_status out :
  execute_block_and_keep_vm_status (H1 := aptos_adapter disallowed status_code)
    key_leb partial_status is_discarded ws_squash freeze AptosVMImpl_new
    transactions state_view = Return outs ->
  (vm_status, out) ∈ outs -> is_discarded (out_status out) = true -> no_effect out.
Proof.
  unfold execute_block_and_keep_vm_status, execute_block_impl.
  intros Hrun [i Hi]%list_elem_of_lookup Hd.
  apply comp_bind_Return in Hrun as (vm & _ & [Hlen Hres]%execute_transactions_in_order).
  rewrite length_fmap in Hlen.
  destruct (lookup_lt_is_Some_2 transactions i) as [txn Htxn].
  { rewrite <- Hlen. by eapply lookup_lt_Some. }
  eapply (Hres i _ (vm_status, out)) in Hi; [|by rewrite list_lookup_fmap, Htxn].
  clear Hres. rename Hi into Hres. unfold output_in_order in Hres.
  destruct (_ || _); [by injection Hres as _ ->|].
  destruct Hres as (ext & sender & Hrun & Hout).
  eapply clean_no_effect; [|exact Hout|exact Hd].
  exact (clean_single vm _ _ _ Hrun).
Qed.
End Discarded.
