(* ===== verification/TransactionExample.v ===== *)
(** * A small Move VM, and the theorems on [AptosVM] at concrete inputs

    The sessions of this VM keep whether the account was loaded and what becomes of an
    aggregator; loading the account is charged when it is not in the session.  It has the
    laws of the Move VM, and the theorems of [GasChecks] and [Transactions] apply to it.
    [stale_delta_panics] shows a transaction that panics on one value of the aggregator and not
    on another, and [simulation_charges_less] that a simulation may charge less than the
    execution. *)
From S2P Require Import Prelude Delta ChangeSetExt StateView AdapterCommon.
From S2P Require Import GasSchedule GasSize GasMeter GasProps Session Publish TxnArgs VMErrors MoveVM.
From S2P Require Import VMImpl AptosVM AdapterWp GasChecks AptosVMProps Transactions.

#[local] Open Scope Z_scope.

Module SmallVM.
#[export] Existing Instances Saturating.saturating Saturating.saturating_laws.
#[export] Existing Instances LittleEndian.le_bcs LittleEndian.le_bcs_laws.
#[export] Existing Instances Uleb.uleb128 Uleb.uleb128_laws.

(** What a session does to the aggregator. *)
Inductive Effect := Nothing | Writes | Adds.
Definition aggregator_change (e : Effect) : option AggregatorContext.AggregatorChange :=
  match e with
  | Nothing => None
  | Writes => Some (AggregatorContext.Write 5)
  | Adds => Some (AggregatorContext.Merge (delta_add 3 9))
  end.
Record SmallSession := { loaded : bool; effect : Effect }.

Definition keep_code (code : StatusCode) : bool := bool_decide (code = OUT_OF_GAS).
Definition small_status (s : VMStatus) : TransactionStatus (ExecutionStatus unit) :=
  match s with
  | VMStatus_Executed => Keep StatusSuccess
  | VMStatus_Error code => if keep_code code then Keep StatusOutOfGas else Discard code
  | VMStatus_MoveAbort l code => Keep (StatusMoveAbort l code None)
  | VMStatus_ExecutionFailure _ l f o => Keep (StatusExecutionFailure l f o)
  end.
Definition small_keep (s : VMStatus) : unit + StatusCode :=
  match s with VMStatus_Error code => if keep_code code then inl tt else inr code | _ => inl tt end.

Abbreviation Prog := (ViewProg nat unit).
Definition no_function : LoadedFunctionInstantiation (StructIndex := unit) :=
  {| parameters := []; return_ := [] |}.

(** The prologue and the epilogue load the account. *)
Definition framework (s : SmallSession) : Prog (result StatusCode unit * SmallSession) :=
  PRead 0%nat (fun _ => PDone (Ok tt, {| loaded := true; effect := effect s |})).

(** Entry functions load the account for 20000 units of gas; the one called "abort" fails, the one
    called "add" adds 3 to the aggregator, whose limit is 9, without reading it, and the others
    write 5 to it. *)
Definition entry (s : SmallSession) (f : string) (g : AptosGasMeter)
  : Prog (result StatusCode unit * SmallSession * AptosGasMeter) :=
  let s' := {| loaded := true;
               effect := if String.eqb f "abort" then Nothing
                         else if String.eqb f "add" then Adds else Writes |} in
  match (if loaded s then Some (g, Ok tt) else charge 20000 g) with
  | Some (g, Ok _) => PDone (if String.eqb f "abort" then Err OUT_OF_GAS else Ok tt, s', g)
  | Some (g, Err e) => PDone (Err (status e), s, g)
  | None => PPanic
  end.

Definition small_finish (s : SmallSession) := 
  PDone (StateKey := nat) (AnyError := unit) (Ok (E := StatusCode) (
    ∅ : gmap bytes (AccountChangeSet (Identifier := string) (StructTag := nat)), [] : list unit,
    Ok {| new_tables := ∅; removed_tables := ∅; table_changes := ∅ |}
      : PartialVMResult (TableChangeSet (TableHandle := bytes) (TableInfo := unit)),
    Return (E := VMStatus) (match aggregator_change (effect s) with Some c => {[([], []) := c]} | None => ∅ end
      : gmap (bytes * bytes) AggregatorContext.AggregatorChange))).

#[export] Instance small_vm : MoveVM nat unit := {|
  VM := unit; VMSession := SmallSession; VMError := StatusCode; TypeTag := unit;
  StructIndex := unit; CompiledModule := unit; StructTag := nat; TableInfo := unit;
  MoveEvent := unit; AbortInfo := unit;
  into_vm_status := VMStatus_Error; finish_error e := status e; status_from := small_status;
  vm_new_with _ _ _ _ := Some tt;
  vm_new_session _ _ := {| loaded := false; effect := Nothing |};
  extract_abort_info _ _ _ := None;
  load_script s _ _ := PDone (Ok no_function, s);
  load_function s _ _ _ := PDone (Ok no_function, s);
  get_struct_type _ _ := None;
  exists_module s _ := PDone (Ok false, s);
  load_module s _ := PDone (Err STORAGE_ERROR, s);
  execute_script s _ _ _ g := PDone (Ok tt, s, g);
  execute_entry_function s _ f _ _ g := entry s f g;
  execute_function s _ _ _ g := PDone (Ok tt, s, g);
  publish_module_bundle s _ _ g := PDone (Ok tt, s, g);
  execute_script_unmetered s _ _ _ := PDone (Ok tt, s);
  execute_function_unmetered s _ _ _ := framework s;
  finish_with_extensions s := small_finish s;
  take_publish_request s := (None, s);
  module_deserialize _ := Ok tt;
  self_id _ := ([], "m"%string);
  immediate_dependencies _ := [];
  verify_module_init_function _ := true;
  serialize_value v := Some (match v with MSigner a => resize 32 0 a | _ => [] end);
  short_str_lossless _ := "m"%string;
|}.

Definition any_order {A} (x y : A) : Prop := True.
Definition any_order_dec {A} : RelDecision (@any_order A) := fun x y => left I.

Definition small_validation : TransactionValidation :=
  {| validation_module := ([], "transaction_validation"%string);
     script_prologue_name := "script_prologue"; module_prologue_name := "module_prologue";
     multi_agent_prologue_name := "multi_agent_script_prologue"; user_epilogue_name := "epilogue" |}.

#[export] Instance small_chain : Chain nat unit := {|
  key_leb := Nat.le; key_leb_dec := _;
  bytes_leb := any_order; bytes_leb_dec := any_order_dec;
  string_leb := any_order; string_leb_dec := any_order_dec;
  tag_leb := any_order; tag_leb_dec := any_order_dec;
  id_leb := any_order; id_leb_dec := any_order_dec;
  resource_key _ _ := 2%nat; module_key _ _ := 3%nat; table_item _ _ := 1%nat;
  encode_key k := Some [Z.of_nat k]; key_size _ := 1%nat;
  config_key _ := 9%nat;
  freeze := Some; check_change_set _ _ _ := Ok tt; contract_event _ := Some tt;
  is_new_epoch_event _ := false; is_new_block_event _ := false;
  decode_gas_schedule_v2 _ := None; decode_gas_schedule _ := None;
  decode_storage_gas_schedule _ := None; decode_treat_friend_as_private _ := None;
  default_treat_friend_as_private := false; decode_version _ := None;
  decode_transaction_validation _ := None; decode_approved_hashes b := Some [(0, b)];
  APTOS_TRANSACTION_VALIDATION := small_validation; GAS_UNIT_PRICE := 100;
  KeptVMStatus := unit; keep_or_discard := small_keep;
  is_discarded st := match st with Keep _ => false | _ => true end;
  is_account_module_abort _ _ := true; expect_no_verification_errors e := e;
  TransactionArgument := unit; convert_txn_args l := (fun _ => []) <$> l;
  sha3_256_of b := b; hash_zero := []; reserved_vm_address := [];
  BlockMetadata := unit; block_id _ := []; get_prologue_move_args _ _ := [];
  default_authentication_key := []; test_chain_id := 4;
  BLOCK_MODULE := ([], "block"%string); address_to_string _ := "a"%string;
  serialize_signed_transaction _ := [];
|}.

Lemma charge_spends n g : meter_wf g -> is_u64 n -> exists g' r, charge n g = Some (g', r) /\ spent g g'.
Proof. intros Hg Hn. by eapply metered_spends; [apply metered_charge|]. Qed.

#[export] Instance small_laws :
  VMLaws (StateKey := nat) (ContractEvent := unit) (AnyError := unit).
Proof.
  split; try (intros; by apply wp_done).
  - intros s m f a R. by apply wp_read.
  - intros s c t a g R Hg. apply wp_done. by apply spent_refl.
  - intros s m f t a g R Hg. cbn [execute_entry_function small_vm]. unfold entry.
    destruct (loaded s); [apply wp_done; by apply spent_refl|].
    destruct (charge_spends 20000 g Hg) as (g' & [u|e] & -> & Hs); [by split|by apply wp_done..].
  - intros s m f a g R Hg. apply wp_done. by apply spent_refl.
  - intros s b a g R Hg. apply wp_done. by apply spent_refl.
  - intros s R. apply wp_done. split; [|done]. eexists. split; [done|].
    intros id v. destruct (effect s); cbn; [by rewrite lookup_empty|by intros [_ [= <-]]%lookup_singleton_Some|].
    by intros [_ [=]]%lookup_singleton_Some.
  - done.
  - intros a. cbn. eexists. split; [done|]. apply length_resize.
  - intros v. by eexists.
  - intros k. by eexists.
  - done.
  - done.
  - intros [|code| |]; cbn; [by eexists| |by eexists..]. unfold small_keep. destruct (keep_code code); [by eexists|done].
  - done.
  - intros code Hc. cbn. unfold keep_code. case_bool_decide as Hk; [|done]. subst code.
    exfalso. apply (bool_decide_eq_false_1 (OUT_OF_GAS ∈ discarded_codes)); [|done]. by vm_compute.
Qed.
End SmallVM.

Section Example.
Import SmallVM.

Definition small_impl (feature : Z) : AptosVMImpl :=
  {| move_vm := tt; gas_feature_version := feature; impl_gas_params := Some example_params;
     impl_storage_gas_params := Some example_storage; version := None;
     impl_transaction_validation := None |}.

(** An entry function called with 1000 units of gas, at the only price there is. *)
Definition small_txn (function : string) : SignedTransaction unit unit :=
  {| txn_sender := [7]; sender_authentication_key := []; secondary_signer_addresses := [];
     secondary_signer_keys := []; txn_sequence_number := 0; txn_max_gas_amount := 1000;
     txn_gas_unit_price := 1000; raw_txn_bytes_len := 10; txn_expiration_timestamp_secs := 0;
     txn_chain_id := 4; payload := PayloadEntryFunction ([], "m"%string) function [] [];
     signature_ok := true; contains_duplicate_signers := false |}.
Abbreviation small_data function := (TransactionMetadata_new (fun b => b) (small_txn function)).

Definition small_view : StateView nat unit unit unit :=
  {| view_id := tt; get_state_value := fun _ => Ok None; is_genesis := false; get_usage := Ok tt |}.

(** The same with a value of the aggregator. *)
Definition view_at (v : Z) : StateView nat unit unit unit :=
  {| view_id := tt;
     get_state_value := fun k => Ok (if (k =? 1)%nat then Some (LittleEndian.encode 16 v) else None);
     is_genesis := false; get_usage := Ok tt |}.

Lemma small_hyps feature function : 0 <= feature -> user_hyps (small_impl feature) (small_txn function).
Proof.
  intros Hf. split.
  - split; [intros p [= <-]; apply example_params_wf|intros p [= <-]; apply example_storage_wf|done].
  - by split.
  - apply Forall_nil_2.
Qed.

(** ** The theorems at these inputs *)

Definition small_code (s : VMStatus) : StatusCode :=
  match s with VMStatus_Error code => code | _ => UNKNOWN_STATUS end.
Definition executes (feature : Z) (t : SignedTransaction unit unit) :=
  run_prog small_view (execute_user_transaction false small_code (small_impl feature) t).
Definition simulates (feature : Z) (t : SignedTransaction unit unit) :=
  run_prog small_view (simulate_signed_transaction false (small_impl feature) t).
Definition gas_of (r : option (VMStatus * TransactionOutputExt (StateKey := nat) (Event := unit)
  (TransactionStatus := TransactionStatus (ExecutionStatus unit)))) : option Z :=
  (fun r => out_gas_used (output r.2)) <$> r.

(** A script of 950 bytes in a transaction of 1500, where the bound is 1000; its hash, here the
    script itself, is approved. *)
Definition large_script : bytes := replicate 950 0.
Definition large_data : TransactionMetadata :=
  {| sender := [7]; authentication_key := []; secondary_signers := [];
     secondary_authentication_keys := []; sequence_number := 0; max_gas_amount := 1000;
     gas_unit_price := 1000; transaction_size := 1500; expiration_timestamp_secs := 0;
     chain_id := 4; script_hash := large_script; script_size := 950 |}.
Definition approving_view : StateView nat unit unit unit :=
  {| view_id := tt;
     get_state_value := fun k => Ok (if (k =? 9)%nat then Some large_script else None);
     is_genesis := false; get_usage := Ok tt |}.

Lemma check_gas_exact_witness :
  run_prog approving_view (check_gas (small_impl 1) large_data) = Some (Ok tt) /\
  verdict (transaction_rules (txn example_params) large_data (Ok (Some large_script))) (Ok tt).
Proof.
  destruct (check_gas_exact (small_impl 1) large_data approving_view example_params eq_refl
    example_params_wf ltac:(vm_compute; intuition discriminate) ltac:(vm_compute; intuition discriminate)
    ltac:(vm_compute; intuition discriminate)) as (r & Hr & Hv).
  assert (Hok : run_prog approving_view (check_gas (small_impl 1) large_data) = Some (Ok tt))
    by (vm_compute; reflexivity).
  rewrite Hr in Hok. injection Hok as ->. split; [exact Hr|exact Hv].
Defined.

(** The transaction that adds 3 succeeds on the value 5, and panics on the value 8, which it never
    read; a transaction before it in its block may have changed the one to the other. *)
Definition adds_at (v : Z) :=
  run_prog (view_at v) (execute_user_transaction false small_code (small_impl 1) (small_txn "add")).

Lemma stale_delta_panics : (fst <$> adds_at 5) = Some VMStatus_Executed /\ adds_at 8 = None.
Proof. split; vm_compute; reflexivity. Qed.

Lemma user_transaction_outcome_witness :
  (exists ext, adds_at 5 = Some (VMStatus_Executed, ext) /\
     user_outcome false small_code (view_at 5) (small_impl 1) (small_txn "add") VMStatus_Executed ext) /\
  user_panics false small_code (view_at 8) (small_impl 1) (small_txn "add").
Proof.
  destruct stale_delta_panics as [H5 H8].
  destruct (user_transaction_outcome (H5 := small_vm) (H7 := small_chain) false small_code (small_impl 1)
    (small_txn "add") (view_at 5) (small_hyps 1 "add" ltac:(lia))) as [_ Ho].
  destruct (user_transaction_outcome (H5 := small_vm) (H7 := small_chain) false small_code (small_impl 1)
    (small_txn "add") (view_at 8) (small_hyps 1 "add" ltac:(lia))) as [Hp _].
  split; [|exact (proj1 Hp H8)]. unfold adds_at in *.
  destruct (run_prog (view_at 5) _) as [[s ext]|]; [|discriminate H5]. injection H5 as ->.
  exists ext. split; [reflexivity|]. apply Ho. reflexivity.
Defined.

Lemma kept_transaction_pays_witness : exists vm_status ext,
  executes 1 (small_txn "abort") = Some (vm_status, ext) /\
  out_status (output ext) = Keep StatusOutOfGas /\
  intrinsic_gas (txn example_params) 10 <= out_gas_used (output ext) * 1000 /\
  0 <= out_gas_used (output ext) <= 1000.
Proof.
  assert (Hs : (fun r => out_status (output r.2)) <$> executes 1 (small_txn "abort")
    = Some (Keep StatusOutOfGas)) by (vm_compute; reflexivity).
  destruct (executes 1 (small_txn "abort")) as [[s ext]|] eqn:Hr; [|discriminate Hs].
  injection Hs as Hs. exists s, ext. split; [reflexivity|]. split; [exact Hs|].
  exact (kept_transaction_pays (H5 := small_vm) (H7 := small_chain) false small_code (small_impl 1) (small_txn "abort") small_view
    (small_hyps 1 "abort" ltac:(lia)) s ext StatusOutOfGas example_params Hr Hs eq_refl).
Defined.

Lemma simulation_is_execution_witness :
  simulates 0 (with_signature false (small_txn "f")) = executes 0 (with_signature true (small_txn "f")).
Proof.
  exact (simulation_is_execution (H5 := small_vm) (H7 := small_chain) false small_code (small_impl 0) (small_txn "f") small_view
    (small_hyps 0 "f" ltac:(lia)) (or_introl eq_refl)).
Defined.

(** From gas feature version 1 the execution makes a new session after the prologue, "to
    ensure we correctly charge for loading certain resources", and the simulation does not: a
    transaction that loads what its prologue loaded is charged for it when it is executed and
    not when it is simulated, so that the estimate is too low. *)
Theorem simulation_charges_less :
  gas_of (simulates 1 (with_signature false (small_txn "f"))) = Some 2 /\
  gas_of (executes 1 (with_signature true (small_txn "f"))) = Some 22.
Proof. split; vm_compute; reflexivity. Qed.

Definition small_squash (ws : gmap nat WriteOp) (l : list (nat * WriteOp)) : option (gmap nat WriteOp) :=
  Some (list_to_map l ∪ ws).
Definition small_block : list (Transaction (SignedTransaction unit unit)
  (WriteSetPayload (ChangeSet nat unit) (Script unit unit)) unit unit) :=
  [TUserTransaction (with_signature false (small_txn "f")); TStateCheckpoint tt].
Definition small_outputs :=
  execute_block_and_keep_vm_status (H1 := aptos_adapter false small_code) key_leb partial_status
    is_discarded small_squash freeze AptosVMImpl_new small_block small_view.

Lemma discarded_outputs_have_no_effect_witness : exists outs out,
  small_outputs = Return outs /\ outs !! 0%nat = Some (VMStatus_Error INVALID_SIGNATURE, out) /\
  is_discarded (out_status out) = true /\ no_effect out.
Proof.
  assert (Hs : (match small_outputs with
                | Return ((s, o) :: _) => Some (s, is_discarded (out_status o))
                | _ => None
                end) = Some (VMStatus_Error INVALID_SIGNATURE, true)) by (vm_compute; reflexivity).
  destruct small_outputs as [[|[s out] outs]| |] eqn:Ho; [discriminate Hs| |discriminate Hs..].
  injection Hs as -> Hd. exists ((VMStatus_Error INVALID_SIGNATURE, out) :: outs), out.
  split; [reflexivity|]. split; [reflexivity|]. split; [exact Hd|].
  refine (discarded_outputs_have_no_effect (H2 := small_vm) (H4 := small_chain) false small_code (ex_intro _ StatusSuccess eq_refl)
    (fun st => eq_refl) small_squash unit small_block small_view _ (VMStatus_Error INVALID_SIGNATURE)
    out Ho (list_elem_of_here _ _) Hd).
Defined.
End Example.
